(* ===== verification/_CoqProject ===== *)
-Q . S2P
Prelude.v
Drift.v
Profiler.v
IndexQueue.v
AddrTransTable.v
VersionBuffer.v
IntMath.v
AddrRange.v
Request.v
EventQueue.v
EventQueueCorrect.v
Packet.v
LockedAddr.v
StdAlgo.v
MigrationController.v
MigrationSpec.v
DRAMBanks.v
MemStore.v
AddrTransController.v
AccessCost.v
AbstractMem.v
WriteCounts.v
BusLedger.v
CacheController.v
MemLaws.v
MemFrame.v
SimpleMem.v
PersistSpec.v
PersistFacts.v
PersistMachine.v
ControllerInv.v
ControllerOps.v
ControllerStore.v
ControllerAccess.v
ControllerEpoch.v
ControllerMigrate.v
ControllerMachine.v
ControllerInit.v
PacketAccess.v
SimpleMemEvents.v
SimpleMemEpoch.v
TablesCorrect.v
ControllerRuns.v
SimpleMemRuns.v
Examples.v
ControllerCorrect.v
SimpleMemCorrect.v
