(* ===== verification/Prelude.v ===== *)
(** * The Sexain/THNVM hybrid memory controller

    A memory controller that makes the whole of a machine's memory persistent. Time is
    divided into epochs; at the end of each the controller makes a checkpoint, and after a
    crash the memory is read back as it was at the last complete one. Blocks are redirected
    by a table so that a store never overwrites the version of the last checkpoint, and hot
    pages are kept in a DRAM cache. The controller is plain C++ under src/; the memory object
    that drives it is part of the gem5 simulator under src/gem5-stable/src/. This file also
    holds what all others share.

    ** The program and its model

    The code is a shallow embedding in the monad [M S A := S -> res (A * S)] below. A C++
    object is a record, a method a function on it, [assert] and [panic] are the errors
    [EAssert] and [EPanic], undefined behaviour is [EUndef]. [wp m Q s] says that [m] runs
    from [s] without an error and ends in [Q]; it is total correctness, so every theorem
    stated with it says that no assertion fails. Unsigned words wrap by [u32] and [u64],
    signed ones by [i32] and [i64], also the [int] counters of the tables. References to objects that are part of another are
    modelled by [zoom]; what a function does with a [Profiler&] is kept by passing [pfref].

    - Tables and buffers. Profiler.v, IndexQueue.v, AddrTransTable.v, VersionBuffer.v,
      MigrationController.v and DRAMBanks.v model the classes of these names (src/profiler.h,
      index_queue.h, addr_trans_table.h, version_buffer.h, migration_controller.h,
      dram_banks.h and their .cc files). StdAlgo.v states what is used of the C++ library
      where the standard leaves the result open: iteration of hash maps and layout of heaps.
    - The controller. MemStore.v is the interface of src/mem_store.h as a type class, with
      the laws the controller relies on; AddrTransController.v is the class of
      src/addr_trans_controller.h and .cc: LoadAddr, StoreAddr, Probe, MigratePages,
      BeginCheckpointing and FinishCheckpointing with all they call.
    - The memory of the simulator (mem/abstract_mem, mem/simple_mem). AbstractMem.v
      implements MemStore on the host memory; LockedAddr.v has the reservations; SimpleMem.v
      the packet accesses, the timing requests, the events release, freeze, unfreeze and
      dequeue, draining and the constructor. CacheController.v is mem/cache/cache_controller.
    - What these use of the simulator. Packet.v (mem/packet), Request.v (mem/request.hh,
      base/flags.hh), AddrRange.v (base/addr_range.hh), IntMath.v (base/intmath,
      base/bitfield.hh), EventQueue.v (sim/eventq): events, bins, scheduling, servicing.

    ** What is proved

    - The promise. PersistSpec.v is an abstract memory of blocks in states, with one step for
      each thing the controller may do; PersistFacts.v proves that every step keeps what the
      processor reads and what a crash must leave readable. PersistMachine.v is the promise
      as a machine with three flat images: the current one, the last complete checkpoint and
      the one being written. It passes through the phases Running, Migrated, Checkpointing.
    - The controller keeps it. ControllerInv.v states the invariant; ControllerOps.v,
      ControllerStore.v, ControllerAccess.v, ControllerEpoch.v and ControllerMigrate.v prove
      that each operation succeeds, keeps it and is a sequence of abstract steps;
      ControllerMachine.v, ControllerInit.v and ControllerRuns.v put them together for runs
      from the constructor on. The theorems are in ControllerCorrect.v: refinement, crash
      consistency, recoverability, stores read back, transparent epochs, the answer of Probe.
    - The memory object keeps it. MemLaws.v and MemFrame.v discharge the laws of MemStore for
      the memory of AbstractMem.v. PacketAccess.v and SimpleMemEvents.v lift the promise to
      packets and requests, AccessCost.v bounds what an access charges, so that its response
      is scheduled in time, and SimpleMemEpoch.v follows a checkpoint through its events to
      its end. The theorems are in SimpleMemCorrect.v.
    - The accounts of the memory object balance. Drift.v is a small logic of accounts: how
      much a function of the state changes in a program, modulo what a word can hold.
      WriteCounts.v follows the writes that the memory, the table and the pages count each
      for themselves, BusLedger.v the bytes that the operations charge to the bus and the
      blocks they list. [freeze] and [unfreeze] assert that these agree.
    - Runs of the memory object. SimpleMemRuns.v joins the promise, the accounts and the
      events in one invariant, and SimpleMemCorrect.v concludes for any sequence of block
      requests, events and pauses from the constructor on: no assertion fails, requests are
      answered from the flat image, and a crash finds the last complete checkpoint; the run
      stops only where an epoch change would end beyond the clock. Excluded are requests at
      tick 0, a change of epoch that takes no time, a checkpoint with nothing to write, an
      epoch in which an [int] counter of writes reaches [2 ^ 31 - 1] or a [uint64_t] one
      wraps, blocks of one byte, requests that a peer sends from within the response to
      another, writes that [Probe] misjudges (next item but two) and writes to a range that
      does not start at 0. Runs of the controller alone exclude the same misjudged stores
      and stores to a page whose counter is at its maximum.
    - Each table does what its name says: TablesCorrect.v on the abstract views of
      AddrTransTable.v, VersionBuffer.v, MigrationSpec.v, DRAMBanks.v and IndexQueue.v.
    - The event queue is a list of events in the order of time and priority:
      EventQueueCorrect.v.
    - The helper classes are proved correct in their own files.
    - Several theorems record where an assertion of the code fails or a check is wrong, for
      every state with the stated property: stores whose address is the tag of another block
      when no entry is left, stores to a lent block, epoch changes after a checkpoint with
      nothing to write, functional reads that a value covers in part, the check of an event
      queue that starts at tick 0 with a negative priority.

    Theorems with hypotheses are followed by an instance on a concrete state, mostly the
    memory of Examples.v.

    ** Bounds and fuel

    [wf_config] and [wf_mem] bound the configuration so that the [int] arithmetic of the
    buffers and of the page addresses does not overflow; SimpleMemCorrect.v shows them met by
    a configuration. Loops that are not structural carry fuel. In the code's own functions it
    is computed from the state and always enough: the length of the heap for migrations, the
    blocks of a page, the square root for primes, the number of events for the bins. Where it
    is an argument ([DirtyBlock], [unfreeze_all], [drain], [serviceEvents]) the theorem says
    how much suffices, and that the run then ends.

    ** Not modelled

    - Code under the MEMCK macro, tracing, dumping, registration of statistics and the string
      form of address ranges. Counters of the statistics package are unbounded integers;
      they are [double]s in the code.
    - Floating-point numbers: ratios and latencies are rationals. The ratios are exact in
      the code too; the latencies are not always.
    - Ports, the peer of the memory and the random number generator: what they answer is an
      argument of the operation. What is sent is logged.
    - Threads: the asynchronous event queue is modelled without its mutex, one step at a time.
    - The C++ heap: objects owned by pointers are values, except for the events, which are
      linked in a heap of addresses.
    - The processors, caches, buses, devices, instruction sets, scripts and tests of gem5. The
      controller does not depend on them. *)

From Stdlib Require Export ZArith Lia String.
From stdpp Require Export base option list list_numbers gmap strings.

#[global] Open Scope Z_scope.

(** ** Machine integers *)

Definition u8 (x : Z) : Z := x mod 2 ^ 8.
Definition u16 (x : Z) : Z := x mod 2 ^ 16.
Definition u32 (x : Z) : Z := x mod 2 ^ 32.
Definition u64 (x : Z) : Z := x mod 2 ^ 64.
Definition i32 (x : Z) : Z := (x + 2 ^ 31) mod 2 ^ 32 - 2 ^ 31.
Definition i64 (x : Z) : Z := (x + 2 ^ 63) mod 2 ^ 64 - 2 ^ 63.

(** [EINVAL] of <cerrno>; the sources use [-EINVAL] as the null index. *)
Definition EINVAL : Z := 22.

(** ** Results and the state/error monad *)

Inductive error :=
  | EAssert (site : string)   (* an assert(...) failed *)
  | EPanic (site : string)    (* a call of panic(...) or fatal(...) *)
  | EUndef (site : string)    (* undefined behaviour: an index out of range *)
  | EFuel.                    (* a loop bound of the model was too small *)

Inductive res (A : Type) :=
  | Ok (a : A)
  | Err (e : error).
Arguments Ok {A} a.
Arguments Err {A} e.

Definition M (S A : Type) : Type := S → res (A * S).

#[global] Instance M_ret {S} : MRet (M S) := λ A a s, Ok (a, s).
#[global] Instance M_bind {S} : MBind (M S) := λ A B k m s,
  match m s with Ok (a, s') => k a s' | Err e => Err e end.

Definition err {S A} (e : error) : M S A := λ s, Err e.
Definition get {S} : M S S := λ s, Ok (s, s).
Definition put {S} (s : S) : M S unit := λ _, Ok (tt, s).
Definition gets {S A} (f : S → A) : M S A := λ s, Ok (f s, s).
Definition modify {S} (f : S → S) : M S unit := λ s, Ok (tt, f s).
Definition assert_ {S} (site : string) (b : bool) : M S unit :=
  λ s, if b then Ok (tt, s) else Err (EAssert site).
Definition of_option {S A} (e : error) (o : option A) : M S A :=
  λ s, match o with Some a => Ok (a, s) | None => Err e end.

(** Running an operation of a component inside the state that holds it. *)
Definition zoom {S T A} (g : S → T) (p : T → S → S) (m : M T A) : M S A :=
  λ s, match m (g s) with Ok (a, t) => Ok (a, p t s) | Err e => Err e end.

(** [for (x : l) body(x)]. *)
Fixpoint for_each {S A} (l : list A) (body : A → M S unit) : M S unit :=
  match l with
  | [] => mret tt
  | x :: l' => body x ;; for_each l' body
  end.

(** ** Weakest preconditions: [m] succeeds from [s] and ends in [Q]. *)

Definition wp {S A} (m : M S A) (Q : A → S → Prop) (s : S) : Prop :=
  match m s with Ok (a, s') => Q a s' | Err _ => False end.

(** ** Total list access *)

Definition zlookup {A} (l : list A) (i : Z) : option A :=
  if i <? 0 then None else l !! Z.to_nat i.
Definition zinsert {A} (i : Z) (x : A) (l : list A) : list A :=
  if i <? 0 then l else <[Z.to_nat i := x]> l.

(** The indices [0, n). *)
Definition zseq (n : Z) : list Z := seqZ 0 n.

Create HintDb sexain.
Create HintDb frame.
Create HintDb cost.
Create HintDb drift.
Create Rewrite HintDb sexain.

(** ** Lemmas on machine integers *)

Lemma u64_small x : 0 ≤ x < 2 ^ 64 → u64 x = x.
Proof. intros. by apply Z.mod_small. Qed.

Lemma i32_small x : - 2 ^ 31 ≤ x < 2 ^ 31 → i32 x = x.
Proof. intros. unfold i32. rewrite Z.mod_small; lia. Qed.

Lemma i64_small x : - 2 ^ 63 ≤ x < 2 ^ 63 → i64 x = x.
Proof. intros. unfold i64. rewrite Z.mod_small; lia. Qed.

Lemma i32_range x : - 2 ^ 31 ≤ i32 x < 2 ^ 31.
Proof. unfold i32. pose proof (Z.mod_pos_bound (x + 2 ^ 31) (2 ^ 32)). lia. Qed.

(** A power-of-two mask extracts the remainder. *)
Lemma land_mask x b : 0 ≤ b → Z.land x (2 ^ b - 1) = x mod 2 ^ b.
Proof. intros. rewrite <- Z.land_ones by done. by rewrite Z.ones_equiv, <- Z.sub_1_r. Qed.

Lemma shiftl_pow2 x b : 0 ≤ b → Z.shiftl x b = x * 2 ^ b.
Proof. intros. by apply Z.shiftl_mul_pow2. Qed.

Lemma shiftr_pow2 x b : 0 ≤ b → Z.shiftr x b = x / 2 ^ b.
Proof. intros. by apply Z.shiftr_div_pow2. Qed.

(** Clearing the low bits of a 64-bit address: [addr & ~mask]. *)
Lemma ldiff_mask x b : 0 ≤ b → Z.ldiff x (2 ^ b - 1) = x - x mod 2 ^ b.
Proof.
  intros. replace (2 ^ b - 1) with (Z.ones b) by (rewrite Z.ones_equiv; lia).
  rewrite Z.ldiff_ones_r, Z.shiftl_mul_pow2, Z.shiftr_div_pow2 by done.
  pose proof (Z.div_mod x (2 ^ b)). lia.
Qed.

Lemma pow2_pos b : 0 ≤ b → 0 < 2 ^ b.
Proof. intros. by apply Z.pow_pos_nonneg. Qed.
#[export] Hint Resolve pow2_pos : sexain.

(** ** Lemmas on total list access *)

Section ZList.
Context {A : Type}.
Implicit Types l : list A.

Lemma zlookup_Some l i x : zlookup l i = Some x → 0 ≤ i < Z.of_nat (length l).
Proof.
  unfold zlookup. destruct (Z.ltb_spec i 0); [done|].
  intros ?%lookup_lt_Some. lia.
Qed.

Lemma zlookup_is_Some l i : is_Some (zlookup l i) ↔ 0 ≤ i < Z.of_nat (length l).
Proof.
  split; [intros [x ?]; by eapply zlookup_Some|].
  intros. unfold zlookup. destruct (Z.ltb_spec i 0); [lia|].
  apply lookup_lt_is_Some. lia.
Qed.

Lemma length_zinsert l i x : length (zinsert i x l) = length l.
Proof. unfold zinsert. destruct (_ <? _); [done|]. apply length_insert. Qed.

Lemma zlookup_insert_eq l i x :
  0 ≤ i < Z.of_nat (length l) → zlookup (zinsert i x l) i = Some x.
Proof.
  intros. unfold zlookup, zinsert. destruct (Z.ltb_spec i 0); [lia|].
  apply list_lookup_insert_eq. lia.
Qed.

Lemma zlookup_insert_ne l i j x : i ≠ j → zlookup (zinsert i x l) j = zlookup l j.
Proof.
  intros. unfold zlookup, zinsert.
  destruct (Z.ltb_spec j 0); [done|]. destruct (Z.ltb_spec i 0); [done|].
  apply list_lookup_insert_ne. lia.
Qed.

Lemma zlookup_insert_Some l i j x y : zlookup (zinsert i x l) j = Some y →
  (j = i ∧ y = x) ∨ (j ≠ i ∧ zlookup l j = Some y).
Proof.
  destruct (decide (i = j)) as [<-|Hne]; [|rewrite zlookup_insert_ne by done; auto].
  intros H. pose proof (zlookup_Some _ _ _ H) as Hr. rewrite length_zinsert in Hr.
  rewrite zlookup_insert_eq in H by done. left. naive_solver.
Qed.

End ZList.

Lemma zlookup_fmap {A B} (f : A → B) (l : list A) i :
  zlookup (f <$> l) i = f <$> zlookup l i.
Proof. unfold zlookup. destruct (_ <? _); [done|]. apply list_lookup_fmap. Qed.

Lemma zinsert_fmap {A B} (f : A → B) (l : list A) i x :
  f <$> zinsert i x l = zinsert i (f x) (f <$> l).
Proof. unfold zinsert. destruct (_ <? _); [done|]. apply list_fmap_insert. Qed.

Lemma zinsert_id {A} (l : list A) i x : zlookup l i = Some x → zinsert i x l = l.
Proof.
  unfold zlookup, zinsert. destruct (_ <? _); [done|]. apply list_insert_id.
Qed.

(** ** Rules for weakest preconditions *)

Section WP.
Context {S : Type}.
Implicit Types s : S.

Lemma wp_ret {A} (a : A) Q s : Q a s → wp (mret a) Q s.
Proof. done. Qed.

Lemma wp_bind {A B} (m : M S A) (k : A → M S B) Q s :
  wp m (λ a, wp (k a) Q) s → wp (m ≫= k) Q s.
Proof. unfold wp, mbind, M_bind. by destruct (m s) as [[a s']|]. Qed.

(** The first two of three computations as one. *)
Lemma wp_seq {A B} (m : M S A) (k : A → M S unit) (r : M S B) Q s :
  wp (m ≫= k) (λ _, wp r Q) s → wp (m ≫= λ x, k x ;; r) Q s.
Proof.
  unfold wp, mbind, M_bind. destruct (m s) as [[a s']|]; [|done]. by destruct (k a s') as [[[] s2]|].
Qed.

Lemma wp_mono {A} (m : M S A) (Q Q' : A → S → Prop) s :
  wp m Q s → (∀ a s', Q a s' → Q' a s') → wp m Q' s.
Proof. unfold wp. destruct (m s) as [[a s']|]; naive_solver. Qed.

(** A run that fails in its second part, ... *)
Lemma fails_bind {A B} (m : M S A) (k : A → M S B) e s : wp m (λ a s', k a s' = Err e) s → (m ≫= k) s = Err e.
Proof. unfold wp, mbind, M_bind. by destruct (m s) as [[a s']|]. Qed.

(** ... in its third, ... *)
Lemma fails_seq {A B} (m : M S unit) (m' : M S A) (k : A → M S B) e s :
  wp (m ;; x ← m'; mret x) (λ a s', k a s' = Err e) s → (m ;; x ← m'; k x) s = Err e.
Proof. unfold wp, mbind, M_bind. destruct (m s) as [[u s1]|]; [|done]. by destruct (m' s1) as [[a s2]|]. Qed.

(** ... or in its first. *)
Lemma fails_left {A B} (m : M S A) (k : A → M S B) e s : m s = Err e → (m ≫= k) s = Err e.
Proof. unfold mbind, M_bind. by intros ->. Qed.

Lemma wp_assert site b Q s : b = true → Q tt s → wp (assert_ site b) Q s.
Proof. unfold wp, assert_. by intros ->. Qed.

Lemma wp_get Q s : Q s s → wp get Q s.
Proof. done. Qed.

Lemma wp_put s' Q s : Q tt s' → wp (put s') Q s.
Proof. done. Qed.

Lemma wp_gets {A} (f : S → A) Q s : Q (f s) s → wp (gets f) Q s.
Proof. done. Qed.

Lemma wp_modify f Q s : Q tt (f s) → wp (modify f) Q s.
Proof. done. Qed.

Lemma wp_of_option {A} e (o : option A) a Q s :
  o = Some a → Q a s → wp (of_option e o) Q s.
Proof. by intros ->. Qed.

Lemma wp_zoom {T A} (g : S → T) p (m : M T A) Q s :
  wp m (λ a t, Q a (p t s)) (g s) → wp (zoom g p m) Q s.
Proof. unfold wp, zoom. by destruct (m (g s)) as [[a t]|]. Qed.

(** A loop over a list preserves an invariant indexed by what is left. *)
Lemma wp_for_each {A} (body : A → M S unit) (I : list A → S → Prop) l s :
  I l s →
  (∀ x l' s', I (x :: l') s' → wp (body x) (λ _, I l') s') →
  wp (for_each l body) (λ _, I []) s.
Proof.
  intros HI Hbody. revert s HI. induction l as [|x l IH]; intros s HI; [done|].
  apply wp_bind. eapply wp_mono; [by apply Hbody|]. intros [] s' ?. by apply IH.
Qed.

(** Equal results, without evaluating them. *)
Lemma Ok_inj {A} (a b : A) s s' : Ok (a, s) = Ok (b, s') → a = b ∧ s = s'.
Proof. intros E. split; congruence. Qed.

Lemma wp_run {A} (m : M S A) a s' Q s : m s = Ok (a, s') → Q a s' → wp m Q s.
Proof. unfold wp. by intros ->. Qed.

(** Reading a success back from the weakest precondition. *)
Lemma wp_ok {A} (m : M S A) Q s : wp m Q s ↔ ∃ a s', m s = Ok (a, s') ∧ Q a s'.
Proof. unfold wp. destruct (m s) as [[a s']|]; naive_solver. Qed.

End WP.

(** One step of symbolic execution. *)
Ltac wp_step :=
  lazymatch goal with
  | |- wp (mbind _ _) _ _ => apply wp_bind
  | |- wp (mret _) _ _ => apply wp_ret
  | |- wp (assert_ _ _) _ _ => apply wp_assert
  | |- wp get _ _ => apply wp_get
  | |- wp (put _) _ _ => apply wp_put
  | |- wp (gets _) _ _ => apply wp_gets
  | |- wp (modify _) _ _ => apply wp_modify
  | |- wp (zoom _ _ _) _ _ => apply wp_zoom
  | |- wp (match ?x with Ok _ => _ | Err _ => _ end) _ _ => idtac
  end.

(** Runs up to the next assertion, branch or call. *)
Ltac wp_steps :=
  repeat lazymatch goal with
  | |- wp (assert_ _ _) _ _ => fail
  | |- wp (zoom _ _ _) _ _ => fail
  | |- _ => wp_step
  end.

(** Applies the specification [H] of the operation in the goal and carries on
    with its postcondition. *)
Tactic Notation "wp_apply" uconstr(H) := eapply wp_mono; [eapply H|].

(** ** What every successful run does to the state *)

Definition transits {S A} (R : S → S → Prop) (m : M S A) : Prop := ∀ s a s', m s = Ok (a, s') → R s s'.

Section Transits.
Context {S : Type} (R : S → S → Prop) `{!PreOrder R}.

Lemma transits_ret {A} (a : A) : transits R (mret a).
Proof. by intros s b s' [= _ <-]. Qed.

Lemma transits_bind {A B} (m : M S A) (k : A → M S B) : transits R m → (∀ a, transits R (k a)) → transits R (m ≫= k).
Proof.
  intros Hm Hk s b s'. unfold mbind, M_bind. destruct (m s) as [[a s1]|] eqn:E; [|done].
  intros H. etrans; [by eapply Hm|by eapply Hk].
Qed.

Lemma transits_err {A} e : transits R (err e : M S A).
Proof. by intros s a s'. Qed.

Lemma transits_assert site b : transits R (assert_ site b).
Proof. intros s a s'. unfold assert_. destruct b; [by intros [= _ <-]|done]. Qed.

Lemma transits_get : transits R get.
Proof. by intros s a s' [= _ <-]. Qed.

Lemma transits_gets {A} (f : S → A) : transits R (gets f).
Proof. by intros s a s' [= _ <-]. Qed.

Lemma transits_of_option {A} e (o : option A) : transits R (of_option e o).
Proof. intros s a s'. destruct o; [by intros [= _ <-]|done]. Qed.

Lemma transits_modify f : (∀ s, R s (f s)) → transits R (modify f).
Proof. intros Hf s a s' [= _ <-]. done. Qed.

Lemma transits_zoom {T A} (g : S → T) p (m : M T A) :
  (∀ s t a, m (g s) = Ok (a, t) → R s (p t s)) → transits R (zoom g p m).
Proof.
  intros Hm s a s'. unfold zoom. destruct (m (g s)) as [[b t]|] eqn:E; [|done]. intros [= _ <-]. by eapply Hm.
Qed.

Lemma wp_transits {A} (m : M S A) Q s : wp m Q s → transits R m → wp m (λ a s', Q a s' ∧ R s s') s.
Proof. unfold wp. intros H Hm. destruct (m s) as [[a s']|] eqn:E; [|done]. split; [done|by eapply Hm]. Qed.

End Transits.

(** Splits a run into its calls. *)
Ltac transits_step :=
  lazymatch goal with
  | |- transits _ (mbind _ _) => apply transits_bind; [typeclasses eauto| |intros ?]
  | |- transits _ (mret _) => apply transits_ret; typeclasses eauto
  | |- transits _ (err _) => apply transits_err
  | |- transits _ (assert_ _ _) => apply transits_assert; typeclasses eauto
  | |- transits _ get => apply transits_get; typeclasses eauto
  | |- transits _ (gets _) => apply transits_gets; typeclasses eauto
  | |- transits _ (of_option _ _) => apply transits_of_option; typeclasses eauto
  | |- transits _ (modify _) => apply transits_modify
  | |- transits _ (match ?x with _ => _ end) => destruct x
  end.
Ltac transits_steps := repeat transits_step.

(** ** Counting the values of a finite map *)

Definition mcount {V} (P : V → bool) (m : gmap Z V) : Z :=
  Z.of_nat (size (filter (λ x : Z * V, P x.2 = true) m)).

Section MCount.
Context {V : Type} (P : V → bool).
Implicit Types m : gmap Z V.

Lemma mcount_empty : mcount P (∅ : gmap Z V) = 0.
Proof. unfold mcount. by rewrite map_filter_empty, map_size_empty. Qed.

Lemma mcount_insert_fresh m i x :
  m !! i = None → mcount P (<[i := x]> m) = mcount P m + Z.b2z (P x).
Proof.
  intros Hi. unfold mcount. destruct (P x) eqn:Hx; simpl.
  - rewrite map_filter_insert_True by done.
    rewrite map_size_insert_None; [lia|]. apply map_lookup_filter_None. by left.
  - rewrite map_filter_insert_False by (simpl; congruence).
    rewrite delete_id by done. lia.
Qed.

Lemma mcount_delete m i x :
  m !! i = Some x → mcount P (delete i m) = mcount P m - Z.b2z (P x).
Proof.
  intros Hi. rewrite <- (insert_id m i x Hi) at 2. rewrite <- insert_delete_eq.
  rewrite mcount_insert_fresh by apply lookup_delete_eq. lia.
Qed.

Lemma mcount_insert m i x y :
  m !! i = Some x → mcount P (<[i := y]> m) = mcount P m - Z.b2z (P x) + Z.b2z (P y).
Proof.
  intros Hi. rewrite <- insert_delete_eq, mcount_insert_fresh by apply lookup_delete_eq.
  by erewrite mcount_delete.
Qed.

Lemma mcount_nonneg m : 0 ≤ mcount P m.
Proof. unfold mcount. lia. Qed.

Lemma mcount_pos m i x : m !! i = Some x → P x = true → 0 < mcount P m.
Proof.
  intros Hi Hx. pose proof (mcount_delete _ _ _ Hi) as E. rewrite Hx in E.
  pose proof (mcount_nonneg (delete i m)). simpl in E. lia.
Qed.

End MCount.

Lemma mcount_le_size {V} (P : V → bool) (m : gmap Z V) : mcount P m ≤ Z.of_nat (size m).
Proof.
  induction m as [|i x m Hi IH] using map_ind; [by rewrite mcount_empty|].
  rewrite mcount_insert_fresh, map_size_insert_None by done. destruct (P x); simpl; lia.
Qed.

Lemma mcount_fmap {V W} (P : W → bool) (f : V → W) (m : gmap Z V) :
  mcount P (f <$> m) = mcount (λ x, P (f x)) m.
Proof.
  induction m as [|i x m Hi IH] using map_ind; [by rewrite fmap_empty, !mcount_empty|].
  rewrite fmap_insert, !mcount_insert_fresh, IH; [done|done|].
  by rewrite lookup_fmap, Hi.
Qed.

Lemma mcount_ext {V} (P P' : V → bool) (m : gmap Z V) :
  (∀ i x, m !! i = Some x → P x = P' x) → mcount P m = mcount P' m.
Proof.
  induction m as [|i x m Hi IH] using map_ind; intros Hx; [by rewrite !mcount_empty|].
  rewrite !mcount_insert_fresh by done. rewrite (Hx i x) by apply lookup_insert_eq.
  rewrite IH; [done|]. intros j y Hj. apply (Hx j). rewrite lookup_insert_ne; [done|].
  intros <-. congruence.
Qed.

(** The count as the length of a filtered list of the map's pairs. *)
Lemma mcount_list {V} (P : V → bool) (m : gmap Z V) (l : list (Z * V)) :
  l ≡ₚ map_to_list m →
  Z.of_nat (length (filter (λ x : Z * V, P x.2 = true) l)) = mcount P m.
Proof.
  intros Hl. rewrite Hl. clear Hl l.
  induction m as [|i x m Hi IH] using map_ind; [by rewrite map_to_list_empty, mcount_empty|].
  rewrite map_to_list_insert, mcount_insert_fresh, filter_cons by done. simpl.
  destruct (P x); simpl; lia.
Qed.

Lemma alter_as_insert {V} (f : V → V) (m : gmap Z V) i x :
  m !! i = Some x → alter f i m = <[i := f x]> m.
Proof.
  intros Hi. apply map_eq. intros j. destruct (decide (i = j)) as [<-|].
  - by rewrite lookup_alter_eq, lookup_insert_eq, Hi.
  - by rewrite lookup_alter_ne, lookup_insert_ne.
Qed.

Lemma mcount_none {V} (P : V → bool) (m : gmap Z V) :
  (∀ i x, m !! i = Some x → P x = false) → mcount P m = 0.
Proof.
  intros Hm. rewrite (mcount_ext P (λ _, false)) by done. clear Hm.
  induction m as [|i x m Hi IH] using map_ind; [apply mcount_empty|].
  rewrite mcount_insert_fresh by done. simpl. lia.
Qed.

Lemma list_filter_ext_in {A} (P P' : A → Prop) `{!∀ x, Decision (P x), !∀ x, Decision (P' x)}
    (l : list A) :
  (∀ x, x ∈ l → P x ↔ P' x) → filter P l = filter P' l.
Proof.
  induction l as [|x l IH]; intros Hl; [done|]. rewrite !filter_cons, IH by set_solver.
  assert (P x ↔ P' x) by (apply Hl; set_solver). by apply decide_ext.
Qed.
