(* ===== verification/Drift.v ===== *)
(** How far a quantity of the state drifts in a run: [drift rel I f d m] says that every
    successful run of [m] from a state in [I] ends in [I] and changes [f] by [d], up to
    [rel]. With [rel] congruence it accounts for counters that wrap, with [rel] an order it
    bounds them. The sums the accounts are made of come first. *)

From S2P Require Import Prelude.
#[global] Open Scope Z_scope.

(** ** Sums *)

Fixpoint zsum {A} (f : A → Z) (l : list A) : Z := match l with [] => 0 | x :: l' => f x + zsum f l' end.
Definition msum {V} (f : V → Z) (m : gmap Z V) : Z := zsum (λ x : Z * V, f x.2) (map_to_list m).

Section Sums.
Context {A : Type}.
Implicit Types (f g : A → Z) (l : list A).

#[global] Instance zsum_perm f : Proper ((≡ₚ) ==> (=)) (zsum f).
Proof. induction 1; cbn; lia. Qed.

Lemma zsum_ext f g l l' : f <$> l = g <$> l' → zsum f l = zsum g l'.
Proof. revert l'. induction l as [|x l IH]; intros [|y l']; try done. rewrite !fmap_cons. intros [= E1 E2]. cbn. rewrite E1. f_equal. by apply IH. Qed.

Lemma zsum_zero f l : (∀ x, x ∈ l → f x = 0) → zsum f l = 0.
Proof. induction l as [|x l IH]; cbn; [done|]. intros H. rewrite H, IH; [done| |left]. intros y Hy. apply H. by right. Qed.

Lemma zsum_nonneg f l : (∀ x, x ∈ l → 0 ≤ f x) → 0 ≤ zsum f l.
Proof. induction l as [|x l IH]; cbn; [done|]. intros H. pose proof (H x ltac:(left)). specialize (IH (λ y Hy, H y ltac:(by right))). lia. Qed.

Lemma zsum_const c l : zsum (λ _, c) l = c * Z.of_nat (length l).
Proof. induction l as [|x l IH]; cbn; lia. Qed.

Lemma zsum_zinsert f i x y l : zlookup l i = Some x → zsum f (zinsert i y l) = zsum f l - f x + f y.
Proof.
  unfold zlookup, zinsert. destruct (i <? 0); [done|]. generalize (Z.to_nat i). intros n.
  revert n. induction l as [|z l IH]; intros [|n] H; try done; cbn; [injection H as ->; lia|]. specialize (IH n H). etrans; [exact (f_equal (Z.add (f z)) IH)|]. lia.
Qed.

End Sums.

Lemma zsum_fmap {A} (f : A → Z) l : zsum id (f <$> l) = zsum f l.
Proof. induction l as [|x l IH]; cbn; [done|]. by f_equal. Qed.

Section MSum.
Context {V : Type} (f : V → Z).
Implicit Types m : gmap Z V.

Lemma msum_empty : msum f (∅ : gmap Z V) = 0.
Proof. done. Qed.

Lemma msum_fresh m i x : m !! i = None → msum f (<[i := x]> m) = msum f m + f x.
Proof. intros Hi. unfold msum. rewrite map_to_list_insert by done. cbn. lia. Qed.

Lemma msum_delete m i x : m !! i = Some x → msum f (delete i m) = msum f m - f x.
Proof.
  intros Hi. rewrite <- (insert_id m i x Hi) at 2. rewrite <- insert_delete_eq, msum_fresh by apply lookup_delete_eq. lia.
Qed.

Lemma msum_insert m i x y : m !! i = Some x → msum f (<[i := y]> m) = msum f m - f x + f y.
Proof. intros Hi. rewrite <- insert_delete_eq, msum_fresh by apply lookup_delete_eq. by erewrite msum_delete. Qed.

Lemma msum_elem m i x : map_Forall (λ _ y, 0 ≤ f y) m → m !! i = Some x → f x ≤ msum f m.
Proof.
  intros Hm Hi. rewrite <- (insert_id m i x Hi), <- insert_delete_eq, msum_fresh by apply lookup_delete_eq.
  assert (0 ≤ msum f (delete i m)); [|lia]. apply zsum_nonneg. intros [j y] [_ Hj]%elem_of_map_to_list%lookup_delete_Some. by apply (Hm j).
Qed.

Lemma msum_alter m i g d : (∀ x, f (g x) = f x + d) → is_Some (m !! i) → msum f (alter g i m) = msum f m + d.
Proof.
  intros Hg [x Hx]. replace (alter g i m) with (<[i := g x]> m).
  - rewrite (msum_insert m i x) by done. rewrite Hg. lia.
  - apply map_eq. intros j. destruct (decide (i = j)) as [<-|Hne].
    + by rewrite lookup_insert_eq, lookup_alter_eq, Hx.
    + by rewrite lookup_insert_ne, lookup_alter_ne.
Qed.

Lemma msum_alter_same m i g : (∀ x, f (g x) = f x) → msum f (alter g i m) = msum f m.
Proof.
  intros Hg. destruct (m !! i) as [x|] eqn:Hx; [|by rewrite alter_id'].
  rewrite (msum_alter m i g 0); [lia|intros; rewrite Hg; lia|by eexists].
Qed.

End MSum.

(** ** Runs *)

Lemma bind_Ok {S A B} (m : M S A) (k : A → M S B) s b s' : (m ≫= k) s = Ok (b, s') →
  ∃ a s1, m s = Ok (a, s1) ∧ k a s1 = Ok (b, s').
Proof. unfold mbind, M_bind. destruct (m s) as [[a s1]|] eqn:E; [|done]. eauto. Qed.

(** Relations between amounts that may be added up. *)
Class Slack (rel : Z → Z → Prop) : Prop := {
  slack_preorder :: PreOrder rel;
  slack_add a b c : rel a b → rel (a + c) (b + c);
}.

(** Equal as 64-bit words. *)
Definition mod64 (a b : Z) : Prop := u64 a = u64 b.

Lemma u64_range a : 0 ≤ u64 a < 2 ^ 64.
Proof. apply Z.mod_pos_bound. lia. Qed.

Lemma u64_u64 a : u64 (u64 a) = u64 a.
Proof. apply Zmod_mod. Qed.

(** Equal as 32-bit words. *)
Definition mod32 (a b : Z) : Prop := u32 a = u32 b.

#[global] Instance mod64_slack : Slack mod64.
Proof.
  split; [split; [done|intros x y z; unfold mod64; congruence]|]. unfold mod64, u64. intros a b c H.
  by rewrite <- Zplus_mod_idemp_l, H, Zplus_mod_idemp_l.
Qed.

#[global] Instance mod32_slack : Slack mod32.
Proof.
  split; [split; [done|intros x y z; unfold mod32; congruence]|]. unfold mod32, u32. intros a b c H.
  by rewrite <- Zplus_mod_idemp_l, H, Zplus_mod_idemp_l.
Qed.

#[global] Instance mod64_sym : Symmetric mod64.
Proof. intros x y. unfold mod64. congruence. Qed.
#[global] Instance mod32_sym : Symmetric mod32.
Proof. intros x y. unfold mod32. congruence. Qed.

Lemma mod64_mod32 a b : mod64 a b → mod32 a b.
Proof.
  unfold mod64, mod32, u64, u32. intros H. assert (2 ^ 32 | 2 ^ 64) as Hd by (exists (2 ^ 32); done).
  rewrite <- (Z.mod_mod_divide a _ _ Hd), H. by apply Z.mod_mod_divide.
Qed.

(** An [int] that wraps stays the same word. *)
Lemma i32_mod32 a : mod32 (i32 a) a.
Proof. unfold mod32, u32, i32. rewrite Zminus_mod_idemp_l. f_equal. lia. Qed.

#[global] Instance le_slack : Slack Z.le.
Proof. split; [apply _|]. lia. Qed.

Section Drift.
Context (rel : Z → Z → Prop) `{!Slack rel} {S : Type} (I : S → Prop) (f : S → Z).

Definition drift {A} (d : Z) (m : M S A) : Prop := ∀ s a s', I s → m s = Ok (a, s') → I s' ∧ rel (f s + d) (f s').

Lemma drift_none {A} (m : M S A) : (∀ s a s', I s → m s = Ok (a, s') → I s' ∧ f s' = f s) → drift 0 m.
Proof. intros H s a s' HI E. destruct (H s a s' HI E) as [H1 ->]. split; [done|]. by rewrite Z.add_0_r. Qed.

Lemma drift_ret {A} (a : A) : drift 0 (mret a).
Proof. apply drift_none. intros s b s' HI H. by injection H as _ <-. Qed.

Lemma drift_get : drift 0 get.
Proof. apply drift_none. intros s b s' HI H. by injection H as _ <-. Qed.

Lemma drift_gets {A} (g : S → A) : drift 0 (gets g).
Proof. apply drift_none. intros s b s' HI H. by injection H as _ <-. Qed.

Lemma drift_assert e b : drift 0 (assert_ e b : M S unit).
Proof. apply drift_none. intros s x s' HI H. unfold assert_ in H. destruct b; [|done]. by injection H as _ <-. Qed.

Lemma drift_of_option {A} e (o : option A) : drift 0 (of_option e o).
Proof. apply drift_none. intros s x s' HI H. unfold of_option in H. destruct o; [|done]. by injection H as _ <-. Qed.

Lemma drift_err {A} d e : drift d (err e : M S A).
Proof. by intros s a s' _ H. Qed.

Lemma drift_modify d g : (∀ s, I s → I (g s) ∧ f (g s) = f s + d) → drift d (modify g).
Proof. intros H s a s' HI E. injection E as _ <-. destruct (H s HI) as [H1 ->]. done. Qed.

Lemma drift_weaken {A} d d' (m : M S A) : drift d m → rel d' d → drift d' m.
Proof.
  intros Hm Hd s a s' HI E. destruct (Hm s a s' HI E) as [H1 H2]. split; [done|]. etrans; [|exact H2].
  rewrite (Z.add_comm _ d'), (Z.add_comm _ d). by apply slack_add.
Qed.

Lemma drift_eq {A} d d' (m : M S A) : drift d m → d' = d → drift d' m.
Proof. by intros H ->. Qed.

Lemma drift_bind {A B} d1 d (m : M S A) (k : A → M S B) : drift d1 m → (∀ a, drift (d - d1) (k a)) → drift d (m ≫= k).
Proof.
  intros Hm Hk s b s' HI H. unfold mbind, M_bind in H. destruct (m s) as [[a s1]|] eqn:E; [|done].
  destruct (Hm _ _ _ HI E) as [HI1 H1]. destruct (Hk _ _ _ _ HI1 H) as [HI2 H2]. split; [done|]. etrans; [|exact H2].
  replace (f s + d) with (f s + d1 + (d - d1)) by lia. by apply slack_add.
Qed.

(** What the first part returns may matter to the second. *)
Lemma drift_bind_when {A B} (P : A → Prop) d (m : M S A) (k : A → M S B) :
  (∀ s a s', I s → m s = Ok (a, s') → I s' ∧ f s' = f s ∧ P a) → (∀ a, P a → drift d (k a)) → drift d (m ≫= k).
Proof.
  intros Hm Hk s b s' HI (a & s1 & E1 & E)%bind_Ok. destruct (Hm _ _ _ HI E1) as (HI1 & Ef & HP). rewrite <- Ef. by apply (Hk a HP s1 b).
Qed.

Lemma drift_for_each {A} (g : A → Z) (body : A → M S unit) l : (∀ x, drift (g x) (body x)) → drift (zsum g l) (for_each l body).
Proof.
  intros Hb. induction l as [|x l IH]; [apply drift_ret|]. cbn [for_each zsum]. eapply drift_bind; [apply Hb|].
  intros _. eapply drift_eq; [exact IH|]. lia.
Qed.

Lemma drift_for_each_none {A} (body : A → M S unit) l : (∀ x, drift 0 (body x)) → drift 0 (for_each l body).
Proof. intros Hb. eapply drift_eq; [by apply (drift_for_each (λ _, 0))|]. symmetry. by apply zsum_zero. Qed.

End Drift.

Section DriftZoom.
Context (rel : Z → Z → Prop) `{!Slack rel} {S T : Type} (I : S → Prop) (f : S → Z).

Lemma drift_zoom_free {A} (g : S → T) p (m : M T A) : (∀ s t, I s → I (p t s) ∧ f (p t s) = f s) → drift rel I f 0 (zoom g p m).
Proof.
  intros Hp. apply drift_none; [apply _|]. intros s a s' HI H. unfold zoom in H. destruct (m (g s)) as [[b t]|] eqn:E; [|done].
  injection H as _ <-. by apply Hp.
Qed.

End DriftZoom.

#[export] Hint Extern 0 (drift _ _ _ _ (mret _)) => apply drift_ret; apply _ : drift.
#[export] Hint Extern 0 (drift _ _ _ _ get) => apply drift_get; apply _ : drift.
#[export] Hint Extern 0 (drift _ _ _ _ (gets _)) => apply drift_gets; apply _ : drift.
#[export] Hint Extern 0 (drift _ _ _ _ (assert_ _ _)) => apply drift_assert; apply _ : drift.
#[export] Hint Extern 0 (drift _ _ _ _ (of_option _ _)) => apply drift_of_option; apply _ : drift.

(** Adds up the calls of a run: what is left to account for is in the goal. *)
Ltac drift_leaf := first [apply drift_err | eapply drift_weaken; [apply _|solve [eauto 2 with drift]|]].
Ltac drift_step :=
  lazymatch goal with
  | |- drift _ _ _ _ (mbind _ _) => eapply drift_bind; [apply _|solve [eauto 2 with drift]|intros ?]
  | |- drift _ _ _ _ (if ?b then _ else _) => destruct b
  | |- drift _ _ _ _ (let _ := _ in _) => cbv zeta
  | |- drift _ _ _ _ (match ?x with _ => _ end) => destruct x
  | |- drift _ _ _ _ _ => drift_leaf
  end.
Ltac drift_close := try match goal with |- ?rel ?a ?b => replace a with b by lia; reflexivity end.
Ltac drift_steps := repeat drift_step; drift_close.
(** A branch in the middle of a run that adds [d]. *)
Ltac drift_branch d := eapply (drift_bind _ _ _ d); [drift_steps|intros ?].
