(* ===== verification/Profiler.v ===== *)
(** Profiler (src/profiler.h, src/profiler.cc): counters of table, buffer and
    data-movement operations. The sources pass a [Profiler&] down every call and
    two static objects [Profiler::Null] and [Profiler::Overlap] absorb what must
    not be charged; [Profs] holds the three objects that a call can name and
    [pfref] is the reference that is passed. *)

From S2P Require Import Prelude.

Record Profiler := MkProfiler {
  block_bits_ : Z;
  page_bits_ : Z;
  num_table_ops_ : Z;
  num_buffer_ops_ : Z;
  latency_ : Z;
  bytes_intra_channel_ : Z;
  bytes_inter_channel_ : Z;
  op_latency_ : Z;
  ignore_latency_ : bool;
}.

Definition set_block_bits_ (v : Z) (r : Profiler) : Profiler :=
  {| block_bits_ := v; page_bits_ := page_bits_ r; num_table_ops_ :=
     num_table_ops_ r; num_buffer_ops_ := num_buffer_ops_ r; latency_ :=
     latency_ r; bytes_intra_channel_ := bytes_intra_channel_ r;
     bytes_inter_channel_ := bytes_inter_channel_ r; op_latency_ :=
     op_latency_ r; ignore_latency_ := ignore_latency_ r |}.
Definition set_page_bits_ (v : Z) (r : Profiler) : Profiler :=
  {| block_bits_ := block_bits_ r; page_bits_ := v; num_table_ops_ :=
     num_table_ops_ r; num_buffer_ops_ := num_buffer_ops_ r; latency_ :=
     latency_ r; bytes_intra_channel_ := bytes_intra_channel_ r;
     bytes_inter_channel_ := bytes_inter_channel_ r; op_latency_ :=
     op_latency_ r; ignore_latency_ := ignore_latency_ r |}.
Definition set_num_table_ops_ (v : Z) (r : Profiler) : Profiler :=
  {| block_bits_ := block_bits_ r; page_bits_ := page_bits_ r; num_table_ops_
     := v; num_buffer_ops_ := num_buffer_ops_ r; latency_ := latency_ r;
     bytes_intra_channel_ := bytes_intra_channel_ r; bytes_inter_channel_ :=
     bytes_inter_channel_ r; op_latency_ := op_latency_ r; ignore_latency_ :=
     ignore_latency_ r |}.
Definition set_num_buffer_ops_ (v : Z) (r : Profiler) : Profiler :=
  {| block_bits_ := block_bits_ r; page_bits_ := page_bits_ r; num_table_ops_
     := num_table_ops_ r; num_buffer_ops_ := v; latency_ := latency_ r;
     bytes_intra_channel_ := bytes_intra_channel_ r; bytes_inter_channel_ :=
     bytes_inter_channel_ r; op_latency_ := op_latency_ r; ignore_latency_ :=
     ignore_latency_ r |}.
Definition set_latency_ (v : Z) (r : Profiler) : Profiler :=
  {| block_bits_ := block_bits_ r; page_bits_ := page_bits_ r; num_table_ops_
     := num_table_ops_ r; num_buffer_ops_ := num_buffer_ops_ r; latency_ := v;
     bytes_intra_channel_ := bytes_intra_channel_ r; bytes_inter_channel_ :=
     bytes_inter_channel_ r; op_latency_ := op_latency_ r; ignore_latency_ :=
     ignore_latency_ r |}.
Definition set_bytes_intra_channel_ (v : Z) (r : Profiler) : Profiler :=
  {| block_bits_ := block_bits_ r; page_bits_ := page_bits_ r; num_table_ops_
     := num_table_ops_ r; num_buffer_ops_ := num_buffer_ops_ r; latency_ :=
     latency_ r; bytes_intra_channel_ := v; bytes_inter_channel_ :=
     bytes_inter_channel_ r; op_latency_ := op_latency_ r; ignore_latency_ :=
     ignore_latency_ r |}.
Definition set_bytes_inter_channel_ (v : Z) (r : Profiler) : Profiler :=
  {| block_bits_ := block_bits_ r; page_bits_ := page_bits_ r; num_table_ops_
     := num_table_ops_ r; num_buffer_ops_ := num_buffer_ops_ r; latency_ :=
     latency_ r; bytes_intra_channel_ := bytes_intra_channel_ r;
     bytes_inter_channel_ := v; op_latency_ := op_latency_ r; ignore_latency_
     := ignore_latency_ r |}.
Definition set_op_latency_ (v : Z) (r : Profiler) : Profiler :=
  {| block_bits_ := block_bits_ r; page_bits_ := page_bits_ r; num_table_ops_
     := num_table_ops_ r; num_buffer_ops_ := num_buffer_ops_ r; latency_ :=
     latency_ r; bytes_intra_channel_ := bytes_intra_channel_ r;
     bytes_inter_channel_ := bytes_inter_channel_ r; op_latency_ := v;
     ignore_latency_ := ignore_latency_ r |}.
Definition set_ignore_latency_ (v : bool) (r : Profiler) : Profiler :=
  {| block_bits_ := block_bits_ r; page_bits_ := page_bits_ r; num_table_ops_
     := num_table_ops_ r; num_buffer_ops_ := num_buffer_ops_ r; latency_ :=
     latency_ r; bytes_intra_channel_ := bytes_intra_channel_ r;
     bytes_inter_channel_ := bytes_inter_channel_ r; op_latency_ :=
     op_latency_ r; ignore_latency_ := v |}.

Definition new_Profiler (block_bits page_bits : Z) : Profiler :=
  {| block_bits_ := block_bits; page_bits_ := page_bits;
     num_table_ops_ := 0; num_buffer_ops_ := 0; latency_ := 0;
     bytes_intra_channel_ := 0; bytes_inter_channel_ := 0;
     op_latency_ := -1; ignore_latency_ := false |}.

(** The copy constructor starts from zeroed counters and keeps the latency. *)
Definition copy_Profiler (p : Profiler) : Profiler :=
  set_op_latency_ (op_latency_ p) (new_Profiler (block_bits_ p) (page_bits_ p)).

Definition set_ignore_latency : M Profiler unit :=
  b ← gets ignore_latency_;
  assert_ "Profiler::set_ignore_latency" (negb b) ;;
  modify (set_ignore_latency_ true).

Definition clear_ignore_latency : M Profiler unit :=
  b ← gets ignore_latency_;
  assert_ "Profiler::clear_ignore_latency" b ;;
  modify (set_ignore_latency_ false).

Definition AddTableOp_n (num : Z) : M Profiler unit :=
  modify (λ p, if ignore_latency_ p then p
               else set_num_table_ops_ (u64 (num_table_ops_ p + num)) p).
Definition AddTableOp : M Profiler unit := AddTableOp_n 1.

Definition AddBufferOp_n (num : Z) : M Profiler unit :=
  modify (λ p, if ignore_latency_ p then p
               else set_num_buffer_ops_ (u64 (num_buffer_ops_ p + num)) p).
Definition AddBufferOp : M Profiler unit := AddBufferOp_n 1.

(** [AddLatency(int lat)]; the callers' [int64_t] is narrowed to [int]. *)
Definition AddLatency (lat : Z) : M Profiler unit :=
  ign ← gets ignore_latency_;
  assert_ "Profiler::AddLatency" ((0 <? i32 lat) && negb ign) ;;
  modify (λ p, set_latency_ (u64 (latency_ p + i32 lat)) p).

(** [num << bits] is computed on [int] before it is added to the counter. *)
Definition AddBlockMoveIntra (num : Z) : M Profiler unit :=
  modify (λ p, set_bytes_intra_channel_
    (u64 (bytes_intra_channel_ p + i32 (Z.shiftl num (block_bits_ p)))) p).

Definition AddBlockMoveInter (num : Z) : M Profiler unit :=
  modify (λ p, set_bytes_inter_channel_
    (u64 (bytes_inter_channel_ p + i32 (Z.shiftl num (block_bits_ p)))) p).

Definition AddPageMoveIntra (num : Z) : M Profiler unit :=
  modify (λ p, set_bytes_intra_channel_
    (u64 (bytes_intra_channel_ p + i32 (Z.shiftl num (page_bits_ p)))) p).

Definition AddPageMoveInter (num : Z) : M Profiler unit :=
  modify (λ p, set_bytes_inter_channel_
    (u64 (bytes_inter_channel_ p + i32 (Z.shiftl num (page_bits_ p)))) p).

Definition SumLatency : M Profiler Z :=
  p ← get;
  assert_ "Profiler::SumLatency" (0 <=? op_latency_ p) ;;
  assert_ "Profiler::SumLatency" (negb (ignore_latency_ p)) ;;
  mret (u64 (latency_ p +
             op_latency_ p * u64 (num_table_ops_ p + num_buffer_ops_ p))).

Definition SumBusUtil (exc_intra : bool) (p : Profiler) : Z :=
  u64 ((if exc_intra then 0 else bytes_intra_channel_ p) + bytes_inter_channel_ p).

(** ** The profilers a call can name *)

Inductive pfref := PfArg | PfNull | PfOverlap.

Record Profs := MkProfs { pf_arg : Profiler; pf_null : Profiler; pf_overlap : Profiler }.

(** [Profiler Profiler::Null(0, 0); Profiler Profiler::Overlap(0, 0);] *)
Definition init_Profs (arg : Profiler) : Profs :=
  {| pf_arg := arg; pf_null := new_Profiler 0 0; pf_overlap := new_Profiler 0 0 |}.

Definition sel (r : pfref) (ps : Profs) : Profiler :=
  match r with PfArg => pf_arg ps | PfNull => pf_null ps | PfOverlap => pf_overlap ps end.

Definition upd (r : pfref) (p : Profiler) (ps : Profs) : Profs :=
  match r with
  | PfArg => MkProfs p (pf_null ps) (pf_overlap ps)
  | PfNull => MkProfs (pf_arg ps) p (pf_overlap ps)
  | PfOverlap => MkProfs (pf_arg ps) (pf_null ps) p
  end.

(** Operations of a component that also take a profiler run on the component's
    state paired with the profilers. *)
Definition PM (T A : Type) : Type := M (T * Profs) A.

Definition prof {T A} (r : pfref) (m : M Profiler A) : PM T A :=
  zoom (λ s, sel r s.2) (λ p s, (s.1, upd r p s.2)) m.
Definition own {T A} (m : M T A) : PM T A :=
  zoom fst (λ t s, (t, s.2)) m.

(** ** Lemmas *)

(** What every operation of the controller leaves alone in the profilers: the
    flag that freezes the counters, and the sizes they were built with. *)
Definition pf_same (ps ps' : Profs) : Prop :=
  ∀ r, ignore_latency_ (sel r ps') = ignore_latency_ (sel r ps) ∧
       block_bits_ (sel r ps') = block_bits_ (sel r ps) ∧
       page_bits_ (sel r ps') = page_bits_ (sel r ps) ∧
       op_latency_ (sel r ps') = op_latency_ (sel r ps).

#[global] Instance pf_same_preorder : PreOrder pf_same.
Proof.
  split; [done|]. intros x y z H1 H2 r.
  destruct (H1 r) as (E1&E2&E3&E4), (H2 r) as (F1&F2&F3&F4). repeat split; congruence.
Qed.
#[export] Hint Extern 0 (pf_same ?x ?x) => reflexivity : sexain.

Lemma sel_upd_eq r p ps : sel r (upd r p ps) = p.
Proof. by destruct r. Qed.

(** Operations that only move counters. *)
Class Quiet (op : M Profiler unit) : Prop :=
  quiet p : ∃ p', op p = Ok (tt, p') ∧ ignore_latency_ p' = ignore_latency_ p ∧
    block_bits_ p' = block_bits_ p ∧ page_bits_ p' = page_bits_ p ∧
    op_latency_ p' = op_latency_ p.

Lemma quiet_modify f :
  (∀ p, ignore_latency_ (f p) = ignore_latency_ p ∧ block_bits_ (f p) = block_bits_ p ∧
        page_bits_ (f p) = page_bits_ p ∧ op_latency_ (f p) = op_latency_ p) →
  Quiet (modify f).
Proof. intros H p. exists (f p). destruct (H p) as (?&?&?&?). done. Qed.

#[global] Instance AddTableOp_quiet : Quiet AddTableOp.
Proof. apply quiet_modify. intros p. by destruct (ignore_latency_ p) eqn:?. Qed.
#[global] Instance AddBufferOp_quiet : Quiet AddBufferOp.
Proof. apply quiet_modify. intros p. by destruct (ignore_latency_ p) eqn:?. Qed.
#[global] Instance AddBlockMoveIntra_quiet n : Quiet (AddBlockMoveIntra n).
Proof. by apply quiet_modify. Qed.
#[global] Instance AddBlockMoveInter_quiet n : Quiet (AddBlockMoveInter n).
Proof. by apply quiet_modify. Qed.
#[global] Instance AddPageMoveIntra_quiet n : Quiet (AddPageMoveIntra n).
Proof. by apply quiet_modify. Qed.
#[global] Instance AddPageMoveInter_quiet n : Quiet (AddPageMoveInter n).
Proof. by apply quiet_modify. Qed.

Lemma pf_same_upd r p ps :
  ignore_latency_ p = ignore_latency_ (sel r ps) → block_bits_ p = block_bits_ (sel r ps) →
  page_bits_ p = page_bits_ (sel r ps) → op_latency_ p = op_latency_ (sel r ps) →
  pf_same ps (upd r p ps).
Proof. intros ???? r'. by destruct r, r'. Qed.

Section ProfSpecs.
Context {T : Type}.
Implicit Types t : T.

Lemma wp_prof_quiet op `{!Quiet op} r Q t ps :
  (∀ ps', pf_same ps ps' → Q tt (t, ps')) → wp (prof r op) Q (t, ps).
Proof.
  intros HQ. apply wp_zoom. destruct (quiet (op := op) (sel r ps)) as (p'&E&?&?&?&?).
  unfold wp. simpl. rewrite E. apply HQ. by apply pf_same_upd.
Qed.

Lemma wp_own {A} (m : M T A) Q t ps :
  wp m (λ a t', Q a (t', ps)) t → wp (own m) Q (t, ps).
Proof. intros H. by apply wp_zoom. Qed.

End ProfSpecs.
