(* ===== verification/IndexQueue.v ===== *)
(** IndexQueue (src/index_queue.h, src/index_queue.cc): a queue threaded through
    an array of nodes. [IndexArray] is the abstract class of the sources as a
    type class; a queue operation runs on the array paired with the queue.
    [is_queue a q l] says that the links of [a] and the head of [q] spell the
    list [l]; every operation is proved to be the list operation on [l]. *)

From S2P Require Import Prelude.

Record IndexNode := MkNode { prev : Z; next : Z }.

#[global] Instance IndexNode_eq_dec : EqDecision IndexNode.
Proof. solve_decision. Defined.

(** [IndexNode() { prev = next = -EINVAL; }] *)
Definition null_node : IndexNode := {| prev := - EINVAL; next := - EINVAL |}.

(** [virtual IndexNode& operator[](int i) = 0;] split into a read, which is
    undefined out of range, and a write. [node_rest] is the part of the array
    that is not made of nodes. *)
Class IndexArray (A R : Type) := {
  node_at : A → Z → option IndexNode;
  set_node : Z → IndexNode → A → A;
  node_rest : A → R;
  node_at_nonneg a i n : node_at a i = Some n → 0 ≤ i;
  node_at_set_eq a i n n' : node_at a i = Some n → node_at (set_node i n' a) i = Some n';
  node_at_set_ne a i j n' : i ≠ j → node_at (set_node i n' a) j = node_at a j;
  node_rest_set a i n' : node_rest (set_node i n' a) = node_rest a;
}.

Record IndexQueue := MkQueue { head_ : IndexNode; length_ : Z }.

(** [IndexQueue::IndexQueue] *)
Definition new_IndexQueue : IndexQueue := {| head_ := null_node; length_ := 0 |}.

Definition Front (q : IndexQueue) : Z := prev (head_ q).
Definition Back (q : IndexQueue) : Z := next (head_ q).
Definition SetFront (i : Z) (q : IndexQueue) : IndexQueue :=
  {| head_ := {| prev := i; next := Back q |}; length_ := length_ q |}.
Definition SetBack (i : Z) (q : IndexQueue) : IndexQueue :=
  {| head_ := {| prev := Front q; next := i |}; length_ := length_ q |}.
Definition set_length_ (n : Z) (q : IndexQueue) : IndexQueue :=
  {| head_ := head_ q; length_ := n |}.

Section Ops.
Context `{IndexArray A R}.

Definition qget : M (A * IndexQueue) IndexQueue := gets snd.
Definition qmod (f : IndexQueue → IndexQueue) : M (A * IndexQueue) unit :=
  modify (λ s, (s.1, f s.2)).

(** [array_[i]], read and written. *)
Definition read_node (i : Z) : M (A * IndexQueue) IndexNode :=
  a ← gets fst; of_option (EUndef "IndexArray[]") (node_at a i).
Definition write_prev (i p : Z) : M (A * IndexQueue) unit :=
  n ← read_node i;
  modify (λ s, (set_node i {| prev := p; next := next n |} s.1, s.2)).
Definition write_next (i x : Z) : M (A * IndexQueue) unit :=
  n ← read_node i;
  modify (λ s, (set_node i {| prev := prev n; next := x |} s.1, s.2)).

Definition Empty : M (A * IndexQueue) bool :=
  q ← qget;
  assert_ "IndexQueue::Empty" (eqb (Front q =? - EINVAL) (Back q =? - EINVAL)) ;;
  assert_ "IndexQueue::Empty" (eqb (length_ q =? 0) (Front q =? - EINVAL)) ;;
  mret (Front q =? - EINVAL).

Definition Remove (i : Z) : M (A * IndexQueue) unit :=
  assert_ "IndexQueue::Remove" (0 <=? i) ;;
  n ← read_node i;
  let prv := prev n in
  let nxt := next n in
  (if prv =? - EINVAL then
     q ← qget;
     assert_ "IndexQueue::Remove" (Front q =? i) ;;
     qmod (SetFront nxt)
   else write_next prv nxt) ;;
  (if nxt =? - EINVAL then
     q ← qget;
     assert_ "IndexQueue::Remove" (Back q =? i) ;;
     qmod (SetBack prv)
   else write_prev nxt prv) ;;
  write_prev i (- EINVAL) ;;
  write_next i (- EINVAL) ;;
  qmod (λ q, set_length_ (length_ q - 1) q).

Definition PopFront : M (A * IndexQueue) Z :=
  e ← Empty;
  if (e : bool) then mret (- EINVAL) else
  q ← qget;
  let front := Front q in
  Remove front ;;
  mret front.

Definition PushBack (i : Z) : M (A * IndexQueue) unit :=
  assert_ "IndexQueue::PushBack" (0 <=? i) ;;
  n ← read_node i;
  assert_ "IndexQueue::PushBack" ((prev n =? - EINVAL) && (next n =? - EINVAL)) ;;
  e ← Empty;
  (if (e : bool) then
     qmod (SetFront i) ;; qmod (SetBack i)
   else
     q ← qget;
     write_prev i (Back q) ;;
     (* BackNode() *)
     assert_ "IndexQueue::BackNode" (0 <=? Back q) ;;
     write_next (Back q) i ;;
     qmod (SetBack i)) ;;
  qmod (λ q, set_length_ (length_ q + 1) q).

End Ops.

(** [IndexQueue::Accept]. The visitor may change the whole state [S] in which
    the array lives; [nxt] reads [array_[i].next] in it. The loop is bounded by
    [fuel]; [wp_Accept] shows that the length of the queue plus one is enough. *)
Fixpoint Accept_loop {S} (fuel : nat) (nxt : S → Z → option Z)
    (visit : Z → M S unit) (i num : Z) : M S Z :=
  match fuel with
  | O => err EFuel
  | Datatypes.S fuel' =>
      if i =? - EINVAL then mret num else
      tmp ← (s ← get; of_option (EUndef "IndexArray[]") (nxt s i));
      visit i ;;
      Accept_loop fuel' nxt visit tmp (num + 1)
  end.

Definition Accept {S} (fuel : nat) (front : S → Z) (nxt : S → Z → option Z)
    (visit : Z → M S unit) : M S Z :=
  i ← gets front; Accept_loop fuel nxt visit i 0.

(** ** Representation *)

Definition hd_or (d : Z) (l : list Z) : Z := match l with [] => d | x :: _ => x end.
Fixpoint last_or (d : Z) (l : list Z) : Z :=
  match l with [] => d | x :: l' => last_or x l' end.

Section Rep.
Context `{IndexArray A R}.
Implicit Types (a : A) (q : IndexQueue) (l : list Z).

(** The nodes [l] are linked, entered from [p] and left towards [n]. *)
Fixpoint dseg a (p : Z) (l : list Z) (n : Z) : Prop :=
  match l with
  | [] => True
  | x :: l' => node_at a x = Some (MkNode p (hd_or n l')) ∧ dseg a x l' n
  end.

Definition is_queue a q l : Prop :=
  NoDup l ∧ dseg a (- EINVAL) l (- EINVAL) ∧
  Front q = hd_or (- EINVAL) l ∧ Back q = last_or (- EINVAL) l ∧
  length_ q = Z.of_nat (length l).

(** What an operation on a queue may change: the nodes in [l]. *)
Definition only_nodes (l : list Z) a a' : Prop :=
  node_rest a' = node_rest a ∧ ∀ j, j ∉ l → node_at a' j = node_at a j.

Lemma last_or_app d l x : last_or d (l ++ [x]) = x.
Proof. revert d. induction l as [|y l IH]; intros d; simpl; [done|apply IH]. Qed.

Lemma last_or_app2 d l1 l2 : last_or d (l1 ++ l2) = last_or (last_or d l1) l2.
Proof. revert d. induction l1; simpl; auto. Qed.

Lemma hd_or_app d l1 l2 : hd_or d (l1 ++ l2) = hd_or (hd_or d l2) l1.
Proof. by destruct l1. Qed.

Lemma dseg_app a p l1 l2 n :
  dseg a p (l1 ++ l2) n ↔ dseg a p l1 (hd_or n l2) ∧ dseg a (last_or p l1) l2 n.
Proof.
  revert p. induction l1 as [|x l1 IH]; intros p; simpl; [tauto|].
  rewrite IH, hd_or_app. tauto.
Qed.

Lemma dseg_frame a a' p l n :
  (∀ x, x ∈ l → node_at a' x = node_at a x) → dseg a p l n → dseg a' p l n.
Proof.
  revert p. induction l as [|x l IH]; intros p Hf; simpl; [done|].
  intros [Hx Hl]. split; [rewrite Hf; [done|set_solver]|].
  apply IH; [|done]. set_solver.
Qed.

Lemma dseg_set_out a p l n i nd : i ∉ l → dseg a p l n → dseg (set_node i nd a) p l n.
Proof.
  intros Hi. apply dseg_frame. intros x Hx. apply node_at_set_ne. by intros ->.
Qed.

Lemma dseg_lookup a p l n x : dseg a p l n → x ∈ l → is_Some (node_at a x).
Proof.
  revert p. induction l as [|y l IH]; intros p; [set_solver|].
  intros [Hy Hl] [->|Hx]%elem_of_cons; [eauto|by eapply IH].
Qed.

Lemma is_queue_nonneg a q l x : is_queue a q l → x ∈ l → 0 ≤ x.
Proof.
  intros (_&Hs&_) Hx. destruct (dseg_lookup _ _ _ _ _ Hs Hx) as [n ?].
  by eapply node_at_nonneg.
Qed.

(** The null index is not an element. *)
Lemma is_queue_null a q l : is_queue a q l → (- EINVAL) ∉ l.
Proof. intros Hq Hx. pose proof (is_queue_nonneg _ _ _ _ Hq Hx). unfold EINVAL in *. lia. Qed.

Lemma hd_or_null a q l : is_queue a q l → hd_or (- EINVAL) l = - EINVAL ↔ l = [].
Proof.
  intros Hq. destruct l as [|x l]; [done|]. simpl. split; [|done].
  intros ->. destruct (is_queue_null _ _ _ Hq). set_solver.
Qed.

Lemma last_or_elem d l : l ≠ [] → last_or d l ∈ l.
Proof.
  revert d. induction l as [|x l IH]; [done|]. intros d _. simpl.
  destruct l as [|y l]; [simpl; set_solver|]. apply elem_of_cons. right. by apply IH.
Qed.

Lemma last_or_null a q l : is_queue a q l → last_or (- EINVAL) l = - EINVAL ↔ l = [].
Proof.
  intros Hq. split; [|by intros ->]. intros E. destruct (decide (l = [])); [done|].
  destruct (is_queue_null _ _ _ Hq). rewrite <- E at 1. by apply last_or_elem.
Qed.

Lemma is_queue_frame a a' q l :
  (∀ x, x ∈ l → node_at a' x = node_at a x) → is_queue a q l → is_queue a' q l.
Proof. intros Hf (?&?&?). split; [done|]. split; [by eapply dseg_frame|done]. Qed.

Lemma only_nodes_refl l a : only_nodes l a a.
Proof. by split. Qed.

Lemma only_nodes_set l a a' i nd :
  i ∈ l → only_nodes l a a' → only_nodes l a (set_node i nd a').
Proof.
  intros Hi [Hr Hn]. split; [by rewrite node_rest_set|].
  intros j Hj. rewrite node_at_set_ne; [by apply Hn|]. by intros ->.
Qed.

(** ** Specifications *)

Lemma wp_write_prev a q i p nd Q :
  node_at a i = Some nd →
  Q tt (set_node i (MkNode p (next nd)) a, q) → wp (write_prev i p) Q (a, q).
Proof.
  intros Hi HQ. unfold write_prev, read_node. repeat wp_step.
  eapply wp_of_option; [done|]. by wp_step.
Qed.

Lemma wp_write_next a q i x nd Q :
  node_at a i = Some nd →
  Q tt (set_node i (MkNode (prev nd) x) a, q) → wp (write_next i x) Q (a, q).
Proof.
  intros Hi HQ. unfold write_next, read_node. repeat wp_step.
  eapply wp_of_option; [done|]. by wp_step.
Qed.

Lemma wp_Empty a q l Q :
  is_queue a q l → Q (bool_decide (l = [])) (a, q) → wp Empty Q (a, q).
Proof.
  intros Hq HQ.
  pose proof (hd_or_null _ _ _ Hq) as Hh. pose proof (last_or_null _ _ _ Hq) as Hl.
  destruct Hq as (_&_&Hf&Hb&Hlen). unfold Empty, qget. repeat wp_step; simpl.
  - rewrite Hf, Hb. apply eqb_true_iff, eq_true_iff_eq. rewrite !Z.eqb_eq. tauto.
  - rewrite Hf, Hlen. apply eqb_true_iff, eq_true_iff_eq. rewrite !Z.eqb_eq, Hh.
    destruct l; naive_solver lia.
  - replace (Front q =? - EINVAL) with (bool_decide (l = [])); [done|].
    apply eq_true_iff_eq. rewrite bool_decide_eq_true, Z.eqb_eq, Hf. tauto.
Qed.

(** Redirecting the last node of a segment, or the first one. *)
Lemma dseg_relink_next a p l x nd n n' :
  NoDup (l ++ [x]) → node_at a x = Some nd → dseg a p (l ++ [x]) n →
  dseg (set_node x (MkNode (prev nd) n') a) p (l ++ [x]) n'.
Proof.
  intros Hnd Hx. rewrite !dseg_app. intros [Hl [Hx' _]]. simpl in *.
  apply NoDup_app in Hnd as (_&Hd&_). rewrite Hx in Hx'. injection Hx' as ->.
  split; [|split; [|done]]; simpl.
  - apply dseg_set_out; [|done]. intros Hin. apply (Hd x Hin). set_solver.
  - by eapply node_at_set_eq.
Qed.

Lemma dseg_relink_prev a p p' x l nd n :
  NoDup (x :: l) → node_at a x = Some nd → dseg a p (x :: l) n →
  dseg (set_node x (MkNode p' (next nd)) a) p' (x :: l) n.
Proof.
  intros Hnd Hx [Hx' Hl]. rewrite Hx in Hx'. injection Hx' as ->.
  apply NoDup_cons in Hnd as [Hni _]. split; [by eapply node_at_set_eq|].
  by apply dseg_set_out.
Qed.

Lemma node_ne_null a i nd : node_at a i = Some nd → (i =? - EINVAL) = false.
Proof. intros Hi%node_at_nonneg. apply Z.eqb_neq. unfold EINVAL. lia. Qed.

(** The first half of [Remove]: the predecessor of [i] is linked to [n]. *)
Lemma wp_unlink_prev a q i l1 n (Q : unit → A * IndexQueue → Prop) :
  NoDup l1 → i ∉ l1 → dseg a (- EINVAL) l1 i → Front q = hd_or i l1 →
  (∀ a' q', dseg a' (- EINVAL) l1 n → only_nodes l1 a a' → Front q' = hd_or n l1 →
     Back q' = Back q → length_ q' = length_ q → Q tt (a', q')) →
  wp (if last_or (- EINVAL) l1 =? - EINVAL then
        q ← qget; assert_ "IndexQueue::Remove" (Front q =? i) ;; qmod (SetFront n)
      else write_next (last_or (- EINVAL) l1) n) Q (a, q).
Proof.
  intros Hnd Hi Hs Hf HQ. destruct l1 as [|x l _] using rev_ind.
  { simpl. unfold qget, qmod. repeat wp_step; simpl in *; [by apply Z.eqb_eq|].
    by apply HQ. }
  rewrite last_or_app. destruct (dseg_lookup _ _ _ _ x Hs) as [nd Hx]; [set_solver|].
  rewrite (node_ne_null _ _ _ Hx). eapply wp_write_next; [done|]. apply HQ; [| |by destruct l|done..].
  - by eapply dseg_relink_next.
  - apply only_nodes_set; [set_solver|]. apply only_nodes_refl.
Qed.

(** The second half: the successor of [i] is linked back to [p]. *)
Lemma wp_unlink_next a q i l2 p (Q : unit → A * IndexQueue → Prop) :
  NoDup l2 → i ∉ l2 → dseg a i l2 (- EINVAL) → Back q = last_or i l2 →
  (∀ a' q', dseg a' p l2 (- EINVAL) → only_nodes l2 a a' → Back q' = last_or p l2 →
     Front q' = Front q → length_ q' = length_ q → Q tt (a', q')) →
  wp (if hd_or (- EINVAL) l2 =? - EINVAL then
        q ← qget; assert_ "IndexQueue::Remove" (Back q =? i) ;; qmod (SetBack p)
      else write_prev (hd_or (- EINVAL) l2) p) Q (a, q).
Proof.
  intros Hnd Hi Hs Hb HQ. destruct l2 as [|x l].
  { simpl. unfold qget, qmod. repeat wp_step; simpl in *; [by apply Z.eqb_eq|].
    by apply HQ. }
  simpl hd_or. destruct (dseg_lookup _ _ _ _ x Hs) as [nd Hx]; [set_solver|].
  rewrite (node_ne_null _ _ _ Hx). eapply wp_write_prev; [done|]. apply HQ; [| |done..].
  - by eapply dseg_relink_prev.
  - apply only_nodes_set; [set_solver|]. apply only_nodes_refl.
Qed.

Lemma wp_Remove a q l1 i l2 Q :
  is_queue a q (l1 ++ i :: l2) →
  (∀ a' q', is_queue a' q' (l1 ++ l2) → node_at a' i = Some null_node →
     only_nodes (l1 ++ i :: l2) a a' → Q tt (a', q')) →
  wp (Remove i) Q (a, q).
Proof.
  intros (Hnd&Hs&Hf&Hb&Hlen) HQ.
  apply dseg_app in Hs as [Hs1 [Hi Hs2]]. simpl in Hs1.
  pose proof (node_at_nonneg _ _ _ Hi) as Hi0.
  rewrite hd_or_app in Hf. rewrite last_or_app2 in Hb. simpl in Hf, Hb.
  apply NoDup_app in Hnd as (Hnd1&Hd&[Hi2 Hnd2]%NoDup_cons).
  assert (i ∉ l1) as Hi1 by set_solver.
  assert (∀ x, x ∈ l1 → x ∉ l2) as Hd12 by set_solver.
  unfold Remove, read_node. wp_step. wp_step; [by apply Z.leb_le|].
  do 3 wp_step. eapply wp_of_option; [done|]. cbn [prev next].
  wp_step. eapply wp_unlink_prev; [done..|].
  intros a1 q1 Hs1' [Hr1 Hn1] Hf1 Hb1 Hl1.
  wp_step. eapply wp_unlink_next; [done|done| |by rewrite Hb1|].
  { eapply dseg_frame; [|done]. set_solver. }
  intros a2 q2 Hs2' [Hr2 Hn2] Hb2 Hf2 Hl2.
  assert (node_at a2 i = node_at a i) as E by (rewrite Hn2, Hn1; done).
  wp_step. eapply wp_write_prev; [by rewrite E|].
  wp_step. eapply wp_write_next; [by eapply node_at_set_eq; rewrite E|].
  cbn [prev next]. unfold qmod. wp_step. apply HQ.
  - split; [|split; [|split; [|split]]].
    + apply NoDup_app. set_solver.
    + apply dseg_app. split; repeat apply dseg_set_out; try done.
      eapply dseg_frame; [|done]. set_solver.
    + simpl. unfold Front in *. simpl. rewrite hd_or_app. congruence.
    + simpl. unfold Back in *. simpl. rewrite last_or_app2. congruence.
    + simpl. rewrite Hl2, Hl1, Hlen, !length_app. simpl. lia.
  - eapply node_at_set_eq, node_at_set_eq. by rewrite E.
  - do 2 (apply only_nodes_set; [set_solver|]). split; [congruence|].
    intros j Hj. rewrite Hn2, Hn1; set_solver.
Qed.

Lemma wp_PushBack a q l i Q :
  is_queue a q l → i ∉ l → node_at a i = Some null_node →
  (∀ a' q', is_queue a' q' (l ++ [i]) → only_nodes (l ++ [i]) a a' → Q tt (a', q')) →
  wp (PushBack i) Q (a, q).
Proof.
  intros Hq Hil Hi HQ. pose proof Hq as (Hnd&Hs&Hf&Hb&Hlen).
  pose proof (node_at_nonneg _ _ _ Hi) as Hi0.
  assert (NoDup (l ++ [i])) by (apply NoDup_app; split; [done|]; split; [set_solver|apply NoDup_singleton]).
  unfold PushBack, read_node, qget, qmod. wp_step. wp_step; [by apply Z.leb_le|].
  do 3 wp_step. eapply wp_of_option; [done|]. wp_step. wp_step; [done|].
  wp_step. eapply wp_Empty; [done|]. destruct (bool_decide_reflect (l = [])) as [->|Hne].
  - repeat wp_step. apply HQ; [|by apply only_nodes_refl].
    split; [done|]. simpl. rewrite Hlen. done.
  - repeat wp_step. eapply wp_write_prev; [done|].
    destruct l as [|x l' _] using rev_ind; [done|].
    simpl snd. rewrite Hb, last_or_app. unfold null_node, next.
    destruct (dseg_lookup _ _ _ _ x Hs) as [nd Hx]; [set_solver|].
    assert (i ≠ x) by set_solver.
    repeat wp_step; [apply Z.leb_le; by eapply node_at_nonneg|].
    eapply wp_write_next; [by rewrite node_at_set_ne|]. repeat wp_step. apply HQ.
    + split; [done|]. split; [|split; [|split]]; simpl.
      * rewrite dseg_app. split.
        -- eapply dseg_relink_next; [done|by rewrite node_at_set_ne|].
           by apply dseg_set_out.
        -- simpl. rewrite last_or_app, node_at_set_ne by done.
           by erewrite node_at_set_eq.
      * unfold Front at 1. simpl. rewrite Hf, (hd_or_app _ (l' ++ [x])). by destruct l'.
      * unfold Back. simpl. by rewrite last_or_app.
      * rewrite Hlen, (length_app (l' ++ [x])). simpl. lia.
    + do 2 (apply only_nodes_set; [set_solver|]). apply only_nodes_refl.
Qed.

Lemma wp_PopFront a q i l Q :
  is_queue a q (i :: l) →
  (∀ a' q', is_queue a' q' l → node_at a' i = Some null_node →
     only_nodes (i :: l) a a' → Q i (a', q')) →
  wp PopFront Q (a, q).
Proof.
  intros Hq HQ. unfold PopFront, qget. wp_step. eapply wp_Empty; [done|].
  rewrite bool_decide_eq_false_2 by done. do 2 wp_step. simpl.
  replace (Front q) with i by (by destruct Hq as (?&?&->&?)).
  wp_step. eapply (wp_Remove _ _ []); [done|]. intros a' q' ???. wp_step. by apply HQ.
Qed.

End Rep.

Lemma is_queue_new `{IndexArray A R} (a : A) : is_queue a new_IndexQueue [].
Proof. split; [apply NoDup_nil_2|done]. Qed.

(** The loop of [Accept] visits the elements that were in the queue when it
    started, in order, if each visit leaves the rest of the queue linked: [I l]
    is what holds when the elements [l] remain to be visited. *)
Lemma wp_Accept_loop {S} fuel nxt (visit : Z → M S unit) (I : list Z → S → Prop) l num s :
  (length l < fuel)%nat → I l s →
  (∀ i l' s', I (i :: l') s' →
     nxt s' i = Some (hd_or (- EINVAL) l') ∧ 0 ≤ i ∧ wp (visit i) (λ _, I l') s') →
  wp (Accept_loop fuel nxt visit (hd_or (- EINVAL) l) num)
     (λ n s', n = num + Z.of_nat (length l) ∧ I [] s') s.
Proof.
  intros Hfuel HI Hv. revert fuel num s Hfuel HI.
  induction l as [|i l IH]; intros [|fuel] num s Hfuel HI; simpl in Hfuel; [lia| |lia|].
  - simpl. wp_step. split; [lia|done].
  - destruct (Hv _ _ _ HI) as (Hn&Hi&Hw). simpl.
    destruct (Z.eqb_spec i (- EINVAL)); [unfold EINVAL in *; lia|].
    repeat wp_step. eapply wp_of_option; [done|]. wp_step.
    eapply wp_mono; [done|]. intros [] s' HI'.
    eapply wp_mono; [apply IH; [lia|done]|]. simpl. intros ? s'' [-> ?].
    split; [lia|done].
Qed.
