(* ===== verification/AddrTransTable.v ===== *)
(** AddrTransTable (src/addr_trans_table.h, src/addr_trans_table.cc): the
    block-granularity address translation table (ATT). Entries live in an array;
    four queues (CLEAN, LOAN, FREE, DIRTY) are threaded through their nodes and
    [tag_index_] finds an entry by the tag of its physical block. The abstract
    table [AbsATT] keeps the live entries by index and the queues as lists;
    [att_rep] relates the two and every operation is proved to implement its
    abstract counterpart. *)

From S2P Require Import Prelude Profiler IndexQueue.

(** [ATTEntry::State] *)
Inductive ATTState := CLEAN | LOAN | FREE | DIRTY | HIDDEN | TEMP | STAINED.

#[global] Instance ATTState_eq_dec : EqDecision ATTState.
Proof. solve_decision. Defined.

Definition state_eqb (x y : ATTState) : bool := bool_decide (x = y).

(** The enumerator's value. *)
Definition state_num (s : ATTState) : Z :=
  match s with
  | CLEAN => 0 | LOAN => 1 | FREE => 2 | DIRTY => 3 | HIDDEN => 4 | TEMP => 5 | STAINED => 6
  end.

(** [state < DIRTY ? state : DIRTY] *)
Definition StateIndex (s : ATTState) : Z :=
  if state_num s <? state_num DIRTY then state_num s else state_num DIRTY.

Record ATTEntry := MkATTEntry {
  phy_tag : Z;
  mach_base : Z;
  queue_node : IndexNode;
  state : ATTState;
  epoch_reads : Z;
  epoch_writes : Z;
}.

Definition set_phy_tag (v : Z) (r : ATTEntry) : ATTEntry :=
  {| phy_tag := v; mach_base := mach_base r; queue_node := queue_node r; state
     := state r; epoch_reads := epoch_reads r; epoch_writes := epoch_writes r
     |}.
Definition set_mach_base (v : Z) (r : ATTEntry) : ATTEntry :=
  {| phy_tag := phy_tag r; mach_base := v; queue_node := queue_node r; state
     := state r; epoch_reads := epoch_reads r; epoch_writes := epoch_writes r
     |}.
Definition set_queue_node (v : IndexNode) (r : ATTEntry) : ATTEntry :=
  {| phy_tag := phy_tag r; mach_base := mach_base r; queue_node := v; state :=
     state r; epoch_reads := epoch_reads r; epoch_writes := epoch_writes r |}.
Definition set_state (v : ATTState) (r : ATTEntry) : ATTEntry :=
  {| phy_tag := phy_tag r; mach_base := mach_base r; queue_node := queue_node
     r; state := v; epoch_reads := epoch_reads r; epoch_writes := epoch_writes
     r |}.
Definition set_epoch_reads (v : Z) (r : ATTEntry) : ATTEntry :=
  {| phy_tag := phy_tag r; mach_base := mach_base r; queue_node := queue_node
     r; state := state r; epoch_reads := v; epoch_writes := epoch_writes r |}.
Definition set_epoch_writes (v : Z) (r : ATTEntry) : ATTEntry :=
  {| phy_tag := phy_tag r; mach_base := mach_base r; queue_node := queue_node
     r; state := state r; epoch_reads := epoch_reads r; epoch_writes := v |}.

Record AddrTransTable := MkATT {
  length_ : Z;
  block_bits_ : Z;
  block_mask_ : Z;
  tag_index_ : gmap Z Z;
  entries_ : list ATTEntry;
  queues_ : list IndexQueue;
}.

Definition set_length_ (v : Z) (r : AddrTransTable) : AddrTransTable :=
  {| length_ := v; block_bits_ := block_bits_ r; block_mask_ := block_mask_ r;
     tag_index_ := tag_index_ r; entries_ := entries_ r; queues_ := queues_ r
     |}.
Definition set_block_bits_ (v : Z) (r : AddrTransTable) : AddrTransTable :=
  {| length_ := length_ r; block_bits_ := v; block_mask_ := block_mask_ r;
     tag_index_ := tag_index_ r; entries_ := entries_ r; queues_ := queues_ r
     |}.
Definition set_block_mask_ (v : Z) (r : AddrTransTable) : AddrTransTable :=
  {| length_ := length_ r; block_bits_ := block_bits_ r; block_mask_ := v;
     tag_index_ := tag_index_ r; entries_ := entries_ r; queues_ := queues_ r
     |}.
Definition set_tag_index_ (v : gmap Z Z) (r : AddrTransTable) : AddrTransTable :=
  {| length_ := length_ r; block_bits_ := block_bits_ r; block_mask_ :=
     block_mask_ r; tag_index_ := v; entries_ := entries_ r; queues_ :=
     queues_ r |}.
Definition set_entries_ (v : list ATTEntry) (r : AddrTransTable) : AddrTransTable :=
  {| length_ := length_ r; block_bits_ := block_bits_ r; block_mask_ :=
     block_mask_ r; tag_index_ := tag_index_ r; entries_ := v; queues_ :=
     queues_ r |}.
Definition set_queues_ (v : list IndexQueue) (r : AddrTransTable) : AddrTransTable :=
  {| length_ := length_ r; block_bits_ := block_bits_ r; block_mask_ :=
     block_mask_ r; tag_index_ := tag_index_ r; entries_ := entries_ r;
     queues_ := v |}.

(** [IndexNode& operator[](int i) { return entries_[i].queue_node; }] *)
#[global] Program Instance entries_IndexArray :
    IndexArray (list ATTEntry) (list ATTEntry) := {|
  node_at es i := queue_node <$> zlookup es i;
  set_node i n es :=
    match zlookup es i with Some e => zinsert i (set_queue_node n e) es | None => es end;
  node_rest es := set_queue_node null_node <$> es;
|}.
Next Obligation. intros a i n [e [? _]]%fmap_Some. by eapply zlookup_Some. Qed.
Next Obligation.
  intros a i n n' [e [He _]]%fmap_Some. simpl. rewrite He, zlookup_insert_eq; [done|].
  by eapply zlookup_Some.
Qed.
Next Obligation.
  intros a i j n' Hij. simpl. destruct (zlookup a i); [|done]. by rewrite zlookup_insert_ne.
Qed.
Next Obligation.
  intros a i n'. simpl. destruct (zlookup a i) as [e|] eqn:He; [|done].
  rewrite zinsert_fmap. apply zinsert_id. by rewrite zlookup_fmap, He.
Qed.

(** The constructor of an entry sets the statistics and the links and leaves the
    tag, the base and the state as they are in the memory the array was given:
    [junk] is that memory. *)
Definition new_ATTEntry (junk : ATTEntry) : ATTEntry :=
  {| phy_tag := phy_tag junk; mach_base := mach_base junk; queue_node := null_node;
     state := state junk; epoch_reads := 0; epoch_writes := 0 |}.

Definition block_size (t : AddrTransTable) : Z := i32 (Z.shiftl 1 (block_bits_ t)).
Definition ToTag (t : AddrTransTable) (addr : Z) : Z := i64 (Z.shiftr addr (block_bits_ t)).
Definition ToAddr (t : AddrTransTable) (tag : Z) : Z := u64 (Z.shiftl (u64 tag) (block_bits_ t)).

(** [GetQueue(state)] with an operation run on it. *)
Definition with_queue {A} (s : ATTState) (m : M (list ATTEntry * IndexQueue) A) :
    M AddrTransTable A := λ t,
  match zlookup (queues_ t) (StateIndex s) with
  | None => Err (EUndef "AddrTransTable::GetQueue")
  | Some q =>
      match m (entries_ t, q) with
      | Err e => Err e
      | Ok (a, (es, q')) =>
          Ok (a, set_entries_ es (set_queues_ (zinsert (StateIndex s) q' (queues_ t)) t))
      end
  end.

Definition new_AddrTransTable (len bits : Z) (junk : Z → ATTEntry) : M unit AddrTransTable :=
  let t0 := {| length_ := len; block_bits_ := bits;
               block_mask_ := u64 (i32 (Z.shiftl 1 bits) - 1); tag_index_ := ∅;
               entries_ := (λ i, new_ATTEntry (junk i)) <$> zseq len;
               queues_ := replicate 4 new_IndexQueue |} in
  λ u, match for_each (zseq len) (λ i, with_queue FREE (PushBack i)) t0 with
       | Ok (_, t) => Ok (t, u)
       | Err e => Err e
       end.

(** [entries_[i]] of the vector; undefined out of range. *)
Definition entry_at (i : Z) : M AddrTransTable ATTEntry :=
  t ← get; of_option (EUndef "entries_[]") (zlookup (entries_ t) i).
Definition entry_mod (i : Z) (f : ATTEntry → ATTEntry) : M AddrTransTable unit :=
  e ← entry_at i; modify (λ t, set_entries_ (zinsert i (f e) (entries_ t)) t).

Definition At (i : Z) : M AddrTransTable ATTEntry :=
  t ← get;
  assert_ "AddrTransTable::At" ((0 <=? i) && (i <? length_ t)) ;;
  entry_at i.

Definition Lookup (tag : Z) (pf : pfref) : PM AddrTransTable Z :=
  prof pf AddTableOp ;;
  own (t ← get;
       match tag_index_ t !! tag with
       | None => mret (- EINVAL)
       | Some i =>
           entry ← entry_at i;
           assert_ "AddrTransTable::Lookup"
             (negb (state_eqb (state entry) FREE) && (phy_tag entry =? tag)) ;;
           with_queue (state entry) (Remove i) ;;
           with_queue (state entry) (PushBack i) ;;
           mret i
       end).

Definition IsEmpty (s : ATTState) : M AddrTransTable bool :=
  assert_ "AddrTransTable::IsEmpty" (state_num s <=? state_num DIRTY) ;;
  with_queue s Empty.

Definition GetLength (s : ATTState) : M AddrTransTable Z :=
  assert_ "AddrTransTable::GetLength" (state_num s <=? state_num DIRTY) ;;
  with_queue s (q ← qget; mret (IndexQueue.length_ q)).

Definition GetFront (s : ATTState) : M AddrTransTable Z :=
  assert_ "AddrTransTable::GetFront" (state_num s <? state_num DIRTY) ;;
  with_queue s (q ← qget; mret (Front q)).

Definition Setup (tag base : Z) (s : ATTState) (pf : pfref) : PM AddrTransTable Z :=
  i ← own (t ← get;
           assert_ "AddrTransTable::Setup" (bool_decide (tag_index_ t !! tag = None)) ;;
           e ← with_queue FREE Empty;
           assert_ "AddrTransTable::Setup" (negb e) ;;
           i ← with_queue FREE PopFront;
           with_queue s (PushBack i) ;;
           entry_mod i (set_state s) ;;
           entry_mod i (set_phy_tag tag) ;;
           entry_mod i (set_mach_base base) ;;
           modify (λ t, set_tag_index_ (<[tag := i]> (tag_index_ t)) t) ;;
           mret i);
  prof pf AddTableOp ;;
  mret i.

Definition ShiftState (index : Z) (new_state : ATTState) (pf : pfref) : PM AddrTransTable unit :=
  own (entry ← entry_at index;
       assert_ "AddrTransTable::ShiftState" (negb (state_eqb (state entry) new_state)) ;;
       (if state_eqb new_state FREE then
          modify (λ t, set_tag_index_ (delete (phy_tag entry) (tag_index_ t)) t)
        else mret tt) ;;
       with_queue (state entry) (Remove index) ;;
       with_queue new_state (PushBack index) ;;
       entry_mod index (set_state new_state)) ;;
  prof pf AddTableOp.

Definition Reset (index new_base : Z) (new_state : ATTState) (pf : pfref) :
    PM AddrTransTable unit :=
  own (entry_mod index (set_mach_base new_base)) ;;
  ShiftState index new_state pf.

Definition ClearStats (pf : pfref) : PM AddrTransTable unit :=
  own (modify (λ t, set_entries_ ((λ e, set_epoch_reads 0 (set_epoch_writes 0 e)) <$> entries_ t) t)) ;;
  prof pf AddTableOp.

(** [tag_index_.find(Tag(phy_addr)) != tag_index_.end()]: the argument is cast to
    a tag, not translated to one. *)
Definition Contains (phy_addr : Z) (pf : pfref) : PM AddrTransTable bool :=
  prof pf AddTableOp ;;
  own (t ← get; mret (bool_decide (is_Some (tag_index_ t !! i64 phy_addr)))).

Definition Translate (phy_addr base : Z) : M AddrTransTable Z :=
  t ← get;
  assert_ "AddrTransTable::Translate" (Z.land base (block_mask_ t) =? 0) ;;
  mret (u64 (base + Z.land phy_addr (block_mask_ t))).

Definition AddBlockRead (index : Z) : M AddrTransTable unit :=
  entry_mod index (λ e, set_epoch_reads (i32 (epoch_reads e + 1)) e).
Definition AddBlockWrite (index : Z) : M AddrTransTable unit :=
  entry_mod index (λ e, set_epoch_writes (i32 (epoch_writes e + 1)) e).

(** [VisitQueue] run in a state [S] that holds the table. *)
Definition VisitQueue {S} (att : S → AddrTransTable) (s : ATTState)
    (visit : Z → M S unit) : M S Z :=
  assert_ "AddrTransTable::VisitQueue" (state_num s <=? state_num DIRTY) ;;
  st ← get;
  q ← of_option (EUndef "AddrTransTable::GetQueue") (zlookup (queues_ (att st)) (StateIndex s));
  Accept (Datatypes.S (Z.to_nat (length_ (att st)))) (λ _, Front q)
    (λ s i, next <$> node_at (entries_ (att s)) i) visit.

(** ** Queues of the table *)

Definition lremove (i : Z) (l : list Z) : list Z := filter (λ x, x ≠ i) l.

Definition qset (k : Z) (l : list Z) (aq : Z → list Z) : Z → list Z :=
  λ k', if decide (k' = k) then l else aq k'.

(** The links spell the lists [aq 0 .. aq 3], which share no element. *)
Definition qrep (t : AddrTransTable) (aq : Z → list Z) : Prop :=
  (∀ k, 0 ≤ k < 4 → ∃ q, zlookup (queues_ t) k = Some q ∧ is_queue (entries_ t) q (aq k)) ∧
  (∀ k k' i, 0 ≤ k < 4 → 0 ≤ k' < 4 → i ∈ aq k → i ∈ aq k' → k = k').

(** Everything but the queues and the links. *)
Definition same_rest (t t' : AddrTransTable) : Prop :=
  length_ t' = length_ t ∧ block_bits_ t' = block_bits_ t ∧ block_mask_ t' = block_mask_ t ∧
  tag_index_ t' = tag_index_ t ∧ node_rest (entries_ t') = node_rest (entries_ t).

Lemma StateIndex_range s : 0 ≤ StateIndex s < 4.
Proof. by destruct s. Qed.
#[export] Hint Resolve StateIndex_range : sexain.

Lemma lremove_absent i l : i ∉ l → lremove i l = l.
Proof.
  unfold lremove. induction l as [|x l IH]; [done|]. intros [Hx Hl]%not_elem_of_cons.
  rewrite filter_cons_True by congruence. by rewrite IH.
Qed.

Lemma lremove_split l1 i l2 : NoDup (l1 ++ i :: l2) → lremove i (l1 ++ i :: l2) = l1 ++ l2.
Proof.
  intros (_&Hd&[Hi _]%NoDup_cons)%NoDup_app.
  unfold lremove. rewrite filter_app, filter_cons_False by naive_solver.
  f_equal; apply lremove_absent; set_solver.
Qed.

Lemma elem_of_lremove i x l : x ∈ lremove i l ↔ x ∈ l ∧ x ≠ i.
Proof. unfold lremove. rewrite list_elem_of_filter. tauto. Qed.

Lemma qset_eq k l aq : qset k l aq k = l.
Proof. unfold qset. by rewrite decide_True. Qed.
Lemma qset_ne k k' l aq : k' ≠ k → qset k l aq k' = aq k'.
Proof. intros. unfold qset. by rewrite decide_False. Qed.

#[global] Instance same_rest_preorder : PreOrder same_rest.
Proof. split; [done|]. unfold same_rest. intros x y z. naive_solver congruence. Qed.

(** The general rule: an operation on queue [k] that turns the list [l] into
    [l'], touching only nodes of [l ++ ex] where the indices [ex] are in no
    other queue. *)
Lemma wp_with_queue {A} s (m : M (list ATTEntry * IndexQueue) A) t aq l' ex
    (P : A → list ATTEntry → Prop) Q :
  qrep t aq →
  (∀ k, 0 ≤ k < 4 → k ≠ StateIndex s → ∀ i, i ∈ ex ∨ i ∈ l' → i ∉ aq k) →
  (∀ q, is_queue (entries_ t) q (aq (StateIndex s)) →
     wp m (λ r st, is_queue st.1 st.2 l' ∧
             only_nodes (aq (StateIndex s) ++ ex) (entries_ t) st.1 ∧ P r st.1)
        (entries_ t, q)) →
  (∀ r t', qrep t' (qset (StateIndex s) l' aq) → same_rest t t' →
     P r (entries_ t') → Q r t') →
  wp (with_queue s m) Q t.
Proof.
  intros [Hqs Hdisj] Hex Hm HQ. pose proof (StateIndex_range s) as Hr.
  destruct (Hqs _ Hr) as (q&Hq&Hl). specialize (Hm _ Hl). unfold wp, with_queue in *.
  rewrite Hq. destruct (m (entries_ t, q)) as [[r [es q']]|]; [|done]. simpl in Hm.
  destruct Hm as (Hl'&[Hrest Hn]&HP). apply HQ; [|done|done].
  split; simpl.
  - intros k Hk. destruct (decide (k = StateIndex s)) as [->|Hne].
    + exists q'. rewrite qset_eq. split; [|done]. apply zlookup_insert_eq.
      by eapply zlookup_Some.
    + destruct (Hqs k Hk) as (qk&Hqk&Hlk). exists qk.
      rewrite qset_ne, zlookup_insert_ne by done. split; [done|].
      eapply is_queue_frame; [|done]. intros x Hx. apply Hn.
      intros [Hx'|Hx']%elem_of_app.
      * by specialize (Hdisj _ _ _ Hk Hr Hx Hx').
      * eapply (Hex k); eauto.
  - intros k k' i Hk Hk'. unfold qset. do 2 case_decide; subst; try congruence.
    + intros Hi Hi'. exfalso. eapply (Hex k'); eauto.
    + intros Hi Hi'. exfalso. eapply (Hex k); eauto.
    + eauto.
Qed.

Lemma wp_queue_Remove s i t aq Q :
  qrep t aq → i ∈ aq (StateIndex s) →
  (∀ t', qrep t' (qset (StateIndex s) (lremove i (aq (StateIndex s))) aq) →
     same_rest t t' → node_at (entries_ t') i = Some null_node → Q tt t') →
  wp (with_queue s (Remove i)) Q t.
Proof.
  intros Hq Hi HQ. pose proof (StateIndex_range s) as Hr.
  eapply (wp_with_queue _ _ _ _ (lremove i (aq (StateIndex s))) []
    (λ _ es, node_at es i = Some null_node)); [done| | |].
  - intros k Hk Hne j [?|[Hj _]%elem_of_lremove]; [set_solver|].
    intros Hj'. by destruct (proj2 Hq _ _ _ Hk Hr Hj' Hj).
  - intros q Hl. pose proof Hl as (Hnd&_).
    apply list_elem_of_split in Hi as (l1&l2&E). rewrite E in *.
    rewrite lremove_split by done. eapply wp_Remove; [done|]. intros a' q' ???.
    rewrite app_nil_r. done.
  - intros [] t' ???. by apply HQ.
Qed.

Lemma wp_queue_PushBack s i t aq Q :
  qrep t aq → (∀ k, 0 ≤ k < 4 → i ∉ aq k) → node_at (entries_ t) i = Some null_node →
  (∀ t', qrep t' (qset (StateIndex s) (aq (StateIndex s) ++ [i]) aq) →
     same_rest t t' → Q tt t') →
  wp (with_queue s (PushBack i)) Q t.
Proof.
  intros Hq Hi Hnull HQ. pose proof (StateIndex_range s) as Hr.
  eapply (wp_with_queue _ _ _ _ (aq (StateIndex s) ++ [i]) [i] (λ _ _, True)); [done| | |].
  - intros k Hk Hne j Hj Hj'. assert (j = i ∨ j ∈ aq (StateIndex s)) as [->|Hj2] by set_solver.
    + by apply (Hi k).
    + by destruct (proj2 Hq _ _ _ Hk Hr Hj' Hj2).
  - intros q Hl. eapply wp_PushBack; [done|by apply Hi|done|]. by intros a' q' ??.
  - intros [] t' ???. by apply HQ.
Qed.

Lemma wp_queue_PopFront s i l t aq Q :
  qrep t aq → aq (StateIndex s) = i :: l →
  (∀ t', qrep t' (qset (StateIndex s) (lremove i (aq (StateIndex s))) aq) →
     same_rest t t' → node_at (entries_ t') i = Some null_node → Q i t') →
  wp (with_queue s PopFront) Q t.
Proof.
  intros Hq Hl HQ. pose proof (StateIndex_range s) as Hr.
  eapply (wp_with_queue _ _ _ _ (lremove i (aq (StateIndex s))) []
    (λ r es, r = i ∧ node_at es i = Some null_node)); [done| | |].
  - intros k Hk Hne j [?|[Hj _]%elem_of_lremove]; [set_solver|].
    intros Hj'. by destruct (proj2 Hq _ _ _ Hk Hr Hj' Hj).
  - intros q Hiq. pose proof Hiq as (Hnd&_). rewrite Hl in *.
    replace (lremove i (i :: l)) with l by (symmetry; by apply (lremove_split [])).
    eapply wp_PopFront; [done|]. intros a' q' ???.
    by rewrite app_nil_r.
  - intros r t' ?? [-> ?]. by apply HQ.
Qed.

(** Reading a queue leaves the table as it is. *)
Lemma wp_queue_read {A} s (m : M (list ATTEntry * IndexQueue) A) t aq (r : A) (Q : A → AddrTransTable → Prop) :
  qrep t aq →
  (∀ q, is_queue (entries_ t) q (aq (StateIndex s)) →
     wp m (λ r' st, r' = r ∧ st = (entries_ t, q)) (entries_ t, q)) →
  Q r t → wp (with_queue s m) Q t.
Proof.
  intros [Hq _] Hm HQ. destruct (Hq _ (StateIndex_range s)) as (q&Hz&Hl).
  specialize (Hm q Hl). unfold wp, with_queue in *. rewrite Hz.
  destruct (m (entries_ t, q)) as [[r' [es q']]|]; [|done]. destruct Hm as [-> [= -> ->]].
  replace (set_entries_ _ _) with t; [done|].
  rewrite zinsert_id by done. by destruct t.
Qed.

(** ** The abstract table *)

(** [a_ents] is the array without its links, [a_live] its entries in use, by
    index, and [a_q k] the [k]-th queue from front to back. *)
Record AbsATT := MkAbsATT {
  a_ents : list ATTEntry;
  a_live : gmap Z ATTEntry;
  a_q : Z → list Z;
}.

Definition strip (e : ATTEntry) : ATTEntry := set_queue_node null_node e.

Definition qof (a : AbsATT) (s : ATTState) : list Z := a_q a (StateIndex s).

Definition qmove (i k k' : Z) (aq : Z → list Z) : Z → list Z :=
  let aq1 := qset k (lremove i (aq k)) aq in qset k' (aq1 k' ++ [i]) aq1.

Definition abs_touch (i : Z) (e : ATTEntry) (a : AbsATT) : AbsATT :=
  {| a_ents := a_ents a; a_live := a_live a;
     a_q := qmove i (StateIndex (state e)) (StateIndex (state e)) (a_q a) |}.

Definition abs_write (i : Z) (e : ATTEntry) (a : AbsATT) : AbsATT :=
  {| a_ents := zinsert i e (a_ents a); a_live := <[i := e]> (a_live a); a_q := a_q a |}.

Definition abs_setup (i : Z) (e : ATTEntry) (a : AbsATT) : AbsATT :=
  {| a_ents := zinsert i e (a_ents a); a_live := <[i := e]> (a_live a);
     a_q := qmove i (StateIndex FREE) (StateIndex (state e)) (a_q a) |}.

Definition abs_shift (i : Z) (e : ATTEntry) (s : ATTState) (a : AbsATT) : AbsATT :=
  {| a_ents := zinsert i (set_state s e) (a_ents a);
     a_live := if state_eqb s FREE then delete i (a_live a)
               else <[i := set_state s e]> (a_live a);
     a_q := qmove i (StateIndex (state e)) (StateIndex s) (a_q a) |}.

Definition same_const (t t' : AddrTransTable) : Prop :=
  length_ t' = length_ t ∧ block_bits_ t' = block_bits_ t ∧ block_mask_ t' = block_mask_ t.

Record att_rep (t : AddrTransTable) (a : AbsATT) : Prop := {
  r_q : qrep t (a_q a);
  r_cover i : (∃ k, 0 ≤ k < 4 ∧ i ∈ a_q a k) ↔ 0 ≤ i < length_ t;
  r_len : Z.of_nat (length (entries_ t)) = length_ t;
  r_ents : node_rest (entries_ t) = a_ents a;
  r_live i : a_live a !! i =
    if decide (i ∈ qof a FREE) then None else zlookup (a_ents a) i;
  r_state i e : a_live a !! i = Some e → state e ≠ FREE ∧ i ∈ qof a (state e);
  r_tag tag i : tag_index_ t !! tag = Some i ↔
    ∃ e, a_live a !! i = Some e ∧ phy_tag e = tag;
}.

#[global] Instance same_const_preorder : PreOrder same_const.
Proof. split; [done|]. unfold same_const. intros x y z. naive_solver congruence. Qed.

Lemma state_eqb_eq x y : state_eqb x y = true ↔ x = y.
Proof. unfold state_eqb. by rewrite bool_decide_eq_true. Qed.
Lemma state_eqb_neq x y : state_eqb x y = false ↔ x ≠ y.
Proof. unfold state_eqb. by rewrite bool_decide_eq_false. Qed.

Lemma StateIndex_FREE s : StateIndex s = StateIndex FREE → s = FREE.
Proof. by destruct s. Qed.

Section RepFacts.
Context (t : AddrTransTable) (a : AbsATT) (Hrep : att_rep t a).

Lemma rep_entry i : 0 ≤ i < length_ t → ∃ e, zlookup (entries_ t) i = Some e ∧
  zlookup (a_ents a) i = Some (strip e).
Proof.
  intros Hi. destruct (proj2 (zlookup_is_Some (entries_ t) i)) as [e He].
  { by rewrite (r_len _ _ Hrep). }
  exists e. split; [done|]. rewrite <- (r_ents _ _ Hrep). simpl.
  by rewrite zlookup_fmap, He.
Qed.

Lemma rep_live_entry i e : a_live a !! i = Some e →
  0 ≤ i < length_ t ∧ ∃ e0, zlookup (entries_ t) i = Some e0 ∧ e = strip e0.
Proof.
  intros Hi. pose proof (r_state _ _ Hrep _ _ Hi) as [_ Hq].
  assert (0 ≤ i < length_ t) as Hr.
  { apply (r_cover _ _ Hrep). eexists. split; [|done]. apply StateIndex_range. }
  split; [done|]. destruct (rep_entry i Hr) as (e0&He0&Hs). exists e0. split; [done|].
  rewrite (r_live _ _ Hrep) in Hi. case_decide; [done|]. congruence.
Qed.

Lemma rep_free_or_live i : 0 ≤ i < length_ t → i ∈ qof a FREE ∨ is_Some (a_live a !! i).
Proof.
  intros Hi. rewrite (r_live _ _ Hrep). case_decide; [by left|right].
  destruct (rep_entry i Hi) as (e&_&->). eauto.
Qed.

Lemma rep_not_free i e : a_live a !! i = Some e → i ∉ qof a FREE.
Proof. rewrite (r_live _ _ Hrep). by case_decide. Qed.

(** The queue an entry is in tells the class of its state. *)
Lemma rep_queue_state k i e :
  0 ≤ k < 4 → i ∈ a_q a k → a_live a !! i = Some e → StateIndex (state e) = k.
Proof.
  intros Hk Hi He. destruct (r_state _ _ Hrep _ _ He) as [_ Hq].
  eapply (proj2 (r_q _ _ Hrep)); [apply StateIndex_range|done|done|done].
Qed.

Lemma rep_queue_live s i : s ≠ FREE → i ∈ qof a s →
  ∃ e, a_live a !! i = Some e ∧ StateIndex (state e) = StateIndex s.
Proof.
  intros Hs Hi. assert (0 ≤ i < length_ t) as Hr.
  { apply (r_cover _ _ Hrep). eexists. split; [|done]. apply StateIndex_range. }
  destruct (rep_free_or_live i Hr) as [Hf|[e He]].
  - destruct Hs. apply StateIndex_FREE.
    eapply (proj2 (r_q _ _ Hrep)); [apply StateIndex_range..|done|done].
  - exists e. split; [done|]. eapply rep_queue_state; [apply StateIndex_range|done|done].
Qed.

Lemma rep_NoDup s : NoDup (qof a s).
Proof. destruct (proj1 (r_q _ _ Hrep) _ (StateIndex_range s)) as (q&_&Hq&_). done. Qed.

Lemma rep_tag_inj i j e e' :
  a_live a !! i = Some e → a_live a !! j = Some e' → phy_tag e = phy_tag e' → i = j.
Proof.
  intros Hi Hj E.
  assert (tag_index_ t !! phy_tag e = Some i) by (apply (r_tag _ _ Hrep); eauto).
  assert (tag_index_ t !! phy_tag e = Some j) by (apply (r_tag _ _ Hrep); eauto).
  congruence.
Qed.

End RepFacts.

(** ** Specifications of the operations *)

Lemma elem_of_qmove i k k' aq j x : (i ∈ aq j → j = k) →
  x ∈ qmove i k k' aq j ↔ (x = i ∧ j = k') ∨ (x ≠ i ∧ x ∈ aq j).
Proof.
  intros Hi. unfold qmove, qset.
  repeat case_decide; subst; rewrite ?elem_of_app, ?list_elem_of_singleton, ?elem_of_lremove;
    destruct (decide (x = i)); subst; naive_solver.
Qed.

Lemma wp_qmove {A} s s' i t aq (k : M AddrTransTable A) Q :
  qrep t aq → i ∈ aq (StateIndex s) →
  (∀ t', qrep t' (qmove i (StateIndex s) (StateIndex s') aq) → same_rest t t' → wp k Q t') →
  wp (with_queue s (Remove i) ;; with_queue s' (PushBack i) ;; k) Q t.
Proof.
  intros Hq Hi HQ. pose proof (StateIndex_range s) as Hr. wp_step.
  eapply wp_queue_Remove; [done|done|]. intros t1 Hq1 Hs1 Hn1.
  wp_step. eapply wp_queue_PushBack; [done| |done|].
  - intros k' Hk. unfold qset. case_decide; [rewrite elem_of_lremove; tauto|].
    intros Hik. by destruct (proj2 Hq _ _ _ Hk Hr Hik Hi).
  - intros t2 Hq2 Hs2. apply HQ; [done|]. by etrans.
Qed.

(** Writing a field of an entry other than its links. *)
Lemma wp_entry_mod i f e t aq Q :
  zlookup (entries_ t) i = Some e → queue_node (f e) = queue_node e → qrep t aq →
  (∀ t', qrep t' aq → same_const t t' → tag_index_ t' = tag_index_ t →
     entries_ t' = zinsert i (f e) (entries_ t) → Q tt t') →
  wp (entry_mod i f) Q t.
Proof.
  intros He Hf [Hq Hd] HQ. unfold entry_mod, entry_at. repeat wp_step.
  eapply wp_of_option; [done|]. wp_step. apply HQ; [|done..].
  split; [|done]. intros k Hk. destruct (Hq k Hk) as (q&?&Hl). exists q. split; [done|].
  eapply is_queue_frame; [|done]. intros x _. simpl.
  destruct (decide (i = x)) as [->|]; [|by rewrite zlookup_insert_ne].
  rewrite zlookup_insert_eq by (by eapply zlookup_Some). by rewrite He; simpl; rewrite Hf.
Qed.

(** The abstract table after an entry that moved from queue [k] is rewritten. *)
Lemma rep_rewrite t a t' i k e' live' :
  att_rep t a → 0 ≤ i < length_ t → i ∈ a_q a k → 0 ≤ k < 4 →
  let a' := MkAbsATT (zinsert i e' (a_ents a)) live'
              (qmove i k (StateIndex (state e')) (a_q a)) in
  qrep t' (a_q a') → same_const t t' →
  node_rest (entries_ t') = zinsert i e' (node_rest (entries_ t)) →
  live' = (if state_eqb (state e') FREE then delete i (a_live a) else <[i := e']> (a_live a)) →
  (∀ tag j, tag_index_ t' !! tag = Some j ↔ ∃ e, live' !! j = Some e ∧ phy_tag e = tag) →
  att_rep t' a'.
Proof.
  intros Hrep Hi Hik Hk a' Hq' (Hlen&Hbits&Hmask) Hrest Hlive Htag.
  assert (∀ j, 0 ≤ j < 4 → i ∈ a_q a j → j = k) as Huniq.
  { intros j Hj Hij. by eapply (proj2 (r_q _ _ Hrep)). }
  subst a'. split; cbn [a_ents a_live a_q].
  - done.
  - intros j. rewrite Hlen, <- (r_cover _ _ Hrep). destruct (decide (j = i)) as [->|Hne].
    + split; intros _; eexists; split; [done|done|apply StateIndex_range|].
      apply elem_of_qmove; [apply Huniq, StateIndex_range|]. by left.
    + split; intros (k'&Hk'&Hj); exists k'; (split; [done|]);
        apply (elem_of_qmove i k) in Hj || apply elem_of_qmove; naive_solver.
  - rewrite Hlen, <- (r_len _ _ Hrep). apply (f_equal length) in Hrest. simpl in Hrest.
    rewrite length_zinsert, !length_fmap in Hrest. lia.
  - by rewrite Hrest, (r_ents _ _ Hrep).
  - intros j. unfold qof. simpl. rewrite Hlive.
    assert (j ∈ qmove i k (StateIndex (state e')) (a_q a) (StateIndex FREE) ↔
      (j = i ∧ StateIndex FREE = StateIndex (state e')) ∨ (j ≠ i ∧ j ∈ qof a FREE)) as Hj.
    { apply elem_of_qmove, Huniq. apply StateIndex_range. }
    destruct (decide (j = i)) as [->|Hne].
    + destruct (state_eqb (state e') FREE) eqn:E.
      * rewrite state_eqb_eq in E. rewrite lookup_delete_eq, decide_True; [done|].
        apply Hj. left. by rewrite E.
      * rewrite state_eqb_neq in E. rewrite lookup_insert_eq, decide_False.
        -- symmetry. apply zlookup_insert_eq. destruct (rep_entry _ _ Hrep i Hi) as (?&_&?).
           by eapply zlookup_Some.
        -- rewrite Hj. intros [[_ HF]|[]]; [|done]. destruct E. by apply StateIndex_FREE.
    + transitivity (a_live a !! j).
      { destruct (state_eqb _ _); [by rewrite lookup_delete_ne|by rewrite lookup_insert_ne]. }
      rewrite (r_live _ _ Hrep), zlookup_insert_ne by done.
      apply decide_ext. rewrite Hj. tauto.
  - intros j e. rewrite Hlive. unfold qof. simpl. destruct (decide (j = i)) as [->|Hne].
    + destruct (state_eqb (state e') FREE) eqn:E; [by rewrite lookup_delete_eq|].
      rewrite state_eqb_neq in E. rewrite lookup_insert_eq. intros [= <-]. split; [done|].
      apply elem_of_qmove; [apply Huniq, StateIndex_range|by left].
    + intros He. assert (a_live a !! j = Some e) as He'.
      { destruct (state_eqb _ _); [by rewrite lookup_delete_ne in He|by rewrite lookup_insert_ne in He]. }
      destruct (r_state _ _ Hrep _ _ He') as [? Hj]. split; [done|].
      apply elem_of_qmove; [apply Huniq, StateIndex_range|by right].
  - done.
Qed.

Section OpSpecs.
Context (t : AddrTransTable) (a : AbsATT) (ps : Profs).
Hypothesis Hrep : att_rep t a.

Lemma wp_entry_at i e (Q : ATTEntry → AddrTransTable → Prop) :
  zlookup (entries_ t) i = Some e → Q e t → wp (entry_at i) Q t.
Proof. intros He HQ. unfold entry_at. repeat wp_step. by eapply wp_of_option. Qed.

Lemma wp_att_At i e (Q : ATTEntry → AddrTransTable → Prop) :
  a_live a !! i = Some e → (∀ e0, strip e0 = e → Q e0 t) → wp (At i) Q t.
Proof.
  intros He HQ. destruct (rep_live_entry _ _ Hrep _ _ He) as (Hi&e0&He0&->).
  unfold At. repeat wp_step.
  - apply andb_true_iff. split; [apply Z.leb_le|apply Z.ltb_lt]; lia.
  - eapply wp_entry_at; [done|]. by apply HQ.
Qed.

Lemma wp_Lookup_miss tag pf (Q : Z → AddrTransTable * Profs → Prop) :
  (∀ i e, a_live a !! i = Some e → phy_tag e ≠ tag) →
  (∀ ps', pf_same ps ps' → Q (- EINVAL) (t, ps')) → wp (Lookup tag pf) Q (t, ps).
Proof.
  intros Hmiss HQ. unfold Lookup. wp_step. apply wp_prof_quiet; [apply _|]. intros ps' Hps.
  apply wp_own. repeat wp_step. destruct (tag_index_ t !! tag) as [i|] eqn:E.
  - apply (r_tag _ _ Hrep) in E as (e&He&Ht). by destruct (Hmiss _ _ He).
  - wp_step. by apply HQ.
Qed.

Lemma wp_Lookup_hit i e pf (Q : Z → AddrTransTable * Profs → Prop) :
  a_live a !! i = Some e →
  (∀ t' ps', att_rep t' (abs_touch i e a) → same_const t t' → pf_same ps ps' →
     Q i (t', ps')) →
  wp (Lookup (phy_tag e) pf) Q (t, ps).
Proof.
  intros He HQ. unfold Lookup. wp_step. apply wp_prof_quiet; [apply _|]. intros ps' Hps.
  apply wp_own. repeat wp_step.
  assert (tag_index_ t !! phy_tag e = Some i) as -> by (apply (r_tag _ _ Hrep); eauto).
  destruct (rep_live_entry _ _ Hrep _ _ He) as (Hi&e0&He0&->).
  destruct (r_state _ _ Hrep _ _ He) as [Hst Hq]. wp_step. eapply wp_entry_at; [done|].
  wp_step. wp_step.
  { rewrite Z.eqb_refl, andb_true_r. apply negb_true_iff, state_eqb_neq. done. }
  eapply wp_qmove; [by apply r_q|done|]. intros t' Hq' (?&?&?&Htag&Hrest).
  wp_step. apply HQ; [|done|done]. pose proof He as Hl.
  rewrite (r_live _ _ Hrep) in Hl. case_decide as HF; [done|].
  assert (state_eqb (state (strip e0)) FREE = false) as Efree by (by apply state_eqb_neq).
  replace (abs_touch i (strip e0) a) with
    (MkAbsATT (zinsert i (strip e0) (a_ents a)) (<[i := strip e0]> (a_live a))
       (qmove i (StateIndex (state e0)) (StateIndex (state (strip e0))) (a_q a))).
  - eapply (rep_rewrite t); [done|done|done|apply StateIndex_range|done|done| | |].
    + rewrite Hrest. symmetry. apply zinsert_id. by rewrite (r_ents _ _ Hrep).
    + by rewrite Efree.
    + intros tag j. rewrite Htag, insert_id by done. apply (r_tag _ _ Hrep).
  - unfold abs_touch. by rewrite zinsert_id, insert_id.
Qed.

Lemma wp_att_ShiftState i e s pf (Q : unit → AddrTransTable * Profs → Prop) :
  a_live a !! i = Some e → state e ≠ s →
  (∀ t' ps', att_rep t' (abs_shift i e s a) → same_const t t' → pf_same ps ps' →
     Q tt (t', ps')) →
  wp (ShiftState i s pf) Q (t, ps).
Proof.
  intros He Hs HQ. destruct (rep_live_entry _ _ Hrep _ _ He) as (Hi&e0&He0&->).
  destruct (r_state _ _ Hrep _ _ He) as [Hst Hq].
  unfold ShiftState. wp_step. apply wp_own. wp_step. eapply wp_entry_at; [done|].
  wp_step. wp_step; [by apply negb_true_iff, state_eqb_neq|]. wp_step.
  assert (∀ Q' : unit → AddrTransTable → Prop,
    (∀ t1, qrep t1 (a_q a) → same_const t t1 → entries_ t1 = entries_ t →
       (∀ tag j, tag_index_ t1 !! tag = Some j ↔
          ∃ e, (if state_eqb s FREE then delete i (a_live a)
                else <[i:=set_state s (strip e0)]> (a_live a)) !! j = Some e ∧ phy_tag e = tag) →
       Q' tt t1) →
    wp (if state_eqb s FREE
        then modify (λ t, set_tag_index_ (delete (phy_tag e0) (tag_index_ t)) t)
        else mret tt) Q' t) as Hcond.
  { intros Q' HQ'. pose proof (r_q _ _ Hrep) as Hqr. destruct (state_eqb s FREE); wp_step.
    - apply HQ'; [done..|]. intros tag j. simpl. rewrite lookup_delete_Some, (r_tag _ _ Hrep).
      split.
      + intros (Hne&e&Hj&Ht). exists e. rewrite lookup_delete_ne; [done|].
        intros <-. rewrite He in Hj. naive_solver.
      + intros (e&[Hne Hj]%lookup_delete_Some&Ht). split; [|eauto]. intros Heq.
        apply Hne. eapply (rep_tag_inj _ _ Hrep); [done|done|]. by rewrite Ht.
    - apply HQ'; [done..|]. intros tag j. rewrite (r_tag _ _ Hrep).
      destruct (decide (i = j)) as [<-|]; [|by rewrite lookup_insert_ne].
      rewrite lookup_insert_eq, He. naive_solver. }
  apply Hcond. intros t1 Hq1 Hc1 Hent1 Htag1. clear Hcond.
  eapply wp_qmove; [done|done|]. intros t2 Hq2 (?&?&?&Htag2&Hrest2).
  assert (∃ e2, zlookup (entries_ t2) i = Some e2 ∧ strip e2 = strip e0) as (e2&He2&Hs2).
  { apply (f_equal (λ l, zlookup l i)) in Hrest2. simpl in Hrest2.
    rewrite !zlookup_fmap, Hent1, He0 in Hrest2. by apply fmap_Some in Hrest2 as (e2&?&?); eauto. }
  eapply wp_entry_mod; [done|done|done|]. intros t3 Hq3 Hc3 Htag3 Hent3.
  apply wp_prof_quiet; [apply _|]. intros ps' Hps. apply HQ; [| |done].
  - eapply (rep_rewrite t); [done|done|done|apply StateIndex_range|done| | |done|].
    + etrans; [done|]. etrans; [|done]. done.
    + rewrite Hent3. simpl. rewrite zinsert_fmap.
      change (set_queue_node null_node <$> entries_ t2) with (node_rest (entries_ t2)).
      rewrite Hrest2, Hent1. simpl. f_equal.
      change (set_state s (strip e2) = set_state s (strip e0)). by rewrite Hs2.
    + intros tag j. rewrite Htag3, Htag2. apply Htag1.
  - etrans; [done|]. etrans; [|done]. done.
Qed.

Lemma wp_IsEmpty s (Q : bool → AddrTransTable → Prop) :
  state_num s ≤ 3 → Q (bool_decide (qof a s = [])) t → wp (IsEmpty s) Q t.
Proof.
  intros Hs HQ. unfold IsEmpty. repeat wp_step; [by apply Z.leb_le|].
  eapply wp_queue_read; [by apply r_q| |done]. intros q Hq. by eapply wp_Empty.
Qed.

Lemma wp_GetLength s (Q : Z → AddrTransTable → Prop) :
  state_num s ≤ 3 → Q (Z.of_nat (length (qof a s))) t → wp (GetLength s) Q t.
Proof.
  intros Hs HQ. unfold GetLength. repeat wp_step; [by apply Z.leb_le|].
  eapply wp_queue_read; [by apply r_q| |done]. intros q (?&?&?&?&?). by repeat wp_step.
Qed.

Lemma wp_GetFront s (Q : Z → AddrTransTable → Prop) :
  state_num s < 3 → Q (hd_or (- EINVAL) (qof a s)) t → wp (GetFront s) Q t.
Proof.
  intros Hs HQ. unfold GetFront. repeat wp_step; [by apply Z.ltb_lt|].
  eapply wp_queue_read; [by apply r_q| |done]. intros q (?&?&?&?&?). by repeat wp_step.
Qed.

(** Writing a statistic or the base of a live entry. *)
Lemma rep_write i e e' t' :
  a_live a !! i = Some e → state e' = state e → phy_tag e' = phy_tag e →
  qrep t' (a_q a) → same_const t t' → tag_index_ t' = tag_index_ t →
  node_rest (entries_ t') = zinsert i e' (node_rest (entries_ t)) →
  att_rep t' (abs_write i e' a).
Proof.
  intros He Hst Htg Hq' (Hlen&Hbits&Hmask) Htag Hrest.
  destruct (rep_live_entry _ _ Hrep _ _ He) as (Hi&e0&He0&->).
  split; cbn [abs_write a_ents a_live a_q]; unfold qof; cbn [a_q].
  - done.
  - intros j. rewrite Hlen. apply (r_cover _ _ Hrep).
  - rewrite Hlen, <- (r_len _ _ Hrep). apply (f_equal length) in Hrest. simpl in Hrest.
    rewrite length_zinsert, !length_fmap in Hrest. lia.
  - by rewrite Hrest, (r_ents _ _ Hrep).
  - intros j. destruct (decide (i = j)) as [<-|Hne].
    + pose proof (rep_not_free _ _ Hrep _ _ He). rewrite lookup_insert_eq, decide_False by done.
      symmetry. apply zlookup_insert_eq. rewrite <- (r_ents _ _ Hrep). simpl.
      rewrite length_fmap, (r_len _ _ Hrep). done.
    + rewrite lookup_insert_ne, zlookup_insert_ne by done. apply (r_live _ _ Hrep).
  - intros j e. destruct (decide (i = j)) as [<-|Hne].
    + rewrite lookup_insert_eq. intros [= <-]. rewrite Hst. by apply (r_state _ _ Hrep).
    + rewrite lookup_insert_ne by done. apply (r_state _ _ Hrep).
  - intros tag j. rewrite Htag, (r_tag _ _ Hrep). destruct (decide (i = j)) as [<-|Hne].
    + rewrite lookup_insert_eq, He.
      split; intros (e&[= <-]&?); eexists; split; [done|congruence|done|congruence].
    + by rewrite lookup_insert_ne.
Qed.

Lemma wp_entry_mod_live i e f (Q : unit → AddrTransTable → Prop) :
  a_live a !! i = Some e →
  (∀ e, strip (f e) = f (strip e) ∧ queue_node (f e) = queue_node e ∧
        state (f e) = state e ∧ phy_tag (f e) = phy_tag e) →
  (∀ t', att_rep t' (abs_write i (f e) a) → same_const t t' → Q tt t') →
  wp (entry_mod i f) Q t.
Proof.
  intros He Hf HQ. destruct (rep_live_entry _ _ Hrep _ _ He) as (Hi&e0&He0&->).
  destruct (Hf e0) as (Hs&Hn&Hst&Htg).
  eapply wp_entry_mod; [done|done|by apply r_q|]. intros t' Hq' Hc Htag Hent.
  apply HQ; [|done]. rewrite <- Hs. eapply rep_write; [done|done|done|done|done|done|].
  rewrite Hent. simpl. by rewrite zinsert_fmap.
Qed.

Lemma abs_shift_write i e e' s :
  abs_shift i e' s (abs_write i e a) = abs_shift i e' s a.
Proof.
  unfold abs_shift, abs_write. simpl. f_equal.
  - unfold zinsert. destruct (_ <? _); [done|]. apply list_insert_insert_eq.
  - destruct (state_eqb s FREE); [apply delete_insert_eq|apply insert_insert_eq].
Qed.

End OpSpecs.

Lemma wp_Reset t a ps i e base s pf (Q : unit → AddrTransTable * Profs → Prop) :
  att_rep t a → a_live a !! i = Some e → state e ≠ s →
  (∀ t' ps', att_rep t' (abs_shift i (set_mach_base base e) s a) → same_const t t' →
     pf_same ps ps' → Q tt (t', ps')) →
  wp (Reset i base s pf) Q (t, ps).
Proof.
  intros Hrep He Hs HQ. unfold Reset. wp_step. apply wp_own.
  eapply wp_entry_mod_live; [done|done|done|]. intros t1 Hrep1 Hc1.
  eapply (wp_att_ShiftState _ _ _ Hrep1 i (set_mach_base base e)); [apply lookup_insert_eq|done|].
  intros t2 ps2 Hrep2 Hc2 Hps. rewrite abs_shift_write in Hrep2. apply HQ; [done| |done].
  by etrans.
Qed.

(** Entering a fresh tag for an entry that was free. *)
Lemma insert_tag t a i e' : att_rep t a → tag_index_ t !! phy_tag e' = None → i ∈ qof a FREE → ∀ tag' j,
  <[phy_tag e' := i]> (tag_index_ t) !! tag' = Some j ↔ ∃ e, <[i := e']> (a_live a) !! j = Some e ∧ phy_tag e = tag'.
Proof.
  intros Hrep Hnone Hi tag' j. destruct (decide (i = j)) as [<-|Hne].
  - rewrite lookup_insert_eq. split.
    + intros Hx. exists e'. split; [done|].
      destruct (decide (phy_tag e' = tag')) as [|Hnt]; [done|]. rewrite lookup_insert_ne in Hx by done.
      apply (r_tag _ _ Hrep) in Hx as (e&He&_). by destruct (rep_not_free _ _ Hrep _ _ He).
    + intros (e&[= <-]&<-). by rewrite lookup_insert_eq.
  - rewrite (lookup_insert_ne (a_live a)) by done. rewrite <- (r_tag _ _ Hrep).
    destruct (decide (phy_tag e' = tag')) as [<-|Hnt]; [|by rewrite lookup_insert_ne].
    rewrite lookup_insert_eq, Hnone. naive_solver.
Qed.

Lemma wp_att_Setup t a ps i l e0 tag base s pf (Q : Z → AddrTransTable * Profs → Prop) :
  att_rep t a → qof a FREE = i :: l → zlookup (a_ents a) i = Some e0 → s ≠ FREE →
  (∀ j e, a_live a !! j = Some e → phy_tag e ≠ tag) →
  (∀ t' ps', att_rep t' (abs_setup i (set_mach_base base (set_phy_tag tag (set_state s e0))) a) →
     same_const t t' → pf_same ps ps' → Q i (t', ps')) →
  wp (Setup tag base s pf) Q (t, ps).
Proof.
  intros Hrep Hq He0 Hs Hfresh HQ. unfold Setup. wp_step. apply wp_own.
  assert (tag_index_ t !! tag = None) as Hnone.
  { destruct (tag_index_ t !! tag) as [j|] eqn:E; [|done].
    apply (r_tag _ _ Hrep) in E as (e&He&?). by destruct (Hfresh _ _ He). }
  assert (i ∈ qof a FREE) as Hi by (rewrite Hq; set_solver).
  assert (0 ≤ i < length_ t) as Hr.
  { apply (r_cover _ _ Hrep). eexists. split; [|done]. apply StateIndex_range. }
  do 3 wp_step. wp_step; [by apply bool_decide_eq_true|]. wp_step.
  eapply wp_queue_read; [by apply r_q|intros q Hiq; by eapply wp_Empty|].
  fold (qof a FREE). rewrite Hq, bool_decide_eq_false_2 by done.
  wp_step. wp_step; [done|]. wp_step.
  eapply wp_queue_PopFront; [by apply r_q|done|]. intros t1 Hq1 (?&?&?&Htag1&Hrest1) Hn1.
  wp_step. eapply wp_queue_PushBack; [done| |done|].
  { intros k Hk. unfold qset. case_decide; [rewrite elem_of_lremove; tauto|].
    intros Hik. assert (k = StateIndex FREE); [|done].
    eapply (proj2 (r_q _ _ Hrep)); [done|apply StateIndex_range|done|done]. }
  intros t2 Hq2 (?&?&?&Htag2&Hrest2).
  assert (∃ e2, zlookup (entries_ t2) i = Some e2 ∧ strip e2 = e0) as (e2&He2&Hs2).
  { rewrite <- (r_ents _ _ Hrep), <- Hrest1, <- Hrest2 in He0. simpl in He0.
    rewrite zlookup_fmap in He0. apply fmap_Some in He0 as (e2&?&?). eauto. }
  pose proof (zlookup_Some _ _ _ He2) as Hr2.
  wp_step. eapply wp_entry_mod; [done|done|done|]. intros t3 Hq3 Hc3 Htag3 Hent3.
  wp_step. eapply wp_entry_mod; [by rewrite Hent3, zlookup_insert_eq|done|done|].
  intros t4 Hq4 Hc4 Htag4 Hent4.
  wp_step. eapply wp_entry_mod; [by rewrite Hent4, zlookup_insert_eq by (rewrite Hent3, length_zinsert; done)|done|done|].
  intros t5 Hq5 Hc5 Htag5 Hent5. do 3 wp_step.
  wp_step. apply wp_prof_quiet; [apply _|]. intros ps' Hps. wp_step.
  set (e' := set_mach_base base (set_phy_tag tag (set_state s e0))).
  assert (state_eqb (state e') FREE = false) as Efree by (by apply state_eqb_neq).
  assert (same_const t t5) as Hc.
  { etrans; [|exact Hc5]. etrans; [|exact Hc4]. etrans; [|exact Hc3]. unfold same_const. split_and!; congruence. }
  apply HQ; [|done|done].
  unfold abs_setup. replace (<[i:=e']> (a_live a)) with
      (if state_eqb (state e') FREE then delete i (a_live a) else <[i := e']> (a_live a))
      by (by rewrite Efree).
    eapply (rep_rewrite t); [done|done|done|apply StateIndex_range| | | |done|].
    + done.
    + done.
    + cbn [entries_ set_tag_index_]. rewrite Hent5, Hent4, Hent3. simpl. rewrite !zinsert_fmap.
      change (set_queue_node null_node <$> entries_ t2) with (node_rest (entries_ t2)).
      rewrite Hrest2, Hrest1. unfold zinsert. destruct (_ <? _); [done|].
      rewrite !list_insert_insert_eq. f_equal. unfold e'. by rewrite <- Hs2.
    + intros tag' j. cbn [tag_index_ set_tag_index_].
      rewrite Efree, Htag5, Htag4, Htag3, Htag2, Htag1.
      by apply (insert_tag t a i e').
Qed.

Definition clear_stats (e : ATTEntry) : ATTEntry := set_epoch_reads 0 (set_epoch_writes 0 e).

Definition abs_clear (a : AbsATT) : AbsATT :=
  {| a_ents := clear_stats <$> a_ents a; a_live := clear_stats <$> a_live a; a_q := a_q a |}.

Lemma wp_ClearStats t a ps pf (Q : unit → AddrTransTable * Profs → Prop) :
  att_rep t a →
  (∀ t' ps', att_rep t' (abs_clear a) → same_const t t' → pf_same ps ps' → Q tt (t', ps')) →
  wp (ClearStats pf) Q (t, ps).
Proof.
  intros Hrep HQ. unfold ClearStats. wp_step. apply wp_own. wp_step.
  apply wp_prof_quiet; [apply _|]. intros ps' Hps. apply HQ; [|done|done].
  pose proof (r_q _ _ Hrep) as [Hq Hd].
  split; cbn [abs_clear a_ents a_live a_q set_entries_ length_ tag_index_ queues_ entries_];
    unfold qof; cbn [a_q].
  - split; [|done]. intros k Hk. destruct (Hq k Hk) as (q&Hz&Hl). exists q. split; [done|].
    eapply is_queue_frame; [|done]. intros x _. simpl. rewrite zlookup_fmap.
    by destruct (zlookup (entries_ t) x).
  - apply (r_cover _ _ Hrep).
  - rewrite length_fmap. apply (r_len _ _ Hrep).
  - rewrite <- (r_ents _ _ Hrep). simpl. by rewrite <- !list_fmap_compose.
  - intros i. rewrite lookup_fmap, (r_live _ _ Hrep), zlookup_fmap. unfold qof.
    by destruct (decide (i ∈ _)).
  - intros i e. rewrite lookup_fmap. intros (e0&He0&->)%fmap_Some. exact (r_state _ _ Hrep _ _ He0).
  - intros tag i. rewrite (r_tag _ _ Hrep), lookup_fmap. split.
    + intros (e&->&<-). by eexists.
    + intros (e&(e0&->&->)%fmap_Some&<-). by eexists.
Qed.

(** Only the FREE queue has elements. *)
Definition free_only (l : list Z) (k : Z) : list Z :=
  if decide (k = StateIndex FREE) then l else [].

(** The table after construction: every entry is in the FREE queue. *)
Definition abs_init (len : Z) (junk : Z → ATTEntry) : AbsATT :=
  {| a_ents := (λ i, strip (new_ATTEntry (junk i))) <$> zseq len; a_live := ∅;
     a_q := free_only (zseq len) |}.

Lemma elem_of_zseq n i : i ∈ zseq n ↔ 0 ≤ i < n.
Proof. unfold zseq. rewrite elem_of_seqZ. lia. Qed.

Lemma zlookup_zseq {A} (f : Z → A) n i : 0 ≤ i < n → zlookup (f <$> zseq n) i = Some (f i).
Proof.
  intros. rewrite zlookup_fmap. unfold zlookup. destruct (Z.ltb_spec i 0); [lia|].
  unfold zseq. rewrite lookup_seqZ_lt by lia. simpl. do 2 f_equal. lia.
Qed.

(** The loop of the constructor pushes every index to the FREE queue. *)
Lemma qrep_free_only t l0 l1 :
  qrep t (qset (StateIndex FREE) (l0 ++ l1) (free_only l0)) → qrep t (free_only (l0 ++ l1)).
Proof.
  intros [Hq _]. split; [|intros k k' x _ _; unfold free_only; do 2 case_decide; set_solver].
  intros k Hk. destruct (Hq k Hk) as (q&?&Hl'). exists q. split; [done|].
  unfold qset in Hl'. unfold free_only in *. by case_decide.
Qed.

Lemma wp_fill_free t0 l : NoDup l → qrep t0 (free_only []) →
  (∀ i, i ∈ l → node_at (entries_ t0) i = Some null_node) →
  wp (for_each l (λ i, with_queue FREE (PushBack i)))
    (λ _ t, qrep t (free_only l) ∧ same_rest t0 t) t0.
Proof.
  intros Hnd Hq0 Hn0. eapply wp_mono.
  - eapply (wp_for_each _ (λ l1 t, ∃ l0, (l0 ++ l1) = l ∧ qrep t (free_only l0) ∧ same_rest t0 t ∧
      ∀ i, i ∈ l1 → node_at (entries_ t) i = Some null_node)).
    + exists []. done.
    + intros i l1 t (l0&Hl&Hq&Hs&Hn). assert (i ∉ l0 ∧ i ∉ l1 ∧ ∀ j, j ∈ l1 → j ∉ l0) as (Hi0&Hil&Hd).
      { rewrite <- Hl in Hnd. apply NoDup_app in Hnd as (_&?&[? _]%NoDup_cons). set_solver. }
      eapply (wp_with_queue _ _ _ _ (l0 ++ [i]) [i]
        (λ _ es, ∀ j, j ∈ l1 → node_at es j = Some null_node)); [done| | |].
      * intros k _ Hne j _. unfold free_only. rewrite decide_False; [set_solver|done].
      * intros q Hiq. change (free_only l0 (StateIndex FREE)) with l0 in *.
        eapply wp_PushBack; [done|done|apply Hn; set_solver|]. intros a' q' Hq' Ho.
        split; [done|]. split; [done|]. intros j Hj. cbn [fst].
        rewrite (proj2 Ho); [apply Hn; set_solver|]. specialize (Hd j Hj). set_solver.
      * intros [] t' Hq' Hs' Hn'. exists (l0 ++ [i]). split; [by rewrite <- app_assoc|].
        split; [by apply qrep_free_only|]. split; [by etrans|done].
  - intros [] t (l0&Hl&Hq&Hs&_). rewrite app_nil_r in Hl. by subst.
Qed.

Lemma wp_new_AddrTransTable len bits junk : 0 ≤ len →
  wp (new_AddrTransTable len bits junk)
    (λ t _, att_rep t (abs_init len junk) ∧ length_ t = len ∧ block_bits_ t = bits ∧
            block_mask_ t = u64 (i32 (Z.shiftl 1 bits) - 1)) tt.
Proof.
  intros Hlen. unfold new_AddrTransTable. set (t0 := MkATT _ _ _ _ _ _).
  assert (wp (for_each (zseq len) (λ i, with_queue FREE (PushBack i)))
    (λ _ t, qrep t (free_only (zseq len)) ∧ same_rest t0 t) t0) as H.
  { apply wp_fill_free; [apply NoDup_seqZ| |].
    - split; [|intros k k' i _ _; unfold free_only; case_decide; set_solver].
      intros k Hk. exists new_IndexQueue. split; [|unfold free_only; case_decide; apply is_queue_new].
      unfold zlookup. destruct (Z.ltb_spec k 0); [lia|]. apply lookup_replicate_2. lia.
    - intros i Hi%elem_of_zseq. simpl. by rewrite zlookup_zseq. }
  unfold wp in *. destruct (for_each _ _ t0) as [[[] t]|]; [|done].
  destruct H as [Hq (Hl&Hb&Hm&Htag&Hrest)]. split; [|done].
  assert (length (zseq len) = Z.to_nat len) as Hzl by (unfold zseq; by rewrite length_seqZ).
  split; cbn [abs_init a_ents a_live a_q]; unfold qof; cbn [a_q].
  - done.
  - intros i. rewrite Hl. split.
    + intros (k&_&Hi). unfold free_only in Hi. case_decide; [by apply elem_of_zseq|set_solver].
    + intros Hi. exists 2. split; [done|]. by apply elem_of_zseq.
  - apply (f_equal length) in Hrest. simpl in Hrest. rewrite !length_fmap in Hrest.
    rewrite Hl, Hrest, Hzl. simpl. lia.
  - rewrite Hrest. simpl. by rewrite <- list_fmap_compose.
  - intros i. rewrite lookup_empty. destruct (decide _) as [|Hi]; [done|].
    change (i ∉ zseq len) in Hi. rewrite elem_of_zseq in Hi.
    destruct (zlookup _ i) as [e|] eqn:E; [|done]. apply zlookup_Some in E.
    rewrite length_fmap, Hzl in E. lia.
  - intros i e. by rewrite lookup_empty.
  - intros tag i. rewrite Htag. simpl. rewrite lookup_empty. split; [done|].
    intros (e&He&_). by rewrite lookup_empty in He.
Qed.
