(* ===== verification/VersionBuffer.v ===== *)
(** VersionBuffer (src/version_buffer.h, src/version_buffer.cc): a region of block
    slots, each in one of four sets. A slot that holds the last checkpoint is
    kept in BACKUP0 or BACKUP1 until the checkpoint after it is complete. The
    invariant [vb_ok] says that the sets partition the slots; each operation is
    proved to move one slot, or one set, and to keep it. *)

From S2P Require Import Prelude Profiler.

(** [VersionBuffer::State] *)
Inductive VBState := BACKUP0 | BACKUP1 | IN_USE | FREE.

#[global] Instance VBState_eq_dec : EqDecision VBState.
Proof. solve_decision. Defined.

Definition vb_num (s : VBState) : Z :=
  match s with BACKUP0 => 0 | BACKUP1 => 1 | IN_USE => 2 | FREE => 3 end.

(** [std::numeric_limits<uint64_t>::max()] *)
Definition INVAL_ADDR : Z := 2 ^ 64 - 1.

Record VersionBuffer := MkVB {
  addr_base_ : Z;
  length_ : Z;
  block_bits_ : Z;
  block_mask_ : Z;
  sets_ : list (gset Z);
}.

Definition set_addr_base_ (v : Z) (r : VersionBuffer) : VersionBuffer :=
  {| addr_base_ := v; length_ := length_ r; block_bits_ := block_bits_ r;
     block_mask_ := block_mask_ r; sets_ := sets_ r |}.
Definition set_length_ (v : Z) (r : VersionBuffer) : VersionBuffer :=
  {| addr_base_ := addr_base_ r; length_ := v; block_bits_ := block_bits_ r;
     block_mask_ := block_mask_ r; sets_ := sets_ r |}.
Definition set_block_bits_ (v : Z) (r : VersionBuffer) : VersionBuffer :=
  {| addr_base_ := addr_base_ r; length_ := length_ r; block_bits_ := v;
     block_mask_ := block_mask_ r; sets_ := sets_ r |}.
Definition set_block_mask_ (v : Z) (r : VersionBuffer) : VersionBuffer :=
  {| addr_base_ := addr_base_ r; length_ := length_ r; block_bits_ :=
     block_bits_ r; block_mask_ := v; sets_ := sets_ r |}.
Definition set_sets_ (v : list (gset Z)) (r : VersionBuffer) : VersionBuffer :=
  {| addr_base_ := addr_base_ r; length_ := length_ r; block_bits_ :=
     block_bits_ r; block_mask_ := block_mask_ r; sets_ := v |}.

(** [sets_[s]] *)
Definition vset (v : VersionBuffer) (s : VBState) : gset Z :=
  default ∅ (zlookup (sets_ v) (vb_num s)).
Definition put_set (s : VBState) (x : gset Z) (v : VersionBuffer) : VersionBuffer :=
  set_sets_ (zinsert (vb_num s) x (sets_ v)) v.

(** [*s.begin()]: [std::set<int>] is ordered. *)
Definition set_begin (s : gset Z) : option Z :=
  match elements s with [] => None | x :: l => Some (foldr Z.min x l) end.

Definition new_VersionBuffer (len bits : Z) : VersionBuffer :=
  {| addr_base_ := INVAL_ADDR; length_ := len; block_bits_ := bits;
     block_mask_ := u64 (i32 (Z.shiftl 1 bits) - 1);
     sets_ := [∅; ∅; ∅; list_to_set (zseq len)] |}.

(** [set_addr_base] *)
Definition set_addr_base (base : Z) (v : VersionBuffer) : VersionBuffer := set_addr_base_ base v.

(** [length_ << block_bits_] is an [int] before it becomes a [uint64_t]. *)
Definition Size (v : VersionBuffer) : Z := u64 (i32 (Z.shiftl (length_ v) (block_bits_ v))).

Definition Contains (addr : Z) (v : VersionBuffer) : bool :=
  (addr_base_ v <=? addr) && (u64 (addr - addr_base_ v) <? Size v).

Definition At (index : Z) : M VersionBuffer Z :=
  v ← get;
  assert_ "VersionBuffer::At"
    (negb (addr_base_ v =? INVAL_ADDR) && (0 <=? index) && (index <? length_ v)) ;;
  mret (u64 (addr_base_ v + i32 (Z.shiftl index (block_bits_ v)))).

Definition Index (mach_addr : Z) : M VersionBuffer Z :=
  v ← get;
  assert_ "VersionBuffer::Index" (addr_base_ v <=? mach_addr) ;;
  let bytes := u64 (mach_addr - addr_base_ v) in
  assert_ "VersionBuffer::Index" (Z.land bytes (block_mask_ v) =? 0) ;;
  let i := i32 (Z.shiftr bytes (block_bits_ v)) in
  assert_ "VersionBuffer::Index" ((0 <=? i) && (i <? length_ v)) ;;
  mret i.

Definition SlotAlloc (pf : pfref) : PM VersionBuffer Z :=
  i ← own (v ← get;
           assert_ "VersionBuffer::SlotAlloc" (bool_decide (vset v FREE ≠ ∅)) ;;
           i ← of_option (EUndef "set::begin") (set_begin (vset v FREE));
           modify (λ v, put_set FREE (vset v FREE ∖ {[i]}) v) ;;
           modify (λ v, put_set IN_USE ({[i]} ∪ vset v IN_USE) v) ;;
           mret i);
  prof pf AddBufferOp ;;
  own (At i).

Definition FreeSlot (mach_addr : Z) (s : VBState) (pf : pfref) : PM VersionBuffer unit :=
  own (i ← Index mach_addr;
       v ← get;
       assert_ "VersionBuffer::FreeSlot" (bool_decide (i ∈ vset v s)) ;;
       modify (λ v, put_set s (vset v s ∖ {[i]}) v) ;;
       modify (λ v, put_set FREE ({[i]} ∪ vset v FREE) v)) ;;
  prof pf AddBufferOp.

Definition SlotBackup (mach_addr : Z) (s : VBState) (pf : pfref) : PM VersionBuffer unit :=
  own (i ← Index mach_addr;
       assert_ "VersionBuffer::SlotBackup" (bool_decide (s = BACKUP0) || bool_decide (s = BACKUP1)) ;;
       v ← get;
       assert_ "VersionBuffer::SlotBackup" (negb (bool_decide (i ∈ vset v s))) ;;
       assert_ "VersionBuffer::SlotBackup" (bool_decide (i ∈ vset v IN_USE)) ;;
       modify (λ v, put_set IN_USE (vset v IN_USE ∖ {[i]}) v) ;;
       modify (λ v, put_set s ({[i]} ∪ vset v s) v)) ;;
  prof pf AddBufferOp.

Definition ClearBackup (pf : pfref) : PM VersionBuffer unit :=
  own (modify (λ v, put_set FREE (vset v BACKUP0 ∪ vset v FREE) v) ;;
       modify (put_set BACKUP0 ∅)) ;;
  prof pf AddBufferOp ;;
  own (modify (λ v, put_set BACKUP0 (vset v BACKUP1 ∪ vset v BACKUP0) v) ;;
       modify (put_set BACKUP1 ∅)) ;;
  prof pf AddBufferOp ;;
  own (v ← get;
       assert_ "VersionBuffer::ClearBackup"
         (Z.of_nat (size (vset v IN_USE)) + Z.of_nat (size (vset v FREE)) +
          Z.of_nat (size (vset v BACKUP0)) =? length_ v)).

(** ** Invariant *)

Definition slot_addr (v : VersionBuffer) (i : Z) : Z := addr_base_ v + i * 2 ^ block_bits_ v.

(** The geometry of a buffer whose base is set: no computation wraps. *)
Record vb_geom (v : VersionBuffer) : Prop := {
  g_bits : 0 ≤ block_bits_ v;
  g_mask : block_mask_ v = 2 ^ block_bits_ v - 1;
  g_len : 0 ≤ length_ v;
  g_int : length_ v * 2 ^ block_bits_ v < 2 ^ 31;
  g_base : 0 ≤ addr_base_ v;
  g_top : addr_base_ v + length_ v * 2 ^ block_bits_ v < 2 ^ 64 - 1;
}.

Record vb_ok (v : VersionBuffer) : Prop := {
  v_geom : vb_geom v;
  v_sets : length (sets_ v) = 4%nat;
  v_range i s : i ∈ vset v s → 0 ≤ i < length_ v;
  v_cover i : 0 ≤ i < length_ v → ∃ s, i ∈ vset v s;
  v_disj i s s' : i ∈ vset v s → i ∈ vset v s' → s = s';
}.

(** One slot moves from [s] to [s']. *)
Definition vmove (i : Z) (s s' : VBState) (v : VersionBuffer) : VersionBuffer :=
  let v1 := put_set s (vset v s ∖ {[i]}) v in put_set s' ({[i]} ∪ vset v1 s') v1.

(** ** Lemmas *)

Lemma vb_num_range s : 0 ≤ vb_num s < 4.
Proof. by destruct s. Qed.

Lemma vb_num_inj s s' : vb_num s = vb_num s' → s = s'.
Proof. by destruct s, s'. Qed.

Lemma set_begin_spec (s : gset Z) : s ≠ ∅ →
  ∃ i, set_begin s = Some i ∧ i ∈ s ∧ ∀ j, j ∈ s → i ≤ j.
Proof.
  intros Hs. unfold set_begin. destruct (elements s) as [|x l] eqn:E.
  { destruct Hs. apply elements_empty_inv in E. by apply leibniz_equiv. }
  exists (foldr Z.min x l). split; [done|].
  assert (∀ l, foldr Z.min x l ∈ x :: l ∧ ∀ j, j ∈ x :: l → foldr Z.min x l ≤ j) as H.
  { clear. induction l as [|y l [IH1 IH2]]; simpl.
    - split; [set_solver|]. intros j Hj%list_elem_of_singleton. lia.
    - split.
      + destruct (Z.min_spec y (foldr Z.min x l)) as [[_ ->]|[_ ->]]; set_solver.
      + intros j Hj. apply elem_of_cons in Hj as [->|[->|Hj]%elem_of_cons].
        * specialize (IH2 x ltac:(set_solver)). lia.
        * lia.
        * specialize (IH2 j ltac:(set_solver)). lia. }
  destruct (H l) as [H1 H2]. rewrite <- E in *. setoid_rewrite elem_of_elements in H2.
  by rewrite elem_of_elements in H1.
Qed.

Lemma vset_put_eq s x v : length (sets_ v) = 4%nat → vset (put_set s x v) s = x.
Proof.
  intros Hl. unfold vset, put_set. simpl. rewrite zlookup_insert_eq; [done|].
  rewrite Hl. apply vb_num_range.
Qed.

Lemma vset_put_ne s s' x v : s ≠ s' → vset (put_set s x v) s' = vset v s'.
Proof.
  intros. unfold vset, put_set. simpl. rewrite zlookup_insert_ne; [done|].
  intros ?%vb_num_inj. done.
Qed.

Lemma sets_put s x v : length (sets_ (put_set s x v)) = length (sets_ v).
Proof. apply length_zinsert. Qed.

#[export] Hint Rewrite vset_put_eq vset_put_ne sets_put using (done || (rewrite !sets_put; done)) : sexain.

Lemma vset_vmove i s s' v s'' : length (sets_ v) = 4%nat → s ≠ s' →
  vset (vmove i s s' v) s'' =
    if decide (s'' = s) then vset v s ∖ {[i]}
    else if decide (s'' = s') then {[i]} ∪ vset v s' else vset v s''.
Proof.
  intros Hl Hne. unfold vmove. repeat case_decide; subst; by autorewrite with sexain.
Qed.

Lemma vset_vmove_from i s s' v : length (sets_ v) = 4%nat → s ≠ s' →
  vset (vmove i s s' v) s = vset v s ∖ {[i]}.
Proof. intros. rewrite vset_vmove by done. by rewrite decide_True. Qed.

Lemma vset_vmove_to i s s' v : length (sets_ v) = 4%nat → s ≠ s' →
  vset (vmove i s s' v) s' = {[i]} ∪ vset v s'.
Proof. intros. rewrite vset_vmove by done. by rewrite decide_False, decide_True. Qed.

Lemma vset_vmove_ne i s s' v s'' : length (sets_ v) = 4%nat → s ≠ s' → s'' ≠ s → s'' ≠ s' →
  vset (vmove i s s' v) s'' = vset v s''.
Proof. intros. rewrite vset_vmove by done. by rewrite !decide_False. Qed.

Lemma elem_of_vmove i s s' v s'' x : length (sets_ v) = 4%nat → s ≠ s' →
  x ∈ vset (vmove i s s' v) s'' ↔
    (x = i ∧ s'' = s') ∨ (x ∈ vset v s'' ∧ (x ≠ i ∨ s'' ≠ s)).
Proof.
  intros Hl Hne. rewrite vset_vmove by done. repeat case_decide; subst; set_solver.
Qed.

(** The fields no operation changes. *)
Definition same_geom (v v' : VersionBuffer) : Prop :=
  addr_base_ v' = addr_base_ v ∧ length_ v' = length_ v ∧
  block_bits_ v' = block_bits_ v ∧ block_mask_ v' = block_mask_ v.

#[global] Instance same_geom_preorder : PreOrder same_geom.
Proof. split; [done|]. unfold same_geom. intros x y z. naive_solver congruence. Qed.

Lemma vb_geom_same v v' : same_geom v v' → vb_geom v → vb_geom v'.
Proof. intros (E1&E2&E3&E4) []. split; congruence. Qed.

Lemma vmove_same i s s' v : same_geom v (vmove i s s' v).
Proof. done. Qed.

Lemma vmove_ok i s s' v : vb_ok v → s ≠ s' → i ∈ vset v s → vb_ok (vmove i s s' v).
Proof.
  intros Hok Hne Hi. pose proof (v_sets _ Hok) as Hl. split.
  - eapply vb_geom_same; [apply vmove_same|]. apply (v_geom _ Hok).
  - unfold vmove. by rewrite !sets_put.
  - intros j s'' [[-> _]|[Hj _]]%elem_of_vmove; [..|done|done]; by eapply (v_range _ Hok).
  - intros j Hj. destruct (decide (j = i)) as [->|Hji].
    + exists s'. apply elem_of_vmove; naive_solver.
    + destruct (v_cover _ Hok j Hj) as [s1 Hs1]. exists s1. apply elem_of_vmove; naive_solver.
  - intros j s1 s2. rewrite !elem_of_vmove by done.
    pose proof (v_disj _ Hok j) as Hd. pose proof (v_disj _ Hok i s) as Hd'. naive_solver.
Qed.

(** A buffer in its place after operations. *)
Definition vb_next (v v' : VersionBuffer) : Prop := vb_ok v' ∧ same_geom v v'.

Lemma vb_next_refl v : vb_ok v → vb_next v v.
Proof. done. Qed.

Lemma vb_next_move i s s' v v' : vb_next v v' → s ≠ s' → i ∈ vset v' s →
  vb_next v (vmove i s s' v').
Proof. intros [Hok Hg] ??. split; [by apply vmove_ok|]. etrans; [done|apply vmove_same]. Qed.

(** Slot addresses and indices. *)
Lemma slot_range v i : vb_geom v → 0 ≤ i < length_ v →
  addr_base_ v ≤ slot_addr v i ∧
  slot_addr v i + 2 ^ block_bits_ v ≤ addr_base_ v + length_ v * 2 ^ block_bits_ v.
Proof.
  intros Hg Hi. unfold slot_addr. pose proof (pow2_pos _ (g_bits _ Hg)). nia.
Qed.

Lemma slot_addr_inj v i j : vb_geom v → slot_addr v i = slot_addr v j → i = j.
Proof. intros Hg. unfold slot_addr. pose proof (pow2_pos _ (g_bits _ Hg)). nia. Qed.

Lemma wp_vb_At i v (Q : Z → VersionBuffer → Prop) :
  vb_geom v → 0 ≤ i < length_ v → Q (slot_addr v i) v → wp (At i) Q v.
Proof.
  intros Hg Hi HQ. pose proof (slot_range _ _ Hg Hi) as Hr.
  pose proof (pow2_pos _ (g_bits _ Hg)). destruct Hg. unfold At. repeat wp_step.
  - unfold INVAL_ADDR. destruct (Z.eqb_spec (addr_base_ v) (2 ^ 64 - 1)); [nia|].
    destruct (Z.leb_spec 0 i); [|lia]. destruct (Z.ltb_spec i (length_ v)); [done|lia].
  - rewrite shiftl_pow2, i32_small, u64_small by (unfold slot_addr in *; nia). done.
Qed.

Lemma wp_Index i v (Q : Z → VersionBuffer → Prop) :
  vb_geom v → 0 ≤ i < length_ v → Q i v → wp (Index (slot_addr v i)) Q v.
Proof.
  intros Hg Hi HQ. pose proof (slot_range _ _ Hg Hi) as Hr.
  pose proof (pow2_pos _ (g_bits _ Hg)) as Hp. destruct Hg.
  assert (u64 (slot_addr v i - addr_base_ v) = i * 2 ^ block_bits_ v) as Eb.
  { unfold slot_addr in *. rewrite u64_small; nia. }
  assert (i32 (Z.shiftr (i * 2 ^ block_bits_ v) (block_bits_ v)) = i) as Ei.
  { rewrite shiftr_pow2, Z.div_mul, i32_small by nia. done. }
  unfold Index. repeat wp_step.
  - apply Z.leb_le. lia.
  - rewrite Eb, g_mask0, land_mask, Z.mod_mul by lia. done.
  - rewrite Eb, Ei. destruct (Z.leb_spec 0 i); [|lia]. destruct (Z.ltb_spec i (length_ v)); [done|lia].
  - by rewrite Eb, Ei.
Qed.

(** ** Specifications of the operations *)

Lemma wp_SlotAlloc v ps pf (Q : Z → VersionBuffer * Profs → Prop) :
  vb_ok v → vset v FREE ≠ ∅ →
  (∀ i ps', i ∈ vset v FREE → (∀ j, j ∈ vset v FREE → i ≤ j) → pf_same ps ps' →
     Q (slot_addr v i) (vmove i FREE IN_USE v, ps')) →
  wp (SlotAlloc pf) Q (v, ps).
Proof.
  intros Hok Hne HQ. destruct (set_begin_spec _ Hne) as (i&Hb&Hi&Hmin).
  unfold SlotAlloc. wp_step. apply wp_own. do 3 wp_step.
  wp_step; [by apply bool_decide_eq_true|].
  wp_step. eapply wp_of_option; [done|]. repeat wp_step.
  apply wp_prof_quiet; [apply _|]. intros ps' Hps. apply wp_own.
  apply wp_vb_At; [apply (vb_geom_same v); [done|apply (v_geom _ Hok)]|by eapply (v_range _ Hok)|].
  by apply (HQ i).
Qed.

Lemma wp_FreeSlot v ps i s pf (Q : unit → VersionBuffer * Profs → Prop) :
  vb_ok v → i ∈ vset v s →
  (∀ ps', pf_same ps ps' → Q tt (vmove i s FREE v, ps')) →
  wp (FreeSlot (slot_addr v i) s pf) Q (v, ps).
Proof.
  intros Hok Hi HQ. unfold FreeSlot. wp_step. apply wp_own. wp_step.
  apply wp_Index; [apply (v_geom _ Hok)|by eapply (v_range _ Hok)|]. do 3 wp_step.
  wp_step; [by apply bool_decide_eq_true|]. repeat wp_step.
  apply wp_prof_quiet; [apply _|]. intros ps' Hps. by apply HQ.
Qed.

Lemma wp_SlotBackup v ps i s pf (Q : unit → VersionBuffer * Profs → Prop) :
  vb_ok v → i ∈ vset v IN_USE → s = BACKUP0 ∨ s = BACKUP1 →
  (∀ ps', pf_same ps ps' → Q tt (vmove i IN_USE s v, ps')) →
  wp (SlotBackup (slot_addr v i) s pf) Q (v, ps).
Proof.
  intros Hok Hi Hs HQ. unfold SlotBackup. wp_step. apply wp_own. wp_step.
  apply wp_Index; [apply (v_geom _ Hok)|by eapply (v_range _ Hok)|].
  wp_step. wp_step; [by destruct Hs as [-> | ->]|]. do 3 wp_step. wp_step.
  { apply negb_true_iff, bool_decide_eq_false. intros Hi'.
    pose proof (v_disj _ Hok _ _ _ Hi Hi'). by destruct Hs; subst. }
  wp_step. wp_step; [by apply bool_decide_eq_true|]. repeat wp_step.
  apply wp_prof_quiet; [apply _|]. intros ps' Hps. by apply HQ.
Qed.

Lemma size_zseq n : 0 ≤ n → Z.of_nat (size (list_to_set (zseq n) : gset Z)) = n.
Proof.
  intros. rewrite size_list_to_set by apply NoDup_seqZ. unfold zseq. rewrite length_seqZ. lia.
Qed.

(** The sets partition the slots, so their sizes add up. *)
Lemma vb_size v : vb_ok v →
  Z.of_nat (size (vset v BACKUP0)) + Z.of_nat (size (vset v BACKUP1)) +
  Z.of_nat (size (vset v IN_USE)) + Z.of_nat (size (vset v FREE)) = length_ v.
Proof.
  intros Hok. rewrite <- (size_zseq (length_ v)) by apply (g_len _ (v_geom _ Hok)).
  assert (list_to_set (zseq (length_ v)) =
    vset v BACKUP0 ∪ vset v BACKUP1 ∪ vset v IN_USE ∪ vset v FREE) as ->.
  { apply set_eq. intros i. rewrite elem_of_list_to_set. unfold zseq. rewrite elem_of_seqZ.
    split.
    - intros Hi. destruct (v_cover _ Hok i) as [s Hs]; [lia|]. destruct s; set_solver.
    - intros Hi. assert (∃ s, i ∈ vset v s) as [s Hs] by set_solver.
      pose proof (v_range _ Hok _ _ Hs). lia. }
  pose proof (v_disj _ Hok) as Hd. rewrite !size_union; [lia|..];
    intros i; rewrite ?elem_of_union; intros Hi Hi';
    repeat destruct Hi as [Hi|Hi]; by specialize (Hd _ _ _ Hi Hi').
Qed.

(** What [ClearBackup] does to the sets: BACKUP0 becomes free and BACKUP1 takes
    its place. *)
Definition vclear (v : VersionBuffer) : VersionBuffer :=
  let v1 := put_set BACKUP0 ∅ (put_set FREE (vset v BACKUP0 ∪ vset v FREE) v) in
  put_set BACKUP1 ∅ (put_set BACKUP0 (vset v1 BACKUP1 ∪ vset v1 BACKUP0) v1).

Lemma vset_vclear v s : length (sets_ v) = 4%nat →
  vset (vclear v) s = match s with
    | BACKUP0 => vset v BACKUP1 | BACKUP1 => ∅ | IN_USE => vset v IN_USE
    | FREE => vset v BACKUP0 ∪ vset v FREE end.
Proof.
  intros Hl. unfold vclear. destruct s; autorewrite with sexain; set_solver.
Qed.

Lemma vclear_ok v : vb_ok v → vb_ok (vclear v).
Proof.
  intros Hok. pose proof (v_sets _ Hok) as Hl. split.
  - apply (vb_geom_same v); [done|apply (v_geom _ Hok)].
  - unfold vclear. by rewrite !sets_put.
  - intros i s. rewrite vset_vclear by done. intros Hi.
    assert (∃ s', i ∈ vset v s') as [s' Hs'] by (destruct s; set_solver).
    by eapply (v_range _ Hok).
  - intros i Hi. destruct (v_cover _ Hok i Hi) as [s Hs].
    exists (match s with BACKUP0 => FREE | BACKUP1 => BACKUP0 | _ => s end).
    rewrite vset_vclear by done. destruct s; set_solver.
  - intros i s s'. rewrite !vset_vclear by done. pose proof (v_disj _ Hok i) as Hd.
    destruct s, s'; try done; rewrite ?elem_of_union; intros Hi Hi'; exfalso;
      repeat destruct Hi as [Hi|Hi]; repeat destruct Hi' as [Hi'|Hi'];
      by specialize (Hd _ _ Hi Hi').
Qed.

Lemma wp_ClearBackup v ps pf (Q : unit → VersionBuffer * Profs → Prop) :
  vb_ok v → (∀ ps', pf_same ps ps' → Q tt (vclear v, ps')) → wp (ClearBackup pf) Q (v, ps).
Proof.
  intros Hok HQ. unfold ClearBackup. wp_step. apply wp_own. repeat wp_step.
  apply wp_prof_quiet; [apply _|]. intros ps1 Hps1. wp_step. apply wp_own. repeat wp_step.
  apply wp_prof_quiet; [apply _|]. intros ps2 Hps2. apply wp_own. fold (vclear v).
  do 2 wp_step. wp_step; [|apply HQ; by etrans].
  apply Z.eqb_eq. pose proof (vb_size _ (vclear_ok _ Hok)) as Hsz.
  rewrite (vset_vclear v BACKUP1), size_empty in Hsz by apply (v_sets _ Hok). lia.
Qed.

Lemma new_VersionBuffer_ok len bits base : 0 ≤ bits < 31 → 0 ≤ len →
  len * 2 ^ bits < 2 ^ 31 → 0 ≤ base → base + len * 2 ^ bits < 2 ^ 64 - 1 →
  vb_ok (set_addr_base base (new_VersionBuffer len bits)).
Proof.
  intros Hb Hl Hi Hb0 Htop. assert (0 < 2 ^ bits < 2 ^ 31) as Hp.
  { split; [apply pow2_pos; lia|apply Z.pow_lt_mono_r; lia]. }
  split; simpl.
  - split; simpl; try lia. rewrite shiftl_pow2, Z.mul_1_l, i32_small, u64_small by lia. done.
  - done.
  - intros i s Hi'. destruct s; cbn in Hi'; set_solver.
  - intros i Hi'. exists FREE. unfold vset. simpl. rewrite elem_of_list_to_set.
    unfold zseq. rewrite elem_of_seqZ. lia.
  - intros i s s' Hs Hs'. destruct s, s'; try done; cbn in *; set_solver.
Qed.
