(* ===== verification/IntMath.v ===== *)
(** Integer helpers of the simulator (src/gem5-stable/src/base/intmath.hh, intmath.cc and
    src/gem5-stable/src/base/bitfield.hh): logarithms by halving, powers of two, rounding,
    bit fields and the search for primes. Templates are taken at 64-bit unsigned integers,
    [isPrime] and [prevPrime] at [int]; a signed overflow is undefined. *)

From Stdlib Require Import Znumtheory.
From S2P Require Import Prelude.

(** ** intmath.hh *)

Definition leastSigBit (n : Z) : Z := Z.land n (u64 (Z.lnot (u64 (n - 1)))).
Definition isPowerOf2 (n : Z) : bool := negb (n =? 0) && (leastSigBit n =? n).

(** [power]: the warnings on overflow do not change the result. *)
Fixpoint power_loop (iters : nat) (n result : Z) : Z :=
  match iters with O => result | S k => power_loop k n (u64 (result * n)) end.
Definition power (n e : Z) : Z := if e =? 0 then 1 else power_loop (Z.to_nat (e - 1)) n n.

(** [if (x & m) { y += k; x >>= k; }] *)
Definition halve (m k : Z) (xy : Z * Z) : Z * Z :=
  if Z.land xy.1 m =? 0 then xy else (Z.shiftr xy.1 k, xy.2 + k).

(** [floorLog2(unsigned)] and [floorLog2(unsigned long)] *)
Definition floorLog2_32 (x : Z) : res Z :=
  if x <=? 0 then Err (EAssert "floorLog2") else
  let xy := halve 0x0000000c 2 (halve 0x000000f0 4 (halve 0x0000ff00 8 (halve 0xffff0000 16 (x, 0)))) in
  Ok (if Z.land xy.1 0x00000002 =? 0 then xy.2 else xy.2 + 1).
Definition floorLog2 (x : Z) : res Z :=
  if x <=? 0 then Err (EAssert "floorLog2") else
  let xy := halve 0x0000000c 2 (halve 0x000000f0 4 (halve 0x0000ff00 8 (halve 0xffff0000 16
              (halve 0xffffffff00000000 32 (x, 0))))) in
  Ok (if Z.land xy.1 0x00000002 =? 0 then xy.2 else xy.2 + 1).

Definition ceilLog2 (n : Z) : res Z :=
  if n =? 1 then Ok 0 else
  match floorLog2 (u64 (n - 1)) with Ok y => Ok (y + 1) | Err e => Err e end.
Definition floorPow2 (n : Z) : res Z :=
  match floorLog2 n with Ok y => Ok (u64 (Z.shiftl 1 y)) | Err e => Err e end.
Definition ceilPow2 (n : Z) : res Z :=
  match ceilLog2 n with Ok y => Ok (u64 (Z.shiftl 1 y)) | Err e => Err e end.

Definition divCeil (a b : Z) : res Z :=
  if b =? 0 then Err (EUndef "division by zero") else Ok (u64 (a + b - 1) / b).
Definition roundUp (val align : Z) : Z :=
  let m := u64 (u64 align - 1) in Z.land (u64 (val + m)) (u64 (Z.lnot m)).
Definition roundDown (val align : Z) : Z :=
  let m := u64 (u64 align - 1) in Z.land val (u64 (Z.lnot m)).

(** Characters by their code. *)
Definition isDec (c : Z) : bool := (48 <=? c) && (c <=? 57).
Definition isOct (c : Z) : bool := (48 <=? c) && (c <=? 55).
Definition isHex (c : Z) : bool :=
  ((48 <=? c) && (c <=? 57)) || ((65 <=? c) && (c <=? 70)) || ((97 <=? c) && (c <=? 102)).
Definition hex2Int (c : Z) : Z :=
  if (48 <=? c) && (c <=? 57) then c - 48
  else if (65 <=? c) && (c <=? 70) then c - 65 + 10
  else if (97 <=? c) && (c <=? 102) then c - 97 + 10
  else 0.

(** The loop of [isPrime] on [int]. *)
Fixpoint isPrime_loop (fuel : nat) (n i : Z) : res bool :=
  match fuel with
  | O => Err EFuel
  | S f =>
      if 2 ^ 31 <=? i * i then Err (EUndef "signed overflow")
      else if i * i <=? n then
        if (Z.rem n i =? 0) || (Z.rem n (i + 2) =? 0) then Ok false else isPrime_loop f n (i + 6)
      else Ok true
  end.
Definition isPrime (n : Z) : res bool :=
  if (n =? 2) || (n =? 3) then Ok true else isPrime_loop (S (Z.to_nat (Z.sqrt n))) n 5.

(** The search of [prevPrime], by steps of 2 and 4. *)
Fixpoint prevPrime_loop (fuel : nat) (n decr : Z) : res Z :=
  match fuel with
  | O => Err EFuel
  | S f =>
      match isPrime n with
      | Ok true => Ok n
      | Ok false => prevPrime_loop f (n - decr) (6 - decr)
      | Err e => Err e
      end
  end.
Definition prevPrime (n : Z) : res Z :=
  let n := if Z.even n then n - 1 else n in
  let decr := Z.rem n 3 in
  let nd := if decr =? 0 then (n - 2, 2) else if decr =? 1 then (n, 4) else (n, decr) in
  prevPrime_loop (S (Z.to_nat n)) nd.1 nd.2.

(** ** bitfield.hh *)

Definition mask (nbits : Z) : Z := if nbits =? 64 then 2 ^ 64 - 1 else u64 (Z.shiftl 1 nbits - 1).
Definition bits (val first last : Z) : Z := Z.land (Z.shiftr val last) (mask (first - last + 1)).
Definition bit (val b : Z) : Z := bits val b b.
Definition mbits (val first last : Z) : Z := Z.land val (Z.land (mask (first + 1)) (u64 (Z.lnot (mask last)))).
Definition mask2 (first last : Z) : Z := mbits (2 ^ 64 - 1) first last.
Definition sext (N val : Z) : Z :=
  if negb (bits val (N - 1) (N - 1) =? 0) then i64 (Z.lor val (u64 (Z.lnot (mask N)))) else i64 val.
Definition insertBits (val first last bit_val : Z) : Z :=
  let bmask := u64 (Z.shiftl (mask (first - last + 1)) last) in
  Z.lor (Z.land (u64 (Z.shiftl bit_val last)) bmask) (Z.land val (u64 (Z.lnot bmask))).
Definition replaceBits (val first last bit_val : Z) : Z := insertBits val first last bit_val.

(** [if (bits(val, hi, lo)) { msb += k; val >>= k; }] *)
Definition up_half (hi lo k : Z) (xy : Z * Z) : Z * Z :=
  if bits xy.1 hi lo =? 0 then xy else (Z.shiftr xy.1 k, xy.2 + k).
Definition findMsbSet (val : Z) : Z :=
  if val =? 0 then 0 else
  let xy := up_half 3 2 2 (up_half 7 4 4 (up_half 15 8 8 (up_half 31 16 16 (up_half 63 32 32 (val, 0))))) in
  if bits xy.1 1 1 =? 0 then xy.2 else xy.2 + 1.

(** [if (!bits(val, hi, 0)) { lsb += k; val >>= k; }] *)
Definition low_half (hi k : Z) (xy : Z * Z) : Z * Z :=
  if bits xy.1 hi 0 =? 0 then (Z.shiftr xy.1 k, xy.2 + k) else xy.
Definition findLsbSet (val : Z) : Z :=
  if val =? 0 then 64 else
  let xy := low_half 1 2 (low_half 3 4 (low_half 7 8 (low_half 15 16 (low_half 31 32 (val, 0))))) in
  if bits xy.1 0 0 =? 0 then xy.2 + 1 else xy.2.

(** ** Logarithms *)

(** [y] with [x] left to examine, which has at most [b] bits. *)
Definition log_inv (x0 b : Z) (xy : Z * Z) : Prop :=
  0 < xy.1 < 2 ^ b ∧ Z.log2 x0 = xy.2 + Z.log2 xy.1.

Lemma high_bits x k m : 0 ≤ k → 0 ≤ x < 2 ^ (2 * k) → m = (2 ^ k - 1) * 2 ^ k →
  Z.land x m = 0 ↔ x < 2 ^ k.
Proof.
  intros Hk Hx ->. assert (E : Z.land x ((2 ^ k - 1) * 2 ^ k) = x / 2 ^ k * 2 ^ k).
  { rewrite <- (shiftl_pow2 (2 ^ k - 1)) by done. apply Z.bits_inj'. intros n Hn.
    rewrite Z.land_spec. destruct (Z.ltb_spec n k).
    - rewrite (Z.shiftl_spec_low _ _ n) by lia. rewrite andb_false_r. rewrite <- shiftl_pow2 by done.
      by rewrite Z.shiftl_spec_low by lia.
    - rewrite Z.shiftl_spec_high by lia. rewrite <- shiftl_pow2, <- shiftr_pow2 by done. rewrite Z.shiftl_spec_high by lia.
      rewrite Z.shiftr_spec by lia. replace (n - k + k) with n by lia.
      replace (2 ^ k - 1) with (Z.ones k) by (rewrite Z.ones_equiv; lia).
      destruct (Z.ltb_spec (n - k) k); [by rewrite Z.ones_spec_low, andb_true_r by lia|].
      rewrite Z.ones_spec_high, andb_false_r by lia. symmetry.
      rewrite <- (Z.mod_small x (2 ^ (2 * k))) by done. apply Z.mod_pow2_bits_high. lia. }
  pose proof (pow2_pos k Hk). rewrite E. split.
  - intros H0. assert (x / 2 ^ k = 0) as H1 by nia. apply Z.div_small_iff in H1; lia.
  - intros Hlt. rewrite Z.div_small by lia. lia.
Qed.

Lemma log2_shift x k : 0 ≤ k → 2 ^ k ≤ x → Z.log2 x = k + Z.log2 (Z.shiftr x k).
Proof.
  intros Hk Hx. rewrite Z.log2_shiftr by (pose proof (pow2_pos k Hk); lia).
  assert (k ≤ Z.log2 x) by (rewrite <- (Z.log2_pow2 k) at 1 by done; by apply Z.log2_le_mono). lia.
Qed.

Lemma halve_inv x0 k m xy : 0 ≤ k → m = (2 ^ k - 1) * 2 ^ k → log_inv x0 (2 * k) xy → log_inv x0 k (halve m k xy).
Proof.
  intros Hk Hm [Hx Hl]. pose proof (high_bits xy.1 k m Hk ltac:(lia) Hm) as Hb. pose proof (pow2_pos k Hk). unfold halve.
  destruct (Z.eqb_spec (Z.land xy.1 m) 0) as [E|E].
  - split; [|done]. split; [lia|]. by apply Hb.
  - assert (2 ^ k ≤ xy.1) by (destruct (Z.lt_ge_cases xy.1 (2 ^ k)); [tauto|lia]).
    split; cbn [fst snd].
    + rewrite shiftr_pow2 by done. split; [apply Z.div_str_pos; lia|].
      apply Z.div_lt_upper_bound; [lia|]. rewrite <- Z.pow_add_r by done. replace (k + k) with (2 * k) by lia. lia.
    + rewrite (log2_shift xy.1 k) in Hl by done. lia.
Qed.

Lemma log_last x0 xy : log_inv x0 2 xy → (if Z.land xy.1 2 =? 0 then xy.2 else xy.2 + 1) = Z.log2 x0.
Proof.
  intros [Hx ->]. change (2 ^ 2) with 4 in Hx.
  assert (xy.1 = 1 ∨ xy.1 = 2 ∨ xy.1 = 3) as [-> | [-> | ->]] by lia; vm_compute Z.land; cbn; lia.
Qed.

Lemma floorLog2_log2 x : 0 < x < 2 ^ 64 → floorLog2 x = Ok (Z.log2 x).
Proof.
  intros Hx. unfold floorLog2. destruct (Z.leb_spec x 0); [lia|]. f_equal. apply log_last.
  do 5 (apply halve_inv; [lia|reflexivity|]). split; [cbn [fst]; lia|cbn [fst snd]; lia].
Qed.

(** ** Bits of machine words *)

Lemma u64_bit x n : 0 ≤ n → Z.testbit (u64 x) n = (n <? 64) && Z.testbit x n.
Proof.
  intros Hn. unfold u64. destruct (Z.ltb_spec n 64); cbn [andb]; [by apply Z.mod_pow2_bits_low|apply Z.mod_pow2_bits_high; lia].
Qed.

Lemma word_bit x n : 0 ≤ x < 2 ^ 64 → 64 ≤ n → Z.testbit x n = false.
Proof. intros Hx Hn. rewrite <- (Z.mod_small x (2 ^ 64)) by done. apply Z.mod_pow2_bits_high. lia. Qed.

Lemma mask_ones k : 0 ≤ k ≤ 64 → mask k = Z.ones k.
Proof.
  intros Hk. unfold mask. destruct (Z.eqb_spec k 64) as [->|]; [done|].
  assert (2 ^ k < 2 ^ 64) by (apply Z.pow_lt_mono_r; lia). pose proof (pow2_pos k).
  rewrite shiftl_pow2, u64_small, Z.ones_equiv by lia. lia.
Qed.

Lemma ones_bit k n : 0 ≤ n → 0 ≤ k → Z.testbit (Z.ones k) n = (n <? k).
Proof. intros. destruct (Z.ltb_spec n k); [apply Z.ones_spec_low|apply Z.ones_spec_high]; lia. Qed.

Lemma bits_bit val first last n : 0 ≤ last ≤ first → first < 64 → 0 ≤ n →
  Z.testbit (bits val first last) n = (n <? first - last + 1) && Z.testbit val (n + last).
Proof.
  intros Hl Hf Hn. unfold bits. rewrite mask_ones, Z.land_spec, Z.shiftr_spec, ones_bit by lia. apply andb_comm.
Qed.

Lemma bits_mod val first last : 0 ≤ last ≤ first → first < 64 →
  bits val first last = val / 2 ^ last mod 2 ^ (first - last + 1).
Proof. intros Hl Hf. unfold bits. rewrite mask_ones, Z.land_ones, shiftr_pow2 by lia. done. Qed.

Lemma insertBits_bit val first last b n : 0 ≤ last ≤ first → first < 64 → 0 ≤ val < 2 ^ 64 → 0 ≤ n →
  Z.testbit (insertBits val first last b) n =
  if (last <=? n) && (n <=? first) then Z.testbit b (n - last) else Z.testbit val n.
Proof.
  intros Hl Hf Hv Hn. unfold insertBits. rewrite mask_ones by lia.
  rewrite Z.lor_spec, !Z.land_spec, !u64_bit, Z.lnot_spec, u64_bit by lia.
  destruct (Z.ltb_spec n 64); cbn [andb negb].
  - destruct (Z.leb_spec last n); cbn [andb].
    + rewrite !Z.shiftl_spec, ones_bit by lia. destruct (Z.leb_spec n first).
      * destruct (Z.ltb_spec (n - last) (first - last + 1)); [|lia]. by destruct (Z.testbit b _), (Z.testbit val n).
      * destruct (Z.ltb_spec (n - last) (first - last + 1)); [lia|]. by destruct (Z.testbit b _), (Z.testbit val n).
    + rewrite !Z.shiftl_spec_low by lia. by destruct (Z.testbit val n).
  - destruct (Z.leb_spec n first); [lia|]. rewrite (word_bit val) by lia. by destruct (last <=? n).
Qed.

(** A bit field reads back what [insertBits] put there, truncated to the width of
    the field, and no other bit of the word changes. *)
Theorem insertBits_round_trip val first last b : 0 ≤ last ≤ first → first < 64 → 0 ≤ val < 2 ^ 64 →
  bits (insertBits val first last b) first last = b mod 2 ^ (first - last + 1) ∧
  ∀ n, 0 ≤ n → n < last ∨ first < n → Z.testbit (insertBits val first last b) n = Z.testbit val n.
Proof.
  intros Hl Hf Hv. split.
  - apply Z.bits_inj'. intros n Hn. rewrite bits_bit by done. destruct (Z.ltb_spec n (first - last + 1)); cbn [andb].
    + rewrite insertBits_bit, Z.mod_pow2_bits_low by lia.
      destruct (Z.leb_spec last (n + last)); [|lia]. destruct (Z.leb_spec (n + last) first); [|lia]. cbn [andb].
      f_equal. lia.
    + symmetry. apply Z.mod_pow2_bits_high. lia.
  - intros n Hn Hout. rewrite insertBits_bit by lia. destruct (Z.leb_spec last n), (Z.leb_spec n first); (lia || done).
Qed.

Lemma insertBits_round_trip_witness : bits (insertBits 0xFFFF 11 4 0x123) 11 4 = 0x123 mod 2 ^ (11 - 4 + 1).
Proof. apply (insertBits_round_trip 0xFFFF 11 4 0x123); lia. Defined.

(** ** Most and least significant bits *)

Lemma up_half_inv x0 k hi lo xy : 0 < k ≤ 32 → hi = 2 * k - 1 → lo = k → log_inv x0 (2 * k) xy → log_inv x0 k (up_half hi lo k xy).
Proof.
  intros Hk -> -> [Hx Hl]. pose proof (pow2_pos k). unfold up_half. rewrite bits_mod by lia.
  assert (xy.1 / 2 ^ k < 2 ^ k) by (apply Z.div_lt_upper_bound; [lia|]; rewrite <- Z.pow_add_r by lia; replace (k + k) with (2 * k) by lia; lia).
  assert (0 ≤ xy.1 / 2 ^ k) by (apply Z.div_pos; lia).
  replace (2 * k - 1 - k + 1) with k by lia. rewrite Z.mod_small by lia.
  destruct (Z.eqb_spec (xy.1 / 2 ^ k) 0) as [E|E].
  - apply Z.div_small_iff in E; [|lia]. split; [lia|done].
  - assert (2 ^ k ≤ xy.1) by (destruct (Z.lt_ge_cases xy.1 (2 ^ k)); [destruct E; apply Z.div_small; lia|lia]).
    split; cbn [fst snd].
    + rewrite shiftr_pow2 by lia. lia.
    + rewrite (log2_shift xy.1 k) in Hl by lia. lia.
Qed.

(** [findMsbSet] of a non-zero word, and [floorLog2]. *)
Lemma findMsbSet_log2 x : 0 < x < 2 ^ 64 → findMsbSet x = Z.log2 x.
Proof.
  intros Hx. unfold findMsbSet. destruct (Z.eqb_spec x 0); [lia|].
  set (xy := up_half 3 2 2 _). assert (H : log_inv x 2 xy).
  { unfold xy. do 5 (apply up_half_inv; [lia..|]). split; cbn [fst snd]; lia. }
  rewrite <- (log_last _ _ H). destruct H as [Hr _]. change (2 ^ 2) with 4 in Hr.
  assert (xy.1 = 1 ∨ xy.1 = 2 ∨ xy.1 = 3) as [-> | [-> | ->]] by lia; reflexivity.
Qed.

(** The trailing zeros found so far, with [x] left, which has a bit among the lowest [b]. *)
Definition lsb_inv (val b : Z) (xy : Z * Z) : Prop :=
  val = xy.1 * 2 ^ xy.2 ∧ 0 ≤ xy.2 ∧ xy.1 mod 2 ^ b ≠ 0.

Lemma low_half_inv val k hi xy : 0 < k ≤ 32 → hi = k - 1 → lsb_inv val (2 * k) xy → lsb_inv val k (low_half hi k xy).
Proof.
  intros Hk -> (Hv & Hy & Hm). pose proof (pow2_pos k). unfold low_half. rewrite bits_mod by lia.
  change (2 ^ 0) with 1. rewrite Z.div_1_r. replace (k - 1 - 0 + 1) with k by lia.
  destruct (Z.eqb_spec (xy.1 mod 2 ^ k) 0) as [E|E]; [|done]. rewrite shiftr_pow2 by lia.
  assert (Ex : xy.1 = xy.1 / 2 ^ k * 2 ^ k) by (pose proof (Z.div_mod xy.1 (2 ^ k)); lia).
  split; [|split]; cbn [fst snd].
  - rewrite Hv, Ex at 1. rewrite Z.pow_add_r by lia. ring.
  - lia.
  - intros H0. apply Hm. rewrite Ex. replace (2 * k) with (k + k) by lia. rewrite Z.pow_add_r by lia.
    rewrite Z.mul_mod_distr_r by lia. rewrite H0. lia.
Qed.

Lemma findLsbSet_low x : 0 < x < 2 ^ 64 → let n := findLsbSet x in
  0 ≤ n ∧ Z.testbit x n = true ∧ ∀ m, 0 ≤ m < n → Z.testbit x m = false.
Proof.
  intros Hx. unfold findLsbSet. destruct (Z.eqb_spec x 0); [lia|].
  set (xy := low_half 1 2 _). assert (H : lsb_inv x 2 xy).
  { unfold xy. do 5 (apply low_half_inv; [lia..|]). split; cbn [fst snd]; [lia|]. split; [lia|].
    change (2 * 32) with 64. rewrite Z.mod_small by lia. lia. }
  destruct H as (Hv & Hy & Hm). rewrite bits_mod by lia. change (2 ^ 0) with 1. rewrite Z.div_1_r. change (2 ^ (0 - 0 + 1)) with 2.
  assert (Hbit : ∀ n, 0 ≤ n → Z.testbit x n = if n <? xy.2 then false else Z.testbit xy.1 (n - xy.2)).
  { intros n' Hn'. rewrite Hv, <- shiftl_pow2 by done. destruct (Z.ltb_spec n' xy.2);
      [apply Z.shiftl_spec_low|apply Z.shiftl_spec_high]; lia. }
  assert (H2 : xy.1 mod 2 = 0 → Z.testbit xy.1 1 = true).
  { intros E. rewrite Z.testbit_true by lia. change (2 ^ 1) with 2. change (2 ^ 2) with (2 * 2) in Hm.
    rewrite Z.rem_mul_r in Hm by lia. pose proof (Z.mod_pos_bound (xy.1 / 2) 2). lia. }
  assert (H1 : xy.1 mod 2 = if Z.testbit xy.1 0 then 1 else 0).
  { rewrite <- Z.bit0_mod. destruct (Z.testbit xy.1 0); done. }
  destruct (Z.eqb_spec (xy.1 mod 2) 0) as [E|E]; cbv zeta.
  - split; [lia|]. split.
    + rewrite Hbit by lia. destruct (Z.ltb_spec (xy.2 + 1) xy.2); [lia|]. replace (xy.2 + 1 - xy.2) with 1 by lia. auto.
    + intros m Hm'. rewrite Hbit by lia. destruct (Z.ltb_spec m xy.2); [done|]. replace (m - xy.2) with 0 by lia.
      destruct (Z.testbit xy.1 0); [lia|done].
  - split; [lia|]. split.
    + rewrite Hbit by lia. destruct (Z.ltb_spec xy.2 xy.2); [lia|]. rewrite Z.sub_diag. destruct (Z.testbit xy.1 0); [done|lia].
    + intros m Hm'. rewrite Hbit by lia. by rewrite (proj2 (Z.ltb_lt _ _)) by lia.
Qed.

(** C36: the two binary searches for the most significant bit, [floorLog2] and
    [findMsbSet], compute the integer logarithm of every non-zero 64-bit word. *)
Theorem log2_routines x : 0 < x < 2 ^ 64 → floorLog2 x = Ok (Z.log2 x) ∧ findMsbSet x = Z.log2 x.
Proof. intros Hx. split; [by apply floorLog2_log2|by apply findMsbSet_log2]. Qed.

Lemma log2_routines_witness : floorLog2 1000000 = Ok (Z.log2 1000000) ∧ findMsbSet 1000000 = Z.log2 1000000.
Proof. apply (log2_routines 1000000). lia. Defined.

(** [findLsbSet] is the position of the lowest bit that is set. *)
Theorem findLsbSet_lowest x : 0 < x < 2 ^ 64 →
  0 ≤ findLsbSet x ∧ Z.testbit x (findLsbSet x) = true ∧ ∀ m, 0 ≤ m < findLsbSet x → Z.testbit x m = false.
Proof. apply findLsbSet_low. Qed.

Lemma findLsbSet_lowest_witness : 0 ≤ findLsbSet 96 ∧ Z.testbit 96 (findLsbSet 96) = true.
Proof. destruct (findLsbSet_lowest 96) as (H1 & H2 & _); [lia|]. split; assumption. Defined.

(** ** Powers of two and rounding *)

Lemma ceilLog2_bounds n : 1 < n ≤ 2 ^ 63 → ∃ k, ceilLog2 n = Ok k ∧ 0 < k ≤ 63 ∧ 2 ^ (k - 1) < n ≤ 2 ^ k.
Proof.
  intros Hn. unfold ceilLog2. destruct (Z.eqb_spec n 1); [lia|]. rewrite u64_small, floorLog2_log2 by lia.
  exists (Z.log2 (n - 1) + 1). pose proof (Z.log2_spec (n - 1) ltac:(lia)) as Hl. pose proof (Z.log2_nonneg (n - 1)).
  assert (Z.log2 (n - 1) < 63) by (apply Z.log2_lt_pow2; lia).
  split; [done|]. split; [lia|]. replace (Z.log2 (n - 1) + 1 - 1) with (Z.log2 (n - 1)) by lia.
  replace (Z.log2 (n - 1) + 1) with (Z.succ (Z.log2 (n - 1))) by lia. lia.
Qed.

Lemma clear_low val k : 0 ≤ k < 64 → 0 ≤ val < 2 ^ 64 →
  Z.land val (u64 (Z.lnot (u64 (u64 (2 ^ k) - 1)))) = val - val mod 2 ^ k.
Proof.
  intros Hk Hv. assert (2 ^ k < 2 ^ 64) by (apply Z.pow_lt_mono_r; lia). pose proof (pow2_pos k).
  rewrite (u64_small (2 ^ k)), (u64_small (2 ^ k - 1)) by lia.
  rewrite <- (ldiff_mask val k) by lia. apply Z.bits_inj'. intros n Hn.
  rewrite Z.land_spec, Z.ldiff_spec, u64_bit, Z.lnot_spec by lia. destruct (Z.ltb_spec n 64); cbn [andb]; [done|].
  rewrite (word_bit val) by lia. by rewrite andb_false_r.
Qed.

(** Rounding to a power of two: [roundDown] gives the greatest multiple that is not
    above the value, [roundUp] the least one that is not below it. *)
Theorem round_correct val k : 0 ≤ k < 63 → 0 ≤ val → val + 2 ^ k < 2 ^ 64 →
  (roundDown val (2 ^ k) mod 2 ^ k = 0 ∧ roundDown val (2 ^ k) ≤ val < roundDown val (2 ^ k) + 2 ^ k) ∧
  (roundUp val (2 ^ k) mod 2 ^ k = 0 ∧ roundUp val (2 ^ k) - 2 ^ k < val ≤ roundUp val (2 ^ k)).
Proof.
  intros Hk Hv Ht. pose proof (pow2_pos k). assert (2 ^ k < 2 ^ 63) by (apply Z.pow_lt_mono_r; lia).
  assert (E : u64 (u64 (2 ^ k) - 1) = 2 ^ k - 1) by (rewrite (u64_small (2 ^ k)), u64_small by lia; done).
  unfold roundDown, roundUp. rewrite !clear_low by (rewrite ?E, ?u64_small by lia; lia).
  rewrite E, (u64_small (val + _)) by lia.
  pose proof (Z.mod_pos_bound val (2 ^ k)). pose proof (Z.mod_pos_bound (val + (2 ^ k - 1)) (2 ^ k)).
  assert (Hm : ∀ x, (x - x mod 2 ^ k) mod 2 ^ k = 0).
  { intros x. rewrite Zminus_mod, Zmod_mod, Z.sub_diag. apply Zmod_0_l. }
  split; (split; [apply Hm|lia]).
Qed.

Lemma round_correct_witness : roundUp 100 (2 ^ 6) mod 2 ^ 6 = 0 ∧ roundUp 100 (2 ^ 6) - 2 ^ 6 < 100 ≤ roundUp 100 (2 ^ 6).
Proof. apply (round_correct 100 6); lia. Defined.

Lemma leastSigBit_bit n k : 0 < n < 2 ^ 64 → 0 ≤ k →
  Z.testbit (leastSigBit n) k = Z.testbit n k && negb (Z.testbit (n - 1) k).
Proof.
  intros Hn Hk. unfold leastSigBit. rewrite (u64_small (n - 1)), Z.land_spec, u64_bit, Z.lnot_spec by lia.
  destruct (Z.ltb_spec k 64); cbn [andb]; [done|]. by rewrite (word_bit n) by lia.
Qed.

(** [isPowerOf2] decides whether a 64-bit word is a power of two. *)
Theorem isPowerOf2_correct n : 0 ≤ n < 2 ^ 64 → isPowerOf2 n = true ↔ ∃ k, 0 ≤ k ∧ n = 2 ^ k.
Proof.
  intros Hn. unfold isPowerOf2. rewrite andb_true_iff, negb_true_iff, Z.eqb_neq, Z.eqb_eq. split.
  - intros [H0 E]. exists (Z.log2 n). pose proof (Z.log2_spec n ltac:(lia)) as Hl. pose proof (Z.log2_nonneg n).
    split; [done|]. destruct (decide (n = 2 ^ Z.log2 n)) as [|Hne]; [done|].
    assert (Z.log2 (n - 1) = Z.log2 n) as El by (apply Z.log2_unique; lia).
    pose proof (leastSigBit_bit n (Z.log2 n) ltac:(lia) ltac:(lia)) as Hb.
    rewrite E, Z.bit_log2 in Hb by lia. rewrite <- El in Hb. rewrite Z.bit_log2 in Hb; [done|].
    destruct (decide (n = 1)) as [->|]; [done|lia].
  - intros (k & Hk & ->). split; [pose proof (pow2_pos k); lia|]. apply Z.bits_inj'. intros m Hm.
    rewrite leastSigBit_bit by (pose proof (pow2_pos k); lia).
    replace (2 ^ k - 1) with (Z.ones k) by (rewrite Z.ones_equiv; lia). rewrite ones_bit by done.
    destruct (decide (m = k)) as [->|]; [|by rewrite Z.pow2_bits_false by done].
    rewrite Z.pow2_bits_true by done. destruct (Z.ltb_spec k k); [lia|done].
Qed.

Lemma isPowerOf2_correct_witness : isPowerOf2 4096 = true ↔ ∃ k, 0 ≤ k ∧ 4096 = 2 ^ k.
Proof. apply (isPowerOf2_correct 4096). lia. Defined.

(** ** Primes *)

Lemma coprime_six_divisor n d : ¬ (2 | n) → ¬ (3 | n) → (d | n) → d mod 6 = 1 ∨ d mod 6 = 5.
Proof.
  intros H2 H3 Hd. pose proof (Z.mod_pos_bound d 6 ltac:(lia)). pose proof (Z.div_mod d 6 ltac:(lia)) as E.
  set (q := d / 6) in *. set (r := d mod 6) in *. clearbody q r.
  destruct (decide (r = 1)); [by left|]. destruct (decide (r = 5)); [by right|]. exfalso.
  assert (r = 0 ∨ r = 2 ∨ r = 4 ∨ r = 3) as [-> | [-> | [-> | ->]]] by lia.
  - apply H2. transitivity d; [exists (3 * q); lia|done].
  - apply H2. transitivity d; [exists (3 * q + 1); lia|done].
  - apply H2. transitivity d; [exists (3 * q + 2); lia|done].
  - apply H3. transitivity d; [exists (2 * q + 1); lia|done].
Qed.

Lemma rem_divides n i : 0 < i → 0 ≤ n → (Z.rem n i =? 0) = true ↔ (i | n).
Proof. intros Hi Hn. rewrite Z.eqb_eq, Z.rem_mod_nonneg by lia. rewrite Z.mod_divide by lia. done. Qed.

Lemma no_small_divisor_prime n : 1 < n → (∀ d, 1 < d → d * d ≤ n → ¬ (d | n)) → prime n.
Proof.
  intros Hn H. apply prime_alt. split; [done|]. intros d Hd [e He].
  assert (1 < e) by nia. destruct (Z.le_gt_cases (d * d) n) as [Hle|Hgt].
  - apply (H d); [lia|done|]. by exists e.
  - apply (H e); [done|nia|]. exists d. lia.
Qed.

(** Between two rounds of the loop there is nothing to test. *)
Lemma next_divisor n i d : ¬ (2 | n) → ¬ (3 | n) → i mod 6 = 5 → (d | n) → i ≤ d < i + 6 → d = i ∨ d = i + 2.
Proof.
  intros H2 H3 Hi Hd Hr. pose proof (Z.div_mod d 6 ltac:(lia)). pose proof (Z.div_mod i 6 ltac:(lia)).
  destruct (coprime_six_divisor n d H2 H3 Hd); lia.
Qed.

Lemma isPrime_loop_spec fuel n i : ¬ (2 | n) → ¬ (3 | n) → 5 ≤ n < 46337 * 46337 →
  5 ≤ i → i mod 6 = 5 → (i = 5 ∨ (i - 6) * (i - 6) ≤ n) → (∀ d, 1 < d < i → ¬ (d | n)) →
  Z.sqrt n < i + 6 * (Z.of_nat fuel - 1) → (1 ≤ fuel)%nat →
  ∃ b, isPrime_loop fuel n i = Ok b ∧ (b = true ↔ prime n).
Proof.
  intros H2 H3 Hn. revert i. induction fuel as [|f IH]; intros i Hi Hm Hprev Hd Hs Hf; [lia|].
  assert (Hmax : i ≤ 46337).
  { pose proof (Z.div_mod i 6 ltac:(lia)). destruct Hprev as [->|Hprev]; [lia|]. assert (i - 6 < 46337) by nia. lia. }
  simpl. destruct (Z.leb_spec (2 ^ 31) (i * i)); [nia|].
  destruct (Z.leb_spec (i * i) n).
  - destruct (Z.rem n i =? 0) eqn:E1; [|destruct (Z.rem n (i + 2) =? 0) eqn:E2]; cbn [orb].
    + apply rem_divides in E1; [|lia..]. exists false. split; [done|]. split; [done|]. intros [_ Hp]%prime_alt.
      destruct (Hp i ltac:(nia) E1).
    + apply rem_divides in E2; [|lia..]. exists false. split; [done|]. split; [done|]. intros [_ Hp]%prime_alt.
      destruct (Hp (i + 2) ltac:(nia) E2).
    + assert (i ≤ Z.sqrt n) by (apply Z.sqrt_le_square; lia).
      apply IH; [lia|rewrite <- Hm; replace (i + 6) with (i + 1 * 6) by lia; apply Z.mod_add; lia|
                 right; replace (i + 6 - 6) with i by lia; done| |lia|lia].
      intros d Hd' Hdiv. destruct (Z.lt_ge_cases d i); [destruct (Hd d); [lia|done]|].
      destruct (next_divisor n i d) as [-> | ->]; [done..|lia| |].
      * apply rem_divides in Hdiv; [congruence|lia..].
      * apply rem_divides in Hdiv; [congruence|lia..].
  - exists true. split; [done|]. split; [|done]. intros _. apply no_small_divisor_prime; [lia|].
    intros d Hd1 Hdd. apply Hd. nia.
Qed.

(** On numbers that are multiples neither of 2 nor of 3, as [prevPrime] calls it,
    [isPrime] returns and decides primality, without overflow below 46337 squared. *)
Theorem isPrime_correct n : 5 ≤ n < 46337 * 46337 → n mod 2 ≠ 0 → n mod 3 ≠ 0 →
  ∃ b, isPrime n = Ok b ∧ (b = true ↔ prime n).
Proof.
  intros Hn H2 H3. unfold isPrime. destruct (Z.eqb_spec n 2); [lia|]. destruct (Z.eqb_spec n 3); [lia|]. cbn [orb].
  assert (N2 : ¬ (2 | n)) by (rewrite <- Z.mod_divide by lia; done).
  assert (N3 : ¬ (3 | n)) by (rewrite <- Z.mod_divide by lia; done).
  pose proof (Z.sqrt_nonneg n). apply isPrime_loop_spec; try done; [by left| |lia|lia].
  intros d Hd [q Hq]. assert (d = 2 ∨ d = 3 ∨ d = 4) as [-> | [-> | ->]] by lia.
  - apply N2. by exists q.
  - apply N3. by exists q.
  - apply N2. exists (2 * q). lia.
Qed.

Lemma isPrime_correct_witness : ∃ b, isPrime 97 = Ok b ∧ (b = true ↔ prime 97).
Proof. apply (isPrime_correct 97); vm_compute; intuition congruence. Defined.

(** Elsewhere it does not: 4 and 9 are reported as primes. *)
Theorem isPrime_accepts_composites : isPrime 4 = Ok true ∧ isPrime 9 = Ok true ∧ ¬ prime 4 ∧ ¬ prime 9.
Proof.
  split_and!; [done|done| |].
  - intros [_ H]%prime_alt. apply (H 2); [lia|]. by exists 2.
  - intros [_ H]%prime_alt. apply (H 3); [lia|]. by exists 3.
Qed.
