(* ===== verification/AddrRange.v ===== *)
(** AddrRange (src/gem5-stable/src/base/addr_range.hh): the address ranges that memories
    and buses serve, possibly one of several ranges interleaved on some address bits.
    Shift amounts are taken to be below 64, as the C++ shifts require; [wf_range] says so. *)

From S2P Require Import Prelude.
From S2P Require IntMath.

Record AddrRange := MkAddrRange {
  _start : Z;
  _end : Z;
  intlvHighBit : Z;
  intlvBits : Z;
  intlvMatch : Z;
}.

Definition empty_AddrRange : AddrRange := MkAddrRange 1 0 0 0 0.
Definition AddrRange_of (start end_ : Z) : AddrRange := MkAddrRange start end_ 0 0 0.

Definition interleaved (r : AddrRange) : bool := negb (intlvBits r =? 0).
Definition granularity (r : AddrRange) : Z := u64 (Z.shiftl 1 (intlvHighBit r - intlvBits r + 1)).
Definition stripes (r : AddrRange) : Z := u64 (Z.shiftl 1 (intlvBits r)) mod 2 ^ 32.
Definition size (r : AddrRange) : Z := Z.shiftr (u64 (_end r - _start r + 1)) (intlvBits r).
Definition valid (r : AddrRange) : bool := _start r <? _end r.
Definition start (r : AddrRange) : Z := _start r.

(** [a.mergesWith(r)] *)
Definition mergesWith (a r : AddrRange) : bool :=
  (_start r =? _start a) && (_end r =? _end a) &&
  (intlvHighBit r =? intlvHighBit a) && (intlvBits r =? intlvBits a).

Definition contains (r : AddrRange) (a : Z) : bool :=
  (_start r <=? a) && (a <=? _end r) &&
  (negb (interleaved r) ||
   (IntMath.bits a (intlvHighBit r) (intlvHighBit r - intlvBits r + 1) =? intlvMatch r)).

(** [a.intersects(r)] *)
Definition intersects (a r : AddrRange) : res bool :=
  let overlap := (_start a <=? _end r) && (_start r <=? _end a) in
  if negb (interleaved a) then Ok overlap
  else if size r =? 1 then Ok (contains a (start r))
  else if negb (interleaved r) then Ok overlap
  else if mergesWith a r then Ok (intlvMatch a =? intlvMatch r)
  else Err (EPanic "AddrRange::intersects").

(** [a.isSubset(r)] *)
Definition isSubset (a r : AddrRange) : res bool :=
  if interleaved a then Err (EPanic "AddrRange::isSubset")
  else Ok ((_start r <=? _start a) && (_end a <=? _end r)).

(** The loop of the merging constructor over the ranges still to check. *)
Fixpoint merge_loop (a : AddrRange) (match_ : Z) (ranges : list AddrRange) : res unit :=
  match ranges with
  | [] => Ok tt
  | r :: ranges' =>
      if negb (mergesWith a r) then Err (EPanic "AddrRange: same start, end and interleaving bits")
      else if negb (intlvMatch r =? match_) then Err (EPanic "AddrRange: interleave match")
      else merge_loop a (u8 (match_ + 1)) ranges'
  end.

(** [AddrRange(const std::vector<AddrRange>& ranges)] *)
Definition merge_AddrRange (ranges : list AddrRange) : res AddrRange :=
  match ranges with
  | [] => Ok empty_AddrRange
  | f :: _ =>
      let a := MkAddrRange (_start f) (_end f) (intlvHighBit f) (intlvBits f) 0 in
      if negb (Z.of_nat (length ranges) =? u64 (Z.shiftl 1 (intlvBits a))) then
        Err (EPanic "AddrRange: number of ranges")
      else
        match merge_loop a 0 ranges with
        | Ok _ => Ok (MkAddrRange (_start a) (_end a) 0 0 0)
        | Err e => Err e
        end
  end.

(** [operator<] *)
Definition ltb (a r : AddrRange) : bool :=
  if negb (_start a =? _start r) then _start a <? _start r else intlvMatch a <? intlvMatch r.

Definition RangeEx (start end_ : Z) : AddrRange := AddrRange_of start (u64 (end_ - 1)).
Definition RangeIn (start end_ : Z) : AddrRange := AddrRange_of start end_.
Definition RangeSize (start size : Z) : AddrRange := AddrRange_of start (u64 (start + size - 1)).

(** ** Properties *)

Record wf_range (r : AddrRange) : Prop := {
  wr_start : 0 ≤ _start r;
  wr_end : _end r < 2 ^ 64;
  wr_bits : 0 ≤ intlvBits r ≤ 8;
  wr_high : intlvBits r ≤ intlvHighBit r + 1;
  wr_high_bit : intlvHighBit r < 64;
}.

(** The interleaving value of an address. *)
Definition stripe (r : AddrRange) (a : Z) : Z := a / 2 ^ (intlvHighBit r - intlvBits r + 1) mod 2 ^ intlvBits r.

Lemma bits_stripe r a : wf_range r → intlvBits r ≠ 0 → IntMath.bits a (intlvHighBit r) (intlvHighBit r - intlvBits r + 1) = stripe r a.
Proof.
  intros [] Hn. rewrite IntMath.bits_mod by lia. unfold stripe. do 2 f_equal. lia.
Qed.

Lemma contains_spec r a : wf_range r →
  contains r a = true ↔ _start r ≤ a ≤ _end r ∧ (intlvBits r = 0 ∨ stripe r a = intlvMatch r).
Proof.
  intros Hr. unfold contains, interleaved. rewrite negb_involutive, !andb_true_iff, orb_true_iff, !Z.leb_le, !Z.eqb_eq.
  destruct (decide (intlvBits r = 0)); [tauto|]. rewrite bits_stripe by done. tauto.
Qed.

Lemma merge_loop_spec a ranges m : merge_loop a m ranges = Ok tt → 0 ≤ m →
  m + Z.of_nat (length ranges) ≤ 256 → ∀ i r, ranges !! i = Some r →
  mergesWith a r = true ∧ intlvMatch r = m + Z.of_nat i.
Proof.
  revert m. induction ranges as [|r0 ranges IH]; intros m H Hm Hlen i r Hi; [done|]. simpl in H, Hlen.
  destruct (mergesWith a r0) eqn:E1; [|done]. destruct (Z.eqb_spec (intlvMatch r0) m); [|done]. simpl in H.
  destruct i as [|i]; simpl in Hi; [injection Hi as <-; split; [done|lia]|].
  destruct ranges as [|r1 ranges]; [done|].
  assert (E : u8 (m + 1) = m + 1) by (unfold u8; rewrite Z.mod_small; simpl in Hlen; lia).
  rewrite E in H. destruct (IH (m + 1) H ltac:(lia) ltac:(simpl in *; lia) i r Hi). split; [done|lia].
Qed.

Lemma mergesWith_spec a r : mergesWith a r = true ↔
  _start r = _start a ∧ _end r = _end a ∧ intlvHighBit r = intlvHighBit a ∧ intlvBits r = intlvBits a.
Proof. unfold mergesWith. rewrite !andb_true_iff, !Z.eqb_eq. tauto. Qed.

Lemma merge_pieces ranges r : merge_AddrRange ranges = Ok r → Forall wf_range ranges → ranges ≠ [] →
  ∃ n, intlvBits r = 0 ∧ 0 ≤ n ≤ 8 ∧ Z.of_nat (length ranges) = 2 ^ n ∧
  ∀ i p, ranges !! i = Some p → _start p = _start r ∧ _end p = _end r ∧ intlvBits p = n ∧
    intlvMatch p = Z.of_nat i ∧ ∀ q, q ∈ ranges → ∀ a, stripe q a = stripe p a.
Proof.
  intros H Hwf Hne. destruct ranges as [|f ranges]; [done|]. clear Hne. unfold merge_AddrRange in H.
  set (a := MkAddrRange _ _ _ _ 0) in H. pose proof (Forall_inv Hwf) as [_ _ Hb Hh].
  destruct (Z.eqb_spec (Z.of_nat (length (f :: ranges))) (u64 (Z.shiftl 1 (intlvBits a)))) as [Elen|]; [|done].
  change (negb true) with false in H. cbv iota in H.
  destruct (merge_loop a 0 (f :: ranges)) as [[]|] eqn:HL; [|done]. injection H as <-.
  exists (intlvBits f). rewrite shiftl_pow2, Z.mul_1_l in Elen by (cbn; lia).
  assert (2 ^ intlvBits f ≤ 2 ^ 8) by (apply Z.pow_le_mono_r; lia). pose proof (pow2_pos (intlvBits f)).
  cbn [a intlvBits] in Elen. rewrite u64_small in Elen by lia. split_and!; [done|lia|lia|done|].
  assert (Hall : ∀ i p, (f :: ranges) !! i = Some p → mergesWith a p = true ∧ intlvMatch p = 0 + Z.of_nat i).
  { intros i p Hi. eapply merge_loop_spec; [done|lia|lia|done]. }
  intros i p Hi. destruct (Hall i p Hi) as [(?&?&Eh&Eb)%mergesWith_spec Em]. split_and!; [done..|lia|].
  intros q [j Hj]%list_elem_of_lookup x. destruct (Hall j q Hj) as [(_&_&Eh'&Eb')%mergesWith_spec _].
  unfold stripe. by rewrite Eh, Eb, Eh', Eb'.
Qed.

(** Some piece has the stripe of an address as its index. *)
Lemma piece_of (ranges : list AddrRange) p n a : Z.of_nat (length ranges) = 2 ^ n → 0 ≤ n → intlvBits p = n →
  ∃ i q, ranges !! i = Some q ∧ Z.of_nat i = stripe p a.
Proof.
  intros Hlen H0 Hn. pose proof (pow2_pos n H0). unfold stripe. rewrite Hn.
  set (x := a / 2 ^ (intlvHighBit p - n + 1)). pose proof (Z.mod_pos_bound x (2 ^ n)).
  destruct (lookup_lt_is_Some_2 ranges (Z.to_nat (x mod 2 ^ n))) as [q Hq]; [lia|].
  exists (Z.to_nat (x mod 2 ^ n)), q. split; [done|]. lia.
Qed.

(** Merging interleaved ranges gives exactly the union of the pieces, and every
    address of the result belongs to one piece only: the pieces partition it. *)
Theorem merge_partition (ranges : list AddrRange) r (a : Z) :
  merge_AddrRange ranges = Ok r → Forall wf_range ranges → ranges ≠ [] →
  (contains r a = true ↔ ∃ i p, ranges !! i = Some p ∧ contains p a = true) ∧
  (∀ i j p q, ranges !! i = Some p → ranges !! j = Some q →
     contains p a = true → contains q a = true → i = j).
Proof.
  intros H Hwf Hne. destruct (merge_pieces _ _ H Hwf Hne) as (n & Hr0 & Hn & Hlen & Hp).
  assert (Hw : ∀ i p, ranges !! i = Some p → wf_range p) by (intros i p Hi; by eapply Forall_lookup_1).
  assert (Hwr : wf_range r).
  { destruct ranges as [|f l]; [done|]. destruct (Hp 0%nat f eq_refl) as (Es & Ee & _ & _ & _).
    destruct (Hw 0%nat f eq_refl). unfold merge_AddrRange in H. repeat case_match; try done. injection H as <-.
    constructor; cbn; lia. }
  split.
  - rewrite contains_spec by done. split.
    + intros [Ha _]. destruct ranges as [|f l]; [done|]. destruct (Hp 0%nat f eq_refl) as (_ & _ & En & _ & Hs).
      destruct (piece_of (f :: l) f n a) as (i & q & Hq & Hi); [done|lia|done|]. exists i, q. split; [done|].
      destruct (Hp i q Hq) as (Es & Ee & _ & Em & _). apply contains_spec; [by eapply Hw|].
      split; [lia|]. right. rewrite Em, Hi. apply Hs. apply list_elem_of_lookup. by exists i.
    + intros (i & p & Hi & Hc). destruct (Hp i p Hi) as (Es & Ee & _). apply contains_spec in Hc; [|by eapply Hw].
      split; [lia|by left].
  - intros i j p q Hi Hj Hc1 Hc2. destruct (Hp i p Hi) as (_ & _ & En & Em & Hs). destruct (Hp j q Hj) as (_ & _ & En' & Em' & _).
    apply contains_spec in Hc1 as [_ Hc1]; [|by eapply Hw]. apply contains_spec in Hc2 as [_ Hc2]; [|by eapply Hw].
    destruct (decide (n = 0)) as [->|].
    + apply lookup_lt_Some in Hi, Hj. change (2 ^ 0) with 1 in Hlen. lia.
    + rewrite (Hs q) in Hc2 by (apply list_elem_of_lookup; by exists j). lia.
Qed.

(** Four ranges interleaved on the address bits 7 and 6. *)
Definition four : list AddrRange := (λ m, MkAddrRange 0 65535 7 2 m) <$> [0; 1; 2; 3].

Lemma merge_partition_witness :
  merge_AddrRange four = Ok (MkAddrRange 0 65535 0 0 0) ∧
  (contains (MkAddrRange 0 65535 0 0 0) 4800 = true ↔
     ∃ i p, four !! i = Some p ∧ contains p 4800 = true).
Proof.
  assert (Hm : merge_AddrRange four = Ok (MkAddrRange 0 65535 0 0 0)) by reflexivity.
  split; [exact Hm|].
  apply (merge_partition four (MkAddrRange 0 65535 0 0 0) 4800 Hm); [|discriminate].
  repeat constructor; simpl; lia.
Defined.

(** [isSubset] decides inclusion in a range that is not interleaved. *)
Theorem isSubset_correct a r : wf_range a → wf_range r → interleaved a = false → interleaved r = false →
  _start a ≤ _end a →
  isSubset a r = Ok (bool_decide (_start r ≤ _start a ∧ _end a ≤ _end r)) ∧
  (isSubset a r = Ok true ↔ ∀ x, contains a x = true → contains r x = true).
Proof.
  intros Ha Hr Ea Er Hne. unfold isSubset. rewrite Ea. split.
  - f_equal. apply eq_true_iff_eq. rewrite andb_true_iff, bool_decide_eq_true, !Z.leb_le. done.
  - unfold interleaved in *. rewrite negb_false_iff, Z.eqb_eq in *.
    assert (E : ∀ b : bool, Ok b = Ok true ↔ b = true) by naive_solver. rewrite E, andb_true_iff, !Z.leb_le. split.
    + intros ? x. rewrite !contains_spec by done. lia.
    + intros H. pose proof (H (_start a)) as H1. pose proof (H (_end a)) as H2. rewrite !contains_spec in H1, H2 by done. lia.
Qed.

Lemma isSubset_correct_witness :
  isSubset (AddrRange_of 64 127) (AddrRange_of 0 4095) = Ok true ↔
  ∀ x, contains (AddrRange_of 64 127) x = true → contains (AddrRange_of 0 4095) x = true.
Proof.
  apply (isSubset_correct (AddrRange_of 64 127) (AddrRange_of 0 4095)); try reflexivity;
    [constructor; simpl; lia|constructor; simpl; lia|simpl; lia].
Defined.

(** Against an interleaved range [isSubset] is not inclusion: it answers true for a
    range that has an address outside the other one. *)
Theorem isSubset_ignores_interleaving :
  ∃ a r, isSubset a r = Ok true ∧ contains a 64 = true ∧ contains r 64 = false.
Proof. by exists (AddrRange_of 0 127), (MkAddrRange 0 65535 7 2 0). Qed.
