(* ===== verification/Request.v ===== *)
(** Request (src/gem5-stable/src/mem/request.hh) and the flag words of
    src/gem5-stable/src/base/flags.hh. A request carries the address, the size and the
    requester of a memory transaction; validity of each field is a private flag that the
    accessors assert. [curTick()] is passed as [now]. *)

From S2P Require Import Prelude.

(** ** Flag words *)

(** [Flags<T>]: [isSet(flags)], [allSet(flags)], [noneSet(flags)], [clear(flags)], [set(flags)],
    [set(f, val)] and [update(flags, mask)] on the word. *)
Definition isSet (w flags : Z) : bool := negb (Z.land w flags =? 0).
Definition allSet (w flags : Z) : bool := Z.land w flags =? flags.
Definition noneSet (w flags : Z) : bool := Z.land w flags =? 0.
Definition clear (flags w : Z) : Z := Z.ldiff w flags.
Definition set (flags w : Z) : Z := Z.lor w flags.
Definition set_val (f : Z) (val : bool) (w : Z) : Z := Z.lor (Z.ldiff w f) (if val then f else 0).
Definition update (flags mask w : Z) : Z := Z.lor (Z.ldiff w mask) (Z.land flags mask).

(** ** Requests *)

Definition ARCH_BITS := 0xFF.
Definition INST_FETCH := 0x100.
Definition UNCACHEABLE := 0x1000.
Definition MMAPPED_IPR := 0x2000.
Definition CLEAR_LL := 0x4000.
Definition PRIVILEGED := 0x8000.
Definition LOCKED := 0x100000.
Definition LLSC := 0x200000.
Definition MEM_SWAP := 0x400000.
Definition MEM_SWAP_COND := 0x800000.
Definition PREFETCH := 0x1000000.
Definition STICKY_FLAGS := INST_FETCH.

Definition VALID_SIZE := 0x1.
Definition VALID_PADDR := 0x2.
Definition VALID_VADDR := 0x4.
Definition VALID_PC := 0x10.
Definition VALID_CONTEXT_ID := 0x20.
Definition VALID_THREAD_ID := 0x40.
Definition VALID_EXTRA_DATA := 0x80.
Definition STICKY_PRIVATE_FLAGS := Z.lor VALID_CONTEXT_ID VALID_THREAD_ID.

Record Request := MkRequest {
  _paddr : Z;
  _size : Z;
  _masterId : Z;
  _flags : Z;
  privateFlags : Z;
  _time : Z;
  _asid : Z;
  _vaddr : Z;
  _extraData : Z;
  _contextId : Z;
  _threadId : Z;
  _pc : Z;
}.

Definition set_paddr (v : Z) (r : Request) : Request :=
  {| _paddr := v; _size := _size r; _masterId := _masterId r; _flags := _flags
     r; privateFlags := privateFlags r; _time := _time r; _asid := _asid r;
     _vaddr := _vaddr r; _extraData := _extraData r; _contextId := _contextId
     r; _threadId := _threadId r; _pc := _pc r |}.
Definition set_size (v : Z) (r : Request) : Request :=
  {| _paddr := _paddr r; _size := v; _masterId := _masterId r; _flags :=
     _flags r; privateFlags := privateFlags r; _time := _time r; _asid :=
     _asid r; _vaddr := _vaddr r; _extraData := _extraData r; _contextId :=
     _contextId r; _threadId := _threadId r; _pc := _pc r |}.
Definition set_masterId (v : Z) (r : Request) : Request :=
  {| _paddr := _paddr r; _size := _size r; _masterId := v; _flags := _flags r;
     privateFlags := privateFlags r; _time := _time r; _asid := _asid r;
     _vaddr := _vaddr r; _extraData := _extraData r; _contextId := _contextId
     r; _threadId := _threadId r; _pc := _pc r |}.
Definition set_flags (v : Z) (r : Request) : Request :=
  {| _paddr := _paddr r; _size := _size r; _masterId := _masterId r; _flags :=
     v; privateFlags := privateFlags r; _time := _time r; _asid := _asid r;
     _vaddr := _vaddr r; _extraData := _extraData r; _contextId := _contextId
     r; _threadId := _threadId r; _pc := _pc r |}.
Definition set_privateFlags (v : Z) (r : Request) : Request :=
  {| _paddr := _paddr r; _size := _size r; _masterId := _masterId r; _flags :=
     _flags r; privateFlags := v; _time := _time r; _asid := _asid r; _vaddr
     := _vaddr r; _extraData := _extraData r; _contextId := _contextId r;
     _threadId := _threadId r; _pc := _pc r |}.
Definition set_time (v : Z) (r : Request) : Request :=
  {| _paddr := _paddr r; _size := _size r; _masterId := _masterId r; _flags :=
     _flags r; privateFlags := privateFlags r; _time := v; _asid := _asid r;
     _vaddr := _vaddr r; _extraData := _extraData r; _contextId := _contextId
     r; _threadId := _threadId r; _pc := _pc r |}.
Definition set_asid (v : Z) (r : Request) : Request :=
  {| _paddr := _paddr r; _size := _size r; _masterId := _masterId r; _flags :=
     _flags r; privateFlags := privateFlags r; _time := _time r; _asid := v;
     _vaddr := _vaddr r; _extraData := _extraData r; _contextId := _contextId
     r; _threadId := _threadId r; _pc := _pc r |}.
Definition set_vaddr (v : Z) (r : Request) : Request :=
  {| _paddr := _paddr r; _size := _size r; _masterId := _masterId r; _flags :=
     _flags r; privateFlags := privateFlags r; _time := _time r; _asid :=
     _asid r; _vaddr := v; _extraData := _extraData r; _contextId :=
     _contextId r; _threadId := _threadId r; _pc := _pc r |}.
Definition set_extraData (v : Z) (r : Request) : Request :=
  {| _paddr := _paddr r; _size := _size r; _masterId := _masterId r; _flags :=
     _flags r; privateFlags := privateFlags r; _time := _time r; _asid :=
     _asid r; _vaddr := _vaddr r; _extraData := v; _contextId := _contextId r;
     _threadId := _threadId r; _pc := _pc r |}.
Definition set_contextId (v : Z) (r : Request) : Request :=
  {| _paddr := _paddr r; _size := _size r; _masterId := _masterId r; _flags :=
     _flags r; privateFlags := privateFlags r; _time := _time r; _asid :=
     _asid r; _vaddr := _vaddr r; _extraData := _extraData r; _contextId := v;
     _threadId := _threadId r; _pc := _pc r |}.
Definition set_threadId (v : Z) (r : Request) : Request :=
  {| _paddr := _paddr r; _size := _size r; _masterId := _masterId r; _flags :=
     _flags r; privateFlags := privateFlags r; _time := _time r; _asid :=
     _asid r; _vaddr := _vaddr r; _extraData := _extraData r; _contextId :=
     _contextId r; _threadId := v; _pc := _pc r |}.
Definition set_pc (v : Z) (r : Request) : Request :=
  {| _paddr := _paddr r; _size := _size r; _masterId := _masterId r; _flags :=
     _flags r; privateFlags := privateFlags r; _time := _time r; _asid :=
     _asid r; _vaddr := _vaddr r; _extraData := _extraData r; _contextId :=
     _contextId r; _threadId := _threadId r; _pc := v |}.

(** [Request()]: only the flag words are initialised; the other fields keep [junk]. *)
Definition new_Request (junk : Request) : Request := set_flags 0 (set_privateFlags 0 junk).

Definition setThreadContext (context_id tid : Z) (r : Request) : Request :=
  set_privateFlags (set (Z.lor VALID_CONTEXT_ID VALID_THREAD_ID) (privateFlags r))
    (set_threadId tid (set_contextId context_id r)).

Definition setPhys (paddr size flags mid time : Z) : M Request unit :=
  assert_ "Request::setPhys" (0 <=? size) ;;
  modify (λ r,
    set_privateFlags (set (Z.lor VALID_PADDR VALID_SIZE) (clear (Z.lnot STICKY_PRIVATE_FLAGS) (privateFlags r)))
      (set_flags (set flags (clear (Z.lnot STICKY_FLAGS) (_flags r)))
        (set_masterId mid (set_time time (set_size size (set_paddr paddr r)))))).

Definition setVirt (asid vaddr size flags mid pc now : Z) : M Request unit :=
  assert_ "Request::setVirt" (0 <=? size) ;;
  modify (λ r,
    set_privateFlags (set (Z.lor (Z.lor VALID_VADDR VALID_SIZE) VALID_PC)
        (clear (Z.lnot STICKY_PRIVATE_FLAGS) (privateFlags r)))
      (set_flags (set flags (clear (Z.lnot STICKY_FLAGS) (_flags r)))
        (set_time now (set_pc pc (set_masterId mid (set_size size (set_vaddr vaddr (set_asid asid r)))))))).

Definition setPaddr (paddr : Z) (r : Request) : Request :=
  set_privateFlags (set VALID_PADDR (privateFlags r)) (set_paddr paddr r).

(** The constructors that take fields. *)
Definition new_Request_phys (junk : Request) (paddr size flags mid time : Z) : res Request :=
  match setPhys paddr size flags mid time (new_Request junk) with Ok (_, r) => Ok r | Err e => Err e end.
Definition new_Request_virt (junk : Request) (asid vaddr size flags mid pc cid tid now : Z) : res Request :=
  match setVirt asid vaddr size flags mid pc now (new_Request junk) with
  | Ok (_, r) => Ok (setThreadContext cid tid r)
  | Err e => Err e
  end.

(** [splitOnVaddr]: the two new requests. *)
Definition splitOnVaddr (split_addr : Z) : M Request (Request * Request) :=
  r ← get;
  assert_ "Request::splitOnVaddr" (isSet (privateFlags r) VALID_VADDR) ;;
  assert_ "Request::splitOnVaddr" (noneSet (privateFlags r) VALID_PADDR) ;;
  assert_ "Request::splitOnVaddr" ((_vaddr r <? split_addr) && (split_addr <? u64 (_vaddr r + _size r))) ;;
  let req1 := set_size (i32 (u64 (split_addr - _vaddr r))) r in
  let req2 := set_size (_size r - _size req1) (set_vaddr split_addr r) in
  mret (req1, req2).

(** The accessors: each asserts that its field is valid. *)
Definition guarded {A} (site : string) (flags : Z) (f : Request → A) : M Request A :=
  r ← get; assert_ site (isSet (privateFlags r) flags) ;; mret (f r).

Definition hasPaddr (r : Request) : bool := isSet (privateFlags r) VALID_PADDR.
Definition getPaddr : M Request Z := guarded "Request::getPaddr" VALID_PADDR _paddr.
Definition hasSize (r : Request) : bool := isSet (privateFlags r) VALID_SIZE.
Definition getSize : M Request Z := guarded "Request::getSize" VALID_SIZE _size.
Definition time : M Request Z := guarded "Request::time" (Z.lor VALID_PADDR VALID_VADDR) _time.
Definition settime (time : Z) : M Request unit :=
  guarded "Request::time" (Z.lor VALID_PADDR VALID_VADDR) id ;; modify (set_time time).
Definition getFlags : M Request Z := guarded "Request::getFlags" (Z.lor VALID_PADDR VALID_VADDR) _flags.
Definition setFlags (flags : Z) : M Request unit :=
  guarded "Request::setFlags" (Z.lor VALID_PADDR VALID_VADDR) id ;; modify (λ r, set_flags (set flags (_flags r)) r).
Definition setArchFlags (flags : Z) : M Request unit :=
  guarded "Request::setArchFlags" (Z.lor VALID_PADDR VALID_VADDR) id ;;
  modify (λ r, set_flags (set (Z.land flags ARCH_BITS) (_flags r)) r).
Definition getVaddr : M Request Z := guarded "Request::getVaddr" VALID_VADDR _vaddr.
Definition masterId (r : Request) : Z := _masterId r.
Definition getAsid : M Request Z := guarded "Request::getAsid" VALID_VADDR _asid.
Definition setAsid (asid : Z) (r : Request) : Request := set_asid asid r.
Definition getArchFlags : M Request Z :=
  guarded "Request::getArchFlags" (Z.lor VALID_PADDR VALID_VADDR) (λ r, Z.land (_flags r) ARCH_BITS).
Definition extraDataValid (r : Request) : bool := isSet (privateFlags r) VALID_EXTRA_DATA.
Definition getExtraData : M Request Z := guarded "Request::getExtraData" VALID_EXTRA_DATA _extraData.
Definition setExtraData (extraData : Z) (r : Request) : Request :=
  set_privateFlags (set VALID_EXTRA_DATA (privateFlags r)) (set_extraData extraData r).
Definition hasContextId (r : Request) : bool := isSet (privateFlags r) VALID_CONTEXT_ID.
Definition contextId : M Request Z := guarded "Request::contextId" VALID_CONTEXT_ID _contextId.
Definition threadId : M Request Z := guarded "Request::threadId" VALID_THREAD_ID _threadId.
Definition hasPC (r : Request) : bool := isSet (privateFlags r) VALID_PC.
Definition getPC : M Request Z := guarded "Request::getPC" VALID_PC _pc.

Definition isUncacheable (r : Request) : bool := isSet (_flags r) UNCACHEABLE.
Definition isInstFetch (r : Request) : bool := isSet (_flags r) INST_FETCH.
Definition isPrefetch (r : Request) : bool := isSet (_flags r) PREFETCH.
Definition isLLSC (r : Request) : bool := isSet (_flags r) LLSC.
Definition isPriv (r : Request) : bool := isSet (_flags r) PRIVILEGED.
Definition isLocked (r : Request) : bool := isSet (_flags r) LOCKED.
Definition isSwap (r : Request) : bool := isSet (_flags r) (Z.lor MEM_SWAP MEM_SWAP_COND).
Definition isCondSwap (r : Request) : bool := isSet (_flags r) MEM_SWAP_COND.
Definition isMmappedIpr (r : Request) : bool := isSet (_flags r) MMAPPED_IPR.
Definition isClearLL (r : Request) : bool := isSet (_flags r) CLEAR_LL.

(** ** Flag words, bit by bit *)

Lemma isSet_pow2 w k : 0 ≤ k → isSet w (2 ^ k) = Z.testbit w k.
Proof.
  intros Hk. unfold isSet. destruct (Z.testbit w k) eqn:E.
  - apply negb_true_iff, Z.eqb_neq. intros H0. apply (f_equal (λ x, Z.testbit x k)) in H0.
    rewrite Z.land_spec, Z.pow2_bits_true, E, Z.bits_0 in H0 by done. done.
  - apply negb_false_iff, Z.eqb_eq. apply Z.bits_inj'. intros n Hn. rewrite Z.land_spec, Z.bits_0.
    destruct (decide (n = k)) as [->|]; [by rewrite E|]. rewrite Z.pow2_bits_false by done. apply andb_false_r.
Qed.

Lemma noneSet_isSet w f : noneSet w f = negb (isSet w f).
Proof. unfold noneSet, isSet. by rewrite negb_involutive. Qed.

(** The bits of a flag word after the operations. *)
Lemma set_bit f w k : Z.testbit (set f w) k = Z.testbit w k || Z.testbit f k.
Proof. apply Z.lor_spec. Qed.
Lemma clear_bit f w k : Z.testbit (clear f w) k = Z.testbit w k && negb (Z.testbit f k).
Proof. apply Z.ldiff_spec. Qed.
Lemma lnot_bit f k : 0 ≤ k → Z.testbit (Z.lnot f) k = negb (Z.testbit f k).
Proof. apply Z.lnot_spec. Qed.

#[export] Hint Rewrite set_bit clear_bit : sexain.

(** Decides a single-bit test of a flag word built by the operations above. *)
Ltac flag_bit k :=
  match goal with |- context [isSet ?w ?f] => change f with (2 ^ k) end;
  rewrite isSet_pow2 by lia; autorewrite with sexain; rewrite ?lnot_bit by lia;
  cbn; rewrite ?orb_true_r, ?orb_false_r, ?andb_true_r, ?andb_false_r; try reflexivity.

(** After [setPhys] the address, the size, the flags and the requester read back,
    a context set before stays valid and an old store-conditional result does not. *)
Theorem setPhys_reads paddr size flags mid time r : 0 ≤ size →
  ∃ r', setPhys paddr size flags mid time r = Ok (tt, r') ∧
    getPaddr r' = Ok (paddr, r') ∧ getSize r' = Ok (size, r') ∧ masterId r' = mid ∧
    hasContextId r' = hasContextId r ∧ extraDataValid r' = false ∧
    (isInstFetch r = true → isInstFetch r' = true).
Proof.
  intros Hs. eexists. split.
  { unfold setPhys. cbv [mbind M_bind assert_]. destruct (Z.leb_spec 0 size); [|lia]. reflexivity. }
  cbn. unfold getPaddr, getSize, guarded, hasContextId, extraDataValid, isInstFetch.
  cbv [mbind M_bind get assert_ mret M_ret]. cbn [privateFlags _flags set_privateFlags set_flags _paddr _size set_masterId set_time set_size set_paddr].
  split_and!.
  - by replace (isSet _ VALID_PADDR) with true by (symmetry; flag_bit 1).
  - by replace (isSet _ VALID_SIZE) with true by (symmetry; flag_bit 0).
  - done.
  - change VALID_CONTEXT_ID with (2 ^ 5). rewrite !isSet_pow2 by lia. autorewrite with sexain.
    rewrite lnot_bit by lia. cbn. by rewrite orb_false_r, andb_true_r.
  - flag_bit 7.
  - change INST_FETCH with (2 ^ 8). rewrite !isSet_pow2 by lia. autorewrite with sexain. rewrite lnot_bit by lia.
    cbn. by intros ->.
Qed.

(** A request with no field set. *)
Definition blank : Request := MkRequest 0 0 0 0 0 0 0 0 0 0 0 0.

Lemma setPhys_reads_witness :
  ∃ r', setPhys 4096 64 0 3 10 blank = Ok (tt, r') ∧ getPaddr r' = Ok (4096, r') ∧ getSize r' = Ok (64, r') ∧
    masterId r' = 3 ∧ hasContextId r' = hasContextId blank ∧ extraDataValid r' = false ∧
    (isInstFetch blank = true → isInstFetch r' = true).
Proof. apply (setPhys_reads 4096 64 0 3 10 blank). lia. Defined.

(** A request that has a virtual address only and is split strictly inside its range
    gives two non-empty requests that cover the range one after the other and agree with
    it in every other field. *)
Theorem splitOnVaddr_covers a r : 0 ≤ _vaddr r → 0 ≤ _size r < 2 ^ 31 → _vaddr r + _size r < 2 ^ 64 →
  isSet (privateFlags r) VALID_VADDR = true → hasPaddr r = false → _vaddr r < a < _vaddr r + _size r →
  ∃ r1 r2, splitOnVaddr a r = Ok ((r1, r2), r) ∧
    _vaddr r1 = _vaddr r ∧ _vaddr r1 + _size r1 = _vaddr r2 ∧ _vaddr r2 + _size r2 = _vaddr r + _size r ∧
    0 < _size r1 ∧ 0 < _size r2 ∧
    set_size 0 r1 = set_size 0 r ∧ set_size 0 (set_vaddr 0 r2) = set_size 0 (set_vaddr 0 r).
Proof.
  intros Hv Hs Ht Hva Hpa Ha. do 2 eexists. split.
  - unfold splitOnVaddr. cbv [mbind M_bind get assert_ mret M_ret]. rewrite Hva. unfold hasPaddr in Hpa.
    rewrite noneSet_isSet, Hpa. cbn [negb]. rewrite (u64_small (_ + _)) by lia.
    destruct (Z.ltb_spec (_vaddr r) a); [|lia]. destruct (Z.ltb_spec a (_vaddr r + _size r)); [|lia]. reflexivity.
  - cbn. rewrite u64_small, i32_small by lia. split_and!; (lia || done).
Qed.

Lemma splitOnVaddr_covers_witness :
  ∃ r1 r2, splitOnVaddr 64 (set_privateFlags VALID_VADDR (set_size 100 blank)) =
    Ok ((r1, r2), set_privateFlags VALID_VADDR (set_size 100 blank)) ∧ _size r1 = 64 ∧ _size r2 = 36.
Proof.
  destruct (splitOnVaddr_covers 64 (set_privateFlags VALID_VADDR (set_size 100 blank)))
    as (r1 & r2 & E & E1 & E2 & E3 & _); try reflexivity; try (simpl; lia).
  exists r1, r2. simpl in E1, E3. rewrite E1 in E2.
  injection E as <- <-. repeat split.
Defined.
