(* ===== verification/EventQueue.v ===== *)
(** The event queue of the simulator (src/gem5-stable/src/sim/eventq.hh, eventq.cc and
    eventq_impl.hh), on which the memory schedules its events: a linked list of bins, one
    per time and priority, each a stack of events linked in the events themselves. Events
    live in a heap of addresses; [nextBin] is kept for the top of a bin only and is stale
    below it. [is_queue q bins] says that the pointers spell [bins]; every operation is
    proved to be the list operation on them. *)

From Stdlib Require Import Sorted.
From S2P Require Import Prelude.
From S2P Require Request.
Module Req := Request.
#[global] Open Scope Z_scope.

(** [EventBase::FlagsType] *)
Definition PublicRead : Z := 63.
Definition PublicWrite : Z := 29.
Definition Squashed : Z := 1.
Definition Scheduled : Z := 2.
Definition AutoDelete : Z := 4.
Definition AutoSerialize : Z := 8.
Definition IsExitEvent : Z := 16.
Definition IsMainQueue : Z := 32.
Definition Initialized : Z := 31296.
Definition InitMask : Z := 65472.

(** Event priorities. *)
Definition Minimum_Pri : Z := -128.
Definition Debug_Enable_Pri : Z := -101.
Definition Debug_Break_Pri : Z := -100.
Definition CPU_Switch_Pri : Z := -31.
Definition Delayed_Writeback_Pri : Z := -1.
Definition Default_Pri : Z := 0.
Definition Serialize_Pri : Z := 32.
Definition CPU_Tick_Pri : Z := 50.
Definition Stat_Event_Pri : Z := 90.
Definition Progress_Event_Pri : Z := 95.
Definition Sim_Exit_Pri : Z := 100.
Definition Maximum_Pri : Z := 127.

(** An event; NULL is [None], and [queue] the queue it was last scheduled on. *)
Record Event := MkEvent {
  nextBin : option Z;
  nextInBin : option Z;
  _when : Z;
  _priority : Z;
  flags : Z;
  queue : option Z;
}.

Definition set_nextBin (v : option Z) (e : Event) : Event :=
  MkEvent v (nextInBin e) (_when e) (_priority e) (flags e) (queue e).
Definition set_nextInBin (v : option Z) (e : Event) : Event :=
  MkEvent (nextBin e) v (_when e) (_priority e) (flags e) (queue e).
Definition set_flags (v : Z) (e : Event) : Event :=
  MkEvent (nextBin e) (nextInBin e) (_when e) (_priority e) v (queue e).
Definition set_when (v : Z) (e : Event) : Event :=
  MkEvent (nextBin e) (nextInBin e) v (_priority e) (flags e) (queue e).
Definition set_priority (v : Z) (e : Event) : Event :=
  MkEvent (nextBin e) (nextInBin e) (_when e) v (flags e) (queue e).

(** [Event(Priority p, Flags f)]; [junk] is the uninitialised time. *)
Definition new_Event (p f junk : Z) : res Event :=
  if Req.noneSet f (Z.lxor 65535 PublicWrite) then Ok (MkEvent None None junk p (Z.lor Initialized f) None)
  else Err (EAssert "Event::Event").

Definition setWhen (t q : Z) (e : Event) : Event :=
  MkEvent (nextBin e) (nextInBin e) t (_priority e) (flags e) (Some q).
Definition initialized (e : Event) : bool := Z.land (flags e) InitMask =? Initialized.
Definition scheduled (e : Event) : bool := Req.isSet (flags e) Scheduled.
Definition squashed (e : Event) : bool := Req.isSet (flags e) Squashed.
Definition isExitEvent (e : Event) : bool := Req.isSet (flags e) IsExitEvent.
Definition squash (e : Event) : Event := set_flags (Req.set Squashed (flags e)) e.

(** Accessors of the flags open to derived classes. *)
Definition getFlags (e : Event) : Z := Z.land (flags e) PublicRead.
Definition isFlagSet (f : Z) (e : Event) : res bool :=
  if Req.noneSet f (Z.lxor 65535 PublicRead) then Ok (Req.isSet (flags e) f) else Err (EAssert "Event::isFlagSet").
Definition setFlags (f : Z) (e : Event) : res Event :=
  if Req.noneSet f (Z.lxor 65535 PublicWrite) then Ok (set_flags (Req.set f (flags e)) e) else Err (EAssert "Event::setFlags").
Definition clearFlags (f : Z) (e : Event) : res Event :=
  if Req.noneSet f (Z.lxor 65535 PublicWrite) then Ok (set_flags (Req.clear f (flags e)) e) else Err (EAssert "Event::clearFlags").
Definition clearFlags_all (e : Event) : Event := set_flags (Req.clear PublicWrite (flags e)) e.

(** [EventWrapper(obj, del, p)] *)
Definition new_EventWrapper (del : bool) (p junk : Z) : res Event :=
  match new_Event p 0 junk with
  | Ok e => if del then setFlags AutoDelete e else Ok e
  | Err x => Err x
  end.

(** The comparison operators. *)
Definition ev_lt (l r : Event) : bool := (_when l <? _when r) || ((_when l =? _when r) && (_priority l <? _priority r)).
Definition ev_le (l r : Event) : bool := (_when l <? _when r) || ((_when l =? _when r) && (_priority l <=? _priority r)).
Definition ev_eq (l r : Event) : bool := (_when l =? _when r) && (_priority l =? _priority r).
Definition ev_ne (l r : Event) : bool := negb (_when l =? _when r) || negb (_priority l =? _priority r).

(** The queue [self] with the heap of events, and the globals that [schedule] reads. *)
Record EventQueue := MkEventQueue {
  heap : gmap Z Event;
  head : option Z;
  _curTick : Z;
  async_queue : list Z;
  self : Z;
  inParallelMode : bool;
  curEventQueue : Z;
}.

Definition set_heap (v : gmap Z Event) (q : EventQueue) : EventQueue :=
  MkEventQueue v (head q) (_curTick q) (async_queue q) (self q) (inParallelMode q) (curEventQueue q).
Definition set_head (v : option Z) (q : EventQueue) : EventQueue :=
  MkEventQueue (heap q) v (_curTick q) (async_queue q) (self q) (inParallelMode q) (curEventQueue q).
Definition setCurTick (v : Z) (q : EventQueue) : EventQueue :=
  MkEventQueue (heap q) (head q) v (async_queue q) (self q) (inParallelMode q) (curEventQueue q).
Definition set_async_queue (v : list Z) (q : EventQueue) : EventQueue :=
  MkEventQueue (heap q) (head q) (_curTick q) v (self q) (inParallelMode q) (curEventQueue q).

(** [EventQueue(n)], over the events there are. *)
Definition new_EventQueue (h : gmap Z Event) (self cur : Z) (par : bool) : EventQueue :=
  MkEventQueue h None 0 [] self par cur.

(** [*p], read and written. *)
Definition deref (p : Z) : M EventQueue Event := q ← get; of_option (EUndef "Event*") (heap q !! p).
Definition ev_mod (p : Z) (f : Event → Event) : M EventQueue unit :=
  e ← deref p; modify (λ q, set_heap (<[p := f e]> (heap q)) q).

Definition insertBefore (event : Z) (curr : option Z) : M EventQueue Z :=
  e ← deref event;
  before ← match curr with None => mret true | Some c => ec ← deref c; mret (ev_lt e ec) end;
  (if (before : bool) then ev_mod event (λ e, set_nextInBin None (set_nextBin curr e))
   else
     ec ← match curr with None => err (EUndef "Event*") | Some c => deref c end;
     ev_mod event (λ e, set_nextInBin curr (set_nextBin (nextBin ec) e))) ;;
  mret event.

(** [while (curr && *curr < *event) { prev = curr; curr = curr->nextBin; }] *)
Fixpoint find_bin (fuel : nat) (event prev : Z) (curr : option Z) : M EventQueue (Z * option Z) :=
  match fuel with
  | O => err EFuel
  | S fuel' =>
      match curr with
      | None => mret (prev, curr)
      | Some c =>
          ec ← deref c;
          e ← deref event;
          if ev_lt ec e then find_bin fuel' event c (nextBin ec) else mret (prev, curr)
      end
  end.

(** Each bin is visited once. *)
Definition bin_fuel (q : EventQueue) : nat := S (size (heap q)).

Definition insert (event : Z) : M EventQueue unit :=
  q ← get;
  match head q with
  | None => r ← insertBefore event None; modify (set_head (Some r))
  | Some h =>
      eh ← deref h;
      e ← deref event;
      if ev_le e eh then r ← insertBefore event (Some h); modify (set_head (Some r))
      else
        r ← find_bin (bin_fuel q) event h (nextBin eh);
        top ← insertBefore event r.2;
        ev_mod r.1 (set_nextBin (Some top))
  end.

(** [while (event != next) { if (!next) panic(..); curr = next; next = next->nextInBin; }] *)
Fixpoint find_item (fuel : nat) (event curr : Z) (next : option Z) : M EventQueue Z :=
  match fuel with
  | O => err EFuel
  | S fuel' =>
      match next with
      | None => err (EPanic "event not found!")
      | Some n => if event =? n then mret curr else en ← deref n; find_item fuel' event n (nextInBin en)
      end
  end.

Definition removeItem (event top : Z) : M EventQueue (option Z) :=
  et ← deref top;
  let next := nextInBin et in
  if event =? top then
    match next with
    | None => mret (nextBin et)
    | Some n => ev_mod n (set_nextBin (nextBin et)) ;; mret (Some n)
    end
  else
    q ← get;
    curr ← find_item (bin_fuel q) event top next;
    e ← deref event;
    ev_mod curr (set_nextInBin (nextInBin e)) ;;
    mret (Some top).

Definition remove (event : Z) : M EventQueue unit :=
  q ← get;
  match head q with
  | None => err (EPanic "event not found!")
  | Some h =>
      e ← deref event;
      assert_ "EventQueue::remove" (bool_decide (queue e = Some (self q))) ;;
      eh ← deref h;
      if ev_eq eh e then r ← removeItem event h; modify (set_head r)
      else
        r ← find_bin (bin_fuel q) event h (nextBin eh);
        match r.2 with
        | None => err (EPanic "event not found!")
        | Some c =>
            ec ← deref c;
            if ev_ne ec e then err (EPanic "event not found!")
            else top ← removeItem event c; ev_mod r.1 (set_nextBin top)
        end
  end.

(** [delete event], with the assertion of the destructor. *)
Definition delete_event (event : Z) : M EventQueue unit :=
  e ← deref event;
  assert_ "Event::~Event" (negb (scheduled e)) ;;
  modify (λ q, set_heap (delete event (heap q)) q).

(** The end of [serviceOne], once the event is off the queue; [process] is the virtual function
    of each event. *)
Definition handle_action (process : Z → M EventQueue unit) (event : Z) : M EventQueue (option Z) :=
  e ← deref event;
  exit ←
    (if negb (squashed e) then
       modify (setCurTick (_when e)) ;;
       process event ;;
       e ← deref event;
       (if isExitEvent e then
          assert_ "EventQueue::serviceOne" (negb (Req.isSet (flags e) AutoDelete) || negb (Req.isSet (flags e) IsMainQueue)) ;;
          mret true
        else mret false)
     else ev_mod event (λ e, set_flags (Req.clear Squashed (flags e)) e) ;; mret false);
  if (exit : bool) then mret (Some event) else
  e ← deref event;
  (if Req.isSet (flags e) AutoDelete && negb (scheduled e) then delete_event event else mret tt) ;;
  mret None.

Definition serviceOne (process : Z → M EventQueue unit) : M EventQueue (option Z) :=
  q ← get;
  match head q with
  | None => err (EUndef "Event*")
  | Some event =>
      eh ← deref event;
      let next := nextInBin eh in
      ev_mod event (λ e, set_flags (Req.clear Scheduled (flags e)) e) ;;
      (match next with
       | Some n => ev_mod n (set_nextBin (nextBin eh)) ;; modify (set_head (Some n))
       | None => modify (set_head (nextBin eh))
       end) ;;
      handle_action process event
  end.

Definition nextTick : M EventQueue Z :=
  q ← get; match head q with None => err (EUndef "Event*") | Some h => e ← deref h; mret (_when e) end.
Definition empty_queue (q : EventQueue) : bool := match head q with None => true | Some _ => false end.

(** [serviceEvents(when)]; the loop runs as long as the events schedule new ones in time. *)
Fixpoint service_loop (fuel : nat) (process : Z → M EventQueue unit) (t : Z) : M EventQueue unit :=
  match fuel with
  | O => err EFuel
  | S fuel' =>
      q ← get;
      if empty_queue q then mret tt else
      n ← nextTick;
      if t <? n then mret tt else serviceOne process ;; service_loop fuel' process t
  end.
Definition serviceEvents (fuel : nat) (process : Z → M EventQueue unit) (t : Z) : M EventQueue unit :=
  service_loop fuel process t ;; modify (setCurTick t).

Definition asyncInsert (event : Z) : M EventQueue unit := modify (λ q, set_async_queue (async_queue q ++ [event]) q).

Definition handleAsyncInsertions : M EventQueue unit :=
  q ← get;
  assert_ "EventQueue::handleAsyncInsertions" (self q =? curEventQueue q) ;;
  for_each (async_queue q) (λ event, insert event ;; modify (λ q, set_async_queue (tail (async_queue q)) q)).

Definition schedule (event t : Z) (global : bool) : M EventQueue unit :=
  q ← get;
  assert_ "EventQueue::schedule" (_curTick q <=? t) ;;
  e ← deref event;
  assert_ "EventQueue::schedule" (negb (scheduled e)) ;;
  assert_ "EventQueue::schedule" (initialized e) ;;
  ev_mod event (setWhen t (self q)) ;;
  (if inParallelMode q && (negb (self q =? curEventQueue q) || global) then asyncInsert event else insert event) ;;
  ev_mod event (λ e, set_flags (Req.set Scheduled (flags e)) e).

Definition deschedule (event : Z) : M EventQueue unit :=
  q ← get;
  e ← deref event;
  assert_ "EventQueue::deschedule" (scheduled e) ;;
  assert_ "EventQueue::deschedule" (initialized e) ;;
  assert_ "EventQueue::deschedule" (negb (inParallelMode q) || (self q =? curEventQueue q)) ;;
  remove event ;;
  ev_mod event (λ e, set_flags (Req.clear Squashed (flags e)) e) ;;
  ev_mod event (λ e, set_flags (Req.clear Scheduled (flags e)) e) ;;
  e ← deref event;
  if Req.isSet (flags e) AutoDelete then delete_event event else mret tt.

Definition reschedule (event t : Z) (always : bool) : M EventQueue unit :=
  q ← get;
  assert_ "EventQueue::reschedule" (_curTick q <=? t) ;;
  e ← deref event;
  assert_ "EventQueue::reschedule" (always || scheduled e) ;;
  assert_ "EventQueue::reschedule" (initialized e) ;;
  assert_ "EventQueue::reschedule" (negb (inParallelMode q) || (self q =? curEventQueue q)) ;;
  (if scheduled e then remove event else mret tt) ;;
  ev_mod event (setWhen t (self q)) ;;
  insert event ;;
  ev_mod event (λ e, set_flags (Req.clear Squashed (flags e)) e) ;;
  ev_mod event (λ e, set_flags (Req.set Scheduled (flags e)) e).

(** [Event::serialize]: the time, the priority and the flags as a [short]. *)
Definition serialize (e : Event) : Z * Z * Z := (_when e, _priority e, (flags e + 2 ^ 15) mod 2 ^ 16 - 2 ^ 15).

(** [Event::unserialize(cp, section, eventq)] with the values read from the checkpoint. *)
Definition unserialize (event t p fl : Z) : M EventQueue unit :=
  e ← deref event;
  (if scheduled e then deschedule event else mret tt) ;;
  ev_mod event (λ e, set_priority p (set_when t e)) ;;
  e ← deref event;
  assert_ "Event::unserialize" (initialized e) ;;
  let w := Req.set Initialized (fl mod 2 ^ 16) in
  let wasScheduled := Req.isSet w Scheduled && negb (Req.isSet w Squashed) in
  ev_mod event (set_flags (Req.clear (Z.lor Squashed Scheduled) w)) ;;
  if wasScheduled then schedule event t false else mret tt.

(** [DelayFunction]: an event at the fresh address [p] that is deleted when it is done. *)
Definition DelayFunction (p junk t : Z) : M EventQueue unit :=
  match new_Event Default_Pri AutoDelete junk with
  | Ok e => modify (λ q, set_heap (<[p := e]> (heap q)) q) ;; schedule p t false
  | Err x => err x
  end.

(** [EventQueue::serialize]: the events to be saved, in the order of the queue. *)
Fixpoint serialize_bin (fuel : nat) (next : option Z) (ptrs : list Z) : M EventQueue (list Z) :=
  match fuel with
  | O => err EFuel
  | S fuel' =>
      match next with
      | None => mret ptrs
      | Some n => e ← deref n; serialize_bin fuel' (nextInBin e) (if Req.isSet (flags e) AutoSerialize then ptrs ++ [n] else ptrs)
      end
  end.

Fixpoint serialize_bins (fuel : nat) (next : option Z) (ptrs : list Z) : M EventQueue (list Z) :=
  match fuel with
  | O => err EFuel
  | S fuel' =>
      match next with
      | None => mret ptrs
      | Some n =>
          q ← get;
          ptrs' ← serialize_bin (bin_fuel q) (Some n) ptrs;
          e ← deref n;
          serialize_bins fuel' (nextBin e) ptrs'
      end
  end.

Fixpoint serialize_events (ptrs : list Z) : M EventQueue (list (Z * Z * Z)) :=
  match ptrs with
  | [] => mret []
  | p :: ptrs' => e ← deref p; out ← serialize_events ptrs'; mret (serialize e :: out)
  end.

Definition serialize_queue : M EventQueue (list (Z * Z * Z)) :=
  q ← get;
  ptrs ← serialize_bins (bin_fuel q) (head q) [];
  serialize_events ptrs.

(** [debugVerify()]; [seen] are the events met so far. The inner loop gives the time, the
    priority and the events at its end. *)
Fixpoint verify_bin (fuel : nat) (next : option Z) (time priority : Z) (seen : list Z) :
    M EventQueue (option (Z * Z * list Z)) :=
  match fuel with
  | O => err EFuel
  | S fuel' =>
      match next with
      | None => mret (Some (time, priority, seen))
      | Some n =>
          e ← deref n;
          if _when e <? time then mret None
          else if (_when e =? time) && (_priority e <? priority) then mret None
          else if bool_decide (n ∈ seen) then mret None
          else verify_bin fuel' (nextInBin e) (_when e) (_priority e) (seen ++ [n])
      end
  end.

Fixpoint verify_bins (fuel : nat) (next : option Z) (time priority : Z) (seen : list Z) : M EventQueue bool :=
  match fuel with
  | O => err EFuel
  | S fuel' =>
      match next with
      | None => mret true
      | Some n =>
          q ← get;
          r ← verify_bin (bin_fuel q) (Some n) time priority seen;
          match r with
          | None => mret false
          | Some (time', priority', seen') =>
              e ← deref n; verify_bins fuel' (nextBin e) time' priority' seen'
          end
      end
  end.

Definition debugVerify : M EventQueue bool :=
  q ← get; verify_bins (bin_fuel q) (head q) 0 0 [].

Definition replaceHead (s : option Z) : M EventQueue (option Z) :=
  q ← get; modify (set_head s) ;; mret (head q).

(** ** The bins *)

Abbreviation Key := (Z * Z)%type.
Definition key_lt (k k' : Key) : Prop := k.1 < k'.1 ∨ (k.1 = k'.1 ∧ k.2 < k'.2).
Definition ev_key (e : Event) : Key := (_when e, _priority e).

(** The first event of the first bin. *)
Definition top (bins : list (list Z)) : option Z := match bins with (p :: _) :: _ => Some p | _ => None end.
Definition top_or (bins : list (list Z)) (n : option Z) : option Z := match bins with [] => n | _ => top bins end.

Lemma top_or_top bins : top_or bins None = top bins.
Proof. by destruct bins. Qed.

(** The events of a bin have the same key and are linked by [nextInBin]. *)
Fixpoint stack (h : gmap Z Event) (k : Key) (b : list Z) : Prop :=
  match b with
  | [] => True
  | p :: b' => (∃ e, h !! p = Some e ∧ nextInBin e = hd_error b' ∧ ev_key e = k) ∧ stack h k b'
  end.

(** A bin of key [k] whose top points to the next bin. *)
Definition is_bin (h : gmap Z Event) (k : Key) (b : list Z) (n : option Z) : Prop :=
  stack h k b ∧ ∃ p e, hd_error b = Some p ∧ h !! p = Some e ∧ nextBin e = n.

Fixpoint are_bins (h : gmap Z Event) (ks : list Key) (bins : list (list Z)) (n : option Z) : Prop :=
  match ks, bins with
  | [], [] => True
  | k :: ks', b :: bins' => is_bin h k b (top_or bins' n) ∧ are_bins h ks' bins' n
  | _, _ => False
  end.

Record is_queue (q : EventQueue) (ks : list Key) (bins : list (list Z)) : Prop := {
  iq_head : head q = top bins;
  iq_bins : are_bins (heap q) ks bins None;
  iq_sorted : StronglySorted key_lt ks;
  iq_nodup : NoDup (mjoin bins);
}.

(** ** Keys *)

Lemma ev_lt_key e e' : ev_lt e e' = true ↔ key_lt (ev_key e) (ev_key e').
Proof. unfold ev_lt, key_lt. cbn. rewrite orb_true_iff, andb_true_iff, !Z.ltb_lt, Z.eqb_eq. done. Qed.

Lemma ev_le_key e e' : ev_le e e' = true ↔ ¬ key_lt (ev_key e') (ev_key e).
Proof. unfold ev_le, key_lt. cbn. rewrite orb_true_iff, andb_true_iff, Z.ltb_lt, Z.leb_le, Z.eqb_eq. lia. Qed.

Lemma ev_eq_key e e' : ev_eq e e' = true ↔ ev_key e = ev_key e'.
Proof. unfold ev_eq, ev_key. rewrite andb_true_iff, !Z.eqb_eq. split; [by intros [-> ->]|by intros [= -> ->]]. Qed.

Lemma ev_ne_eq e e' : ev_ne e e' = negb (ev_eq e e').
Proof. unfold ev_ne, ev_eq. by rewrite negb_andb. Qed.

Lemma not_ev_le e e' : ev_le e e' ≠ true → key_lt (ev_key e') (ev_key e).
Proof. rewrite ev_le_key. unfold key_lt. cbn. lia. Qed.

#[global] Instance key_lt_dec k k' : Decision (key_lt k k').
Proof. unfold key_lt. apply _. Defined.

#[global] Instance key_lt_trans : Transitive key_lt.
Proof. intros [] [] []. unfold key_lt. cbn. lia. Qed.

Lemma key_lt_total k k' : key_lt k k' ∨ k = k' ∨ key_lt k' k.
Proof. destruct k as [a b], k' as [a' b']. unfold key_lt. cbn.
  destruct (Z.lt_total a a') as [|[->|]], (Z.lt_total b b') as [|[->|]]; auto with lia. Qed.

Lemma key_lt_irrefl k : ¬ key_lt k k.
Proof. unfold key_lt. lia. Qed.

(** ** Bins under updates of the heap *)

Section Bins.
Implicit Types h : gmap Z Event.

Lemma stack_lookup h k b p : stack h k b → p ∈ b → ∃ e, h !! p = Some e ∧ ev_key e = k.
Proof.
  induction b as [|x b IH]; [by intros _ ?%elem_of_nil|]. intros [(e & He & _ & Hk) Hb] [->|Hp]%elem_of_cons; [by exists e|by apply IH].
Qed.

(** Only the link inside the bin and the key matter for a stack. *)
Lemma stack_change h k b p e e' : stack h k b → h !! p = Some e → nextInBin e' = nextInBin e → ev_key e' = ev_key e →
  stack (<[p := e']> h) k b.
Proof.
  intros Hs He En Ek. induction b as [|x b IH]; [done|]. destruct Hs as [(ex & Hx & Hn & Hkx) Hb]. split; [|by apply IH].
  destruct (decide (x = p)) as [->|Hne].
  - exists e'. rewrite lookup_insert_eq. split_and!; [done|congruence|congruence].
  - exists ex. by rewrite lookup_insert_ne.
Qed.

(** Only the links and the keys of the queued events matter. *)
Definition ev_link (e : Event) : option Z * option Z * Key := (nextBin e, nextInBin e, ev_key e).

Lemma ev_link_lookup h h' p e : ev_link <$> h' !! p = ev_link <$> h !! p → h !! p = Some e →
  ∃ e', h' !! p = Some e' ∧ nextBin e' = nextBin e ∧ nextInBin e' = nextInBin e ∧ ev_key e' = ev_key e.
Proof.
  intros H He. rewrite He in H. destruct (h' !! p) as [e'|]; [|done]. exists e'. unfold ev_link in H. cbn [fmap option_fmap option_map] in H.
  split_and!; congruence.
Qed.

Lemma stack_agree h h' k b : (∀ p, p ∈ b → ev_link <$> h' !! p = ev_link <$> h !! p) → stack h k b → stack h' k b.
Proof.
  induction b as [|x b IH]; [done|]. intros H [(e & He & Hn & Hk) Hb].
  destruct (ev_link_lookup _ _ _ _ (H x (list_elem_of_here _ _)) He) as (e' & He' & _ & E1 & E2).
  split; [exists e'; split_and!; congruence|]. apply IH; [|done]. intros p Hp. apply H. by right.
Qed.

Lemma stack_ne h k b p e : stack h k b → p ∉ b → stack (<[p := e]> h) k b.
Proof. intros Hs Hp. eapply stack_agree, Hs. intros x Hx. rewrite lookup_insert_ne; [done|]. by intros ->. Qed.

Lemma are_bins_app h ks1 ks2 b1 b2 n : length ks1 = length b1 →
  are_bins h (ks1 ++ ks2) (b1 ++ b2) n ↔ are_bins h ks1 b1 (top_or b2 n) ∧ are_bins h ks2 b2 n.
Proof.
  revert b1. induction ks1 as [|k ks1 IH]; intros [|b b1]; try done; [cbn; tauto|]. intros [= Hl]. cbn [app are_bins]. rewrite (IH b1 Hl).
  assert (top_or (b1 ++ b2) n = top_or b1 (top_or b2 n)) as -> by (by destruct b1). tauto.
Qed.

Lemma is_bin_agree h h' k b n : (∀ p, p ∈ b → ev_link <$> h' !! p = ev_link <$> h !! p) → is_bin h k b n → is_bin h' k b n.
Proof.
  intros H (Hs & x & e & Hx & He & Hn). split; [by eapply stack_agree|]. destruct b as [|y b]; [done|]. injection Hx as ->.
  destruct (ev_link_lookup _ _ _ _ (H x (list_elem_of_here _ _)) He) as (e' & He' & E & _). exists x, e'. split_and!; [done|done|congruence].
Qed.

Lemma are_bins_agree h h' ks bins n : (∀ p, p ∈ mjoin bins → ev_link <$> h' !! p = ev_link <$> h !! p) →
  are_bins h ks bins n → are_bins h' ks bins n.
Proof.
  revert bins. induction ks as [|k ks IH]; intros [|b bins]; try done. intros H [Hb Hbs].
  split; [eapply is_bin_agree, Hb|eapply IH, Hbs]; intros p Hp; apply H; apply elem_of_app; tauto.
Qed.

Lemma are_bins_ne h ks bins n p e : are_bins h ks bins n → p ∉ mjoin bins → are_bins (<[p := e]> h) ks bins n.
Proof. intros Hb Hp. eapply are_bins_agree, Hb. intros x Hx. rewrite lookup_insert_ne; [done|]. by intros ->. Qed.

Lemma are_bins_lookup h ks bins n p : are_bins h ks bins n → p ∈ mjoin bins → ∃ e, h !! p = Some e.
Proof.
  revert bins. induction ks as [|k ks IH]; intros [|b bins]; try done; [by intros _ ?%elem_of_nil|].
  intros [[Hs _] Hb] [Hp|Hp]%elem_of_app; [|by eapply IH]. destruct (stack_lookup _ _ _ _ Hs Hp) as (e & He & _). by exists e.
Qed.

(** The pointer to the next bin of the last bin. *)
Lemma are_bins_last h ks k bins p b e n n' : length ks = length bins → NoDup (mjoin (bins ++ [p :: b])) →
  are_bins h (ks ++ [k]) (bins ++ [p :: b]) n → h !! p = Some e →
  are_bins (<[p := set_nextBin n' e]> h) (ks ++ [k]) (bins ++ [p :: b]) n'.
Proof.
  intros Hl Hnd Hb He. rewrite are_bins_app in Hb |- * by done. destruct Hb as [H1 [[Hs _] _]]. rewrite join_app, NoDup_app in Hnd.
  destruct Hnd as (_ & Hd & _). split.
  - apply are_bins_ne; [done|]. intros Hp. apply (Hd p Hp). cbn. apply list_elem_of_here.
  - split; [|done]. split; [by eapply stack_change|]. exists p, (set_nextBin n' e). by rewrite lookup_insert_eq.
Qed.

End Bins.

(** ** The operations *)

(** All of an event but its links. *)
Definition ev_attr (e : Event) : Z * Z * Z * option Z := (_when e, _priority e, flags e, queue e).
(** The queues differ in links only. *)
Definition same_attrs (q q' : EventQueue) : Prop :=
  (∀ p, ev_attr <$> heap q' !! p = ev_attr <$> heap q !! p) ∧
  _curTick q' = _curTick q ∧ async_queue q' = async_queue q ∧ self q' = self q ∧
  inParallelMode q' = inParallelMode q ∧ curEventQueue q' = curEventQueue q.

#[global] Instance same_attrs_preorder : PreOrder same_attrs.
Proof.
  split; [done|]. intros x y z (H1 & H2 & H3 & H4 & H5 & H6) (G1 & G2 & G3 & G4 & G5 & G6).
  split_and!; congruence.
Qed.

Lemma same_attrs_insert q p e e' : heap q !! p = Some e → ev_attr e' = ev_attr e → same_attrs q (set_heap (<[p := e']> (heap q)) q).
Proof.
  intros He Ea. split_and!; try done. intros x. cbn. destruct (decide (p = x)) as [->|Hne].
  - rewrite lookup_insert_eq, He. cbn. by rewrite Ea.
  - by rewrite lookup_insert_ne.
Qed.

Lemma same_attrs_head q n : same_attrs q (set_head n q).
Proof. done. Qed.

Lemma wp_deref p e (Q : Event → EventQueue → Prop) q : heap q !! p = Some e → Q e q → wp (deref p) Q q.
Proof. intros He HQ. unfold deref. wp_step. wp_step. by eapply wp_of_option. Qed.

Lemma wp_ev_mod p f e (Q : unit → EventQueue → Prop) q : heap q !! p = Some e →
  Q tt (set_heap (<[p := f e]> (heap q)) q) → wp (ev_mod p f) Q q.
Proof. intros He HQ. unfold ev_mod. wp_step. eapply wp_deref; [done|]. by wp_step. Qed.

Section Insert.
Context (q : EventQueue) (event : Z) (e : Event) (He : heap q !! event = Some e).
Abbreviation κ := (ev_key e).

(** The bins from where the event belongs, with the event on top. *)
Record placed (ks : list Key) (bins : list (list Z)) (q' : EventQueue) (ks' : list Key) (bins' : list (list Z)) : Prop := {
  pl_bins : are_bins (heap q') ks' bins' None;
  pl_top : top bins' = Some event;
  pl_join : mjoin bins' = event :: mjoin bins;
  pl_sorted : StronglySorted key_lt ks';
  pl_keys k : Forall (key_lt k) ks → key_lt k κ → Forall (key_lt k) ks';
}.

Lemma wp_insertBefore ks bins (Q : Z → EventQueue → Prop) : are_bins (heap q) ks bins None → event ∉ mjoin bins →
  StronglySorted key_lt ks → (∀ k, hd_error ks = Some k → ¬ key_lt k κ) →
  (∀ e' ks' bins', ev_attr e' = ev_attr e → placed ks bins (set_heap (<[event := e']> (heap q)) q) ks' bins' →
     Q event (set_heap (<[event := e']> (heap q)) q)) →
  wp (insertBefore event (top bins)) Q q.
Proof.
  intros Hb Hne Hso Hge HQ. unfold insertBefore. wp_step. eapply wp_deref; [done|]. wp_step.
  destruct ks as [|k ks], bins as [|b bins]; try done; cbn [top].
  - wp_steps. eapply wp_ev_mod; [done|]. wp_step. eapply (HQ _ [κ] [[event]]); [done|].
    split; try done.
    + split; [|done]. split; [split; [|done]|]; [|exists event]; eexists; cbn [heap set_heap]; rewrite lookup_insert_eq; done.
    + apply SSorted_cons; [done|constructor].
    + intros k _ Hk. by constructor.
  - pose proof Hb as [(Hs & c & ec & Hc & Hec & Hn) Hb']. destruct b as [|c' b]; [done|]. injection Hc as ->. cbn [top].
    destruct (stack_lookup _ _ _ c Hs) as (ec' & E & Hk); [apply list_elem_of_here|]. assert (ec' = ec) as -> by congruence. clear E.
    specialize (Hge k eq_refl). wp_step. eapply wp_deref; [done|]. wp_steps. destruct (ev_lt e ec) eqn:Hlt.
    + apply ev_lt_key in Hlt. rewrite Hk in Hlt. eapply wp_ev_mod; [done|]. wp_step.
      eapply (HQ _ (κ :: k :: ks) ([event] :: (c :: b) :: bins)); [done|]. split; try done.
      * split; [|by apply are_bins_ne]. split; [split; [|done]|]; [|exists event]; eexists; cbn [heap set_heap]; rewrite lookup_insert_eq; done.
      * constructor; [done|]. constructor; [done|]. apply StronglySorted_inv in Hso as [_ Hf].
        eapply Forall_impl; [exact Hf|]. intros k' Hk'. by etrans.
      * intros k' Hf Hk'. by constructor.
    + assert (κ = k) as Ek.
      { destruct (key_lt_total κ k) as [H|[H|H]]; [|done|done]. rewrite <- Hk in H. apply ev_lt_key in H. congruence. }
      wp_step. eapply wp_deref; [done|]. eapply wp_ev_mod; [done|]. wp_step.
      eapply (HQ _ (k :: ks) ((event :: c :: b) :: bins)); [done|]. split; try done.
      cbn in Hne. rewrite not_elem_of_cons, not_elem_of_app in Hne. destruct Hne as (Hne1 & Hne2 & Hne3).
      split; [|by apply are_bins_ne]. split.
      * split; [|apply stack_ne; [done|by apply not_elem_of_cons]]. eexists. cbn [heap set_heap]. rewrite lookup_insert_eq. done.
      * exists event. eexists. cbn [heap set_heap]. rewrite lookup_insert_eq. split_and!; [done|done|]. cbn. by rewrite Hn.
Qed.

(** The bins whose key is below [k] come first. *)
Lemma wp_find_bin k0 fuel ks1 k1 ks2 b1 prev b b2 (Q : Z * option Z → EventQueue → Prop) : k0 = κ → length ks1 = length b1 →
  are_bins (heap q) (ks1 ++ k1 :: ks2) (b1 ++ (prev :: b) :: b2) None → Forall (λ k, key_lt k k0) (ks1 ++ [k1]) →
  (length b2 < fuel)%nat →
  (∀ ks1' k1' ks2' b1' prev' b' b2', ks1 ++ k1 :: ks2 = ks1' ++ k1' :: ks2' →
     b1 ++ (prev :: b) :: b2 = b1' ++ (prev' :: b') :: b2' → length ks1' = length b1' →
     Forall (λ k, key_lt k k0) (ks1' ++ [k1']) → (∀ k, hd_error ks2' = Some k → ¬ key_lt k k0) → Q (prev', top b2') q) →
  wp (find_bin fuel event prev (top b2)) Q q.
Proof.
  intros Ek. revert ks1 k1 ks2 b1 prev b b2. induction fuel as [|fuel IH]; intros ks1 k1 ks2 b1 prev b b2 Hl Hb Hlt Hf HQ; [lia|].
  pose proof Hb as Hb0. rewrite are_bins_app in Hb0 by done. destruct Hb0 as [_ [_ Hb2]]. cbn [find_bin].
  destruct ks2 as [|k2 ks2], b2 as [|b2 bs2]; try done; cbn [top].
  - wp_step. by eapply (HQ ks1 k1 [] b1 prev b []).
  - pose proof Hb2 as [(Hs & c & ec & Hc & Hec & Hn) Hb3]. destruct b2 as [|c' b2]; [done|]. injection Hc as ->. cbn [top].
    destruct (stack_lookup _ _ _ c Hs) as (ec' & E & Hk2); [apply list_elem_of_here|]. assert (ec' = ec) as -> by congruence. clear E.
    wp_step. eapply wp_deref; [done|]. wp_step. eapply wp_deref; [done|]. destruct (ev_lt ec e) eqn:Hlt2.
    + apply ev_lt_key in Hlt2. rewrite Hn. assert (top_or bs2 None = top bs2) as -> by (by destruct bs2).
      apply (IH (ks1 ++ [k1]) k2 ks2 (b1 ++ [prev :: b]) c b2 bs2).
      * rewrite !length_app. cbn. lia.
      * by rewrite <- !app_assoc.
      * apply Forall_app. split; [done|]. constructor; [by rewrite <- Hk2, Ek|done].
      * cbn in Hf. lia.
      * intros ks1' k1' ks2' b1' prev' b' b2' E1 E2 G1 G2 G3. rewrite <- app_assoc in E1, E2. by eapply HQ; [exact E1|exact E2|..].
    + wp_step. eapply (HQ ks1 k1 (k2 :: ks2) b1 prev b ((c :: b2) :: bs2)); [done..|]. intros k [= <-] Hlt3.
      rewrite <- Hk2, Ek in Hlt3. apply ev_lt_key in Hlt3. congruence.
Qed.

Lemma sorted_app_lt ks1 ks2 : StronglySorted key_lt (ks1 ++ ks2) ↔
  StronglySorted key_lt ks1 ∧ StronglySorted key_lt ks2 ∧ Forall (λ k, Forall (key_lt k) ks2) ks1.
Proof.
  induction ks1 as [|k ks1 IH]; cbn [app].
  - split; [|by intros (_ & ? & _)]. intros H. split_and!; [constructor|done|constructor].
  - split.
    + intros [Hs Hf]%StronglySorted_inv. apply IH in Hs as (H1 & H2 & H3). apply Forall_app in Hf as [Hf1 Hf2].
      split_and!; [by constructor|done|by constructor].
    + intros (H1 & H2 & H3). apply StronglySorted_inv in H1 as [H1 H1']. apply Forall_cons in H3 as [H3 H3'].
      constructor; [by apply IH|by apply Forall_app].
Qed.

End Insert.

Lemma heap_size (h : gmap Z Event) l : NoDup l → (∀ p, p ∈ l → ∃ e, h !! p = Some e) → (length l ≤ size h)%nat.
Proof.
  intros Hnd Hl. rewrite <- size_dom, <- (size_list_to_set (C := gset Z)) by done. apply subseteq_size. intros p Hp%elem_of_list_to_set.
  destruct (Hl p Hp) as [e He]. by apply elem_of_dom_2 in He.
Qed.

(** The number of bins. *)
Lemma bins_size h ks bins n : are_bins h ks bins n → NoDup (mjoin bins) → (length bins ≤ size h)%nat.
Proof.
  intros Hb Hnd. transitivity (length (mjoin bins)).
  - clear Hnd. revert ks Hb. induction bins as [|b bins IH]; intros [|k ks]; try done. intros [(_ & p & e & Hp & _) Hb].
    change (mjoin (b :: bins)) with (b ++ mjoin bins). rewrite length_app. specialize (IH ks Hb). destruct b; [done|]. cbn [length]. lia.
  - apply heap_size; [done|]. intros p Hp. by eapply are_bins_lookup.
Qed.

(** The event is queued behind the events with a smaller key and before all others. *)
Definition queued_at (q' : EventQueue) (event : Z) (k : Key) (ks : list Key) (bins : list (list Z)) : Prop :=
  ∃ ks1 ks2 b1 b2 ks' bins', ks = ks1 ++ ks2 ∧ bins = b1 ++ b2 ∧ length ks1 = length b1 ∧
    Forall (λ k', key_lt k' k) ks1 ∧ Forall (λ k', ¬ key_lt k' k) ks2 ∧
    is_queue q' ks' bins' ∧ mjoin bins' = mjoin b1 ++ event :: mjoin b2.

(** Linking the event behind the bin of [prev]. *)
Lemma wp_link q event e ks1 k1 ks2 b1 prev b b2 (Q : unit → EventQueue → Prop) :
  is_queue q (ks1 ++ k1 :: ks2) (b1 ++ (prev :: b) :: b2) → heap q !! event = Some e →
  event ∉ mjoin (b1 ++ (prev :: b) :: b2) → length ks1 = length b1 →
  Forall (λ k, key_lt k (ev_key e)) (ks1 ++ [k1]) → (∀ k, hd_error ks2 = Some k → ¬ key_lt k (ev_key e)) →
  (∀ q', queued_at q' event (ev_key e) (ks1 ++ k1 :: ks2) (b1 ++ (prev :: b) :: b2) → same_attrs q q' → Q tt q') →
  wp (top ← insertBefore event (top b2); ev_mod prev (set_nextBin (Some top))) Q q.
Proof.
  intros [Hh Hb Hso Hnd] He Hne Hl Hlt Hge HQ. rewrite (cons_middle _ b1), (cons_middle _ ks1 ks2), !app_assoc in *.
  assert (length (ks1 ++ [k1]) = length (b1 ++ [prev :: b])) as Hl' by (rewrite !length_app; cbn; lia).
  rewrite are_bins_app in Hb by done. destruct Hb as [Hb1 Hb2]. rewrite join_app, not_elem_of_app in Hne. destruct Hne as [Hne1 Hne2].
  apply sorted_app_lt in Hso as (Hs1 & Hs2 & Hs3). rewrite join_app in Hnd. pose proof Hnd as (Hnd1 & Hnd2 & Hnd3)%NoDup_app.
  assert (prev ∈ mjoin (b1 ++ [prev :: b])) as Hp by (rewrite join_app, elem_of_app; right; apply list_elem_of_here).
  destruct (are_bins_lookup _ _ _ _ _ Hb1 Hp) as [ep Hep]. assert (event ≠ prev) as Hep' by (intros ->; done).
  wp_step. apply (wp_insertBefore q event e He ks2 b2); [done..|]. intros e' ks' bins' Ea [P1 P2 P3 P4 P5].
  set (q1 := set_heap _ q) in *. assert (heap q1 !! prev = Some ep) as Hep1 by (cbn; by rewrite lookup_insert_ne).
  eapply wp_ev_mod; [done|]. apply HQ.
  2: { etrans; [exact (same_attrs_insert _ _ _ _ He Ea)|]. by eapply (same_attrs_insert q1 prev ep). }
  exists (ks1 ++ [k1]), ks2, (b1 ++ [prev :: b]), b2, ((ks1 ++ [k1]) ++ ks'), ((b1 ++ [prev :: b]) ++ bins').
  split_and!; try done.
  - destruct ks2 as [|k2 ks2]; [constructor|]. specialize (Hge k2 eq_refl). apply StronglySorted_inv in Hs2 as [_ Hf]. constructor; [done|].
    eapply Forall_impl; [exact Hf|]. intros k' Hk' Hlt'. apply Hge. by etrans.
  - split.
    + change (head _) with (head q). rewrite Hh. by destruct b1 as [|[] ?].
    + cbn [heap set_heap]. apply are_bins_app; [done|]. assert (top_or bins' None = Some event) as -> by (by destruct bins').
      split.
      * eapply are_bins_last; [lia|done|apply are_bins_ne; [exact Hb1|done]|done].
      * apply are_bins_ne; [done|]. rewrite P3, not_elem_of_cons. split; [congruence|]. intros H. by apply (Hnd2 prev).
    + apply sorted_app_lt. split_and!; [done|done|]. rewrite Forall_forall in Hs3, Hlt |- *. intros k Hk. apply P5; [by apply Hs3|by apply Hlt].
    + rewrite join_app, P3. apply NoDup_app. split_and!; [done| |].
      * intros x Hx [->|Hx']%elem_of_cons; [done|by apply (Hnd2 x)].
      * by constructor.
  - by rewrite join_app, P3.
Qed.

Lemma wp_insert event e ks bins (Q : unit → EventQueue → Prop) q : is_queue q ks bins → heap q !! event = Some e → event ∉ mjoin bins →
  (∀ q', queued_at q' event (ev_key e) ks bins → same_attrs q q' → Q tt q') → wp (insert event) Q q.
Proof.
  intros [Hh Hb Hso Hnd] He Hne HQ. unfold insert. wp_steps. rewrite Hh.
  destruct ks as [|k ks], bins as [|b bins]; try done; cbn [top].
  - wp_step. apply (wp_insertBefore q event e He [] []); [done..|]. intros e' ks' bins' Ea [P1 P2 P3 P4 P5]. wp_steps.
    apply HQ; [|etrans; [exact (same_attrs_insert _ _ _ _ He Ea)|apply same_attrs_head]].
    exists [], [], [], [], ks', bins'. split_and!; try done. split; [by rewrite P2|done|done|]. rewrite P3. apply NoDup_singleton.
  - pose proof Hb as [(Hs & h & eh & Hc & Heh & Hn) Hb2]. destruct b as [|h' b]; [done|]. injection Hc as ->. cbn [top].
    destruct (stack_lookup _ _ _ h Hs) as (eh' & E & Hk); [apply list_elem_of_here|]. assert (eh' = eh) as -> by congruence. clear E.
    wp_step. eapply wp_deref; [done|]. wp_step. eapply wp_deref; [done|]. destruct (ev_le e eh) eqn:Hle.
    + apply ev_le_key in Hle. rewrite Hk in Hle. wp_step.
      apply (wp_insertBefore q event e He (k :: ks) ((h :: b) :: bins)); [done..|by intros ? [= <-]|].
      intros e' ks' bins' Ea [P1 P2 P3 P4 P5]. wp_steps. apply HQ; [|etrans; [exact (same_attrs_insert _ _ _ _ He Ea)|apply same_attrs_head]].
      exists [], (k :: ks), [], ((h :: b) :: bins), ks', bins'. split_and!; try done.
      * apply StronglySorted_inv in Hso as [_ Hf]. constructor; [done|]. eapply Forall_impl; [exact Hf|]. intros k' Hk' Hlt. apply Hle. by etrans.
      * split; [by rewrite P2|done|done|]. rewrite P3. by constructor.
    + assert (key_lt k (ev_key e)) as Hlt by (rewrite <- Hk; apply not_ev_le; congruence).
      wp_step. rewrite Hn. assert (top_or bins None = top bins) as -> by (by destruct bins).
      apply (wp_find_bin q event e He (ev_key e) _ [] k ks [] h b bins); [done|done|done|by apply Forall_singleton|..].
      { pose proof (bins_size _ _ _ _ Hb Hnd) as Hsz. unfold bin_fuel. cbn in Hsz. lia. }
      intros ks1 k1 ks2 b1 prev b' b2 E1 E2 Hl Hlt1 Hge. cbn [fst snd].
      apply (wp_link q event e ks1 k1 ks2 b1 prev b' b2); [split|..]; rewrite <- ?E1, <- ?E2; done.
Qed.

(** *** Removing an event *)

Lemma wp_find_item q fuel event curr c k (Q : Z → EventQueue → Prop) : stack (heap q) k (curr :: c) → event ∈ c → (length c < fuel)%nat →
  (∀ c1 x c2, curr :: c = c1 ++ x :: event :: c2 → Q x q) → wp (find_item fuel event curr (hd_error c)) Q q.
Proof.
  revert curr c. induction fuel as [|fuel IH]; intros curr c Hs Hin Hf HQ; [lia|]. destruct c as [|n c]; [by apply elem_of_nil in Hin|].
  cbn [find_item hd_error]. destruct (Z.eqb_spec event n) as [->|Hne].
  - wp_step. by apply (HQ [] curr c).
  - destruct Hs as [_ Hs]. pose proof Hs as [(en & Hen & Hn & _) _]. wp_step. eapply wp_deref; [done|]. rewrite Hn. apply IH; [done| |cbn in Hf; lia|].
    + by apply elem_of_cons in Hin as [->|Hin].
    + intros c1 x c2 E. apply (HQ (curr :: c1) x c2). by rewrite E.
Qed.

Lemma stack_unlink h k c1 x y c2 ex ey : stack h k (c1 ++ x :: y :: c2) → NoDup (c1 ++ x :: y :: c2) → h !! x = Some ex → h !! y = Some ey →
  stack (<[x := set_nextInBin (nextInBin ey) ex]> h) k (c1 ++ x :: c2).
Proof.
  intros Hs Hnd Hx Hy. induction c1 as [|z c1 IH].
  - destruct Hs as [(ex' & Hx' & _ & Hk) [(ey' & Hy' & Hn & _) Hs]]. apply NoDup_cons in Hnd as [Hne _]. apply not_elem_of_cons in Hne as [_ Hne].
    split; [|by apply stack_ne]. eexists. rewrite lookup_insert_eq. split_and!; [done|cbn; congruence|]. by assert (ex' = ex) as -> by congruence.
  - cbn in Hnd. apply NoDup_cons in Hnd as [Hne Hnd]. destruct Hs as [(ez & Hz & Hn & Hk) Hs]. split; [|by apply IH].
    exists ez. rewrite lookup_insert_ne; [|intros ->; apply Hne; set_solver]. split_and!; [done|by destruct c1|done].
Qed.

(** The pointer to a bin, or to the next one when there is none left. *)
Definition bin_top (b : list Z) (n : option Z) : option Z := match b with [] => n | p :: _ => Some p end.

Lemma wp_removeItem q event top b k n (Q : option Z → EventQueue → Prop) : is_bin (heap q) k (top :: b) n → NoDup (top :: b) → event ∈ top :: b →
  (∀ h' b1 b2, top :: b = b1 ++ event :: b2 → (∀ p, p ∉ b1 ++ b2 → h' !! p = heap q !! p) → same_attrs q (set_heap h' q) →
     (b1 ++ b2 = [] ∨ is_bin h' k (b1 ++ b2) n) → Q (bin_top (b1 ++ b2) n) (set_heap h' q)) →
  wp (removeItem event top) Q q.
Proof.
  intros (Hs & p & et & [= <-] & Het & Hn) Hnd Hin HQ. pose proof Hs as [(et' & Het' & Hi & Hk) Hs']. assert (et' = et) as -> by congruence.
  unfold removeItem. wp_step. eapply wp_deref; [done|]. cbv zeta. rewrite Hi, Hn. destruct (Z.eqb_spec event top) as [->|Hne].
  - destruct b as [|x b]; cbn [hd_error].
    + wp_step. replace q with (set_heap (heap q) q) by (by destruct q). apply (HQ _ [] []); [done|done|by destruct q|by left].
    + destruct Hs' as [(ex & Hx & Hxi & Hxk) Hs']. wp_step. eapply wp_ev_mod; [done|]. wp_step. apply (HQ _ [] (x :: b)); [done| | |right].
      * intros y Hy. rewrite lookup_insert_ne; [done|]. intros ->. apply Hy, list_elem_of_here.
      * by eapply same_attrs_insert.
      * split; [by eapply stack_change; [split; [by exists ex|done]|..]|]. exists x. eexists. by rewrite lookup_insert_eq.
  - apply elem_of_cons in Hin as [?|Hin]; [done|]. do 3 wp_step. eapply (wp_find_item q _ event top b k); [done|done| |].
    { unfold bin_fuel. apply NoDup_cons in Hnd as [_ Hnd]. apply Nat.lt_succ_r, heap_size; [done|]. intros y Hy.
      destruct (stack_lookup _ _ _ _ Hs' Hy) as (ey & Hy' & _). by exists ey. }
    intros c1 x c2 E. destruct (stack_lookup _ _ _ event Hs') as (e & He & _); [done|].
    destruct (stack_lookup _ _ _ x Hs) as (ex & Hx & _); [rewrite E; set_solver|].
    wp_step. eapply wp_deref; [done|]. wp_step. eapply wp_ev_mod; [done|]. wp_step.
    assert (∃ c, c1 ++ x :: c2 = top :: c) as [c Ec] by (destruct c1; injection E as -> _; by eexists).
    assert ((c1 ++ [x]) ++ c2 = c1 ++ x :: c2) as Ea by (by rewrite <- app_assoc).
    replace (Some top) with (bin_top ((c1 ++ [x]) ++ c2) n) by (by rewrite Ea, Ec).
    apply (HQ _ (c1 ++ [x]) c2); [by rewrite <- app_assoc| |by eapply same_attrs_insert|right]; rewrite Ea.
    + intros y Hy. rewrite lookup_insert_ne; [done|]. intros ->. apply Hy. set_solver.
    + rewrite E in Hs, Hnd. split; [by eapply stack_unlink|]. exists top. destruct (decide (x = top)) as [->|Hxt].
      * eexists. rewrite Ec, lookup_insert_eq. split_and!; [done|done|]. cbn. congruence.
      * exists et. by rewrite Ec, lookup_insert_ne.
Qed.

(** A bin put back before the others, unless it is empty. *)
Lemma are_bins_rebin h k b ks bins : b = [] ∨ is_bin h k b (top_or bins None) → are_bins h ks bins None →
  ∃ ks' bins', are_bins h ks' bins' None ∧ mjoin bins' = b ++ mjoin bins ∧ (ks' = ks ∨ ks' = k :: ks) ∧ top bins' = bin_top b (top bins).
Proof.
  intros Hb Hbs. destruct b as [|x b]; [by exists ks, bins; auto|]. destruct Hb as [?|Hb]; [done|].
  exists (k :: ks), ((x :: b) :: bins). split_and!; [done|done|by right|done].
Qed.

(** The queue without the event. *)
Definition unqueued (q' : EventQueue) (event : Z) (bins : list (list Z)) : Prop :=
  ∃ l1 l2 ks' bins', mjoin bins = l1 ++ event :: l2 ∧ is_queue q' ks' bins' ∧ mjoin bins' = l1 ++ l2.

Lemma wp_remove_head q event k ks h b bins (Q : unit → EventQueue → Prop) : is_queue q (k :: ks) ((h :: b) :: bins) → event ∈ h :: b →
  (∀ q', unqueued q' event ((h :: b) :: bins) → same_attrs q q' → Q tt q') →
  wp (r ← removeItem event h; modify (set_head r)) Q q.
Proof.
  intros [Hh [Hb Hbs] Hso Hnd] Hin HQ. change (mjoin ((h :: b) :: bins)) with ((h :: b) ++ mjoin bins) in Hnd.
  pose proof Hnd as (Hnd1 & Hd & Hnd2)%NoDup_app. apply StronglySorted_inv in Hso as [Hs Hf].
  wp_step. eapply wp_removeItem; [done|done|done|]. intros h' b1 b2 E Hh' Ha Hb'. wp_steps.
  assert (∀ p, p ∈ mjoin bins → ev_link <$> h' !! p = ev_link <$> heap q !! p) as Hagree.
  { intros p Hp. rewrite Hh'; [done|]. intros Hp'. apply (Hd p); [rewrite E; set_solver|done]. }
  destruct (are_bins_rebin h' k (b1 ++ b2) ks bins) as (ks' & bins' & B1 & B2 & B3 & B4); [done|by eapply are_bins_agree|].
  apply HQ; [|etrans; [done|apply same_attrs_head]]. exists b1, (b2 ++ mjoin bins), ks', bins'. split_and!.
  - change (mjoin ((h :: b) :: bins)) with ((h :: b) ++ mjoin bins). rewrite E. by rewrite <- app_assoc.
  - split; [|done|by destruct B3 as [->| ->]; [|constructor]|].
    + cbn. rewrite B4. by destruct bins.
    + rewrite B2. rewrite E in Hnd. rewrite <- app_assoc in Hnd |- *. eapply sublist_NoDup; [exact Hnd|]. apply sublist_app; [done|by apply sublist_cons].
  - by rewrite B2, app_assoc.
Qed.

Lemma in_bin h ks bins n p e : are_bins h ks bins n → p ∈ mjoin bins → h !! p = Some e →
  ∃ ks1 ks2 b1 b b2, ks = ks1 ++ ev_key e :: ks2 ∧ bins = b1 ++ b :: b2 ∧ length ks1 = length b1 ∧ p ∈ b.
Proof.
  intros Hb Hp He. revert bins Hb Hp. induction ks as [|k ks IH]; intros [|b bins]; try done; [by intros _ ?%elem_of_nil|].
  intros [[Hs _] Hb] [Hp|Hp]%elem_of_app.
  - destruct (stack_lookup _ _ _ _ Hs Hp) as (e' & He' & <-). assert (e' = e) as -> by congruence. by exists [], ks, [], b, bins.
  - destruct (IH bins Hb Hp) as (ks1 & ks2 & b1 & b' & b2 & -> & -> & Hl & Hp'). exists (k :: ks1), ks2, (b :: b1), b', b2. cbn. auto with lia.
Qed.

Lemma in_first_bin h k ks b bins n p e : are_bins h (k :: ks) (b :: bins) n → StronglySorted key_lt (k :: ks) → p ∈ mjoin (b :: bins) →
  h !! p = Some e → ¬ key_lt k (ev_key e) → k = ev_key e ∧ p ∈ b.
Proof.
  intros Hb Hso Hp He Hlt. destruct (in_bin _ _ _ _ _ _ Hb Hp He) as (ks1 & ks2 & b1 & b' & b2 & Ek & Eb & Hl & Hp').
  destruct ks1 as [|x ks1], b1 as [|y b1]; try done; cbn in Ek, Eb; [by simplify_eq|]. injection Ek as -> ->.
  apply StronglySorted_inv in Hso as [_ Hf]. rewrite Forall_forall in Hf. exfalso. apply Hlt, Hf. set_solver.
Qed.

(** Removing an event from a bin behind that of [prev]. *)
Lemma wp_unlink q event k1 ks1 k ks2 b1 prev b c d b2 (Q : unit → EventQueue → Prop) :
  is_queue q (ks1 ++ k1 :: k :: ks2) (b1 ++ (prev :: b) :: (c :: d) :: b2) → event ∈ c :: d → length ks1 = length b1 →
  (∀ q', unqueued q' event (b1 ++ (prev :: b) :: (c :: d) :: b2) → same_attrs q q' → Q tt q') →
  wp (top ← removeItem event c; ev_mod prev (set_nextBin top)) Q q.
Proof.
  intros [Hh Hb Hso Hnd] Hin Hl HQ. rewrite (cons_middle _ b1), (cons_middle _ ks1), !app_assoc in *.
  assert (length (ks1 ++ [k1]) = length (b1 ++ [prev :: b])) as Hl' by (rewrite !length_app; cbn; lia).
  rewrite are_bins_app in Hb by done. destruct Hb as [Hb1 [Hb Hb2]]. apply sorted_app_lt in Hso as (Hs1 & Hs2 & Hs3).
  rewrite join_app in Hnd. change (mjoin ((c :: d) :: b2)) with ((c :: d) ++ mjoin b2) in Hnd.
  pose proof Hnd as (Hnd1 & Hd1 & (Hnd2 & Hd2 & Hnd3)%NoDup_app)%NoDup_app.
  assert (prev ∈ mjoin (b1 ++ [prev :: b])) as Hp by (rewrite join_app, elem_of_app; right; apply list_elem_of_here).
  wp_step. eapply wp_removeItem; [done|done|done|]. intros h' c1 c2 E Hh' Ha Hb'.
  assert (∀ p, p ∉ c :: d → ev_link <$> h' !! p = ev_link <$> heap q !! p) as Hagree.
  { intros p Hp'. rewrite Hh'; [done|]. rewrite E in Hp'. set_solver. }
  destruct (are_bins_lookup _ _ _ _ _ Hb1 Hp) as [ep Hep].
  assert (h' !! prev = Some ep) as Hep' by (rewrite Hh'; [done|]; intros Hp'; apply (Hd1 prev Hp); rewrite E; set_solver).
  destruct (are_bins_rebin h' k (c1 ++ c2) ks2 b2) as (ks' & bins' & B1 & B2 & B3 & B4);
    [done|eapply are_bins_agree, Hb2; intros p Hp'; apply Hagree; intros ?; by eapply Hd2|].
  assert (NoDup (mjoin (b1 ++ [prev :: b]) ++ mjoin bins')) as Hnd'.
  { eapply sublist_NoDup; [exact Hnd|]. apply sublist_app; [done|]. rewrite B2, E. apply sublist_app; [|done]. apply sublist_app; [done|by apply sublist_cons]. }
  pose proof Hnd' as (_ & Hd' & _)%NoDup_app. eapply wp_ev_mod; [done|]. apply HQ.
  2: { etrans; [exact Ha|]. by eapply (same_attrs_insert (set_heap h' q) prev ep). }
  exists (mjoin (b1 ++ [prev :: b]) ++ c1), (c2 ++ mjoin b2), ((ks1 ++ [k1]) ++ ks'), ((b1 ++ [prev :: b]) ++ bins'). split_and!.
  - rewrite join_app. change (mjoin ((c :: d) :: b2)) with ((c :: d) ++ mjoin b2). by rewrite E, <- !app_assoc.
  - split.
    + change (head _) with (head q). rewrite Hh. by destruct b1 as [|[] ?].
    + cbn [heap set_heap]. apply are_bins_app; [done|]. split; [|apply are_bins_ne; [done|by apply Hd']].
      assert (top_or bins' None = bin_top (c1 ++ c2) (top_or b2 None)) as -> by (by rewrite !top_or_top).
      eapply are_bins_last; [lia|done| |done]. eapply are_bins_agree, Hb1. intros p Hp'. apply Hagree. intros ?. apply (Hd1 p Hp'). set_solver.
    + apply sorted_app_lt. apply StronglySorted_inv in Hs2 as [Hs2 Hf2]. split_and!; [done|by destruct B3 as [->| ->]; [|constructor]|].
      eapply Forall_impl; [exact Hs3|]. intros x Hx. apply Forall_cons in Hx as [Hx1 Hx2]. by destruct B3 as [->| ->]; [|constructor].
    + by rewrite join_app.
  - by rewrite join_app, B2, <- !app_assoc.
Qed.

Lemma wp_remove q event e ks bins (Q : unit → EventQueue → Prop) : is_queue q ks bins → heap q !! event = Some e → event ∈ mjoin bins →
  queue e = Some (self q) → (∀ q', unqueued q' event bins → same_attrs q q' → Q tt q') → wp (remove event) Q q.
Proof.
  intros Hq He Hin Hself HQ. pose proof Hq as [Hh Hb Hso Hnd]. unfold remove. wp_steps. rewrite Hh.
  destruct ks as [|k ks], bins as [|b bins]; try done; [by apply elem_of_nil in Hin|].
  pose proof Hb as [(Hs & h & eh & Hc & Heh & Hn) Hb2]. destruct b as [|h' b]; [done|]. injection Hc as ->. cbn [top].
  destruct (stack_lookup _ _ _ h Hs) as (eh' & E & Hk); [apply list_elem_of_here|]. assert (eh' = eh) as -> by congruence. clear E.
  wp_step. eapply wp_deref; [done|]. wp_step. wp_step; [by apply bool_decide_true|]. wp_step. eapply wp_deref; [done|].
  destruct (ev_eq eh e) eqn:Heq.
  - apply ev_eq_key in Heq. rewrite Hk in Heq. eapply wp_remove_head; [done| |done].
    eapply in_first_bin; [exact Hb|done|done|done|]. rewrite Heq. apply key_lt_irrefl.
  - assert (key_lt k (ev_key e)) as Hlt.
    { destruct (decide (key_lt k (ev_key e))) as [|Hnlt]; [done|].
      destruct (in_first_bin _ _ _ _ _ _ _ _ Hb Hso Hin He Hnlt) as [E _]. apply not_true_iff_false in Heq. exfalso. apply Heq, ev_eq_key. congruence. }
    wp_step. rewrite Hn, top_or_top.
    apply (wp_find_bin q event e He (ev_key e) _ [] k ks [] h b bins); [done|done|done|by apply Forall_singleton|..].
    { pose proof (bins_size _ _ _ _ Hb Hnd) as Hsz. unfold bin_fuel. cbn in Hsz. lia. }
    intros ks1 k1 ks2 b1 prev b' b2 E1 E2 Hl Hlt1 Hge. cbn [fst snd app] in *. rewrite E1, E2 in *. clear E1 E2.
    pose proof Hb as Hb'. rewrite (cons_middle _ b1), app_assoc in Hb', Hin. rewrite (cons_middle _ ks1), app_assoc in Hb', Hso.
    rewrite are_bins_app in Hb' by (rewrite !length_app; cbn; lia). destruct Hb' as [Hb1 Hb3]. apply sorted_app_lt in Hso as (_ & Hso & _).
    rewrite join_app in Hin. apply elem_of_app in Hin as [Hin|Hin].
    { exfalso. destruct (in_bin _ _ _ _ _ _ Hb1 Hin He) as (a1 & a2 & _ & _ & _ & Ea & _). rewrite Ea, Forall_forall in Hlt1.
      eapply key_lt_irrefl, Hlt1. set_solver. }
    destruct ks2 as [|k2 ks2], b2 as [|[|c d] b2]; try done; [by apply elem_of_nil in Hin|by destruct Hb3 as [(_ & ? & ? & ? & _) _]|].
    destruct (in_first_bin _ _ _ _ _ _ _ _ Hb3 Hso Hin He (Hge k2 eq_refl)) as [-> Hcd].
    destruct Hb3 as [[[(ec & Hec & _ & Hkc) _] _] _]. cbn [top]. wp_step. eapply wp_deref; [done|].
    rewrite ev_ne_eq. assert (ev_eq ec e = true) as -> by (by apply ev_eq_key). cbn [negb]. by eapply wp_unlink.
Qed.
