(* ===== verification/EventQueueCorrect.v ===== *)
(** The event queue against its contract: the pending events form a list ordered by time and
    priority, the last scheduled first among equals. Scheduling an event places it in the
    list, descheduling takes it out, and servicing takes the first one and moves the clock
    to its time. *)

From Stdlib Require Import Sorted.
From S2P Require Import Prelude EventQueue.
From S2P Require Request.
Module Req := Request.

(** ** The contract *)

(** A pending event: its time and priority, and its address. *)
Abbreviation Entry := (Key * Z)%type.

Fixpoint place (x : Entry) (l : list Entry) : list Entry :=
  match l with
  | [] => [x]
  | y :: l' => if decide (key_lt y.1 x.1) then y :: place x l' else x :: l
  end.
Definition without (p : Z) (l : list Entry) : list Entry := filter (λ x, x.2 ≠ p) l.

Definition key_of (h : gmap Z Event) (p : Z) : Key := match h !! p with Some e => ev_key e | None => (0, 0) end.
Definition view (q : EventQueue) (l : list Z) : list Entry := (λ p, (key_of (heap q) p, p)) <$> l.

(** The list [l] of pending events of [q]. Those handed over by other threads wait in
    [async_queue]. *)
Record pending (q : EventQueue) (l : list Entry) : Prop := {
  pe_queue : ∃ ks bins, is_queue q ks bins ∧ l = view q (mjoin bins);
  pe_time : Forall (λ x, _curTick q ≤ x.1.1) l;
  pe_sched p e : heap q !! p = Some e → (p ∈ l.*2 ∨ p ∈ async_queue q) ↔ (scheduled e = true ∧ queue e = Some (self q));
  pe_async : NoDup (async_queue q) ∧ ∀ p, p ∈ async_queue q → is_Some (heap q !! p) ∧ p ∉ l.*2;
}.

(** The step is about the event [p] only, and leaves the clock and the globals alone. *)
Record touches (p : Z) (q q' : EventQueue) : Prop := {
  to_others x : x ≠ p → ev_attr <$> heap q' !! x = ev_attr <$> heap q !! x;
  to_tick : _curTick q' = _curTick q;
  to_self : self q' = self q;
  to_mode : inParallelMode q' = inParallelMode q ∧ curEventQueue q' = curEventQueue q;
}.

(** The attributes of the event. *)
Definition attr (q : EventQueue) (p : Z) : option (Z * Z * Z * option Z) := ev_attr <$> heap q !! p.

(** ** The list *)

Lemma place_app x l1 l2 : Forall (λ y, key_lt y.1 x.1) l1 → Forall (λ y, ¬ key_lt y.1 x.1) l2 → place x (l1 ++ l2) = l1 ++ x :: l2.
Proof.
  intros H1 H2. induction H1 as [|y l1 Hy H1 IH]; cbn.
  - destruct l2 as [|y l2]; [done|]. apply Forall_cons in H2 as [H2 _]. cbn. by rewrite decide_False.
  - by rewrite decide_True, IH.
Qed.

Lemma place_perm x l : place x l ≡ₚ x :: l.
Proof. induction l as [|y l IH]; cbn; [done|]. case_decide; [|done]. rewrite IH. apply Permutation_swap. Qed.

Lemma without_id p l : p ∉ l.*2 → without p l = l.
Proof.
  induction l as [|[k x] l IH]; [done|]. intros Hp. cbn in Hp. apply not_elem_of_cons in Hp as [Hne Hl]. unfold without in *.
  rewrite filter_cons_True by (cbn; congruence). by rewrite IH.
Qed.

Lemma without_app p k l1 l2 : NoDup ((l1 ++ (k, p) :: l2).*2) → without p (l1 ++ (k, p) :: l2) = l1 ++ l2.
Proof.
  intros Hnd. rewrite fmap_app in Hnd. cbn in Hnd. apply NoDup_app in Hnd as (_ & H1 & [H2 _]%NoDup_cons).
  unfold without. rewrite filter_app, filter_cons_False by (cbn; tauto). f_equal; apply without_id; [|done].
  intros Hp. apply (H1 p Hp). left.
Qed.

Lemma Forall_without P p l : Forall P l → Forall P (without p l).
Proof. rewrite !Forall_forall. intros H x [_ Hx]%list_elem_of_filter. by apply H. Qed.

Lemma elem_of_without x p l : x ∈ (without p l).*2 ↔ x ∈ l.*2 ∧ x ≠ p.
Proof.
  unfold without. rewrite !list_elem_of_fmap. split.
  - intros (y & -> & Hy). apply list_elem_of_filter in Hy as [Hne Hy]. split; [by exists y|done].
  - intros [(y & -> & Hy) Hne]. exists y. split; [done|]. by apply list_elem_of_filter.
Qed.

Lemma elem_of_place x y l : x ∈ (place y l).*2 ↔ x = y.2 ∨ x ∈ l.*2.
Proof. rewrite place_perm. cbn. apply elem_of_cons. Qed.

(** ** The view *)

Lemma view_snd q l : (view q l).*2 = l.
Proof. unfold view. rewrite <- list_fmap_compose. apply list_fmap_id. Qed.

Lemma key_of_attr h h' p : ev_attr <$> h' !! p = ev_attr <$> h !! p → key_of h' p = key_of h p.
Proof. unfold key_of. destruct (h' !! p), (h !! p); intros [=]; try done. unfold ev_key. congruence. Qed.

Lemma view_ext q q' l : (∀ p, p ∈ l → ev_attr <$> heap q' !! p = ev_attr <$> heap q !! p) → view q' l = view q l.
Proof. intros H. apply list_fmap_ext. intros i p Hi. f_equal. apply key_of_attr, H. by eapply list_elem_of_lookup_2. Qed.

Lemma view_keys q ks bins n (P : Key → Prop) : are_bins (heap q) ks bins n → Forall P ks → Forall (λ x, P x.1) (view q (mjoin bins)).
Proof.
  intros Hb HP. apply Forall_fmap, Forall_forall. intros p Hp. destruct (are_bins_lookup _ _ _ _ _ Hb Hp) as [e He]. cbn.
  destruct (in_bin _ _ _ _ _ _ Hb Hp He) as (ks1 & ks2 & _ & _ & _ & -> & _). unfold key_of. rewrite He.
  rewrite Forall_forall in HP. apply HP. set_solver.
Qed.

Lemma queued_view q q' event k ks bins : is_queue q ks bins → queued_at q' event k ks bins → same_attrs q q' → key_of (heap q) event = k →
  ∃ ks' bins', is_queue q' ks' bins' ∧ place (k, event) (view q (mjoin bins)) = view q' (mjoin bins').
Proof.
  intros [_ Hb _ _] (ks1 & ks2 & b1 & b2 & ks' & bins' & -> & -> & Hl & H1 & H2 & Hq' & Hj) [Ha _] Hk. exists ks', bins'. split; [done|].
  rewrite are_bins_app in Hb by done. destruct Hb as [Hb1 Hb2]. rewrite Hj, (view_ext q q') by auto. unfold view at 1 2.
  rewrite join_app, fmap_app, place_app; [by rewrite fmap_app, fmap_cons, Hk| |].
  - by apply (view_keys q ks1 b1 _ (λ y, key_lt y k)) in Hb1.
  - by apply (view_keys q ks2 b2 _ (λ y, ¬ key_lt y k)) in Hb2.
Qed.

Lemma unqueued_view q q' event bins ks : is_queue q ks bins → unqueued q' event bins → same_attrs q q' →
  ∃ ks' bins', is_queue q' ks' bins' ∧ without event (view q (mjoin bins)) = view q' (mjoin bins').
Proof.
  intros [_ _ _ Hnd] (l1 & l2 & ks' & bins' & E & Hq' & Hj) [Ha _]. exists ks', bins'. split; [done|].
  rewrite Hj, (view_ext q q') by auto. rewrite E in *.
  assert (view q (l1 ++ event :: l2) = view q l1 ++ (key_of (heap q) event, event) :: view q l2) as Ev by (unfold view; by rewrite fmap_app).
  rewrite Ev, without_app; [unfold view; by rewrite fmap_app|]. by rewrite <- Ev, view_snd.
Qed.

(** ** Steps on one event *)

#[global] Instance touches_preorder p : PreOrder (touches p).
Proof.
  split; [by intros q|]. intros x y z [A1 A2 A3 [A4 A5]] [B1 B2 B3 [B4 B5]]. split; [|congruence|congruence|split; congruence].
  intros w Hw. by rewrite B1, A1.
Qed.

Lemma same_attrs_touches p q q' : same_attrs q q' → touches p q q'.
Proof. intros (H & ? & _ & ? & ? & ?). split; [intros; apply H|done|done|done]. Qed.

Lemma ev_mod_touches p e q : touches p q (set_heap (<[p := e]> (heap q)) q).
Proof. split; try done. intros x Hx. cbn. by rewrite lookup_insert_ne. Qed.

(** Links and keys of the queued events stay. *)
Lemma is_queue_agree q q' ks bins : is_queue q ks bins → head q' = head q →
  (∀ p, p ∈ mjoin bins → ev_link <$> heap q' !! p = ev_link <$> heap q !! p) → is_queue q' ks bins.
Proof. intros [? ? ? ?] Hh H. split; [congruence| |done|done]. by eapply are_bins_agree. Qed.

Lemma ev_mod_queue p e e' q ks bins : is_queue q ks bins → heap q !! p = Some e → p ∉ mjoin bins ∨ ev_link e' = ev_link e →
  is_queue (set_heap (<[p := e']> (heap q)) q) ks bins.
Proof.
  intros Hq He Hor. eapply is_queue_agree; [done|done|]. intros x Hx. cbn. destruct (decide (p = x)) as [->|Hne].
  - destruct Hor as [?|E]; [done|]. rewrite lookup_insert_eq, He. cbn. by rewrite E.
  - by rewrite lookup_insert_ne.
Qed.

(** The invariant after a step on the event [p]. *)
Lemma pending_touches p q q' l l' ks bins : pending q l → touches p q q' → is_queue q' ks bins → l' = view q' (mjoin bins) →
  Forall (λ x, _curTick q' ≤ x.1.1) l' → (∀ x, x ≠ p → x ∈ l'.*2 ↔ x ∈ l.*2) → (∀ x, x ≠ p → x ∈ async_queue q' ↔ x ∈ async_queue q) →
  (∀ e, heap q' !! p = Some e → (p ∈ l'.*2 ∨ p ∈ async_queue q') ↔ (scheduled e = true ∧ queue e = Some (self q'))) →
  NoDup (async_queue q') → (p ∈ async_queue q' → is_Some (heap q' !! p) ∧ p ∉ l'.*2) → pending q' l'.
Proof.
  intros [_ _ Hs [Hnd Ha]] [To _ Ts _] Hq El Ht Hl Has Hp Hnd' Hpa. split; [by exists ks, bins|done| |split; [done|]].
  - intros x e He. destruct (decide (x = p)) as [->|Hne]; [by apply Hp|]. specialize (To x Hne). rewrite He in To.
    destruct (heap q !! x) as [e0|] eqn:He0; [|done]. assert (ev_attr e = ev_attr e0) as Ea by (cbn in To; congruence). injection Ea as _ _ Ef Eq.
    rewrite Hl, Has, (Hs x e0 He0), Ts by done. unfold scheduled. by rewrite Ef, Eq.
  - intros x Hx. destruct (decide (x = p)) as [->|Hne]; [by apply Hpa|]. apply Has in Hx; [|done]. destruct (Ha x Hx) as [[e0 He0] Hnl].
    specialize (To x Hne). rewrite He0 in To. split; [|by rewrite Hl]. destruct (heap q' !! x); [by eexists|done].
Qed.

(** Setting and clearing flag bits. *)
Lemma scheduled_set f : Req.isSet (Req.set Scheduled f) Scheduled = true.
Proof. change Scheduled with (2 ^ 1). by rewrite Req.isSet_pow2, Req.set_bit, orb_true_r. Qed.

Lemma scheduled_clear f g : Z.testbit g 1 = true → Req.isSet (Req.clear g f) Scheduled = false.
Proof. intros Hg. change Scheduled with (2 ^ 1). by rewrite Req.isSet_pow2, Req.clear_bit, Hg, andb_false_r. Qed.

(** After steps on [event] from [q]: the queue, and the attributes of the event. *)
Record stands (q : EventQueue) (event : Z) (ks : list Key) (bins : list (list Z)) (a : Z * Z * Z * option Z) (q' : EventQueue) : Prop := {
  st_queue : is_queue q' ks bins;
  st_touches : touches event q q';
  st_async : async_queue q' = async_queue q;
  st_attr : attr q' event = Some a;
}.

Lemma attr_lookup q p w pr f o : attr q p = Some (w, pr, f, o) →
  ∃ e, heap q !! p = Some e ∧ _when e = w ∧ _priority e = pr ∧ flags e = f ∧ queue e = o.
Proof. unfold attr. intros (e & He & Ea)%fmap_Some. exists e. injection Ea as -> -> -> ->. done. Qed.

(** The other queued events keep their keys. *)
Lemma view_touches p q q' l : touches p q q' → p ∉ l → view q' l = view q l.
Proof. intros Ht Hp. apply view_ext. intros x Hx. apply (to_others _ _ _ Ht). by intros ->. Qed.

Lemma wp_flags q0 q event ks bins w pr fl o f (Q : unit → EventQueue → Prop) : stands q0 event ks bins (w, pr, fl, o) q →
  (∀ q', stands q0 event ks bins (w, pr, f fl, o) q' → view q' (mjoin bins) = view q (mjoin bins) → Q tt q') →
  wp (ev_mod event (λ e, set_flags (f (flags e)) e)) Q q.
Proof.
  intros [Hq Ht Ha He] HQ. destruct (attr_lookup _ _ _ _ _ _ He) as (e & Hl & <- & <- & <- & <-). eapply wp_ev_mod; [done|]. apply HQ.
  - split; [by eapply ev_mod_queue; [..|right]|etrans; [done|apply ev_mod_touches]|done|]. unfold attr. cbn. by rewrite lookup_insert_eq.
  - apply list_fmap_ext. intros i p _. cbn. f_equal. unfold key_of. cbn. destruct (decide (event = p)) as [->|Hne].
    + by rewrite lookup_insert_eq, Hl.
    + by rewrite lookup_insert_ne.
Qed.

Lemma wp_setWhen q event e t ks bins (Q : unit → EventQueue → Prop) : is_queue q ks bins → heap q !! event = Some e → event ∉ mjoin bins →
  (∀ q', stands q event ks bins (t, _priority e, flags e, Some (self q)) q' → Q tt q') → wp (ev_mod event (setWhen t (self q))) Q q.
Proof.
  intros Hq He Hne HQ. eapply wp_ev_mod; [done|]. apply HQ. split; [by eapply ev_mod_queue; [..|left]|apply ev_mod_touches|done|].
  unfold attr. cbn. by rewrite lookup_insert_eq.
Qed.

Lemma wp_place q0 q event ks bins t pr fl o (Q : unit → EventQueue → Prop) : stands q0 event ks bins (t, pr, fl, o) q → event ∉ mjoin bins →
  (∀ q' ks' bins', stands q0 event ks' bins' (t, pr, fl, o) q' →
     view q' (mjoin bins') = place ((t, pr), event) (view q0 (mjoin bins)) → Q tt q') → wp (insert event) Q q.
Proof.
  intros [Hq Ht Has Hat] Hne HQ. destruct (attr_lookup _ _ _ _ _ _ Hat) as (e & He & <- & <- & <- & <-).
  eapply wp_insert; [done|done|done|]. intros q' Hat' Hsa.
  destruct (queued_view _ _ _ _ _ _ Hq Hat' Hsa) as (ks' & bins' & Hq' & Ev); [unfold key_of; by rewrite He|].
  eapply HQ; [|by rewrite <- Ev, (view_touches event q0 q)]. pose proof Hsa as (Hh & _ & Ea & _).
  split; [done|etrans; [done|by apply same_attrs_touches]|congruence|]. unfold attr. by rewrite Hh, He.
Qed.

Lemma wp_schedule_queue q l event e t global : pending q l → heap q !! event = Some e → scheduled e = false → initialized e = true →
  _curTick q ≤ t →
  wp (schedule event t global) (λ _ q', touches event q q' ∧
    attr q' event = Some (t, _priority e, Req.set Scheduled (flags e), Some (self q)) ∧
    if inParallelMode q && (negb (self q =? curEventQueue q) || global)
    then pending q' l ∧ async_queue q' = async_queue q ++ [event]
    else pending q' (place ((t, _priority e), event) l) ∧ async_queue q' = async_queue q) q.
Proof.
  intros Hp He Hsch Hini Ht. pose proof Hp as [(ks & bins & Hq & ->) Htime Hs [Hnd Ha]]. rewrite view_snd in Hs, Ha.
  assert (event ∉ mjoin bins ∧ event ∉ async_queue q) as [Hne1 Hne2].
  { split; intros Hin; [destruct (Hs event e He) as [[H _] _]; [by left|]|destruct (Hs event e He) as [[H _] _]; [by right|]]; congruence. }
  unfold schedule. wp_steps. wp_step; [by apply Z.leb_le|]. wp_step. eapply wp_deref; [done|].
  wp_step. wp_step; [by rewrite Hsch|]. wp_step. wp_step; [done|]. wp_step. eapply wp_setWhen; [done..|]. intros q1 H1. wp_step. destruct (inParallelMode q && _).
  - unfold asyncInsert. wp_step. set (q2 := set_async_queue _ _).
    eapply (wp_flags q2 q2 event ks bins); [destruct H1; split; [by eapply is_queue_agree|done|done|done]|].
    intros q' [Hq' Ht' Ha' Hat'] Ev. destruct H1 as [Hq1 Ht1 Ha1 Hat1].
    assert (touches event q q') as Htq by (etrans; [exact Ht1|destruct Ht'; by split]). split_and!; [done|done| |by rewrite Ha'; cbn; rewrite Ha1].
    assert (view q (mjoin bins) = view q' (mjoin bins)) as Evq by (by rewrite (view_touches event q q')).
    eapply pending_touches; [done|done|exact Hq'|done| |..].
    + by rewrite (to_tick _ _ _ Htq).
    + done.
    + intros x Hx. rewrite Ha'. cbn. rewrite Ha1, elem_of_app, list_elem_of_singleton. tauto.
    + intros e' He'. unfold attr in Hat'. rewrite He' in Hat'. injection Hat' as _ _ Ef Eq. unfold scheduled.
      rewrite Ef, Eq, scheduled_set, (to_self _ _ _ Htq), Ha'. cbn. split; [done|]. intros _. right. rewrite elem_of_app. right. left.
    + rewrite Ha'. cbn. rewrite Ha1. apply NoDup_app. split_and!; [done|set_solver|apply NoDup_singleton].
    + intros _. rewrite view_snd. split; [|done]. destruct (attr_lookup _ _ _ _ _ _ Hat') as (e' & -> & _). by eexists.
  - eapply (wp_place q q1); [done|done|]. intros q2 ks2 bins2 H2 Ev2. eapply wp_flags; [exact H2|].
    intros q' [Hq' Ht' Ha' Hat'] Ev'. rewrite <- Ev2, <- Ev'. split_and!; [done|done| |done].
    eapply pending_touches; [done|done|exact Hq'|done| |..]; rewrite ?Ev', ?Ev2, ?Ha'; try done.
    + rewrite (to_tick _ _ _ Ht'), place_perm. by constructor.
    + intros x Hx. rewrite elem_of_place. cbn. tauto.
    + intros e' He'. unfold attr in Hat'. rewrite He' in Hat'. injection Hat' as _ _ Ef Eq. unfold scheduled.
      rewrite Ef, Eq, scheduled_set, (to_self _ _ _ Ht'), elem_of_place. split; [done|]. intros _. left. by left.
Qed.

(** C19: [schedule] places the event in the pending list: behind the events that come before it in
    time and priority, before all others, also those of the same time and priority. In
    parallel mode an event of another thread's queue, and any global event, waits in the
    asynchronous queue instead. The event has the time, is marked as scheduled on this
    queue, and no other event changes. *)
Theorem schedule_places q l event e t global : pending q l → heap q !! event = Some e → scheduled e = false → initialized e = true →
  _curTick q ≤ t →
  wp (schedule event t global) (λ _ q', touches event q q' ∧
    attr q' event = Some (t, _priority e, Req.set Scheduled (flags e), Some (self q)) ∧
    if inParallelMode q && (negb (self q =? curEventQueue q) || global)
    then pending q' l ∧ async_queue q' = async_queue q ++ [event]
    else pending q' (place ((t, _priority e), event) l) ∧ async_queue q' = async_queue q) q.
Proof. apply wp_schedule_queue. Qed.

Lemma pending_member q l p e : pending q l → p ∈ l.*2 → heap q !! p = Some e → scheduled e = true ∧ queue e = Some (self q) ∧ p ∉ async_queue q.
Proof.
  intros [_ _ Hs [_ Ha]] Hp He. destruct (Hs p e He) as [[H1 H2] _]; [by left|]. split_and!; [done|done|]. intros Hx. by apply (Ha p Hx).
Qed.

Lemma wp_take q l event e : pending q l → event ∈ l.*2 → heap q !! event = Some e →
  wp (remove event) (λ _ q', ∃ ks bins, stands q event ks bins (ev_attr e) q' ∧ view q' (mjoin bins) = without event l ∧ event ∉ mjoin bins) q.
Proof.
  intros Hp Hin He. destruct (pending_member _ _ _ _ Hp Hin He) as (_ & Hself & _). destruct Hp as [(ks & bins & Hq & ->) _ _ _].
  eapply wp_remove; [done|done|by rewrite view_snd in Hin|done|]. intros q' Hu Hsa.
  destruct (unqueued_view _ _ _ _ _ Hq Hu Hsa) as (ks' & bins' & Hq' & Ev). exists ks', bins'. pose proof Hsa as (Hh & _ & Ea & _). split_and!.
  - split; [done|by apply same_attrs_touches|done|]. unfold attr. by rewrite Hh, He.
  - done.
  - rewrite <- (view_snd q' (mjoin bins')), <- Ev, elem_of_without. tauto.
Qed.

Lemma wp_delete q0 q event ks bins w pr fl o (Q : unit → EventQueue → Prop) : stands q0 event ks bins (w, pr, fl, o) q → event ∉ mjoin bins →
  Req.isSet fl Scheduled = false →
  (∀ q', is_queue q' ks bins → touches event q0 q' → async_queue q' = async_queue q0 → heap q' !! event = None →
     view q' (mjoin bins) = view q (mjoin bins) → Q tt q') → wp (delete_event event) Q q.
Proof.
  intros [Hq Ht Ha Hat] Hne Hs HQ. destruct (attr_lookup _ _ _ _ _ _ Hat) as (e & He & <- & <- & <- & <-).
  unfold delete_event. wp_step. eapply wp_deref; [done|]. wp_step. wp_step; [by unfold scheduled; rewrite Hs|]. wp_step.
  assert (∀ x, x ≠ event → delete event (heap q) !! x = heap q !! x) as Hx by (intros; by apply lookup_delete_ne).
  apply HQ; [|etrans; [exact Ht|]|done|apply lookup_delete_eq|].
  - eapply is_queue_agree; [done|done|]. intros x Hin. cbn. rewrite Hx; [done|]. by intros ->.
  - split; try done. intros x Hxe. cbn. by rewrite Hx.
  - apply view_ext. intros x Hin. cbn. rewrite Hx; [done|]. by intros ->.
Qed.

Lemma autodelete_clear f : Req.isSet (Req.clear Scheduled (Req.clear Squashed f)) AutoDelete = Req.isSet f AutoDelete.
Proof. change AutoDelete with (2 ^ 2). rewrite !Req.isSet_pow2, !Req.clear_bit by done. cbn. by rewrite !andb_true_r. Qed.

(** The invariant once the event is off the queue. *)
Lemma pending_taken q l event q' ks bins : pending q l → event ∈ l.*2 → is_Some (heap q !! event) → is_queue q' ks bins → touches event q q' →
  async_queue q' = async_queue q → (∀ e, heap q' !! event = Some e → scheduled e = false) → view q' (mjoin bins) = without event l →
  pending q' (without event l).
Proof.
  intros Hp Hin [e0 He0] Hq Ht Ha Hs Ev. destruct (pending_member _ _ _ _ Hp Hin He0) as (_ & _ & Hna). pose proof Hp as [_ Htime _ [Hnd _]].
  eapply pending_touches; [done|done|done|done| |..]; rewrite ?Ha.
  - rewrite (to_tick _ _ _ Ht). by apply Forall_without.
  - intros x Hx. rewrite elem_of_without. tauto.
  - done.
  - intros e He. rewrite elem_of_without, (Hs e He). naive_solver.
  - done.
  - done.
Qed.

(** C20: [deschedule] takes the event out of the pending list and leaves the order of the others. The
    event is no longer scheduled, and is deleted when it is marked for that. *)
Theorem deschedule_takes_out q l event e : pending q l → heap q !! event = Some e → event ∈ l.*2 → initialized e = true →
  negb (inParallelMode q) || (self q =? curEventQueue q) = true →
  wp (deschedule event) (λ _ q', pending q' (without event l) ∧ touches event q q' ∧ async_queue q' = async_queue q ∧
    attr q' event = (if Req.isSet (flags e) AutoDelete then None
                     else Some (_when e, _priority e, Req.clear Scheduled (Req.clear Squashed (flags e)), queue e))) q.
Proof.
  intros Hp He Hin Hini Hpar. destruct (pending_member _ _ _ _ Hp Hin He) as (Hsch & _ & _).
  unfold deschedule. wp_steps. eapply wp_deref; [done|]. wp_step. wp_step; [done|]. wp_step. wp_step; [done|]. wp_step. wp_step; [done|].
  wp_step. eapply wp_mono; [by eapply wp_take|]. intros _ q1 (ks & bins & H1 & Ev1 & Hne). wp_step.
  eapply wp_flags; [exact H1|]. intros q2 H2 Ev2. wp_step. eapply wp_flags; [exact H2|]. intros q3 H3 Ev3. wp_step.
  pose proof H3 as [Hq3 Ht3 Ha3 Hat3]. destruct (attr_lookup _ _ _ _ _ _ Hat3) as (e3 & He3 & _ & _ & Hf & _).
  assert (Req.isSet (Req.clear Scheduled (Req.clear Squashed (flags e))) Scheduled = false) as Hns by (by apply scheduled_clear).
  eapply wp_deref; [done|]. rewrite Hf, autodelete_clear. destruct (Req.isSet (flags e) AutoDelete).
  - eapply wp_delete; [exact H3|done|done|]. intros q' Hq' Ht' Ha' Hno Ev'. split_and!; [|done|done|unfold attr; by rewrite Hno].
    eapply pending_taken; [done|done|by eexists|exact Hq'|done|done|by rewrite Hno|congruence].
  - wp_step. split_and!; [|done|done|done].
    eapply pending_taken; [done|done|by eexists|exact Hq3|done|done| |congruence]. intros e' He'. unfold scheduled. congruence.
Qed.

(** [reschedule] moves a pending event to its new time, as descheduling and scheduling it would,
    and with [always] schedules one that is not pending. *)
Theorem reschedule_moves q l event e t always : pending q l → heap q !! event = Some e → event ∈ l.*2 ∨ (always = true ∧ scheduled e = false) →
  initialized e = true → _curTick q ≤ t → negb (inParallelMode q) || (self q =? curEventQueue q) = true →
  wp (reschedule event t always) (λ _ q', pending q' (place ((t, _priority e), event) (without event l)) ∧ touches event q q' ∧
    async_queue q' = async_queue q ∧
    attr q' event = Some (t, _priority e, Req.set Scheduled (Req.clear Squashed (flags e)), Some (self q))) q.
Proof.
  intros Hp He Hor Hini Ht Hpar. pose proof Hp as [(ks & bins & Hq & El) Htime Hs [Hnd Ha]].
  assert (event ∉ async_queue q) as Hna.
  { destruct Hor as [Hin|[_ Hsch]]; [by eapply pending_member|]. intros Hx. destruct (Hs event e He) as [[H _] _]; [by right|congruence]. }
  unfold reschedule. wp_steps. wp_step; [by apply Z.leb_le|]. wp_step. eapply wp_deref; [done|]. wp_step.
  wp_step; [destruct Hor as [Hin|[-> _]]; [destruct (pending_member _ _ _ _ Hp Hin He) as (-> & _); apply orb_true_r|done]|].
  wp_step. wp_step; [done|]. wp_step. wp_step; [done|]. wp_step.
  assert (wp (if scheduled e then remove event else mret tt) (λ _ q', ∃ ks bins, stands q event ks bins (ev_attr e) q' ∧
    view q' (mjoin bins) = without event l ∧ event ∉ mjoin bins) q) as Hwp.
  { destruct Hor as [Hin|[_ Hsch]]; [destruct (pending_member _ _ _ _ Hp Hin He) as (-> & _); by apply wp_take|]. rewrite Hsch. wp_step.
    assert (event ∉ mjoin bins) as Hnb by (intros Hx; destruct (Hs event e He) as [[H _] _]; [left; by rewrite El, view_snd|congruence]).
    exists ks, bins. split_and!; [split; [done|done|done|unfold attr; by rewrite He]| |done]. rewrite <- El. symmetry. apply without_id.
    by rewrite El, view_snd. }
  eapply wp_mono; [exact Hwp|]. intros _ q1 (ks1 & bins1 & [Hq1 Ht1 Ha1 Hat1] & Ev1 & Hne). wp_step.
  destruct (attr_lookup _ _ _ _ _ _ Hat1) as (e1 & He1 & _ & Epr & Efl & _). rewrite <- (to_self _ _ _ Ht1).
  eapply wp_setWhen; [exact Hq1|done|done|]. intros q2 H2. rewrite Epr, Efl, (to_self _ _ _ Ht1) in H2. wp_step.
  eapply wp_place; [exact H2|done|]. intros q3 ks3 bins3 H3 Ev3. wp_step. eapply wp_flags; [exact H3|]. intros q4 H4 Ev4.
  eapply wp_flags; [exact H4|]. intros q5 [Hq5 Ht5 Ha5 Hat5] Ev5.
  assert (touches event q q5) as Ht15 by (by etrans). rewrite Ev1 in Ev3. rewrite (to_self _ _ _ Ht1).
  split_and!; [|done|congruence|done]. eapply pending_touches; [done|done|exact Hq5|congruence| |..]; rewrite ?Ha5, ?Ha1; try done.
  - rewrite (to_tick _ _ _ Ht15), place_perm. constructor; [done|]. by apply Forall_without.
  - intros x Hx. rewrite elem_of_place, elem_of_without. cbn. tauto.
  - intros e' He'. unfold attr in Hat5. rewrite He' in Hat5. injection Hat5 as _ _ Ef Eq. unfold scheduled.
    rewrite Ef, Eq, scheduled_set, (to_self _ _ _ Ht15), elem_of_place. split; [done|]. intros _. left. by left.
Qed.

(** A step on an event that is not scheduled before and after. *)
Lemma pending_idle p q q' l e ks bins : pending q l → heap q !! p = Some e → scheduled e = false → touches p q q' → is_queue q' ks bins →
  l = view q' (mjoin bins) → async_queue q' = async_queue q → (∀ e', heap q' !! p = Some e' → scheduled e' = false) → pending q' l.
Proof.
  intros Hp He Hs Ht Hq' El Ha Hs'. pose proof Hp as [_ Htime Hsch [Hnd _]].
  assert (¬ (p ∈ l.*2 ∨ p ∈ async_queue q)) as Hn by (intros Hin; apply (Hsch p e He) in Hin as [? _]; congruence).
  eapply pending_touches; [done|done|done|done| |..]; rewrite ?Ha; try done.
  - by rewrite (to_tick _ _ _ Ht).
  - intros e' He'. rewrite (Hs' e' He'). naive_solver.
  - intros Hx. exfalso. apply Hn. by right.
Qed.

(** ** Restoring an event *)

Lemma wrap_short f : 0 ≤ f < 2 ^ 16 → ((f + 2 ^ 15) mod 2 ^ 16 - 2 ^ 15) mod 2 ^ 16 = f.
Proof. intros Hf. rewrite Zminus_mod_idemp_l. replace (f + 2 ^ 15 - 2 ^ 15) with f by lia. by apply Z.mod_small. Qed.

Lemma set_initialized f : Z.land f InitMask = Initialized → Req.set Initialized f = f.
Proof.
  intros H. unfold Req.set. apply Z.bits_inj'. intros n Hn. rewrite Z.lor_spec. rewrite <- H, Z.land_spec.
  by destruct (Z.testbit f n), (Z.testbit InitMask n).
Qed.

Lemma rescheduled_flags f : Req.isSet f Scheduled = true → Req.isSet f Squashed = false →
  Req.set Scheduled (Req.clear (Z.lor Squashed Scheduled) f) = f.
Proof.
  change Scheduled with (2 ^ 1) at 1. change Squashed with (2 ^ 0) at 1. rewrite !Req.isSet_pow2 by done. intros H1 H0.
  apply Z.bits_inj'. intros n Hn. rewrite Req.set_bit, Req.clear_bit. change (Z.lor Squashed Scheduled) with 3. change Scheduled with 2.
  destruct (decide (n = 0)) as [->|]; [by rewrite H0|]. destruct (decide (n = 1)) as [->|]; [by rewrite H1|].
  rewrite (Z.bits_above_log2 3 n), (Z.bits_above_log2 2 n) by (cbn; lia). by rewrite andb_true_r, orb_false_r.
Qed.

(** C21: An event that was pending and not squashed when it was saved is pending again after
    [unserialize], with the time, the priority and the flags it had. *)
Theorem event_round_trip q l event e es : pending q l → heap q !! event = Some e → scheduled e = false → initialized e = true →
  inParallelMode q = false → 0 ≤ flags es < 2 ^ 16 → scheduled es = true → squashed es = false → initialized es = true → _curTick q ≤ _when es →
  wp (let '(t, p, f) := serialize es in unserialize event t p f) (λ _ q', pending q' (place (ev_key es, event) l) ∧ touches event q q' ∧
    attr q' event = Some (_when es, _priority es, flags es, Some (self q))) q.
Proof.
  intros Hp He Hsch Hini Hpar Hr Hs Hsq Hi Ht. pose proof Hp as [(ks & bins & Hq & El) _ Hsc _]. apply Z.eqb_eq in Hi.
  assert (event ∉ mjoin bins) as Hne by (intros Hx; destruct (Hsc event e He) as [[? _] _]; [left; by rewrite El, view_snd|congruence]).
  unfold serialize, unserialize. wp_step. eapply wp_deref; [done|]. rewrite Hsch. wp_step. wp_step. wp_step.
  eapply wp_ev_mod; [done|]. wp_step. set (e1 := set_priority _ _). set (q1 := set_heap _ q). assert (heap q1 !! event = Some e1) as He1 by apply lookup_insert_eq.
  eapply wp_deref; [done|]. wp_step. wp_step; [done|]. cbv zeta. rewrite wrap_short, set_initialized by done.
  unfold scheduled in Hs. unfold squashed in Hsq. rewrite Hs, Hsq. cbn [andb negb]. wp_step. eapply wp_ev_mod; [done|].
  set (e2 := set_flags _ e1). set (q2 := set_heap _ q1). assert (heap q2 !! event = Some e2) as He2 by apply lookup_insert_eq.
  assert (touches event q q2) as Ht2 by (etrans; apply ev_mod_touches).
  assert (is_queue q2 ks bins) as Hq2 by (eapply ev_mod_queue; [eapply ev_mod_queue|..]; eauto).
  assert (scheduled e2 = false) as Hs2 by (by apply scheduled_clear).
  assert (pending q2 l) as Hp2 by (eapply pending_idle; [exact Hp|done|done|done|exact Hq2|by rewrite (view_touches event q q2)|done|congruence]).
  assert (initialized e2 = true) as Hi2.
  { unfold initialized. cbn. apply Z.eqb_eq. rewrite <- Hi. apply Z.bits_inj'. intros n Hn. rewrite !Z.land_spec, Req.clear_bit.
    change (Z.lor Squashed Scheduled) with 3. destruct (decide (n < 2)) as [Hlt|]; [assert (n = 0 ∨ n = 1) as [->| ->] by lia; cbn; by rewrite !andb_false_r|].
    rewrite (Z.bits_above_log2 3 n) by (cbn; lia). by rewrite andb_true_r. }
  eapply wp_mono; [by eapply (wp_schedule_queue q2 l event e2 (_when es) false)|]. intros _ q' (Ht' & Hat' & H). cbn [inParallelMode] in H.
  rewrite (proj1 (to_mode _ _ _ Ht2)), Hpar in H. destruct H as [Hp' _]. cbn in Hat'. rewrite rescheduled_flags in Hat' by done.
  split_and!; [done|by etrans|done].
Qed.

(** ** Servicing events *)

(** Popping the head is removing it from its bin. *)
Lemma wp_pop q p e eh (Q : unit → EventQueue → Prop) : heap q !! p = Some e → nextInBin eh = nextInBin e → nextBin eh = nextBin e →
  wp (r ← removeItem p p; modify (set_head r)) Q q →
  wp (match nextInBin eh with Some n => ev_mod n (set_nextBin (nextBin eh)) ;; modify (set_head (Some n)) | None => modify (set_head (nextBin eh)) end) Q q.
Proof.
  intros He -> ->. assert (deref p q = Ok (e, q)) as Hd by (change (of_option (EUndef "Event*") (heap q !! p) q = Ok (e, q)); by rewrite He).
  unfold wp, removeItem, mbind, M_bind. rewrite Hd. cbv zeta. rewrite Z.eqb_refl. destruct (nextInBin e) as [n|]; [|done]. by destruct (ev_mod n _ q) as [[[] q']|].
Qed.

(** The first pending event comes no later than the others. *)
Lemma pending_first q k p l : pending q ((k, p) :: l) → Forall (λ y, k.1 ≤ y.1.1) l.
Proof.
  intros [(ks & bins & [_ Hb Hso Hnd] & El) _ _ _]. destruct ks as [|k' ks], bins as [|[|p' b] bins]; try done;
    [by destruct Hb as [(_ & ? & ? & ? & _) _]|]. injection El as Ek <- ->.
  assert (Forall (λ y, k'.1 ≤ y.1) (k' :: ks)) as Hle.
  { constructor; [done|]. apply StronglySorted_inv in Hso as [_ Hf]. eapply Forall_impl; [exact Hf|]. unfold key_lt. intros. lia. }
  pose proof (view_keys _ _ _ _ _ Hb Hle) as Hv. change (mjoin ((p :: b) :: bins)) with (p :: b ++ mjoin bins) in Hv.
  apply Forall_cons in Hv as [_ Hv]. destruct Hb as [[[(e & He & _ & Hk) _] _] _]. unfold key_of in Ek. rewrite He, Hk in Ek. by rewrite Ek.
Qed.

Lemma pending_head q l : pending q l →
  (l = [] ∧ head q = None) ∨ ∃ k p l' e, l = (k, p) :: l' ∧ head q = Some p ∧ heap q !! p = Some e ∧ k = ev_key e.
Proof.
  intros [(ks & bins & [Hh Hb _ _] & ->) _ _ _]. destruct ks as [|k ks], bins as [|[|p b] bins]; try done; [by left|by destruct Hb as [(_ & ? & ? & ? & _) _]|].
  right. destruct Hb as [[[(e & He & _ & _) _] _] _]. exists (ev_key e), p, (view q (b ++ mjoin bins)), e. split_and!; [|done|done|done].
  change (mjoin ((p :: b) :: bins)) with (p :: b ++ mjoin bins). unfold view. rewrite fmap_cons. unfold key_of at 1. by rewrite He.
Qed.

(** The state in which the event is handled. *)
Record popped (q : EventQueue) (k : Key) (p : Z) (l : list Entry) (e : Event) (q' : EventQueue) : Prop := {
  po_pending : pending q' l;
  po_touches : touches p q q';
  po_async : async_queue q' = async_queue q;
  po_attr : attr q' p = Some (k.1, k.2, Req.clear Scheduled (flags e), Some (self q));
}.

Lemma wp_serviceOne process q k p l e (Q : option Z → EventQueue → Prop) : pending q ((k, p) :: l) → heap q !! p = Some e →
  (∀ q', popped q k p l e q' → wp (handle_action process p) Q q') → wp (serviceOne process) Q q.
Proof.
  intros Hp He HQ. pose proof Hp as [(ks & bins & Hq & El) Htime _ _].
  assert (p ∈ ((k, p) :: l).*2) as Hin by left. destruct (pending_member _ _ _ _ Hp Hin He) as (_ & Hself & _).
  assert (NoDup (((k, p) :: l).*2)) as Hnd by (rewrite El, view_snd; by destruct Hq).
  pose proof (without_app p k [] l Hnd) as Ew. cbn [app] in Ew.
  pose proof Hq as [Hh Hb _ _]. destruct ks as [|k' ks], bins as [|[|p' b] bins]; try done; [by destruct Hb as [(_ & ? & ? & ? & _) _]|].
  injection El as Ek <- El. destruct Hb as [[[(e' & He' & _ & Hk') _] _] _]. assert (e' = e) as -> by congruence.
  unfold key_of in Ek. rewrite He in Ek. unfold serviceOne. wp_steps. rewrite Hh. cbn [top]. wp_step. eapply wp_deref; [done|]. cbv zeta. wp_step.
  eapply wp_ev_mod; [done|]. set (e1 := set_flags _ e). set (q1 := set_heap _ q).
  assert (heap q1 !! p = Some e1) as He1 by (apply lookup_insert_eq).
  assert (is_queue q1 (k' :: ks) ((p :: b) :: bins)) as Hq1 by (by eapply ev_mod_queue; [..|right]).
  wp_step. eapply (wp_pop q1 p e1); [done..|]. eapply wp_remove_head; [exact Hq1|left|]. intros q' Hu Hsa.
  destruct (unqueued_view _ _ _ _ _ Hq1 Hu Hsa) as (ks' & bins' & Hq' & Ev).
  assert (touches p q q') as Ht by (etrans; [apply ev_mod_touches|by apply same_attrs_touches]).
  pose proof Hsa as (Hh' & _ & Ea & _). specialize (Hh' p). rewrite He1 in Hh'. apply HQ. split; [|done|done|].
  - rewrite <- Ew. eapply pending_taken; [done|done|by eexists|exact Hq'|done|done| |].
    + intros e' Hl. rewrite Hl in Hh'. injection Hh' as _ _ Ef _. unfold scheduled. rewrite Ef. by apply scheduled_clear.
    + rewrite <- Ev. f_equal. rewrite El, Ek. change (mjoin ((p :: b) :: bins)) with (p :: b ++ mjoin bins).
      change (view q1 (p :: b ++ mjoin bins)) with ((key_of (heap q1) p, p) :: view q1 (b ++ mjoin bins)).
      unfold key_of at 1. rewrite He1. f_equal. eapply view_touches; [apply ev_mod_touches|].
      destruct Hq1 as [_ _ _ Hnd1]. by apply NoDup_cons in Hnd1 as [? _].
  - unfold attr. by rewrite Hh', Ek, <- Hself.
Qed.

Lemma pending_tick q l t : pending q l → Forall (λ x, t ≤ x.1.1) l → pending (setCurTick t q) l.
Proof.
  intros [(ks & bins & Hq & El) _ Hs Ha] Ht. split; [|done|done|done]. exists ks, bins. split; [|done]. by eapply is_queue_agree.
Qed.

(** An exit event is not deleted automatically on the main queue. *)
Definition exit_ok (f : Z) : bool := negb (Req.isSet f IsExitEvent) || negb (Req.isSet f AutoDelete) || negb (Req.isSet f IsMainQueue).

(** An event off the queue loses its mark of being squashed. *)
Lemma wp_unsquash p q l e (Q : unit → EventQueue → Prop) : pending q l → heap q !! p = Some e → scheduled e = false →
  (∀ q', pending q' l → touches p q q' → async_queue q' = async_queue q →
     attr q' p = Some (_when e, _priority e, Req.clear Squashed (flags e), queue e) → Q tt q') →
  wp (ev_mod p (λ e, set_flags (Req.clear Squashed (flags e)) e)) Q q.
Proof.
  intros Hp He Hs HQ. pose proof Hp as [(ks & bins & Hq & El) _ _ _].
  eapply (wp_flags q q p ks bins); [split; [done|done|done|unfold attr; by rewrite He]|]. intros q' [Hq' Ht' Ha' Hat'] Ev.
  apply HQ; [|done..]. eapply pending_idle; [exact Hp|done|done|done|exact Hq'|congruence|done|]. intros e1 He1.
  unfold attr in Hat'. rewrite He1 in Hat'. injection Hat' as _ _ Ef _.
  unfold scheduled in *. rewrite Ef. change Scheduled with (2 ^ 1) in *. rewrite Req.isSet_pow2 in * by done. by rewrite Req.clear_bit, Hs.
Qed.

(** What becomes of an event after it has been handled: it is deleted if it asks for that and
    has not been scheduled again. *)
Definition reclaimed (e : Event) : bool := Req.isSet (flags e) AutoDelete && negb (scheduled e).
Definition reclaim (p : Z) (e : Event) (q : EventQueue) : EventQueue := if reclaimed e then set_heap (delete p (heap q)) q else q.

Lemma reclaimed_clear e e' : flags e' = Req.clear Squashed (Req.clear Scheduled (flags e)) → reclaimed e' = Req.isSet (flags e) AutoDelete.
Proof.
  intros Ef. unfold reclaimed, scheduled. rewrite Ef. change AutoDelete with (2 ^ 2). change (Req.isSet ?x Scheduled) with (Req.isSet x (2 ^ 1)).
  rewrite !Req.isSet_pow2, !Req.clear_bit by done.
  generalize (Z.testbit (flags e) 1), (Z.testbit (flags e) 2). by intros [] [].
Qed.

Lemma wp_reclaim p q e (Q : option Z → EventQueue → Prop) : heap q !! p = Some e → Q None (reclaim p e q) →
  wp (e ← deref p; (if Req.isSet (flags e) AutoDelete && negb (scheduled e) then delete_event p else mret tt) ;; mret None) Q q.
Proof.
  intros He HQ. wp_step. eapply wp_deref; [done|]. wp_step. unfold reclaim in HQ. fold (reclaimed e). destruct (reclaimed e) eqn:E; [|by do 2 wp_step].
  apply andb_true_iff in E as [_ E]. unfold delete_event. wp_step. eapply wp_deref; [done|]. wp_step. wp_step; [done|]. by do 2 wp_step.
Qed.

Lemma pending_reclaim p q l e : pending q l → heap q !! p = Some e →
  pending (reclaim p e q) l ∧ touches p q (reclaim p e q) ∧ async_queue (reclaim p e q) = async_queue q ∧
  heap (reclaim p e q) !! p = if reclaimed e then None else Some e.
Proof.
  intros Hp He. unfold reclaim. destruct (reclaimed e) eqn:E; [|done]. apply andb_true_iff in E as [_ Hs%negb_true_iff].
  pose proof Hp as [(ks & bins & Hq & El) _ Hsch _].
  assert (p ∉ mjoin bins) as Hne by (intros Hx; destruct (Hsch p e He) as [[? _] _]; [left; by rewrite El, view_snd|congruence]).
  assert (wp (delete_event p) (λ _ q', q' = set_heap (delete p (heap q)) q) q) as Hd.
  { unfold delete_event. wp_step. eapply wp_deref; [done|]. wp_step. wp_step; [by rewrite Hs|]. by wp_step. }
  assert (wp (delete_event p) (λ _ q', pending q' l ∧ touches p q q' ∧ async_queue q' = async_queue q ∧ heap q' !! p = None) q) as Hd'.
  { eapply (wp_delete q q p ks bins); [split; [done|done|done|unfold attr; by rewrite He]|done|done|].
    intros q' Hq' Ht' Ha' Hno Ev. split_and!; [|done..].
    eapply pending_idle; [exact Hp|done|done|done|exact Hq'|congruence|done|by rewrite Hno]. }
  unfold wp in *. destruct (delete_event p q) as [[u q']|]; [|done]. by subst q'.
Qed.

(** C18: [serviceOne] takes the first pending event, the one that comes before all others, off
    the queue; it is no longer scheduled, no event is late and no other event has changed.
    If it is squashed, it is not processed and the clock stands still: only its mark goes.
    Otherwise the clock moves to its time and it is processed. The event is returned when it
    ends the simulation; if not, it is deleted when it is marked for that and has not been
    scheduled again. *)
Theorem service_takes_first process q k p l e (R : option Z → EventQueue → Prop) :
  pending q ((k, p) :: l) → heap q !! p = Some e →
  (∀ q', pending q' l → _curTick q' = (if squashed e then _curTick q else k.1) → async_queue q' = async_queue q → self q' = self q →
     (∀ x, x ≠ p → attr q' x = attr q x) →
     let f := Req.clear Scheduled (flags e) in
     if squashed e then
       attr q' p = (if Req.isSet (flags e) AutoDelete then None else Some (k.1, k.2, Req.clear Squashed f, Some (self q))) → R None q'
     else
       attr q' p = Some (k.1, k.2, f, Some (self q)) →
       wp (process p) (λ _ q2, ∃ e2, heap q2 !! p = Some e2 ∧
         if isExitEvent e2 then exit_ok (flags e2) = true ∧ R (Some p) q2 else R None (reclaim p e2 q2)) q') →
  wp (serviceOne process) R q.
Proof.
  intros Hp He Hnext. eapply wp_serviceOne; [done|done|]. intros q1 [Hp1 Ht1 Ha1 Hat1].
  destruct (attr_lookup _ _ _ _ _ _ Hat1) as (e1 & He1 & Ew & Epr & Ef & Equ).
  assert (scheduled e1 = false) as Hs1 by (unfold scheduled; rewrite Ef; by apply scheduled_clear).
  unfold handle_action. wp_step. eapply wp_deref; [done|].
  assert (squashed e1 = squashed e) as ->.
  { unfold squashed in *. rewrite Ef. change Squashed with (2 ^ 0) in *. change Scheduled with 2.
    rewrite !Req.isSet_pow2 by done. rewrite Req.clear_bit. cbn. by rewrite andb_true_r. }
  destruct (squashed e); cbn [negb] in *.
  - do 2 wp_step. eapply (wp_unsquash p q1 l e1); [done..|]. intros q2 Hp2 Ht2 Ha2 Hat2. wp_step. cbn iota.
    destruct (attr_lookup _ _ _ _ _ _ Hat2) as (e2 & He2 & Ew2 & Epr2 & Ef2 & Equ2). eapply wp_reclaim; [done|].
    destruct (pending_reclaim _ _ _ _ Hp2 He2) as (Hp3 & Ht3 & Ha3 & Hh3).
    assert (touches p q (reclaim p e2 q2)) as Ht by (etrans; [exact Ht1|]; etrans; [exact Ht2|exact Ht3]).
    apply (Hnext (reclaim p e2 q2)); [done|apply Ht|by rewrite Ha3, Ha2, Ha1|apply Ht|intros x Hx; by apply (to_others _ _ _ Ht)|].
    unfold attr. rewrite Hh3, (reclaimed_clear e e2) by congruence.
    destruct (Req.isSet (flags e) AutoDelete); [done|]. unfold ev_attr. cbn. congruence.
  - do 4 wp_step. eapply wp_mono; [apply (Hnext (setCurTick (_when e1) q1))|].
    + rewrite Ew. apply pending_tick; [done|]. by eapply pending_first.
    + done.
    + done.
    + apply Ht1.
    + intros x Hx. by apply (to_others _ _ _ Ht1).
    + exact Hat1.
    + intros _ q2 (e2 & He2 & HR). wp_step. eapply wp_deref; [done|]. unfold exit_ok in HR. fold (isExitEvent e2) in HR. destruct (isExitEvent e2).
      * destruct HR as [Hok HR]. wp_step. wp_step; [done|]. wp_step. cbn iota. by wp_step.
      * wp_step. cbn iota. by eapply wp_reclaim.
Qed.

Definition flags_ok (q : EventQueue) : Prop := ∀ p e, heap q !! p = Some e → exit_ok (flags e) = true.

Lemma exit_ok_clear g f : Z.land g 52 = 0 → exit_ok (Req.clear g f) = exit_ok f.
Proof.
  intros Hg. assert (∀ k, Z.testbit 52 k = true → Z.testbit g k = false) as Hb.
  { intros k Hk. apply (f_equal (λ x, Z.testbit x k)) in Hg. rewrite Z.land_spec, Hk, andb_true_r, Z.bits_0 in Hg. done. }
  unfold exit_ok. change IsExitEvent with (2 ^ 4). change AutoDelete with (2 ^ 2). change IsMainQueue with (2 ^ 5).
  rewrite !Req.isSet_pow2, !Req.clear_bit, !Hb by done. cbn [negb]. by rewrite !andb_true_r.
Qed.

Lemma flags_ok_touches p q q' : flags_ok q → touches p q q' → (∀ e, heap q' !! p = Some e → exit_ok (flags e) = true) → flags_ok q'.
Proof.
  intros Hf Ht Hp x e He. destruct (decide (x = p)) as [->|Hne]; [by apply Hp|]. pose proof (to_others _ _ _ Ht x Hne) as Ha. rewrite He in Ha.
  destruct (heap q !! x) as [e0|] eqn:He0; [|done]. injection Ha as _ _ Ef _. rewrite Ef. by eapply Hf.
Qed.

Section Service.
Context (process : Z → M EventQueue unit) (t : Z).

(** The number of events due by [t]. *)
Definition due (l : list Entry) : nat := length (filter (λ x, x.1.1 ≤ t) l).

(** Processing an event succeeds on a well-formed queue and leaves one, with no more events due
    by [t] than before. *)
Definition behaves : Prop := ∀ p q l, pending q l → flags_ok q → is_Some (heap q !! p) → _curTick q ≤ t →
  wp (process p) (λ _ q', flags_ok q' ∧ is_Some (heap q' !! p) ∧ ∃ l', pending q' l' ∧ (due l' ≤ due l)%nat) q.

Definition calm (n : nat) (q : EventQueue) : Prop := flags_ok q ∧ ∃ l, pending q l ∧ (due l ≤ n)%nat.

Lemma wp_autodelete p q n : calm n q → is_Some (heap q !! p) →
  wp (e ← deref p; (if Req.isSet (flags e) AutoDelete && negb (scheduled e) then delete_event p else mret tt) ;; mret (@None Z)) (λ _, calm n) q.
Proof.
  intros [Hf (l & Hp & Hd)] [e He]. eapply wp_reclaim; [done|]. destruct (pending_reclaim _ _ _ _ Hp He) as (Hp' & Ht & _ & Hh).
  split; [|by exists l]. eapply flags_ok_touches; [done|done|]. intros e'. rewrite Hh. destruct (reclaimed e); [done|]. intros [= <-]. by eapply Hf.
Qed.

Lemma wp_handle_action p q l e : behaves → pending q l → flags_ok q → heap q !! p = Some e → scheduled e = false → _when e ≤ t →
  Forall (λ x, _when e ≤ x.1.1) l → wp (handle_action process p) (λ _, calm (due l)) q.
Proof.
  intros Hproc Hp Hf He Hs Ht Hle. unfold handle_action. wp_step. eapply wp_deref; [done|]. destruct (squashed e); cbn [negb]; wp_step.
  - wp_step. eapply wp_unsquash; [done..|]. intros q' Hp' Ht' _ Hat'.
    destruct (attr_lookup _ _ _ _ _ _ Hat') as (e' & He' & _ & _ & Ef & _). wp_step. cbn iota. apply wp_autodelete; [|by eexists].
    split; [eapply flags_ok_touches; [done|done|]|by exists l].
    intros e1 He1. assert (e1 = e') as -> by congruence. rewrite Ef, exit_ok_clear by done. by eapply Hf.
  - do 3 wp_step. eapply wp_mono; [apply (Hproc p (setCurTick (_when e) q) l); [by apply pending_tick|done|by eexists|done]|].
    intros _ q' (Hf' & [e' He'] & l' & Hp' & Hd). wp_step. eapply wp_deref; [done|]. destruct (isExitEvent e') eqn:Hex.
    + wp_step. wp_step.
      { pose proof (Hf' p e' He') as Hok. unfold exit_ok in Hok. unfold isExitEvent in Hex. by rewrite Hex in Hok. }
      wp_step. cbn iota. wp_step. split; [done|]. by exists l'.
    + wp_step. cbn iota. apply wp_autodelete; [|by eexists]. split; [done|]. by exists l'.
Qed.

Lemma wp_service_loop fuel q n : behaves → calm n q → (n < fuel)%nat →
  wp (service_loop fuel process t) (λ _ q', flags_ok q' ∧ ∃ l, pending q' l ∧ Forall (λ x, t < x.1.1) l) q.
Proof.
  intros Hproc. revert q n. induction fuel as [|fuel IH]; intros q n [Hf (l & Hp & Hd)] Hfuel; [lia|]. cbn [service_loop]. wp_steps.
  destruct (pending_head _ _ Hp) as [[-> Hh]|(k & p & l' & e & -> & Hh & He & ->)]; unfold empty_queue; rewrite Hh.
  { wp_step. split; [done|]. by exists []. }
  wp_step. unfold nextTick. wp_steps. rewrite Hh. wp_step. eapply wp_deref; [done|]. wp_step.
  pose proof (pending_first _ _ _ _ Hp) as Hfst. destruct (Z.ltb_spec t (_when e)) as [Hlt|Hle].
  - wp_step. split; [done|]. exists ((ev_key e, p) :: l'). split; [done|]. constructor; [done|].
    eapply Forall_impl; [exact Hfst|]. cbn. intros. lia.
  - assert (due ((ev_key e, p) :: l') = S (due l')) as Ed by (unfold due; by rewrite filter_cons_True). wp_step.
    eapply wp_serviceOne; [done|done|]. intros q1 [Hp1 Ht1 Ha1 Hat1]. destruct (attr_lookup _ _ _ _ _ _ Hat1) as (e1 & He1 & Ew & _ & Ef & _).
    eapply wp_mono; [eapply (wp_handle_action p q1 l' e1); [done|done| |done| |by rewrite Ew|by rewrite Ew]|].
    + eapply flags_ok_touches; [done|done|]. intros e2 He2. assert (e2 = e1) as -> by congruence. rewrite Ef, exit_ok_clear by done. by eapply Hf.
    + unfold scheduled. rewrite Ef. by apply scheduled_clear.
    + intros r q2 Hc. eapply IH; [exact Hc|lia].
Qed.

(** C17: When processing an event neither fails nor makes more events due, [serviceEvents t] ends,
    with the clock at [t] and only events after [t] pending. *)
Theorem service_all_due q l fuel : behaves → pending q l → flags_ok q → (due l < fuel)%nat →
  wp (serviceEvents fuel process t) (λ _ q', _curTick q' = t ∧ ∃ l', pending q' l' ∧ Forall (λ x, t < x.1.1) l') q.
Proof.
  intros Hb Hp Hf Hd. unfold serviceEvents. wp_step. eapply wp_mono; [eapply wp_service_loop; [done|split; [done|by exists l]|done]|].
  intros _ q' (_ & l' & Hp' & Hl'). wp_step. split; [done|]. exists l'. split; [|done]. apply pending_tick; [done|].
  eapply Forall_impl; [exact Hl'|]. cbn. intros. lia.
Qed.

End Service.

(** ** Events of other threads *)

(** [handleAsyncInsertions] places the events handed over by other threads, the oldest first, and
    changes no attribute of any event. *)
Theorem async_placed q l : pending q l → self q = curEventQueue q →
  (∀ p e, p ∈ async_queue q → heap q !! p = Some e → _curTick q ≤ _when e) →
  wp handleAsyncInsertions (λ _ q', async_queue q' = [] ∧ (∀ x, attr q' x = attr q x) ∧
    pending q' (foldl (λ l p, place (key_of (heap q) p, p) l) l (async_queue q))) q.
Proof.
  intros Hp Hself Hlate. unfold handleAsyncInsertions. wp_steps. wp_step; [by apply Z.eqb_eq|].
  eapply wp_mono; [apply (wp_for_each _ (λ rest s, async_queue s = rest ∧ (∀ x, attr s x = attr q x) ∧ _curTick s = _curTick q ∧
    ∃ ps, async_queue q = ps ++ rest ∧ pending s (foldl (λ l p, place (key_of (heap q) p, p) l) l ps)))|].
  - split_and!; [done|done|done|]. by exists [].
  - intros p rest s (Ha & Hat & Htk & ps & Eps & Hps). set (l1 := foldl _ l ps) in *. pose proof Hps as [(ks & bins & Hq & El) Htime Hs [Hnd Hin]].
    assert (p ∈ async_queue s) as Hpa by (rewrite Ha; left). destruct (Hin p Hpa) as [[e He] Hne]. rewrite Ha in Hnd. apply NoDup_cons in Hnd as [Hnp Hnd].
    destruct (Hs p e He) as [Hsch _]. specialize (Hsch (or_intror Hpa)).
    wp_step. eapply wp_insert; [exact Hq|done|by rewrite El, view_snd in Hne|]. intros s1 Hqa Hsa. wp_step.
    destruct (queued_view _ _ _ _ _ _ Hq Hqa Hsa) as (ks' & bins' & Hq' & Ev); [unfold key_of; by rewrite He|].
    assert (key_of (heap q) p = ev_key e) as Ek.
    { transitivity (key_of (heap s) p); [by symmetry; apply key_of_attr, Hat|]. unfold key_of. by rewrite He. }
    pose proof Hsa as (Hh & Htk1 & Ea1 & Es1 & _). set (s2 := set_async_queue _ s1).
    assert (async_queue s2 = rest) as Ha2 by (unfold s2; cbn; by rewrite Ea1, Ha).
    split_and!; [done|intros x; rewrite <- Hat; apply Hh|cbn; congruence|]. exists (ps ++ [p]). split; [by rewrite <- app_assoc|].
    rewrite foldl_app. cbn [foldl]. fold l1. rewrite Ek.
    eapply pending_touches; [exact Hps|destruct (same_attrs_touches p _ _ Hsa); by split|by eapply is_queue_agree|by rewrite El, Ev| |..];
      rewrite ?Ha2; try done.
    + cbn. rewrite Htk1, place_perm. constructor; [|done]. rewrite Htk. cbn. 
      assert (attr q p = Some (ev_attr e)) as Hqp by (rewrite <- Hat; unfold attr; by rewrite He).
      apply fmap_Some in Hqp as (e0 & He0 & E0). injection E0 as -> _ _ _. eapply Hlate; [|done]. rewrite Eps. set_solver.
    + intros x Hx. rewrite elem_of_place. cbn. naive_solver.
    + intros x Hx. rewrite Ha. set_solver.
    + intros e' He'. rewrite elem_of_place. specialize (Hh p). rewrite He in Hh. change (heap s1 !! p = Some e') in He'. rewrite He' in Hh.
      injection Hh as _ _ Ef Eq. unfold scheduled in *. change (self s2) with (self s1). rewrite Ef, Eq, Es1. tauto.
  - intros _ q' (Ha & Hat & _ & ps & Eps & Hps). rewrite app_nil_r in Eps. by rewrite Eps.
Qed.

(** ** The check of the queue *)

Lemma wp_verify_bin fuel q k b tm pr seen (Q : option (Z * Z * list Z) → EventQueue → Prop) : stack (heap q) k b → NoDup b →
  (∀ p, p ∈ b → p ∉ seen) → ¬ key_lt k (tm, pr) → (length b < fuel)%nat →
  Q (Some (match b with [] => tm | _ => k.1 end, match b with [] => pr | _ => k.2 end, seen ++ b)) q →
  wp (verify_bin fuel (hd_error b) tm pr seen) Q q.
Proof.
  revert b tm pr seen. induction fuel as [|fuel IH]; intros b tm pr seen Hs Hnd Hd Hk Hf HQ; [lia|]. cbn [verify_bin].
  destruct b as [|p b]; cbn [hd_error]; [by wp_step; rewrite app_nil_r in HQ|]. destruct Hs as [(e & He & Hn & <-) Hs]. apply NoDup_cons in Hnd as [Hnp Hnd].
  unfold key_lt in Hk. cbn in Hk. wp_step. eapply wp_deref; [done|]. destruct (Z.ltb_spec (_when e) tm); [lia|].
  destruct ((_when e =? tm) && (_priority e <? pr)) eqn:E; [apply andb_true_iff in E as [?%Z.eqb_eq ?%Z.ltb_lt]; lia|].
  rewrite bool_decide_false by (apply Hd; left). rewrite Hn. apply IH; [done|done| |unfold key_lt; cbn; lia|cbn in Hf; lia|].
  - intros x Hx Hs'. apply elem_of_app in Hs' as [Hs'|Hs'%list_elem_of_singleton]; [eapply Hd; [|done]; by right|]. by subst.
  - rewrite <- app_assoc. by destruct b.
Qed.

Lemma wp_verify_bins fuel q ks bins tm pr seen (Q : bool → EventQueue → Prop) : are_bins (heap q) ks bins None → NoDup (mjoin bins) →
  (∀ p, p ∈ mjoin bins → p ∉ seen) → StronglySorted key_lt ks → Forall (λ k, ¬ key_lt k (tm, pr)) ks → (length bins < fuel)%nat →
  Q true q → wp (verify_bins fuel (top bins) tm pr seen) Q q.
Proof.
  revert ks bins tm pr seen. induction fuel as [|fuel IH]; intros ks bins tm pr seen Hb Hnd Hd Hso Hk Hf HQ; [lia|]. cbn [verify_bins].
  destruct ks as [|k ks], bins as [|b bins]; try done. destruct Hb as [(Hs & p & e & Hp & He & Hn) Hb].
  destruct b as [|p' b]; [done|]. injection Hp as ->. cbn [top]. change (mjoin ((p :: b) :: bins)) with ((p :: b) ++ mjoin bins) in *.
  pose proof Hnd as (Hnd1 & Hd1 & Hnd2)%NoDup_app. apply Forall_cons in Hk as [Hk1 Hk2]. apply StronglySorted_inv in Hso as [Hso Hlt].
  wp_step. wp_step. wp_step. change (Some p) with (hd_error (p :: b)). eapply wp_verify_bin; [exact Hs|done| |done| |].
  - intros x Hx. apply Hd. apply elem_of_app. by left.
  - unfold bin_fuel. apply Nat.lt_succ_r, heap_size; [done|]. intros x Hx. destruct (stack_lookup _ _ _ _ Hs Hx) as (ex & Hex & _). by exists ex.
  - wp_step. eapply wp_deref; [done|]. rewrite Hn, top_or_top. apply (IH ks bins); [done|done| |done| |cbn in Hf; lia|done].
    + intros x Hx Hs'. apply elem_of_app in Hs' as [Hs'|Hs']; [eapply Hd; [|done]; apply elem_of_app; by right|by eapply Hd1].
    + eapply Forall_impl; [exact Hlt|]. destruct k as [k1 k2]. intros x Hx Hx'. cbn in Hx'. eapply key_lt_irrefl. by etrans.
Qed.

(** [debugVerify] finds the queue in order and does not change it, unless its first event is at
    tick 0 and has a negative priority. *)
Theorem verify_accepts q l : pending q l → Forall (λ x, ¬ key_lt x.1 (0, 0)) (take 1 l) → wp debugVerify (λ b q', b = true ∧ q' = q) q.
Proof.
  intros [(ks & bins & [Hh Hb Hso Hnd] & ->) _ _ _] Hk. unfold debugVerify. wp_steps. rewrite Hh.
  eapply wp_verify_bins; [done|done|by intros ? _ ?%elem_of_nil|done| |by apply Nat.lt_succ_r; eapply bins_size|done].
  destruct ks as [|k ks], bins as [|[|p b] bins]; try done; [by destruct Hb as [(_ & ? & ? & ? & _) _]|].
  destruct Hb as [[[(e & He & _ & <-) _] _] _]. cbn in Hk. apply Forall_cons in Hk as [Hk _]. unfold key_of in Hk. cbn in Hk.
  apply StronglySorted_inv in Hso as [_ Hf]. rewrite He in Hk. constructor; [done|]. eapply Forall_impl; [exact Hf|].
  intros x Hx Hx'. apply Hk. by etrans.
Qed.

(** C40: [debugVerify] reports inverted priorities on a queue in order whose first event is at tick 0
    with a negative priority. *)
Theorem verify_rejects_start q l p pr : pending q (((0, pr), p) :: l) → pr < 0 → wp debugVerify (λ b q', b = false ∧ q' = q) q.
Proof.
  intros Hp Hpr. destruct (pending_head _ _ Hp) as [[? _]|(k & p' & l' & e & [= <- <- <-] & Hh & He & Ek)]; [done|]. injection Ek as Ew Epr.
  unfold debugVerify. wp_steps. rewrite Hh. unfold bin_fuel at 1. cbn [verify_bins]. wp_steps. unfold bin_fuel. cbn [verify_bin]. wp_step. eapply wp_deref; [done|].
  rewrite <- Ew, <- Epr. cbn. assert (pr <? 0 = true) as -> by (by apply Z.ltb_lt). do 2 wp_step. done.
Qed.

(** ** Saving the queue *)

Definition saved (h : gmap Z Event) (p : Z) : bool := match h !! p with Some e => Req.isSet (flags e) AutoSerialize | None => false end.

Lemma filter_saved h p e l : h !! p = Some e →
  filter (saved h) (p :: l) = if Req.isSet (flags e) AutoSerialize then p :: filter (saved h) l else filter (saved h) l.
Proof.
  intros He. assert (saved h p = Req.isSet (flags e) AutoSerialize) as Es by (unfold saved; by rewrite He).
  destruct (Req.isSet (flags e) AutoSerialize); [rewrite filter_cons_True|rewrite filter_cons_False]; rewrite ?Es; try done. by intros [].
Qed.

Lemma wp_serialize_bin fuel q k b ptrs (Q : list Z → EventQueue → Prop) : stack (heap q) k b → (length b < fuel)%nat →
  Q (ptrs ++ filter (saved (heap q)) b) q → wp (serialize_bin fuel (hd_error b) ptrs) Q q.
Proof.
  revert b ptrs. induction fuel as [|fuel IH]; intros b ptrs Hs Hf HQ; [lia|]. cbn [serialize_bin].
  destruct b as [|p b]; cbn [hd_error]; [wp_step; by rewrite app_nil_r in HQ|]. destruct Hs as [(e & He & Hn & _) Hs].
  wp_step. eapply wp_deref; [done|]. rewrite Hn. apply IH; [done|cbn in Hf; lia|].
  rewrite (filter_saved _ _ _ _ He) in HQ. destruct (Req.isSet (flags e) AutoSerialize); [|done]. by rewrite <- app_assoc.
Qed.

Lemma wp_serialize_bins fuel q ks bins ptrs (Q : list Z → EventQueue → Prop) : are_bins (heap q) ks bins None → NoDup (mjoin bins) →
  (length bins < fuel)%nat → Q (ptrs ++ filter (saved (heap q)) (mjoin bins)) q → wp (serialize_bins fuel (top bins) ptrs) Q q.
Proof.
  revert ks bins ptrs. induction fuel as [|fuel IH]; intros ks bins ptrs Hb Hnd Hf HQ; [lia|]. cbn [serialize_bins].
  destruct ks as [|k ks], bins as [|b bins]; try done; [cbn [top]; wp_step; by rewrite app_nil_r in HQ|]. destruct Hb as [(Hs & p & e & Hp & He & Hn) Hb].
  destruct b as [|p' b]; [done|]. injection Hp as ->. cbn [top]. change (mjoin ((p :: b) :: bins)) with ((p :: b) ++ mjoin bins) in *.
  pose proof Hnd as (Hnd1 & _ & Hnd2)%NoDup_app. do 3 wp_step. change (Some p) with (hd_error (p :: b)). eapply wp_serialize_bin; [exact Hs| |].
  - unfold bin_fuel. apply Nat.lt_succ_r, heap_size; [done|]. intros x Hx. destruct (stack_lookup _ _ _ _ Hs Hx) as (ex & Hex & _). by exists ex.
  - wp_step. eapply wp_deref; [done|]. rewrite Hn, top_or_top. eapply IH; [exact Hb|done|cbn in Hf; lia|]. by rewrite <- app_assoc, <- filter_app.
Qed.

(** The values saved for an event. *)
Definition saved_value (h : gmap Z Event) (p : Z) : option (Z * Z * Z) :=
  e ← h !! p; if Req.isSet (flags e) AutoSerialize then Some (serialize e) else None.

Lemma wp_serialize_events q l (Q : list (Z * Z * Z) → EventQueue → Prop) : Forall (λ p, is_Some (heap q !! p)) l →
  Q (omap (saved_value (heap q)) l) q → wp (serialize_events (filter (saved (heap q)) l)) Q q.
Proof.
  intros Hl. revert Q. induction Hl as [|p l [e He] Hl IH]; intros Q HQ; [done|]. rewrite (filter_saved _ _ _ _ He).
  cbn [omap list_omap] in HQ. unfold saved_value in HQ at 1. rewrite He in HQ. cbn in HQ.
  destruct (Req.isSet (flags e) AutoSerialize); [|by apply IH]. cbn [serialize_events]. wp_step. eapply wp_deref; [done|]. wp_step. apply IH. by wp_step.
Qed.

(** Saving the queue writes the values of exactly the pending events marked for it, in their order,
    and changes nothing. *)
Theorem serialize_lists q l : pending q l → wp serialize_queue (λ out q', q' = q ∧ out = omap (saved_value (heap q)) l.*2) q.
Proof.
  intros [(ks & bins & [Hh Hb Hso Hnd] & ->) _ _ _]. rewrite view_snd. unfold serialize_queue. wp_steps. rewrite Hh.
  eapply wp_serialize_bins; [done|done|by apply Nat.lt_succ_r; eapply bins_size|]. cbn [app]. apply wp_serialize_events; [|done].
  apply Forall_forall. intros p Hp. by eapply are_bins_lookup.
Qed.

(** ** Examples *)

(** Two events at tick 10, one at tick 20 and an idle one. *)
Definition sample_flags : Z := Z.lor Initialized Scheduled.
Definition sample : EventQueue :=
  MkEventQueue (list_to_map [(1, MkEvent None None 10 0 sample_flags (Some 7)); (2, MkEvent (Some 3) (Some 1) 10 0 sample_flags (Some 7));
    (3, MkEvent None None 20 0 sample_flags (Some 7)); (4, MkEvent None None 0 0 Initialized None)]) (Some 2) 5 [] 7 false 7.
Definition sample_list : list Entry := [((10, 0), 2); ((10, 0), 1); ((20, 0), 3)].

(** The invariant on a concrete heap. *)
Definition sched_agree (q : EventQueue) (l : list Z) : bool :=
  forallb (λ x : Z * Event, eqb (bool_decide (x.1 ∈ l ++ async_queue q)) (scheduled x.2 && bool_decide (queue x.2 = Some (self q))))
    (map_to_list (heap q)).

Lemma sched_agree_ok q (l : list Entry) : sched_agree q l.*2 = true →
  ∀ p e, heap q !! p = Some e → (p ∈ l.*2 ∨ p ∈ async_queue q) ↔ (scheduled e = true ∧ queue e = Some (self q)).
Proof.
  intros H p e He. unfold sched_agree in H. rewrite forallb_forall in H. specialize (H (p, e)).
  rewrite <- list_elem_of_In, elem_of_map_to_list in H. specialize (H He). apply eqb_prop in H. cbn in H.
  rewrite <- elem_of_app, <- (bool_decide_spec (p ∈ l.*2 ++ _)), <- (bool_decide_spec (queue e = Some (self q))), H.
  destruct (scheduled e), (bool_decide _); naive_solver.
Qed.

Lemma sample_pending : pending sample sample_list.
Proof.
  split; [exists [(10, 0); (20, 0)], [[2; 1]; [3]]; split; [split|done]| | |split; [constructor|by intros ? ?%elem_of_nil]].
  - done.
  - cbn. split_and!; repeat split; eauto; eexists; split_and!; done.
  - repeat constructor; unfold key_lt; cbn; lia.
  - by apply (bool_decide_unpack _); vm_compute.
  - repeat constructor; cbn; lia.
  - by apply sched_agree_ok; vm_compute.
Qed.

(** An event scheduled for tick 10 comes before those that are already there. *)
Lemma schedule_places_witness : ∃ a q', schedule 4 10 false sample = Ok (a, q') ∧ pending q' (((10, 0), 4) :: sample_list).
Proof.
  destruct (proj1 (wp_ok _ _ _) (schedule_places sample sample_list 4 (MkEvent None None 0 0 Initialized None) 10 false
    sample_pending eq_refl eq_refl eq_refl ltac:(done))) as (a & q' & E & _ & _ & Hp & _). exists a, q'. split; [exact E|exact Hp].
Defined.

Lemma deschedule_takes_out_witness : ∃ a q', deschedule 1 sample = Ok (a, q') ∧ pending q' [((10, 0), 2); ((20, 0), 3)].
Proof.
  destruct (proj1 (wp_ok _ _ _) (deschedule_takes_out sample sample_list 1 (MkEvent None None 10 0 sample_flags (Some 7))
    sample_pending eq_refl ltac:(right; left) eq_refl eq_refl)) as (a & q' & E & Hp & _). exists a, q'. split; [exact E|exact Hp].
Defined.

Lemma reschedule_moves_witness : ∃ a q', reschedule 2 30 false sample = Ok (a, q') ∧ pending q' [((10, 0), 1); ((20, 0), 3); ((30, 0), 2)].
Proof.
  destruct (proj1 (wp_ok _ _ _) (reschedule_moves sample sample_list 2 (MkEvent (Some 3) (Some 1) 10 0 sample_flags (Some 7)) 30 false
    sample_pending eq_refl ltac:(left; left) eq_refl ltac:(done) eq_refl)) as (a & q' & E & Hp & _). exists a, q'. split; [exact E|exact Hp].
Defined.

Lemma event_round_trip_witness : ∃ a q', unserialize 4 20 0 sample_flags sample = Ok (a, q') ∧
  pending q' [((10, 0), 2); ((10, 0), 1); ((20, 0), 4); ((20, 0), 3)] ∧ attr q' 4 = Some (20, 0, sample_flags, Some 7).
Proof.
  destruct (proj1 (wp_ok _ _ _) (event_round_trip sample sample_list 4 (MkEvent None None 0 0 Initialized None)
    (MkEvent None None 20 0 sample_flags (Some 7)) sample_pending eq_refl eq_refl eq_refl eq_refl ltac:(done) eq_refl eq_refl eq_refl ltac:(done)))
    as (a & q' & E & Hp & _ & Hat). exists a, q'. split_and!; [exact E|exact Hp|exact Hat].
Defined.

Lemma service_takes_first_witness : wp (serviceOne (λ _, mret tt)) (λ r q', r = None ∧ _curTick q' = 10 ∧ pending q' [((10, 0), 1); ((20, 0), 3)]) sample.
Proof.
  apply (service_takes_first _ sample (10, 0) 2 [((10, 0), 1); ((20, 0), 3)] (MkEvent (Some 3) (Some 1) 10 0 sample_flags (Some 7)));
    [exact sample_pending|reflexivity|]. intros q' Hp Htk _ _ _ f Hat.
  destruct (attr_lookup _ _ _ _ _ _ Hat) as (e & He & _ & _ & Ef & _). wp_step. exists e. split; [done|].
  unfold isExitEvent, reclaim, reclaimed. rewrite Ef. done.
Defined.

Lemma service_all_due_witness : ∃ a q', serviceEvents 4 (λ _, mret tt) 15 sample = Ok (a, q') ∧ _curTick q' = 15.
Proof.
  destruct (proj1 (wp_ok _ _ _) (service_all_due (λ _, mret tt) 15 sample sample_list 4 ltac:(intros p q l Hp Hf Hs _; wp_step; split_and!; [done|done|by exists l])
    sample_pending ltac:(intros p e He%elem_of_map_to_list; vm_compute in He; set_solver) ltac:(vm_compute; lia))) as (a & q' & E & Ht & _).
  exists a, q'. split; [exact E|exact Ht].
Defined.

(** An event handed over by another thread. *)
Definition sample_async : EventQueue :=
  set_async_queue [4] (set_heap (<[4 := MkEvent None None 15 0 sample_flags (Some 7)]> (heap sample)) sample).

Lemma async_pending : pending sample_async sample_list.
Proof.
  pose proof sample_pending as [(ks & bins & Hq & El) Ht _ _]. split; [| | |split].
  - exists ks, bins. assert (4 ∉ mjoin bins) as H4.
    { rewrite <- (view_snd sample (mjoin bins)), <- El. apply (bool_decide_unpack _). by vm_compute. }
    assert (touches 4 sample sample_async) as Hto by (destruct (ev_mod_touches 4 (MkEvent None None 15 0 sample_flags (Some 7)) sample); by split).
    split; [|by rewrite El, (view_touches 4 sample sample_async)].
    eapply is_queue_agree; [exact Hq|done|]. intros p Hp. unfold sample_async. cbn [heap set_async_queue set_heap].
    rewrite lookup_insert_ne; [done|]. by intros <-.
  - exact Ht.
  - by apply sched_agree_ok; vm_compute.
  - apply NoDup_singleton.
  - intros p ->%list_elem_of_singleton. split; [by eexists|]. apply (bool_decide_unpack _). by vm_compute.
Qed.

Lemma async_placed_witness : ∃ a q', handleAsyncInsertions sample_async = Ok (a, q') ∧
  pending q' [((10, 0), 2); ((10, 0), 1); ((15, 0), 4); ((20, 0), 3)].
Proof.
  destruct (proj1 (wp_ok _ _ _) (async_placed sample_async sample_list async_pending eq_refl
    ltac:(intros p e ->%list_elem_of_singleton [= <-]; done))) as (a & q' & E & _ & _ & Hp). exists a, q'. split; [exact E|exact Hp].
Defined.

Lemma verify_accepts_witness : wp debugVerify (λ b q', b = true ∧ q' = sample) sample.
Proof. apply (verify_accepts sample sample_list sample_pending). repeat constructor; unfold key_lt; cbn; lia. Defined.

(** A debug break at the start of the simulation. *)
Definition sample_break : EventQueue :=
  MkEventQueue {[1 := MkEvent None None 0 Debug_Break_Pri sample_flags (Some 7)]} (Some 1) 0 [] 7 false 7.

Lemma break_pending : pending sample_break [((0, Debug_Break_Pri), 1)].
Proof.
  split; [exists [(0, Debug_Break_Pri)], [[1]]; split; [split|done]| | |split; [constructor|by intros ? ?%elem_of_nil]].
  - done.
  - cbn. split_and!; repeat split; eauto; eexists; split_and!; done.
  - repeat constructor.
  - apply NoDup_singleton.
  - repeat constructor; cbn; lia.
  - by apply sched_agree_ok; vm_compute.
Qed.

Lemma verify_rejects_start_witness : wp debugVerify (λ b q', b = false ∧ q' = sample_break) sample_break.
Proof. apply (verify_rejects_start sample_break [] 1 Debug_Break_Pri break_pending). done. Defined.

Lemma serialize_lists_witness : wp serialize_queue (λ out q', q' = sample ∧ out = omap (saved_value (heap sample)) [2; 1; 3]) sample.
Proof. exact (serialize_lists sample sample_list sample_pending). Defined.
