(* ===== verification/Packet.v ===== *)
(** MemCmd and Packet (src/gem5-stable/src/mem/packet.hh, src/gem5-stable/src/mem/packet.cc):
    the commands of the memory system with their attributes, and the packets that carry
    them. A packet owns the contents its data pointer refers to; the request it refers to
    is a field. The sender-state stack is a list, top first, and a [PrintReqState] holds
    the text written to its stream. *)

From S2P Require Import Prelude.
From S2P Require Request.
#[global] Open Scope Z_scope.

Module Req := Request.

Module MemCmd.

Inductive Command :=
   | InvalidCmd | ReadReq | ReadResp | ReadRespWithInvalidate | WriteReq
   | WriteResp | Writeback | SoftPFReq | HardPFReq | SoftPFResp
   | HardPFResp | WriteInvalidateReq | WriteInvalidateResp | UpgradeReq
   | SCUpgradeReq | UpgradeResp | SCUpgradeFailReq | UpgradeFailResp
   | ReadExReq | ReadExResp | LoadLockedReq | StoreCondReq
   | StoreCondFailReq | StoreCondResp | SwapReq | SwapResp | MessageReq
   | MessageResp | InvalidDestError | BadAddressError | FunctionalReadError
   | FunctionalWriteError | PrintReq | FlushReq | InvalidationReq.

Inductive Attribute :=
   | IsRead | IsWrite | IsUpgrade | IsInvalidate | NeedsExclusive
   | IsRequest | IsResponse | NeedsResponse | IsSWPrefetch | IsHWPrefetch
   | IsLlsc | HasData | IsError | IsPrint | IsFlush.

#[global] Instance Command_eq_dec : EqDecision Command.
Proof. solve_decision. Defined.

(** The position of an attribute in the bitset, and [SETn]. *)
Definition bit (a : Attribute) : Z :=
  match a with
  | IsRead => 0
  | IsWrite => 1
  | IsUpgrade => 2
  | IsInvalidate => 3
  | NeedsExclusive => 4
  | IsRequest => 5
  | IsResponse => 6
  | NeedsResponse => 7
  | IsSWPrefetch => 8
  | IsHWPrefetch => 9
  | IsLlsc => 10
  | HasData => 11
  | IsError => 12
  | IsPrint => 13
  | IsFlush => 14
  end.
Definition SET (l : list Attribute) : Z := foldr (λ a w, Z.lor w (Z.shiftl 1 (bit a))) 0 l.

Record CommandInfo := MkInfo { attributes : Z; response : Command; str : string }.

Definition commandInfo (c : Command) : CommandInfo :=
  match c with
  | InvalidCmd => MkInfo (SET []) InvalidCmd "InvalidCmd"
  | ReadReq => MkInfo (SET [IsRead; IsRequest; NeedsResponse]) ReadResp "ReadReq"
  | ReadResp => MkInfo (SET [IsRead; IsResponse; HasData]) InvalidCmd "ReadResp"
  | ReadRespWithInvalidate => MkInfo (SET [IsRead; IsResponse; HasData; IsInvalidate]) InvalidCmd "ReadRespWithInvalidate"
  | WriteReq => MkInfo (SET [IsWrite; NeedsExclusive; IsRequest; NeedsResponse; HasData]) WriteResp "WriteReq"
  | WriteResp => MkInfo (SET [IsWrite; NeedsExclusive; IsResponse]) InvalidCmd "WriteResp"
  | Writeback => MkInfo (SET [IsWrite; NeedsExclusive; IsRequest; HasData]) InvalidCmd "Writeback"
  | SoftPFReq => MkInfo (SET [IsRead; IsRequest; IsSWPrefetch; NeedsResponse]) SoftPFResp "SoftPFReq"
  | HardPFReq => MkInfo (SET [IsRead; IsRequest; IsHWPrefetch; NeedsResponse]) HardPFResp "HardPFReq"
  | SoftPFResp => MkInfo (SET [IsRead; IsResponse; IsSWPrefetch; HasData]) InvalidCmd "SoftPFResp"
  | HardPFResp => MkInfo (SET [IsRead; IsResponse; IsHWPrefetch; HasData]) InvalidCmd "HardPFResp"
  | WriteInvalidateReq => MkInfo (SET [IsWrite; NeedsExclusive; IsInvalidate; IsRequest; HasData; NeedsResponse]) WriteInvalidateResp "WriteInvalidateReq"
  | WriteInvalidateResp => MkInfo (SET [IsWrite; NeedsExclusive; IsResponse]) InvalidCmd "WriteInvalidateResp"
  | UpgradeReq => MkInfo (SET [IsInvalidate; NeedsExclusive; IsUpgrade; IsRequest; NeedsResponse]) UpgradeResp "UpgradeReq"
  | SCUpgradeReq => MkInfo (SET [IsInvalidate; NeedsExclusive; IsUpgrade; IsLlsc; IsRequest; NeedsResponse]) UpgradeResp "SCUpgradeReq"
  | UpgradeResp => MkInfo (SET [NeedsExclusive; IsUpgrade; IsResponse]) InvalidCmd "UpgradeResp"
  | SCUpgradeFailReq => MkInfo (SET [IsInvalidate; NeedsExclusive; IsLlsc; IsRequest; NeedsResponse]) UpgradeFailResp "SCUpgradeFailReq"
  | UpgradeFailResp => MkInfo (SET [NeedsExclusive; IsResponse]) InvalidCmd "UpgradeFailResp"
  | ReadExReq => MkInfo (SET [IsRead; NeedsExclusive; IsInvalidate; IsRequest; NeedsResponse]) ReadExResp "ReadExReq"
  | ReadExResp => MkInfo (SET [IsRead; NeedsExclusive; IsResponse; HasData]) InvalidCmd "ReadExResp"
  | LoadLockedReq => MkInfo (SET [IsRead; IsLlsc; IsRequest; NeedsResponse]) ReadResp "LoadLockedReq"
  | StoreCondReq => MkInfo (SET [IsWrite; NeedsExclusive; IsLlsc; IsRequest; NeedsResponse; HasData]) StoreCondResp "StoreCondReq"
  | StoreCondFailReq => MkInfo (SET [IsWrite; NeedsExclusive; IsLlsc; IsRequest; NeedsResponse; HasData]) StoreCondResp "StoreCondFailReq"
  | StoreCondResp => MkInfo (SET [IsWrite; NeedsExclusive; IsLlsc; IsResponse]) InvalidCmd "StoreCondResp"
  | SwapReq => MkInfo (SET [IsRead; IsWrite; NeedsExclusive; IsRequest; HasData; NeedsResponse]) SwapResp "SwapReq"
  | SwapResp => MkInfo (SET [IsRead; IsWrite; NeedsExclusive; IsResponse; HasData]) InvalidCmd "SwapResp"
  | MessageReq => MkInfo (SET [IsWrite; IsRequest; NeedsResponse; HasData]) MessageResp "MessageReq"
  | MessageResp => MkInfo (SET [IsWrite; IsResponse]) InvalidCmd "MessageResp"
  | InvalidDestError => MkInfo (SET [IsResponse; IsError]) InvalidCmd "InvalidDestError"
  | BadAddressError => MkInfo (SET [IsResponse; IsError]) InvalidCmd "BadAddressError"
  | FunctionalReadError => MkInfo (SET [IsRead; IsResponse; IsError]) InvalidCmd "FunctionalReadError"
  | FunctionalWriteError => MkInfo (SET [IsWrite; IsResponse; IsError]) InvalidCmd "FunctionalWriteError"
  | PrintReq => MkInfo (SET [IsRequest; IsPrint]) InvalidCmd "PrintReq"
  | FlushReq => MkInfo (SET [IsRequest; IsFlush; NeedsExclusive]) InvalidCmd "FlushReq"
  | InvalidationReq => MkInfo (SET [NeedsExclusive; IsInvalidate; IsRequest]) InvalidCmd "InvalidationReq"
  end.

(** [toInt]: the position in the enumeration. *)
Definition toInt (c : Command) : Z :=
  match c with
  | InvalidCmd => 0
  | ReadReq => 1
  | ReadResp => 2
  | ReadRespWithInvalidate => 3
  | WriteReq => 4
  | WriteResp => 5
  | Writeback => 6
  | SoftPFReq => 7
  | HardPFReq => 8
  | SoftPFResp => 9
  | HardPFResp => 10
  | WriteInvalidateReq => 11
  | WriteInvalidateResp => 12
  | UpgradeReq => 13
  | SCUpgradeReq => 14
  | UpgradeResp => 15
  | SCUpgradeFailReq => 16
  | UpgradeFailResp => 17
  | ReadExReq => 18
  | ReadExResp => 19
  | LoadLockedReq => 20
  | StoreCondReq => 21
  | StoreCondFailReq => 22
  | StoreCondResp => 23
  | SwapReq => 24
  | SwapResp => 25
  | MessageReq => 26
  | MessageResp => 27
  | InvalidDestError => 28
  | BadAddressError => 29
  | FunctionalReadError => 30
  | FunctionalWriteError => 31
  | PrintReq => 32
  | FlushReq => 33
  | InvalidationReq => 34
  end.

Definition testCmdAttrib (c : Command) (a : Attribute) : bool := Z.testbit (attributes (commandInfo c)) (bit a).

Definition isRead (c : Command) : bool := testCmdAttrib c IsRead.
Definition isWrite (c : Command) : bool := testCmdAttrib c IsWrite.
Definition isUpgrade (c : Command) : bool := testCmdAttrib c IsUpgrade.
Definition isRequest (c : Command) : bool := testCmdAttrib c IsRequest.
Definition isResponse (c : Command) : bool := testCmdAttrib c IsResponse.
Definition needsExclusive (c : Command) : bool := testCmdAttrib c NeedsExclusive.
Definition needsResponse (c : Command) : bool := testCmdAttrib c NeedsResponse.
Definition isInvalidate (c : Command) : bool := testCmdAttrib c IsInvalidate.
Definition hasData (c : Command) : bool := testCmdAttrib c HasData.
Definition isReadWrite (c : Command) : bool := isRead c && isWrite c.
Definition isLLSC (c : Command) : bool := testCmdAttrib c IsLlsc.
Definition isError (c : Command) : bool := testCmdAttrib c IsError.
Definition isPrint (c : Command) : bool := testCmdAttrib c IsPrint.
Definition isFlush (c : Command) : bool := testCmdAttrib c IsFlush.
Definition responseCommand (c : Command) : Command := response (commandInfo c).
Definition toString (c : Command) : string := str (commandInfo c).

End MemCmd.

(** ** Flags *)

Definition COPY_FLAGS := 0xF.
Definition SHARED := 0x1.
Definition EXPRESS_SNOOP := 0x2.
Definition SUPPLY_EXCLUSIVE := 0x4.
Definition MEM_INHIBIT := 0x8.
Definition PVALID_ADDR := 0x100.
Definition PVALID_SIZE := 0x200.
Definition STATIC_DATA := 0x1000.
Definition DYNAMIC_DATA := 0x2000.
Definition ARRAY_DATA := 0x4000.
Definition SUPPRESS_FUNC_ERROR := 0x8000.
Definition InvalidPortID : Z := -1.

(** ** Print requests *)

Record LabelStackEntry := MkLabel { label : string; prefix : string; labelPrinted : bool }.

Record PrintReqState := MkPrint {
  labelStack : list LabelStackEntry;   (* back last *)
  curPrefix : string;
  os : string;
  verbosity : Z;
}.

Definition newline : string := String (Ascii.ascii_of_nat 10) EmptyString.

Definition new_PrintReqState (os : string) (verbosity : Z) : PrintReqState :=
  MkPrint [MkLabel "" "" false] "" os verbosity.

(** The destructor. *)
Definition delete_PrintReqState (s : PrintReqState) : res unit :=
  match removelast (labelStack s) with [] => Ok tt | _ => Err (EAssert "~PrintReqState") end.

Definition PrintReqState_pushLabel (lbl pre : string) (s : PrintReqState) : PrintReqState :=
  MkPrint (labelStack s ++ [MkLabel lbl (curPrefix s) false]) (curPrefix s +:+ pre) (os s) (verbosity s).

Definition PrintReqState_popLabel : M PrintReqState unit :=
  s ← get;
  e ← of_option (EUndef "list::back") (last (labelStack s));
  let l := removelast (labelStack s) in
  modify (λ s, MkPrint l (prefix e) (os s) (verbosity s)) ;;
  assert_ "PrintReqState::popLabel" (match l with [] => false | _ => true end).

(** The loop over the label stack: the text printed and the new entries. *)
Fixpoint print_labels (l : list LabelStackEntry) : string * list LabelStackEntry :=
  match l with
  | [] => (EmptyString, [])
  | e :: l' =>
      let r := print_labels l' in
      if labelPrinted e then (r.1, e :: r.2)
      else (prefix e +:+ label e +:+ newline +:+ r.1, MkLabel (label e) (prefix e) true :: r.2)
  end.

Definition printLabels : M PrintReqState unit :=
  s ← get;
  e ← of_option (EUndef "list::back") (last (labelStack s));
  if labelPrinted e then mret tt
  else
    let r := print_labels (labelStack s) in
    modify (λ s, MkPrint r.2 (curPrefix s) (os s +:+ r.1) (verbosity s)).

(** [printObj(obj)]; [obj] gives the text for a prefix. *)
Definition printObj (obj : string → string) : M PrintReqState unit :=
  printLabels ;;
  modify (λ s, MkPrint (labelStack s) (curPrefix s) (os s +:+ obj (curPrefix s)) (verbosity s)).

(** ** Packets *)

Inductive SenderState := SSPrint (s : PrintReqState) | SSOther (id : Z).

Record Packet := MkPacket {
  flags : Z;
  cmd : MemCmd.Command;
  req : Req.Request;
  data : option (list Z);
  addr : Z;
  size : Z;
  src : Z;
  dest : Z;
  origCmd : MemCmd.Command;
  bytesValidStart : Z;
  bytesValidEnd : Z;
  busFirstWordDelay : Z;
  busLastWordDelay : Z;
  senderState : list SenderState;
}.

Definition set_pflags (v : Z) (r : Packet) : Packet :=
  {| flags := v; cmd := cmd r; req := req r; data := data r; addr := addr r;
     size := size r; src := src r; dest := dest r; origCmd := origCmd r;
     bytesValidStart := bytesValidStart r; bytesValidEnd := bytesValidEnd r;
     busFirstWordDelay := busFirstWordDelay r; busLastWordDelay :=
     busLastWordDelay r; senderState := senderState r |}.
Definition set_cmd (v : MemCmd.Command) (r : Packet) : Packet :=
  {| flags := flags r; cmd := v; req := req r; data := data r; addr := addr r;
     size := size r; src := src r; dest := dest r; origCmd := origCmd r;
     bytesValidStart := bytesValidStart r; bytesValidEnd := bytesValidEnd r;
     busFirstWordDelay := busFirstWordDelay r; busLastWordDelay :=
     busLastWordDelay r; senderState := senderState r |}.
Definition set_req (v : Req.Request) (r : Packet) : Packet :=
  {| flags := flags r; cmd := cmd r; req := v; data := data r; addr := addr r;
     size := size r; src := src r; dest := dest r; origCmd := origCmd r;
     bytesValidStart := bytesValidStart r; bytesValidEnd := bytesValidEnd r;
     busFirstWordDelay := busFirstWordDelay r; busLastWordDelay :=
     busLastWordDelay r; senderState := senderState r |}.
Definition set_data (v : option (list Z)) (r : Packet) : Packet :=
  {| flags := flags r; cmd := cmd r; req := req r; data := v; addr := addr r;
     size := size r; src := src r; dest := dest r; origCmd := origCmd r;
     bytesValidStart := bytesValidStart r; bytesValidEnd := bytesValidEnd r;
     busFirstWordDelay := busFirstWordDelay r; busLastWordDelay :=
     busLastWordDelay r; senderState := senderState r |}.
Definition set_addr (v : Z) (r : Packet) : Packet :=
  {| flags := flags r; cmd := cmd r; req := req r; data := data r; addr := v;
     size := size r; src := src r; dest := dest r; origCmd := origCmd r;
     bytesValidStart := bytesValidStart r; bytesValidEnd := bytesValidEnd r;
     busFirstWordDelay := busFirstWordDelay r; busLastWordDelay :=
     busLastWordDelay r; senderState := senderState r |}.
Definition set_psize (v : Z) (r : Packet) : Packet :=
  {| flags := flags r; cmd := cmd r; req := req r; data := data r; addr :=
     addr r; size := v; src := src r; dest := dest r; origCmd := origCmd r;
     bytesValidStart := bytesValidStart r; bytesValidEnd := bytesValidEnd r;
     busFirstWordDelay := busFirstWordDelay r; busLastWordDelay :=
     busLastWordDelay r; senderState := senderState r |}.
Definition set_src (v : Z) (r : Packet) : Packet :=
  {| flags := flags r; cmd := cmd r; req := req r; data := data r; addr :=
     addr r; size := size r; src := v; dest := dest r; origCmd := origCmd r;
     bytesValidStart := bytesValidStart r; bytesValidEnd := bytesValidEnd r;
     busFirstWordDelay := busFirstWordDelay r; busLastWordDelay :=
     busLastWordDelay r; senderState := senderState r |}.
Definition set_dest (v : Z) (r : Packet) : Packet :=
  {| flags := flags r; cmd := cmd r; req := req r; data := data r; addr :=
     addr r; size := size r; src := src r; dest := v; origCmd := origCmd r;
     bytesValidStart := bytesValidStart r; bytesValidEnd := bytesValidEnd r;
     busFirstWordDelay := busFirstWordDelay r; busLastWordDelay :=
     busLastWordDelay r; senderState := senderState r |}.
Definition set_origCmd (v : MemCmd.Command) (r : Packet) : Packet :=
  {| flags := flags r; cmd := cmd r; req := req r; data := data r; addr :=
     addr r; size := size r; src := src r; dest := dest r; origCmd := v;
     bytesValidStart := bytesValidStart r; bytesValidEnd := bytesValidEnd r;
     busFirstWordDelay := busFirstWordDelay r; busLastWordDelay :=
     busLastWordDelay r; senderState := senderState r |}.
Definition set_bytesValidStart (v : Z) (r : Packet) : Packet :=
  {| flags := flags r; cmd := cmd r; req := req r; data := data r; addr :=
     addr r; size := size r; src := src r; dest := dest r; origCmd := origCmd
     r; bytesValidStart := v; bytesValidEnd := bytesValidEnd r;
     busFirstWordDelay := busFirstWordDelay r; busLastWordDelay :=
     busLastWordDelay r; senderState := senderState r |}.
Definition set_bytesValidEnd (v : Z) (r : Packet) : Packet :=
  {| flags := flags r; cmd := cmd r; req := req r; data := data r; addr :=
     addr r; size := size r; src := src r; dest := dest r; origCmd := origCmd
     r; bytesValidStart := bytesValidStart r; bytesValidEnd := v;
     busFirstWordDelay := busFirstWordDelay r; busLastWordDelay :=
     busLastWordDelay r; senderState := senderState r |}.
Definition set_busFirstWordDelay (v : Z) (r : Packet) : Packet :=
  {| flags := flags r; cmd := cmd r; req := req r; data := data r; addr :=
     addr r; size := size r; src := src r; dest := dest r; origCmd := origCmd
     r; bytesValidStart := bytesValidStart r; bytesValidEnd := bytesValidEnd
     r; busFirstWordDelay := v; busLastWordDelay := busLastWordDelay r;
     senderState := senderState r |}.
Definition set_busLastWordDelay (v : Z) (r : Packet) : Packet :=
  {| flags := flags r; cmd := cmd r; req := req r; data := data r; addr :=
     addr r; size := size r; src := src r; dest := dest r; origCmd := origCmd
     r; bytesValidStart := bytesValidStart r; bytesValidEnd := bytesValidEnd
     r; busFirstWordDelay := busFirstWordDelay r; busLastWordDelay := v;
     senderState := senderState r |}.
Definition set_senderState (v : list SenderState) (r : Packet) : Packet :=
  {| flags := flags r; cmd := cmd r; req := req r; data := data r; addr :=
     addr r; size := size r; src := src r; dest := dest r; origCmd := origCmd
     r; bytesValidStart := bytesValidStart r; bytesValidEnd := bytesValidEnd
     r; busFirstWordDelay := busFirstWordDelay r; busLastWordDelay :=
     busLastWordDelay r; senderState := v |}.

Definition pkt_isRead (p : Packet) : bool := MemCmd.isRead (cmd p).
Definition pkt_isWrite (p : Packet) : bool := MemCmd.isWrite (cmd p).
Definition pkt_isRequest (p : Packet) : bool := MemCmd.isRequest (cmd p).
Definition pkt_isResponse (p : Packet) : bool := MemCmd.isResponse (cmd p).
Definition pkt_needsResponse (p : Packet) : bool := MemCmd.needsResponse (cmd p).
Definition pkt_isInvalidate (p : Packet) : bool := MemCmd.isInvalidate (cmd p).
Definition pkt_hasData (p : Packet) : bool := MemCmd.hasData (cmd p).
Definition pkt_isLLSC (p : Packet) : bool := MemCmd.isLLSC (cmd p).
Definition pkt_isError (p : Packet) : bool := MemCmd.isError (cmd p).
Definition pkt_isPrint (p : Packet) : bool := MemCmd.isPrint (cmd p).
Definition cmdString (p : Packet) : string := MemCmd.toString (cmd p).
Definition cmdToIndex (p : Packet) : Z := MemCmd.toInt (cmd p).

(** Snoop and control flags. *)
Definition flag_set (f : Z) (p : Packet) : Packet := set_pflags (Req.set f (flags p)) p.
Definition flag_clear (f : Z) (p : Packet) : Packet := set_pflags (Req.clear f (flags p)) p.
Definition assertMemInhibit : Packet → Packet := flag_set MEM_INHIBIT.
Definition memInhibitAsserted (p : Packet) : bool := Req.isSet (flags p) MEM_INHIBIT.
Definition assertShared : Packet → Packet := flag_set SHARED.
Definition sharedAsserted (p : Packet) : bool := Req.isSet (flags p) SHARED.
Definition setExpressSnoop : Packet → Packet := flag_set EXPRESS_SNOOP.
Definition isExpressSnoop (p : Packet) : bool := Req.isSet (flags p) EXPRESS_SNOOP.
Definition setSupplyExclusive : Packet → Packet := flag_set SUPPLY_EXCLUSIVE.
Definition clearSupplyExclusive : Packet → Packet := flag_clear SUPPLY_EXCLUSIVE.
Definition isSupplyExclusive (p : Packet) : bool := Req.isSet (flags p) SUPPLY_EXCLUSIVE.
Definition setSuppressFuncError : Packet → Packet := flag_set SUPPRESS_FUNC_ERROR.
Definition suppressFuncError (p : Packet) : bool := Req.isSet (flags p) SUPPRESS_FUNC_ERROR.

(** Error conditions. *)
Definition setBadAddress : M Packet unit :=
  p ← get; assert_ "Packet::setBadAddress" (pkt_isResponse p) ;; modify (set_cmd MemCmd.BadAddressError).
Definition hadBadAddress (p : Packet) : bool := bool_decide (cmd p = MemCmd.BadAddressError).
Definition copyError (q : Packet) : M Packet unit :=
  assert_ "Packet::copyError" (pkt_isError q) ;; modify (set_cmd (cmd q)).

(** Routing. *)
Definition isSrcValid (p : Packet) : bool := negb (src p =? InvalidPortID).
Definition getSrc : M Packet Z := p ← get; assert_ "Packet::getSrc" (isSrcValid p) ;; mret (src p).
Definition setSrc (s : Z) : Packet → Packet := set_src s.
Definition clearSrc : Packet → Packet := set_src InvalidPortID.
Definition isDestValid (p : Packet) : bool := negb (dest p =? InvalidPortID).
Definition getDest : M Packet Z := p ← get; assert_ "Packet::getDest" (isDestValid p) ;; mret (dest p).
Definition setDest (d : Z) : Packet → Packet := set_dest d.
Definition clearDest : Packet → Packet := set_dest InvalidPortID.

(** Address and size. *)
Definition getAddr : M Packet Z :=
  p ← get; assert_ "Packet::getAddr" (Req.isSet (flags p) PVALID_ADDR) ;; mret (addr p).
Definition setAddr (a : Z) : M Packet unit :=
  p ← get; assert_ "Packet::setAddr" (Req.isSet (flags p) PVALID_ADDR) ;; modify (set_addr a).
Definition getSize : M Packet Z :=
  p ← get; assert_ "Packet::getSize" (Req.isSet (flags p) PVALID_SIZE) ;; mret (size p).
Definition setSize (n : Z) : M Packet unit :=
  p ← get; assert_ "Packet::setSize" (negb (Req.isSet (flags p) PVALID_SIZE)) ;;
  modify (λ p, flag_set PVALID_SIZE (set_psize n p)).
Definition getOffset (blkSize : Z) : M Packet Z :=
  a ← getAddr; mret (Z.land a (u64 (blkSize - 1))).

(** Store-conditional and load-locked turned into plain accesses. *)
Definition convertScToWrite : M Packet unit :=
  p ← get; assert_ "Packet::convertScToWrite" (pkt_isLLSC p) ;;
  assert_ "Packet::convertScToWrite" (pkt_isWrite p) ;; modify (set_cmd MemCmd.WriteReq).
Definition convertLlToRead : M Packet unit :=
  p ← get; assert_ "Packet::convertLlToRead" (pkt_isLLSC p) ;;
  assert_ "Packet::convertLlToRead" (pkt_isRead p) ;; modify (set_cmd MemCmd.ReadReq).

(** The constructors; [junk] gives the fields they leave unset: the address, the size and
    [origCmd]. [Req.getPaddr] and [Req.getSize] succeed under the tests. *)
Definition new_Packet (junk : Packet) (req : Req.Request) (c : MemCmd.Command) : Packet :=
  let p := MkPacket 0 c req None (addr junk) (size junk) InvalidPortID InvalidPortID (origCmd junk) 0 0 0 0 [] in
  let p := if Req.hasPaddr req then flag_set PVALID_ADDR (set_addr (Req._paddr req) p) else p in
  if Req.hasSize req then flag_set PVALID_SIZE (set_psize (u32 (Req._size req)) p) else p.

Definition new_Packet_blk (junk : Packet) (req : Req.Request) (c : MemCmd.Command) (blkSize : Z) : Packet :=
  let p := MkPacket 0 c req None (addr junk) (size junk) InvalidPortID InvalidPortID (origCmd junk) 0 0 0 0 [] in
  let p := if Req.hasPaddr req
           then flag_set PVALID_ADDR (set_addr (Z.land (Req._paddr req) (u64 (Z.lnot (blkSize - 1)))) p) else p in
  flag_set PVALID_SIZE (set_psize (u32 blkSize) p).

(** [Packet(Packet *pkt, bool clearFlags)]: dynamic data are not copied. *)
Definition copy_Packet (junk pkt : Packet) (clearFlags : bool) : Packet :=
  let p := MkPacket 0 (cmd pkt) (req pkt)
             (if Req.isSet (flags pkt) STATIC_DATA then data pkt else None)
             (addr pkt) (size pkt) (src pkt) (dest pkt) (origCmd junk)
             (bytesValidStart pkt) (bytesValidEnd pkt)
             (busFirstWordDelay pkt) (busLastWordDelay pkt) (senderState pkt) in
  let p := if clearFlags then p else flag_set (Z.land (flags pkt) COPY_FLAGS) p in
  flag_set (Z.land (flags pkt) STATIC_DATA)
    (flag_set (Z.land (flags pkt) (Z.lor PVALID_ADDR PVALID_SIZE)) p).

Definition deleteData (p : Packet) : Packet :=
  set_data None (flag_clear (Z.lor (Z.lor STATIC_DATA DYNAMIC_DATA) ARRAY_DATA) p).

Definition reinitFromRequest : M Packet unit :=
  p ← get;
  assert_ "Packet::reinitFromRequest" (Req.hasPaddr (req p)) ;;
  assert_ "Request::getSize" (Req.hasSize (req p)) ;;
  modify (λ p, deleteData (MkPacket (Z.lor PVALID_ADDR PVALID_SIZE) (cmd p) (req p) (data p)
    (Req._paddr (req p)) (u32 (Req._size (req p))) InvalidPortID InvalidPortID (origCmd p) 0 0 0 0 (senderState p))).

Definition makeResponse : M Packet unit :=
  p ← get;
  assert_ "Packet::makeResponse" (pkt_needsResponse p) ;;
  assert_ "Packet::makeResponse" (pkt_isRequest p) ;;
  modify (λ p, set_origCmd (cmd p) p) ;;
  modify (λ p, set_cmd (MemCmd.responseCommand (cmd p)) p) ;;
  modify (flag_clear EXPRESS_SNOOP) ;;
  modify (λ p, set_dest (src p) p) ;;
  modify clearSrc.
Definition makeAtomicResponse : M Packet unit := makeResponse.
Definition makeTimingResponse : M Packet unit := makeResponse.

Definition setFunctionalResponseStatus (success : bool) (p : Packet) : Packet :=
  if success then p
  else if pkt_isWrite p then set_cmd MemCmd.FunctionalWriteError p
  else set_cmd MemCmd.FunctionalReadError p.

(** Data. *)
Definition noData (site : string) : M Packet unit :=
  p ← get;
  assert_ site (Req.noneSet (flags p) (Z.lor (Z.lor STATIC_DATA DYNAMIC_DATA) ARRAY_DATA)).
Definition dataStatic (d : option (list Z)) : M Packet unit :=
  noData "Packet::dataStatic" ;; modify (λ p, flag_set STATIC_DATA (set_data d p)).
Definition dataDynamicArray (d : option (list Z)) : M Packet unit :=
  noData "Packet::dataDynamicArray" ;; modify (λ p, flag_set (Z.lor DYNAMIC_DATA ARRAY_DATA) (set_data d p)).
Definition dataDynamic (d : option (list Z)) : M Packet unit :=
  noData "Packet::dataDynamic" ;; modify (λ p, flag_set DYNAMIC_DATA (set_data d p)).

(** [getPtr<uint8_t>()], with the contents it points to. *)
Definition getPtr : M Packet (option (list Z)) :=
  p ← get;
  assert_ "Packet::getPtr" (Req.isSet (flags p) (Z.lor STATIC_DATA DYNAMIC_DATA)) ;;
  mret (data p).

(** [allocate()]; the new array holds [junk] bytes. *)
Definition allocate (junk : list Z) : M Packet unit :=
  p ← get;
  match data p with
  | Some _ => assert_ "Packet::allocate" (Req.isSet (flags p) (Z.lor STATIC_DATA DYNAMIC_DATA))
  | None =>
      assert_ "Packet::allocate" (Req.noneSet (flags p) (Z.lor STATIC_DATA DYNAMIC_DATA)) ;;
      modify (flag_set (Z.lor DYNAMIC_DATA ARRAY_DATA)) ;;
      n ← getSize;
      modify (set_data (Some (take (Z.to_nat n) (junk ++ replicate (Z.to_nat n) 0))))
  end.

(** [memcpy(dst + doff, src + soff, n)] within two arrays. *)
Definition memcpy (dst : list Z) (doff : Z) (src : list Z) (soff n : Z) : res (list Z) :=
  if (0 <=? n) && (0 <=? doff) && (0 <=? soff) &&
     (doff + n <=? Z.of_nat (length dst)) && (soff + n <=? Z.of_nat (length src))
  then Ok (take (Z.to_nat doff) dst ++ take (Z.to_nat n) (drop (Z.to_nat soff) src) ++
           drop (Z.to_nat (doff + n)) dst)
  else Err (EUndef "memcpy").
Definition lift {S A} (r : res A) : M S A := λ s, match r with Ok a => Ok (a, s) | Err e => Err e end.

(** The contents behind [getPtr<uint8_t>()], which must be there to be copied. *)
Definition getBytes : M Packet (list Z) :=
  d ← getPtr; of_option (EUndef "null data pointer") d.

(** [setData(p)] for a pointer to other memory, and [writeData(p)]. *)
Definition setData (from : list Z) : M Packet unit :=
  d ← getBytes; n ← getSize;
  d' ← lift (memcpy d 0 from 0 n);
  modify (set_data (Some d')).
Definition writeData (to : list Z) (off : Z) : M Packet (list Z) :=
  d ← getBytes; n ← getSize;
  lift (memcpy to off d 0 n).
Definition setDataFromBlock (blk : list Z) (blkSize : Z) : M Packet unit :=
  off ← getOffset blkSize;
  d ← getBytes; n ← getSize;
  d' ← lift (memcpy d 0 blk off n);
  modify (set_data (Some d')).
Definition writeDataToBlock (blk : list Z) (blkSize : Z) : M Packet (list Z) :=
  off ← getOffset blkSize; writeData blk off.

(** Sender states. *)
Definition pushSenderState (s : SenderState) (p : Packet) : Packet := set_senderState (s :: senderState p) p.
Definition popSenderState : M Packet SenderState :=
  p ← get;
  match senderState p with
  | [] => err (EAssert "Packet::popSenderState")
  | s :: l => modify (set_senderState l) ;; mret s
  end.
Definition findNextSenderState (is_T : SenderState → bool) (p : Packet) : option SenderState :=
  find is_T (senderState p).

(** [safe_cast<PrintReqState*>(senderState)->m] *)
Definition on_print {A} (m : M PrintReqState A) : M Packet A :=
  p ← get;
  match senderState p with
  | SSPrint s :: l =>
      match m s with
      | Ok (a, s') => modify (set_senderState (SSPrint s' :: l)) ;; mret a
      | Err e => err e
      end
  | _ => err (EAssert "safe_cast<PrintReqState*>")
  end.
Definition pushLabel (lbl : string) : M Packet unit :=
  p ← get; if pkt_isPrint p then on_print (modify (PrintReqState_pushLabel lbl "  ")) else mret tt.
Definition popLabel : M Packet unit :=
  p ← get; if pkt_isPrint p then on_print PrintReqState_popLabel else mret tt.

(** [%x] *)
Definition hex_digit (d : Z) : Ascii.ascii :=
  Ascii.ascii_of_nat (Z.to_nat (if d <? 10 then 48 + d else 87 + d)).
Fixpoint hex_digits (fuel : nat) (x : Z) (acc : string) : string :=
  match fuel with
  | O => acc
  | S f =>
      let acc := String (hex_digit (x mod 16)) acc in
      if x / 16 =? 0 then acc else hex_digits f (x / 16) acc
  end.
Definition hex (x : Z) : string := hex_digits 16 x EmptyString.

(** [print(o, verbosity, prefix)]: the text printed. *)
Definition print (prefix : string) : M Packet string :=
  a ← getAddr; n ← getSize; p ← get;
  mret (prefix +:+ "[" +:+ hex a +:+ ":" +:+ hex (u64 (a + n - 1)) +:+ "] " +:+ cmdString p +:+ newline).

(** ** Functional accesses *)

(** The functional packet and the bytes of the value it is checked against. *)
Definition on_pkt {A} (m : M Packet A) : M (Packet * list Z) A := zoom fst (λ p s, (p, s.2)) m.

(** [memcpy(getPtr<uint8_t>() + doff, data + soff, n)] *)
Definition copy_in (doff soff n : Z) : M (Packet * list Z) unit :=
  d ← on_pkt getBytes; s ← get;
  d' ← lift (memcpy d doff s.2 soff n);
  on_pkt (modify (set_data (Some d'))).

(** Where the bytes found are in the packet and in the value, and how many. *)
Record Overlap := MkOverlap { func_offset : Z; val_offset : Z; overlap_size : Z }.

Definition partial_overlap (func_start func_end val_start val_end size : Z) : res Overlap :=
  if (val_start <? func_start) && (val_end <=? func_end) then
    Ok (MkOverlap 0 (i32 (u64 (func_start - val_start))) (i32 (u64 (val_end - func_start))))
  else if (func_start <=? val_start) && (func_end <? val_end) then
    Ok (MkOverlap (i32 (u64 (val_start - func_start))) 0 (i32 (u64 (func_end - val_start))))
  else if (func_start <=? val_start) && (val_end <=? func_end) then
    Ok (MkOverlap (i32 (u64 (val_start - func_start))) 0 size)
  else Err (EPanic "Packet::checkFunctional: missed case").

Definition set_valid (s e : Z) (p : Packet) : Packet :=
  set_bytesValidEnd (u16 e) (set_bytesValidStart (u16 s) p).

(** The bytes that are still to be copied, given those found before. *)
Definition merge_valid (o : Overlap) : M (Packet * list Z) Overlap :=
  st ← get;
  let s := bytesValidStart st.1 in
  let e := bytesValidEnd st.1 in
  let f := func_offset o in
  let n := overlap_size o in
  if (s =? 0) && (e =? 0) then
    on_pkt (modify (set_valid f (f + n))) ;; mret o
  else
    let a := f - s in
    let b := (f + n) - e in
    let c := f - e in
    let d := (f + n) - s in
    if (0 <=? a) && (b <=? 0) then mret (MkOverlap f (val_offset o) 0)
    else if (a <? 0) && (0 <=? d) && (b <=? 0) then
      on_pkt (modify (set_valid f e)) ;; mret (MkOverlap f (val_offset o) (s - f))
    else if (0 <? b) && (c <=? 0) && (0 <=? a) then
      on_pkt (modify (set_valid s (e + ((f + n) - e)))) ;;
      mret (MkOverlap e (val_offset o + (e - f)) ((f + n) - e))
    else if (a <? 0) && (0 <? b) then
      copy_in f (val_offset o) (s - f) ;;
      on_pkt (modify (set_valid f (e + ((f + n) - e)))) ;;
      mret (MkOverlap e (val_offset o + (e - f)) ((f + n) - e))
    else if ((0 <? c) && (0 <? b)) || ((a <? 0) && (d <? 0)) then
      err (EPanic "Packet::checkFunctional: discontiguous bytes")
    else mret o.

(** [checkFunctional(obj, addr, size, data)]: [obj] prints the value's owner, [has_data]
    tells whether [data] is not NULL, [junk] is what a new array holds. *)
Definition checkFunctional (obj : string → string) (val_start size : Z) (has_data : bool) (junk : list Z) :
    M (Packet * list Z) bool :=
  func_start ← on_pkt getAddr;
  n ← on_pkt getSize;
  let func_end := u64 (func_start + n - 1) in
  let val_end := u64 (val_start + size - 1) in
  if (val_end <? func_start) || (func_end <? val_start) then mret false else
  st ← get;
  if pkt_isPrint st.1 then on_pkt (on_print (printObj obj)) ;; mret false else
  if negb has_data then mret false else
  let offset := i32 (u64 (func_start - val_start)) in
  if pkt_isRead st.1 then
    if (val_start <=? func_start) && (func_end <=? val_end) then
      on_pkt (allocate junk) ;;
      copy_in 0 offset n ;;
      mret true
    else
      o ← lift (partial_overlap func_start func_end val_start val_end size);
      o ← merge_valid o;
      st ← get;
      assert_ "Packet::checkFunctional" (bytesValidEnd st.1 <=? n) ;;
      copy_in (func_offset o) (val_offset o) (overlap_size o) ;;
      st ← get;
      mret ((bytesValidStart st.1 =? 0) && (bytesValidEnd st.1 =? n))
  else if pkt_isWrite st.1 then
    d ← on_pkt getBytes; s ← get;
    l ← lift (if 0 <=? offset
              then memcpy s.2 offset d 0 (u64 (Z.min func_end val_end - func_start + 1))
              else memcpy s.2 0 d (- offset) (u64 (Z.min func_end val_end - val_start + 1)));
    modify (λ s, (s.1, l)) ;;
    mret false
  else err (EPanic "Packet::checkFunctional: command").

(** [checkFunctional(PacketPtr other)]: the value is in another packet. *)
Definition checkFunctional_pkt (junk : list Z) : M (Packet * Packet) bool :=
  st ← get;
  let other := st.2 in
  a ← zoom snd (λ q s, (s.1, q)) getAddr;
  n ← zoom snd (λ q s, (s.1, q)) getSize;
  d ← ((if pkt_hasData other then zoom snd (λ q s, (s.1, q)) getPtr else mret None)
        : M (Packet * Packet) (option (list Z)));
  text ← zoom snd (λ q s, (s.1, q)) (print EmptyString);
  r ← ((λ s : Packet * Packet, match checkFunctional (λ pre, pre +:+ text) a (i32 n) (bool_decide (is_Some d)) junk (s.1, default [] d) with
            | Ok (r, (p', l)) => Ok (r, (p', match d with Some _ => set_data (Some l) s.2 | None => s.2 end))
            | Err e => Err e
            end) : M (Packet * Packet) bool);
  mret r.

(** ** Properties *)

(** C35: the command table is consistent. Every command but [InvalidCmd] is a request or a
    response and not both; a command that needs a response is a request whose response
    command is a response that needs none, moves data in the same directions and carries a
    payload exactly if the request is a read; every other request, and every response, has
    no response command. *)
Theorem commandInfo_consistent c : c ≠ MemCmd.InvalidCmd →
  MemCmd.isRequest c = negb (MemCmd.isResponse c) ∧
  (if MemCmd.needsResponse c then
     MemCmd.isRequest c = true ∧ MemCmd.isResponse (MemCmd.responseCommand c) = true ∧
     MemCmd.needsResponse (MemCmd.responseCommand c) = false ∧
     MemCmd.isRead (MemCmd.responseCommand c) = MemCmd.isRead c ∧
     MemCmd.isWrite (MemCmd.responseCommand c) = MemCmd.isWrite c ∧
     MemCmd.hasData (MemCmd.responseCommand c) = MemCmd.isRead c
   else MemCmd.responseCommand c = MemCmd.InvalidCmd).
Proof. intros Hc. destruct c; [done|..]; by vm_compute. Qed.

Lemma commandInfo_consistent_witness :
  MemCmd.isRequest MemCmd.SwapReq = negb (MemCmd.isResponse MemCmd.SwapReq) ∧
  (if MemCmd.needsResponse MemCmd.SwapReq then
     MemCmd.isRequest MemCmd.SwapReq = true ∧ MemCmd.isResponse (MemCmd.responseCommand MemCmd.SwapReq) = true ∧
     MemCmd.needsResponse (MemCmd.responseCommand MemCmd.SwapReq) = false ∧
     MemCmd.isRead (MemCmd.responseCommand MemCmd.SwapReq) = MemCmd.isRead MemCmd.SwapReq ∧
     MemCmd.isWrite (MemCmd.responseCommand MemCmd.SwapReq) = MemCmd.isWrite MemCmd.SwapReq ∧
     MemCmd.hasData (MemCmd.responseCommand MemCmd.SwapReq) = MemCmd.isRead MemCmd.SwapReq
   else MemCmd.responseCommand MemCmd.SwapReq = MemCmd.InvalidCmd).
Proof. apply (commandInfo_consistent MemCmd.SwapReq). discriminate. Defined.

(** The four error commands are responses and not requests, although the comment in
    the enumeration says that they are coded as requests. *)
Theorem error_commands_are_responses c : MemCmd.isError c = true →
  MemCmd.isResponse c = true ∧ MemCmd.isRequest c = false.
Proof. by destruct c; vm_compute. Qed.

Lemma error_commands_are_responses_witness :
  MemCmd.isResponse MemCmd.BadAddressError = true ∧ MemCmd.isRequest MemCmd.BadAddressError = false.
Proof. apply (error_commands_are_responses MemCmd.BadAddressError). reflexivity. Defined.

(** [makeResponse] turns a request that needs one into its response: the route is
    reversed, the express-snoop flag is cleared, the original command is kept and the
    address, the size, the data and the request are untouched; on any other packet the
    assertion fails. *)
Theorem makeResponse_spec p :
  makeResponse p =
  if pkt_needsResponse p then
    Ok (tt, MkPacket (Req.clear EXPRESS_SNOOP (flags p)) (MemCmd.responseCommand (cmd p)) (req p) (data p)
              (addr p) (size p) InvalidPortID (src p) (cmd p) (bytesValidStart p) (bytesValidEnd p)
              (busFirstWordDelay p) (busLastWordDelay p) (senderState p))
  else Err (EAssert "Packet::makeResponse").
Proof.
  unfold makeResponse. cbv [mbind M_bind get assert_ modify]. destruct (pkt_needsResponse p) eqn:E; [|done].
  assert (H : pkt_isRequest p = true); [|by rewrite H].
  unfold pkt_needsResponse, pkt_isRequest in *. by destruct (cmd p).
Qed.

(** ** Copying *)

Lemma memcpy_spec dst doff src soff n r : memcpy dst doff src soff n = Ok r →
  length r = length dst ∧
  ∀ i : nat, r !! i = if (doff <=? Z.of_nat i) && (Z.of_nat i <? doff + n)
                      then src !! Z.to_nat (soff + (Z.of_nat i - doff)) else dst !! i.
Proof.
  unfold memcpy. destruct (_ && _) eqn:E; [|done]. rewrite !andb_true_iff, !Z.leb_le in E.
  destruct E as [[[[Hn Hd] Hs] Hdl] Hsl]. intros [= <-].
  assert (Hl1 : length (take (Z.to_nat doff) dst) = Z.to_nat doff) by (rewrite length_take; lia).
  assert (Hl2 : length (take (Z.to_nat n) (drop (Z.to_nat soff) src)) = Z.to_nat n)
    by (rewrite length_take, length_drop; lia).
  split.
  - rewrite !length_app, Hl1, Hl2, length_drop. lia.
  - intros i. destruct (Z.leb_spec doff (Z.of_nat i)); [destruct (Z.ltb_spec (Z.of_nat i) (doff + n))|]; cbn [andb].
    + rewrite lookup_app_r, lookup_app_l by lia. rewrite lookup_take_lt, lookup_drop by lia. f_equal. lia.
    + rewrite !lookup_app_r by lia. rewrite lookup_drop. f_equal. lia.
    + rewrite lookup_app_l by lia. rewrite lookup_take_lt by lia. done.
Qed.

Lemma memcpy_ok dst doff src soff n : 0 ≤ n → 0 ≤ doff → 0 ≤ soff →
  doff + n ≤ Z.of_nat (length dst) → soff + n ≤ Z.of_nat (length src) → ∃ r, memcpy dst doff src soff n = Ok r.
Proof.
  intros. unfold memcpy. eexists. rewrite !(proj2 (Z.leb_le _ _)) by done. reflexivity.
Qed.

(** A packet whose address, size and data are set. *)
Record wf_packet (p : Packet) (d : list Z) : Prop := {
  wp_addr : Req.isSet (flags p) PVALID_ADDR = true;
  wp_size : Req.isSet (flags p) PVALID_SIZE = true;
  wp_ptr : Req.isSet (flags p) (Z.lor STATIC_DATA DYNAMIC_DATA) = true;
  wp_data : data p = Some d;
  wp_len : Z.of_nat (length d) = size p;
}.

Lemma wf_getBytes p d : wf_packet p d → getBytes p = Ok (d, p).
Proof. intros []. unfold getBytes, getPtr. cbv [mbind M_bind get assert_ mret M_ret]. by rewrite wp_ptr0, wp_data0. Qed.
Lemma wf_getSize p d : wf_packet p d → getSize p = Ok (size p, p).
Proof. intros []. unfold getSize. cbv [mbind M_bind get assert_ mret M_ret]. by rewrite wp_size0. Qed.
Lemma wf_getAddr p d : wf_packet p d → getAddr p = Ok (addr p, p).
Proof. intros []. unfold getAddr. cbv [mbind M_bind get assert_ mret M_ret]. by rewrite wp_addr0. Qed.

Lemma block_offset p d bits : wf_packet p d → 0 ≤ bits < 31 →
  getOffset (2 ^ bits) p = Ok (addr p mod 2 ^ bits, p).
Proof.
  intros Hp Hb. unfold getOffset. cbv [mbind M_bind mret M_ret]. rewrite (wf_getAddr _ _ Hp).
  assert (0 < 2 ^ bits < 2 ^ 31) by (split; [apply pow2_pos|apply Z.pow_lt_mono_r]; lia).
  rewrite u64_small by lia. by rewrite land_mask by lia.
Qed.

(** What [writeDataToBlock] puts into an aligned block, [setDataFromBlock] of a packet
    with the same address and size reads back; the other bytes of the block stay. *)
Theorem block_round_trip p d q d' bits blk : wf_packet p d → wf_packet q d' →
  addr q = addr p → size q = size p → 0 ≤ bits < 31 → Z.of_nat (length blk) = 2 ^ bits →
  addr p mod 2 ^ bits + size p ≤ 2 ^ bits →
  ∃ blk', writeDataToBlock blk (2 ^ bits) p = Ok (blk', p) ∧
    setDataFromBlock blk' (2 ^ bits) q = Ok (tt, set_data (Some d) q) ∧
    ∀ i : nat, Z.of_nat i < addr p mod 2 ^ bits ∨ addr p mod 2 ^ bits + size p ≤ Z.of_nat i → blk' !! i = blk !! i.
Proof.
  intros Hp Hq Ea Es Hb Hblk Hfit. pose proof (wp_len _ _ Hp) as Hlp. pose proof (wp_len _ _ Hq) as Hlq.
  pose proof (Z.mod_pos_bound (addr p) (2 ^ bits) (pow2_pos bits ltac:(lia))) as Ho.
  set (o := addr p mod 2 ^ bits) in *.
  destruct (memcpy_ok blk o d 0 (size p)) as [blk' Hw]; [lia..|]. destruct (memcpy_spec _ _ _ _ _ _ Hw) as [Hwl Hwi].
  destruct (memcpy_ok d' 0 blk' o (size p)) as [d2 Hr]; [lia..|]. destruct (memcpy_spec _ _ _ _ _ _ Hr) as [Hrl Hri].
  assert (d2 = d) as ->.
  { apply list_eq_same_length with (length d); [done|lia|]. intros i x y Hi Hx Hy. rewrite Hri in Hx.
    rewrite (proj2 (Z.leb_le _ _)), (proj2 (Z.ltb_lt _ _)) in Hx by lia. cbn [andb] in Hx. rewrite Hwi in Hx.
    rewrite (proj2 (Z.leb_le _ _)), (proj2 (Z.ltb_lt _ _)) in Hx by lia. cbn [andb] in Hx.
    replace (Z.to_nat _) with i in Hx by lia. congruence. }
  exists blk'. split_and!.
  - unfold writeDataToBlock, writeData. cbv [mbind M_bind]. rewrite (block_offset _ _ _ Hp Hb), (wf_getBytes _ _ Hp), (wf_getSize _ _ Hp).
    unfold lift. fold o. by rewrite Hw.
  - unfold setDataFromBlock. cbv [mbind M_bind]. rewrite (block_offset _ _ _ Hq Hb), (wf_getBytes _ _ Hq), (wf_getSize _ _ Hq).
    unfold lift. rewrite Ea, Es. fold o. by rewrite Hr.
  - intros i Hi. rewrite Hwi. destruct (Z.leb_spec o (Z.of_nat i)); [|done]. destruct (Z.ltb_spec (Z.of_nat i) (o + size p)); [lia|done].
Qed.

(** A write request for [d] at [a]. *)
Definition write_at (a : Z) (d : list Z) : Packet :=
  MkPacket (Z.lor (Z.lor PVALID_ADDR PVALID_SIZE) STATIC_DATA) MemCmd.WriteReq Req.blank (Some d) a
    (Z.of_nat (length d)) InvalidPortID InvalidPortID MemCmd.InvalidCmd 0 0 0 0 [].
Definition read_at (a : Z) (d : list Z) : Packet := set_cmd MemCmd.ReadReq (write_at a d).

Lemma block_round_trip_witness :
  ∃ blk', writeDataToBlock (replicate 8 0) (2 ^ 3) (write_at 20 [1; 2; 3]) = Ok (blk', write_at 20 [1; 2; 3]) ∧
    setDataFromBlock blk' (2 ^ 3) (read_at 20 [0; 0; 0]) = Ok (tt, set_data (Some [1; 2; 3]) (read_at 20 [0; 0; 0])).
Proof.
  destruct (block_round_trip (write_at 20 [1; 2; 3]) [1; 2; 3] (read_at 20 [0; 0; 0]) [0; 0; 0] 3 (replicate 8 0))
    as (blk' & H1 & H2 & _); try reflexivity; try lia; try (by constructor); try (vm_compute; congruence).
  exists blk'. split; assumption.
Defined.

(** ** Functional accesses *)

Lemma wp_eq {S A} (m : M S A) (Q : A → S → Prop) s a s' : m s = Ok (a, s') → Q a s' → wp m Q s.
Proof. unfold wp. by intros ->. Qed.

Lemma wp_on_pkt {A} (m : M Packet A) (Q : A → Packet * list Z → Prop) p l a :
  m p = Ok (a, p) → Q a (p, l) → wp (on_pkt m) Q (p, l).
Proof. intros Hm HQ. apply wp_zoom. cbn [fst snd]. by eapply wp_eq. Qed.

Lemma wp_lift {S A} (r : res A) (Q : A → S → Prop) s a : r = Ok a → Q a s → wp (lift r) Q s.
Proof. unfold wp, lift. by intros ->. Qed.

Lemma wp_copy_in doff soff n (Q : unit → Packet * list Z → Prop) p d l d' :
  wf_packet p d → memcpy d doff l soff n = Ok d' → Q tt (set_data (Some d') p, l) → wp (copy_in doff soff n) Q (p, l).
Proof.
  intros Hp Hm HQ. unfold copy_in. wp_step. eapply wp_on_pkt; [by apply wf_getBytes|]. wp_steps.
  eapply wp_lift; [done|]. by apply wp_zoom.
Qed.

Section Functional.
Context (obj : string → string) (junk : list Z) (p : Packet) (d l : list Z) (val_start : Z).
Abbreviation n := (Z.of_nat (length l)) (only parsing).
Hypothesis Hp : wf_packet p d.
Hypothesis Hprint : pkt_isPrint p = false.
Hypothesis Hpos : 0 < size p < 2 ^ 31.
Hypothesis Hsz : 0 < n < 2 ^ 31.
Hypothesis Ha : 0 ≤ addr p.
Hypothesis Hv : 0 ≤ val_start.
Hypothesis Htop : addr p + size p < 2 ^ 64.
Hypothesis Htop' : val_start + n < 2 ^ 64.

(** A functional read inside the value gives exactly the bytes of the value and is
    reported as satisfied. *)
Theorem functional_read_inside : pkt_isRead p = true →
  val_start ≤ addr p → addr p + size p ≤ val_start + n →
  ∃ d', checkFunctional obj val_start n true junk (p, l) = Ok (true, (set_data (Some d') p, l)) ∧
    length d' = length d ∧ ∀ i : nat, Z.of_nat i < size p → d' !! i = l !! Z.to_nat (addr p - val_start + Z.of_nat i).
Proof.
  intros Hr H1 H2. pose proof (wp_len _ _ Hp) as Hl.
  destruct (memcpy_ok d 0 l (addr p - val_start) (size p)) as [d' Hm]; [lia..|].
  destruct (memcpy_spec _ _ _ _ _ _ Hm) as [Hl' Hi']. exists d'. split; [|split; [done|]].
  - assert (H : wp (checkFunctional obj val_start n true junk)
      (λ r s, r = true ∧ s = (set_data (Some d') p, l)) (p, l)).
    { unfold checkFunctional. wp_step. eapply wp_on_pkt; [by eapply wf_getAddr|]. wp_step.
      eapply wp_on_pkt; [by eapply wf_getSize|]. cbv zeta. rewrite !(u64_small (_ - 1)) by lia.
      destruct (Z.ltb_spec (val_start + n - 1) (addr p)); [lia|].
      destruct (Z.ltb_spec (addr p + size p - 1) val_start); [lia|]. cbn [orb]. wp_steps. cbn [fst].
      rewrite Hprint, Hr. cbn [negb]. rewrite (u64_small (_ - _)), i32_small by lia.
      destruct (Z.leb_spec val_start (addr p)); [|lia].
      destruct (Z.leb_spec (addr p + size p - 1) (val_start + n - 1)); [|lia]. cbn [andb].
      wp_step. eapply wp_on_pkt.
      { unfold allocate. cbv [mbind M_bind get assert_]. rewrite (wp_data _ _ Hp). by rewrite (wp_ptr _ _ Hp). }
      wp_step. eapply wp_copy_in; [done|done|]. by wp_steps. }
    apply wp_ok in H as (r & s & -> & -> & ->). done.
  - intros i Hi. rewrite Hi'. rewrite (proj2 (Z.leb_le _ _)), (proj2 (Z.ltb_lt _ _)) by lia. cbn [andb]. f_equal. lia.
Qed.

(** C33: a functional write changes exactly the bytes of the value that it covers. *)
Theorem functional_write_covers : pkt_isRead p = false → pkt_isWrite p = true →
  val_start < addr p + size p → addr p < val_start + n →
  ∃ l', checkFunctional obj val_start n true junk (p, l) = Ok (false, (p, l')) ∧ length l' = length l ∧
    ∀ i : nat, Z.of_nat i < n →
      l' !! i = if (addr p <=? val_start + Z.of_nat i) && (val_start + Z.of_nat i <? addr p + size p)
                then d !! Z.to_nat (val_start + Z.of_nat i - addr p) else l !! i.
Proof.
  intros Hr Hw H1 H2. pose proof (wp_len _ _ Hp) as Hl.
  set (off := addr p - val_start). set (fe := addr p + size p - 1). set (ve := val_start + n - 1).
  assert (∃ l', (if 0 <=? off then memcpy l off d 0 (Z.min fe ve - addr p + 1)
                 else memcpy l 0 d (- off) (Z.min fe ve - val_start + 1)) = Ok l') as [l' Hm]
    by (destruct (Z.leb_spec 0 off); apply memcpy_ok; lia).
  exists l'. split.
  - assert (H : wp (checkFunctional obj val_start n true junk) (λ r s, r = false ∧ s = (p, l')) (p, l)).
    { unfold checkFunctional. wp_step. eapply wp_on_pkt; [by eapply wf_getAddr|]. wp_step.
      eapply wp_on_pkt; [by eapply wf_getSize|]. cbv zeta. rewrite !(u64_small (_ - 1)) by lia.
      destruct (Z.ltb_spec (val_start + n - 1) (addr p)); [lia|].
      destruct (Z.ltb_spec (addr p + size p - 1) val_start); [lia|]. cbn [orb]. wp_steps. cbn [fst].
      rewrite Hprint, Hr, Hw. cbn [negb]. wp_step. eapply wp_on_pkt; [by apply wf_getBytes|]. wp_steps. cbn [snd].
      fold off fe ve. eapply wp_lift; [|by wp_steps]. rewrite <- Hm.
      assert (Ho : i32 (u64 off) = off).
      { destruct (Z.leb_spec 0 off); [rewrite u64_small, i32_small by lia; done|].
        unfold u64. rewrite <- (Z.mod_add off 1 (2 ^ 64)) by lia. rewrite (Z.mod_small (off + 1 * 2 ^ 64)) by lia.
        unfold i32. replace (off + 1 * 2 ^ 64 + 2 ^ 31) with (off + 2 ^ 31 + 2 ^ 32 * 2 ^ 32) by lia.
        rewrite Z.mod_add, Z.mod_small by lia. lia. }
      rewrite Ho. destruct (Z.leb_spec 0 off); rewrite u64_small by lia; done. }
    apply wp_ok in H as (r & s & -> & -> & ->). done.
  - destruct (Z.leb_spec 0 off); destruct (memcpy_spec _ _ _ _ _ _ Hm) as [Hl' Hi']; (split; [done|]); intros i Hi; rewrite Hi'.
    + destruct (Z.leb_spec off (Z.of_nat i)), (Z.ltb_spec (Z.of_nat i) (off + (Z.min fe ve - addr p + 1))),
        (Z.leb_spec (addr p) (val_start + Z.of_nat i)), (Z.ltb_spec (val_start + Z.of_nat i) (addr p + size p));
        cbn [andb]; try lia; try done. f_equal. lia.
    + destruct (Z.leb_spec 0 (Z.of_nat i)), (Z.ltb_spec (Z.of_nat i) (0 + (Z.min fe ve - val_start + 1))),
        (Z.leb_spec (addr p) (val_start + Z.of_nat i)), (Z.ltb_spec (val_start + Z.of_nat i) (addr p + size p));
        cbn [andb]; try lia; try done. f_equal. lia.
Qed.

(** The value sticks out of a functional read on one side: one byte less than the two have
    in common is taken, because the end of a range is inclusive and the difference of two
    addresses is not the number of bytes between them. *)
Lemma partial_overlap_one_sided func_start func_end val_end : 0 ≤ func_start ≤ func_end → val_start ≤ val_end →
  func_end < 2 ^ 64 → val_end < 2 ^ 64 → func_end - func_start < 2 ^ 31 → val_end - val_start < 2 ^ 31 →
  func_start ≤ val_end → val_start ≤ func_end →
  (val_start < func_start ∧ val_end ≤ func_end) ∨ (func_start ≤ val_start ∧ func_end < val_end) →
  let lo := Z.max func_start val_start in
  partial_overlap func_start func_end val_start val_end n =
    Ok (MkOverlap (lo - func_start) (lo - val_start) (Z.min func_end val_end - lo)).
Proof.
  intros ???????? Hside. unfold partial_overlap.
  destruct (Z.ltb_spec val_start func_start), (Z.leb_spec val_end func_end), (Z.leb_spec func_start val_start),
    (Z.ltb_spec func_end val_end); try lia; cbn [andb]; rewrite !u64_small, !i32_small by lia; repeat f_equal; lia.
Qed.

(** C34: A functional read that the value covers in part, sticking out on one side, and that
    has found nothing before, is not satisfied and drops a byte: of the bytes that the two
    have in common, [lo] to [hi], it takes those below [hi] only. The byte at [hi] is not
    filled in, although the value has it. *)
Theorem functional_read_drops_byte : pkt_isRead p = true → bytesValidStart p = 0 → bytesValidEnd p = 0 → size p < 2 ^ 16 →
  let fe := addr p + size p - 1 in let ve := val_start + n - 1 in
  let lo := Z.max (addr p) val_start in let hi := Z.min fe ve in
  lo ≤ hi → (val_start < addr p ∧ ve < fe) ∨ (addr p < val_start ∧ fe < ve) →
  ∃ d', checkFunctional obj val_start n true junk (p, l) =
      Ok (false, (set_data (Some d') (set_valid (lo - addr p) (hi - addr p) p), l)) ∧
    ∀ i : nat, d' !! i = if (lo <=? addr p + Z.of_nat i) && (addr p + Z.of_nat i <? hi)
                         then l !! Z.to_nat (addr p + Z.of_nat i - val_start) else d !! i.
Proof.
  intros Hr Hs He H16 fe ve lo hi Hlh Hside. pose proof (wp_len _ _ Hp) as Hl.
  destruct (memcpy_ok d (lo - addr p) l (lo - val_start) (hi - lo)) as [d' Hm]; [lia..|].
  destruct (memcpy_spec _ _ _ _ _ _ Hm) as [_ Hi']. exists d'. split.
  - set (p' := set_valid (lo - addr p) (hi - addr p) p).
    assert (wf_packet p' d) as Hp' by (by destruct Hp). assert (bytesValidEnd p' = hi - addr p) as Eend by (apply Z.mod_small; lia).
    assert (H : wp (checkFunctional obj val_start n true junk) (λ r s, r = false ∧ s = (set_data (Some d') p', l)) (p, l)).
    { unfold checkFunctional. wp_step. eapply wp_on_pkt; [by eapply wf_getAddr|]. wp_step.
      eapply wp_on_pkt; [by eapply wf_getSize|]. cbv zeta. rewrite !(u64_small (_ - 1)) by lia. fold fe ve.
      destruct (Z.ltb_spec ve (addr p)); [lia|]. destruct (Z.ltb_spec fe val_start); [lia|]. cbn [orb]. wp_steps. cbn [fst].
      rewrite Hprint, Hr. cbn [negb]. replace (_ && _) with false by (destruct (Z.leb_spec val_start (addr p)), (Z.leb_spec fe ve); done || lia).
      wp_step. eapply wp_lift; [apply partial_overlap_one_sided; lia|]. cbv zeta. fold lo hi. wp_step. unfold merge_valid. wp_steps.
      cbn [fst func_offset val_offset overlap_size]. rewrite Hs, He. cbn [Z.eqb andb]. wp_step. apply wp_zoom. wp_steps. cbn [fst snd].
      replace (lo - addr p + (hi - lo)) with (hi - addr p) by lia. fold p'. rewrite Eend.
      apply wp_assert; [apply Z.leb_le; lia|]. wp_step. eapply wp_copy_in; [done|done|]. wp_steps. cbn [fst].
      change (bytesValidEnd (set_data (Some d') p')) with (bytesValidEnd p'). rewrite Eend.
      replace (hi - addr p =? size p) with false by (symmetry; apply Z.eqb_neq; lia). by rewrite andb_false_r. }
    apply wp_ok in H as (r & s & -> & -> & ->). done.
  - intros i. rewrite Hi'. destruct (Z.leb_spec (lo - addr p) (Z.of_nat i)), (Z.ltb_spec (Z.of_nat i) (lo - addr p + (hi - lo))),
      (Z.leb_spec lo (addr p + Z.of_nat i)), (Z.ltb_spec (addr p + Z.of_nat i) hi); cbn [andb]; try lia; try done. f_equal. lia.
Qed.

End Functional.

Lemma functional_read_inside_witness :
  ∃ d', checkFunctional (λ s, s) 96 (Z.of_nat (length (replicate 16 7))) true [] (read_at 100 [0; 0], replicate 16 7) =
          Ok (true, (set_data (Some d') (read_at 100 [0; 0]), replicate 16 7)) ∧
    length d' = length [0; 0] ∧ ∀ i : nat, Z.of_nat i < 2 → d' !! i = replicate 16 7 !! Z.to_nat (100 - 96 + Z.of_nat i).
Proof.
  apply (functional_read_inside (λ s, s) [] (read_at 100 [0; 0]) [0; 0] (replicate 16 7) 96);
    try reflexivity; try (vm_compute; intuition congruence); by constructor.
Defined.

Lemma functional_write_covers_witness :
  ∃ l', checkFunctional (λ s, s) 102 (Z.of_nat (length [7; 7; 7])) true [] (write_at 100 [1; 2; 3], [7; 7; 7]) =
          Ok (false, (write_at 100 [1; 2; 3], l')) ∧ length l' = length [7; 7; 7].
Proof.
  destruct (functional_write_covers (λ s, s) [] (write_at 100 [1; 2; 3]) [1; 2; 3] [7; 7; 7] 102) as (l' & H1 & H2 & _);
    try reflexivity; try (vm_compute; intuition congruence); [by constructor|].
  exists l'. split; assumption.
Defined.

Lemma functional_read_drops_byte_witness :
  ∃ d', checkFunctional (λ s, s) 4 (Z.of_nat (length (replicate 8 9))) true [] (read_at 0 (replicate 8 0), replicate 8 9) =
          Ok (false, (set_data (Some d') (set_valid 4 7 (read_at 0 (replicate 8 0))), replicate 8 9)) ∧ d' !! 7%nat = Some 0.
Proof.
  destruct (functional_read_drops_byte (λ s, s) [] (read_at 0 (replicate 8 0)) (replicate 8 0) (replicate 8 9) 4) as (d' & H1 & H2);
    try reflexivity; try (vm_compute; intuition congruence); [by constructor|].
  exists d'. split; [exact H1|rewrite H2; reflexivity].
Defined.

(** ** Print labels *)

(** Popping a label restores the state before it was pushed. *)
Theorem label_round_trip lbl pre s : labelStack s ≠ [] →
  PrintReqState_popLabel (PrintReqState_pushLabel lbl pre s) = Ok (tt, s).
Proof.
  intros Hs. unfold PrintReqState_popLabel, PrintReqState_pushLabel.
  cbv [mbind M_bind get of_option modify assert_]. cbn [labelStack]. rewrite last_snoc, removelast_last.
  cbn [prefix os verbosity]. destruct s as [[|e l] cp o v]; done.
Qed.

Lemma label_round_trip_witness :
  PrintReqState_popLabel (PrintReqState_pushLabel "cache" "  " (new_PrintReqState "" 0)) = Ok (tt, new_PrintReqState "" 0).
Proof. apply (label_round_trip "cache" "  " (new_PrintReqState "" 0)). discriminate. Defined.

Lemma print_labels_done l : Forall (λ e, labelPrinted e = true) (print_labels l).2 ∧ length (print_labels l).2 = length l.
Proof.
  induction l as [|e l [IH1 IH2]]; [done|]. simpl. destruct (labelPrinted e) eqn:E; simpl; by rewrite IH2; auto.
Qed.

(** The labels of a print request are printed once: after [printLabels], printing
    them again adds no text. *)
Theorem printLabels_once s s' : printLabels s = Ok (tt, s') → printLabels s' = Ok (tt, s').
Proof.
  unfold printLabels. cbv [mbind M_bind get of_option modify mret M_ret]. destruct (last (labelStack s)) as [e|] eqn:E; [|done].
  destruct (labelPrinted e) eqn:Ee; [intros [= <-]; by rewrite E, Ee|]. intros [= <-]. cbn [labelStack].
  destruct (print_labels_done (labelStack s)) as [Hd Hl].
  destruct (last (print_labels (labelStack s)).2) as [e'|] eqn:E'.
  - apply last_Some_elem_of in E'. rewrite Forall_forall in Hd. by rewrite (Hd _ E').
  - apply last_None in E'. rewrite E' in Hl. apply last_Some_elem_of in E. destruct (labelStack s); [|done]. by apply elem_of_nil in E.
Qed.

Lemma printLabels_once_witness :
  ∃ s', printLabels (PrintReqState_pushLabel "cache" "  " (new_PrintReqState "" 0)) = Ok (tt, s') ∧ printLabels s' = Ok (tt, s').
Proof.
  exists (MkPrint [MkLabel "" "" true; MkLabel "cache" "" true] "  " (newline +:+ "cache" +:+ newline) 0).
  split; [reflexivity|].
  apply (printLabels_once (PrintReqState_pushLabel "cache" "  " (new_PrintReqState "" 0))). reflexivity.
Defined.
