(* ===== verification/LockedAddr.v ===== *)
(** Load-locked and store-conditional (LockedAddr in src/gem5-stable/src/mem/abstract_mem.hh,
    [trackLoadLocked] and [checkLockedAddrList] in abstract_mem.cc, [writeOK]): the list of
    reservations of a memory. The state is the list together with the packet, whose
    request receives the outcome of a store-conditional. *)

From S2P Require Import Prelude.
From S2P Require Request Packet.

Module Pkt := Packet.
Module Req := Request.

Record LockedAddr := MkLocked { l_addr : Z; l_contextId : Z }.

#[global] Instance LockedAddr_eq_dec : EqDecision LockedAddr.
Proof. solve_decision. Defined.

(** [mask]: the granularity of a reservation is 16 bytes. *)
Definition Addr_Mask : Z := 0xf.
Definition mask (paddr : Z) : Z := Z.ldiff paddr Addr_Mask.

Definition matchesContext (l : LockedAddr) : M Req.Request bool :=
  c ← Req.contextId; mret (l_contextId l =? c).

Definition new_LockedAddr : M Req.Request LockedAddr :=
  a ← Req.getPaddr; c ← Req.contextId; mret (MkLocked (mask a) c).

(** The loop of [trackLoadLocked]: the list with the record updated, if there is one. *)
Fixpoint update_lock (paddr : Z) (l : list LockedAddr) : M Req.Request (option (list LockedAddr)) :=
  match l with
  | [] => mret None
  | x :: l' =>
      m ← matchesContext x;
      if (m : bool) then mret (Some (MkLocked paddr (l_contextId x) :: l'))
      else r ← update_lock paddr l'; mret (cons x <$> r)
  end.

Definition trackLoadLocked (l : list LockedAddr) : M Req.Request (list LockedAddr) :=
  paddr ← Req.getPaddr;
  r ← update_lock (mask paddr) l;
  match r with
  | Some l' => mret l'
  | None => x ← new_LockedAddr; mret (x :: l)
  end.

(** The search of a store-conditional for its reservation. *)
Fixpoint find_lock (paddr : Z) (l : list LockedAddr) : M Req.Request bool :=
  match l with
  | [] => mret false
  | x :: l' =>
      if l_addr x =? paddr then
        m ← matchesContext x;
        if (m : bool) then mret true else find_lock paddr l'
      else find_lock paddr l'
  end.

(** [checkLockedAddrList]: whether to store, and the list left. *)
Definition checkLockedAddrList (isLLSC : bool) (l : list LockedAddr) : M Req.Request (bool * list LockedAddr) :=
  paddr ← Req.getPaddr;
  let paddr := mask paddr in
  allowStore ←
    (if isLLSC then
       found ← find_lock paddr l;
       modify (Req.setExtraData (if (found : bool) then 1 else 0)) ;;
       mret found
     else mret true);
  mret (allowStore, if (allowStore : bool) then filter (λ x, l_addr x ≠ paddr) l else l).

Definition writeOK (isLLSC : bool) (l : list LockedAddr) : M Req.Request (bool * list LockedAddr) :=
  match l with
  | [] =>
      (if isLLSC then modify (Req.setExtraData 0) else mret tt) ;;
      mret (negb isLLSC, l)
  | _ => checkLockedAddrList isLLSC l
  end.

(** ** Properties *)

(** A request with a physical address and a context. *)
Record wf_req (r : Req.Request) : Prop := {
  wq_paddr : Req.isSet (Req.privateFlags r) Req.VALID_PADDR = true;
  wq_context : Req.isSet (Req.privateFlags r) Req.VALID_CONTEXT_ID = true;
}.

(** Context [cx] holds a reservation of the block of [a]; each context has at most one. *)
Definition reserved (l : list LockedAddr) (cx a : Z) : Prop := MkLocked (mask a) cx ∈ l.
#[global] Instance reserved_dec l cx a : Decision (reserved l cx a).
Proof. unfold reserved. apply _. Defined.
Definition one_per_context (l : list LockedAddr) : Prop := NoDup (l_contextId <$> l).

Section Locks.
Context (r : Req.Request) (Hr : wf_req r).
Abbreviation a := (Req._paddr r).
Abbreviation cx := (Req._contextId r).

Lemma get_paddr : Req.getPaddr r = Ok (a, r).
Proof. unfold Req.getPaddr, Req.guarded. cbv [mbind M_bind get assert_ mret M_ret]. by rewrite (wq_paddr _ Hr). Qed.
Lemma get_context : Req.contextId r = Ok (cx, r).
Proof. unfold Req.contextId, Req.guarded. cbv [mbind M_bind get assert_ mret M_ret]. by rewrite (wq_context _ Hr). Qed.
Lemma matches x : matchesContext x r = Ok (l_contextId x =? cx, r).
Proof. unfold matchesContext. cbv [mbind M_bind mret M_ret]. by rewrite get_context. Qed.

Lemma update_lock_spec p l : one_per_context l →
  ∃ o, update_lock p l r = Ok (o, r) ∧
  match o with
  | None => cx ∉ l_contextId <$> l
  | Some l' => l_contextId <$> l' = l_contextId <$> l ∧
      ∀ y, y ∈ l' ↔ y = MkLocked p cx ∨ (y ∈ l ∧ l_contextId y ≠ cx)
  end.
Proof.
  unfold one_per_context. induction l as [|x l IH]; intros Hnd; cbn [update_lock].
  - exists None. split; [done|]. apply not_elem_of_nil.
  - cbn in Hnd. apply NoDup_cons in Hnd as [Hx Hnd]. cbv [mbind M_bind mret M_ret]. rewrite matches.
    destruct (Z.eqb_spec (l_contextId x) cx) as [E|E].
    + eexists. split; [done|]. split; [done|]. intros y. rewrite E. rewrite !elem_of_cons. split.
      * intros [->|Hy]; [by left|]. right. split; [by right|]. intros Ey. apply Hx. rewrite E, <- Ey. by apply list_elem_of_fmap_2.
      * intros [->|[[->|Hy] Hne]]; [by left|done|by right].
    + destruct (IH Hnd) as (o & -> & Ho). eexists. split; [done|]. destruct o as [l'|]; cbn.
      * destruct Ho as [Ec Hy]. split; [by rewrite Ec|]. intros y. rewrite !elem_of_cons, Hy. naive_solver.
      * rewrite elem_of_cons. naive_solver.
Qed.

Lemma find_lock_spec l : find_lock (mask a) l r = Ok (bool_decide (reserved l cx a), r).
Proof.
  unfold reserved. induction l as [|x l IH]; cbn [find_lock].
  - rewrite bool_decide_eq_false_2; [done|]. apply not_elem_of_nil.
  - assert (E : bool_decide (MkLocked (mask a) cx ∈ x :: l) =
      ((l_addr x =? mask a) && (l_contextId x =? cx)) || bool_decide (MkLocked (mask a) cx ∈ l)).
    { apply eq_true_iff_eq. rewrite orb_true_iff, andb_true_iff, !bool_decide_eq_true, elem_of_cons, !Z.eqb_eq.
      destruct x as [xa xc]. cbn. naive_solver. }
    rewrite E. destruct (Z.eqb_spec (l_addr x) (mask a)); cbn [andb]; [|done].
    cbv [mbind M_bind mret M_ret]. rewrite matches. destruct (Z.eqb_spec (l_contextId x) cx); [done|]. apply IH.
Qed.

(** Neither operation fails on such a request. *)
Lemma trackLoadLocked_total l : ∃ l', trackLoadLocked l r = Ok (l', r).
Proof.
  assert (Hu : ∀ p l, ∃ o, update_lock p l r = Ok (o, r)).
  { intros p l0. induction l0 as [|x l0 [o IH]]; cbn [update_lock]; [by eexists|].
    cbv [mbind M_bind mret M_ret]. rewrite matches. destruct (_ =? _); [by eexists|]. rewrite IH. by eexists. }
  unfold trackLoadLocked. cbv [mbind M_bind mret M_ret]. rewrite get_paddr. destruct (Hu (mask a) l) as [o ->].
  destruct o; [by eexists|]. unfold new_LockedAddr. cbv [mbind M_bind mret M_ret]. rewrite get_paddr, get_context. by eexists.
Qed.

Lemma checkLocked_run isLLSC l :
  let ok := negb isLLSC || bool_decide (reserved l cx a) in
  checkLockedAddrList isLLSC l r =
    Ok ((ok, if ok then filter (λ x, l_addr x ≠ mask a) l else l),
        if isLLSC then Req.setExtraData (if ok then 1 else 0) r else r).
Proof.
  unfold checkLockedAddrList. cbv [mbind M_bind mret M_ret modify]. rewrite get_paddr.
  destruct isLLSC; cbn [negb orb]; [by rewrite find_lock_spec|done].
Qed.

Lemma writeOK_run isLLSC l :
  let ok := negb isLLSC || bool_decide (reserved l cx a) in
  writeOK isLLSC l r =
    Ok ((ok, if ok then filter (λ x, l_addr x ≠ mask a) l else l),
        if isLLSC then Req.setExtraData (if ok then 1 else 0) r else r).
Proof.
  cbv zeta. unfold writeOK. destruct l as [|x l0]; [|apply checkLocked_run].
  rewrite (bool_decide_eq_false_2 (reserved [] cx a)) by apply not_elem_of_nil. by destruct isLLSC.
Qed.

(** C32: a load-locked leaves its context with exactly one reservation, of the block it
    loaded, and does not touch the reservations of other contexts. *)
Theorem trackLoadLocked_spec l : one_per_context l →
  ∃ l', trackLoadLocked l r = Ok (l', r) ∧ one_per_context l' ∧
    ∀ y, y ∈ l' ↔ y = MkLocked (mask a) cx ∨ (y ∈ l ∧ l_contextId y ≠ cx).
Proof.
  intros Hl. unfold trackLoadLocked. cbv [mbind M_bind mret M_ret]. rewrite get_paddr.
  destruct (update_lock_spec (mask a) l Hl) as (o & -> & Ho). destruct o as [l'|].
  - exists l'. split; [done|]. destruct Ho as [Ec Hy]. split; [|done]. unfold one_per_context. by rewrite Ec.
  - unfold new_LockedAddr. cbv [mbind M_bind mret M_ret]. rewrite get_paddr, get_context.
    eexists. split; [done|]. split.
    + unfold one_per_context. cbn. by apply NoDup_cons.
    + intros y. rewrite elem_of_cons. split; [|naive_solver]. intros [->|Hy]; [by left|]. right. split; [done|].
      intros E. apply Ho. rewrite <- E. by apply list_elem_of_fmap_2.
Qed.

(** C31: a store is performed unless it is a store-conditional whose context holds no
    reservation of the block; the outcome of a store-conditional is recorded in the
    request. A store that is performed removes all reservations of its block, of every
    context, and no other; one that is not leaves all of them. *)
Theorem writeOK_spec isLLSC l :
  let ok := negb isLLSC || bool_decide (reserved l cx a) in
  ∃ l', writeOK isLLSC l r = Ok ((ok, l'), if isLLSC then Req.setExtraData (if ok then 1 else 0) r else r) ∧
    ∀ y, y ∈ l' ↔ y ∈ l ∧ (ok = true → l_addr y ≠ mask a).
Proof.
  cbv zeta. eexists. split; [apply writeOK_run|]. intros y.
  destruct (negb isLLSC || _); [rewrite list_elem_of_filter|]; naive_solver.
Qed.

End Locks.

(** A request of context 3 for address 100. *)
Definition some_request : Req.Request :=
  Req.setThreadContext 3 0 (Req.setPaddr 100 Req.blank).

Lemma trackLoadLocked_spec_witness :
  ∃ l', trackLoadLocked [MkLocked 64 3; MkLocked 96 5] some_request = Ok (l', some_request) ∧ one_per_context l'.
Proof.
  destruct (trackLoadLocked_spec some_request) with (l := [MkLocked 64 3; MkLocked 96 5]) as (l' & H1 & H2 & _).
  - constructor; reflexivity.
  - unfold one_per_context. apply NoDup_cons. split; [|apply NoDup_singleton]. vm_compute. set_solver.
  - exists l'. split; assumption.
Defined.

Lemma writeOK_spec_witness :
  ∃ l', writeOK true [MkLocked 96 3; MkLocked 96 5] some_request =
    Ok ((negb true || bool_decide (reserved [MkLocked 96 3; MkLocked 96 5] 3 100), l'), Req.setExtraData 1 some_request).
Proof.
  destruct (writeOK_spec some_request) with (isLLSC := true) (l := [MkLocked 96 3; MkLocked 96 5]) as (l' & H & _).
  - constructor; reflexivity.
  - exists l'. exact H.
Defined.
