(* ===== verification/StdAlgo.v ===== *)
(** The parts of the C++ library whose result the standard leaves open, as
    interfaces with the laws the standard gives: the order in which an
    [unordered_map] iterates and the layout of a heap made by [std::make_heap].
    The theorems of the development hold for every conforming implementation;
    the instances at the end show that the laws can be met. *)

From S2P Require Import Prelude.

(** ** Iteration over an [unordered_map] *)

(** The order of the [n]-th iteration of a run is any order of the pairs. *)
Class HashOrder := {
  iter_order {V} : nat → gmap Z V → list (Z * V);
  iter_order_perm {V} n (m : gmap Z V) : iter_order n m ≡ₚ map_to_list m;
}.

(** ** Heaps *)

(** [less] as [std::make_heap] requires it. *)
Class StrictWeak {A} (less : A → A → bool) : Prop := {
  less_irrefl x : less x x = false;
  less_trans x y z : less x y = true → less y z = true → less x z = true;
  less_incomp x y z : less x y = false → less y z = false → less x z = false;
}.

(** [std::is_heap]: no element is greater than its parent. *)
Definition is_heap {A} (less : A → A → bool) (l : list A) : Prop :=
  ∀ i p x, l !! S i = Some x → l !! (i / 2)%nat = Some p → less p x = false.

(** [pop_heap] moves the front to the back and makes the rest a heap. *)
Class HeapAlgo := {
  make_heap {A} : (A → A → bool) → list A → list A;
  pop_heap {A} : (A → A → bool) → list A → list A;
  make_heap_perm {A} (less : A → A → bool) l : make_heap less l ≡ₚ l;
  make_heap_heap {A} (less : A → A → bool) l :
    StrictWeak less → is_heap less (make_heap less l);
  pop_heap_nil {A} (less : A → A → bool) : pop_heap less [] = [];
  pop_heap_cons {A} (less : A → A → bool) x l :
    StrictWeak less → is_heap less (x :: l) →
    ∃ l', pop_heap less (x :: l) = l' ++ [x] ∧ l' ≡ₚ l ∧ is_heap less l';
}.

Section Heap.
Context {A : Type} (less : A → A → bool) `{!StrictWeak less}.

(** The front of a heap is a greatest element. *)
Lemma heap_front_max x l y : is_heap less (x :: l) → y ∈ x :: l → less x y = false.
Proof.
  intros Hh [i Hi]%list_elem_of_lookup. revert y Hi.
  induction (lt_wf i) as [i _ IH]. intros y Hi. destruct i as [|i].
  { injection Hi as ->. apply less_irrefl. }
  assert (i / 2 ≤ i)%nat as Hd by (apply Nat.Div0.div_le_upper_bound; lia).
  destruct (lookup_lt_is_Some_2 (x :: l) (i / 2)) as [p Hp].
  { apply lookup_lt_Some in Hi. lia. }
  eapply less_incomp; [|by eapply Hh]. eapply (IH (i / 2)%nat); [lia|done].
Qed.

(** A list sorted from greatest to least is a heap. *)
Definition desc (l : list A) : Prop :=
  ∀ i j x y, (i ≤ j)%nat → l !! i = Some x → l !! j = Some y → less x y = false.

Lemma desc_is_heap l : desc l → is_heap less l.
Proof.
  intros Hd i p x Hx Hp. eapply Hd; [|done|done].
  apply Nat.Div0.div_le_upper_bound. lia.
Qed.

Fixpoint insert_desc (x : A) (l : list A) : list A :=
  match l with
  | [] => [x]
  | y :: l' => if less x y then y :: insert_desc x l' else x :: l
  end.

Lemma insert_desc_perm x l : insert_desc x l ≡ₚ x :: l.
Proof.
  induction l as [|y l IH]; simpl; [done|]. destruct (less x y); [|done].
  rewrite IH. apply Permutation_swap.
Qed.

Lemma desc_cons x l : desc (x :: l) ↔ (∀ y, y ∈ l → less x y = false) ∧ desc l.
Proof.
  split.
  - intros Hd. split.
    + intros y [j Hj]%list_elem_of_lookup. eapply (Hd O (S j)); [lia|done|done].
    + intros i j a b Hij Ha Hb. eapply (Hd (S i) (S j)); [lia|done|done].
  - intros [Hx Hd] i j a b Hij Ha Hb. destruct i as [|i], j as [|j]; simpl in *; [| |lia|].
    + simplify_eq. apply less_irrefl.
    + simplify_eq. apply Hx. by eapply list_elem_of_lookup_2.
    + eapply (Hd i j); [lia|done|done].
Qed.

Lemma less_asym x y : less x y = true → less y x = false.
Proof.
  intros Hxy. destruct (less y x) eqn:Hyx; [|done].
  pose proof (less_trans _ _ _ Hxy Hyx) as H. by rewrite less_irrefl in H.
Qed.

Lemma insert_desc_desc x l : desc l → desc (insert_desc x l).
Proof.
  induction l as [|y l IH]; simpl.
  { intros _. apply desc_cons. split; [set_solver|]. by intros i j a b _ Ha. }
  rewrite desc_cons. intros [Hy Hl]. destruct (less x y) eqn:Hxy.
  - apply desc_cons. split; [|by apply IH]. intros z. rewrite insert_desc_perm.
    intros [->|Hz]%elem_of_cons; [by apply less_asym|by apply Hy].
  - apply desc_cons. split; [|by apply desc_cons].
    intros z [->|Hz]%elem_of_cons; [done|]. eapply less_incomp; [done|]. by apply Hy.
Qed.

End Heap.

Definition sort_desc {A} (less : A → A → bool) (l : list A) : list A :=
  foldr (insert_desc less) [] l.

Lemma sort_desc_perm {A} (less : A → A → bool) l : sort_desc less l ≡ₚ l.
Proof. induction l as [|x l IH]; simpl; [done|]. rewrite insert_desc_perm. by rewrite IH. Qed.

Lemma sort_desc_desc {A} (less : A → A → bool) `{!StrictWeak less} l : desc less (sort_desc less l).
Proof.
  induction l as [|x l IH]; simpl; [by intros i j a b _ Ha|]. by apply insert_desc_desc.
Qed.

(** ** Instances *)

Definition list_HashOrder : HashOrder.
Proof. refine {| iter_order V n m := map_to_list m |}. done. Defined.

(** Keeps the heap sorted; any removal re-sorts. *)
Definition sorted_HeapAlgo : HeapAlgo.
Proof.
  refine {| make_heap A less l := sort_desc less l;
            pop_heap A less l :=
              match l with [] => [] | x :: l' => sort_desc less l' ++ [x] end |}.
  - intros. apply sort_desc_perm.
  - intros A less l Hw. by apply desc_is_heap, sort_desc_desc.
  - done.
  - intros A less x l Hw Hh. exists (sort_desc less l). split; [done|].
    split; [apply sort_desc_perm|]. by apply desc_is_heap, sort_desc_desc.
Defined.
