(* ===== verification/MigrationController.v ===== *)
(** MigrationController (src/migration_controller.h, src/migration_controller.cc):
    the page translation table (PTT) of the DRAM cache, the per-epoch statistics
    and the two heaps from which pages are chosen for migration. A [double] ratio
    is a rational here: its denominator [page_blocks_] is a power of two and its
    numerator an [int], so the division of the sources is exact. *)

From Stdlib Require Import QArith.
From S2P Require Import Prelude Profiler StdAlgo.
From S2P Require AddrTransTable.
#[global] Open Scope Z_scope.

(** [PTTEntry::State] *)
Inductive PTTState := CLEAN_DIRECT | CLEAN_STATIC | DIRTY_DIRECT | DIRTY_STATIC.

#[global] Instance PTTState_eq_dec : EqDecision PTTState.
Proof. solve_decision. Defined.

Definition ptt_num (s : PTTState) : Z :=
  match s with CLEAN_DIRECT => 0 | CLEAN_STATIC => 1 | DIRTY_DIRECT => 2 | DIRTY_STATIC => 3 end.

Definition is_dirty (s : PTTState) : bool :=
  match s with DIRTY_DIRECT | DIRTY_STATIC => true | _ => false end.

Record PTTEntry := MkPTTEntry {
  state : PTTState;
  epoch_reads : Z;
  epoch_writes : Z;
  index : Z;
  mach_base : Z;
}.

Definition set_state (v : PTTState) (r : PTTEntry) : PTTEntry :=
  {| state := v; epoch_reads := epoch_reads r; epoch_writes := epoch_writes r;
     index := index r; mach_base := mach_base r |}.
Definition set_epoch_reads (v : Z) (r : PTTEntry) : PTTEntry :=
  {| state := state r; epoch_reads := v; epoch_writes := epoch_writes r; index
     := index r; mach_base := mach_base r |}.
Definition set_epoch_writes (v : Z) (r : PTTEntry) : PTTEntry :=
  {| state := state r; epoch_reads := epoch_reads r; epoch_writes := v; index
     := index r; mach_base := mach_base r |}.
Definition set_index (v : Z) (r : PTTEntry) : PTTEntry :=
  {| state := state r; epoch_reads := epoch_reads r; epoch_writes :=
     epoch_writes r; index := v; mach_base := mach_base r |}.
Definition set_mach_base (v : Z) (r : PTTEntry) : PTTEntry :=
  {| state := state r; epoch_reads := epoch_reads r; epoch_writes :=
     epoch_writes r; index := index r; mach_base := v |}.

(** [PTTEntry()]; the state and the base are not initialised and not read. *)
Definition new_PTTEntry : PTTEntry :=
  {| state := CLEAN_DIRECT; epoch_reads := 0; epoch_writes := 0; index := - EINVAL; mach_base := 0 |}.

Record DRAMPageStats := MkDRAMStats { d_phy_addr : Z; d_state : PTTState; d_write_ratio : Q }.

Definition Qlt_bool (x y : Q) : bool := negb (Qle_bool y x).

(** [DRAMPageStats::operator<] *)
Definition dram_less (x p : DRAMPageStats) : bool :=
  if bool_decide (d_state x = d_state p) then Qlt_bool (d_write_ratio p) (d_write_ratio x)
  else ptt_num (d_state p) <? ptt_num (d_state x).

Record NVMPageStats := MkNVMStats { n_phy_addr : Z; n_dirty_ratio : Q; n_write_ratio : Q }.

(** [NVMPageStats::operator<] *)
Definition nvm_less (x p : NVMPageStats) : bool := Qlt_bool (n_dirty_ratio x) (n_dirty_ratio p).

Record NVMPage := MkNVMPage { p_epoch_reads : Z; p_epoch_writes : Z; p_blocks : gset Z }.

Record MigrationController := MkMig {
  block_bits_ : Z;
  block_mask_ : Z;
  page_bits_ : Z;
  page_mask_ : Z;
  page_blocks_ : Z;
  ptt_length_ : Z;
  ptt_capacity_ : Z;
  dirty_entries_ : Z;
  total_nvm_writes_ : Z;
  total_dram_writes_ : Z;
  dirty_nvm_blocks_ : Z;
  dirty_nvm_pages_ : Z;
  dirty_dram_pages_ : Z;
  free_slots_ : list Z;
  entries_ : gmap Z PTTEntry;
  nvm_pages_ : gmap Z NVMPage;
  dram_heap_ : list DRAMPageStats;
  nvm_heap_ : list NVMPageStats;
  dram_heap_filled_ : bool;
  nvm_heap_filled_ : bool;
  iterations_ : nat;
}.

Definition set_block_bits_ (v : Z) (r : MigrationController) : MigrationController :=
  {| block_bits_ := v; block_mask_ := block_mask_ r; page_bits_ := page_bits_
     r; page_mask_ := page_mask_ r; page_blocks_ := page_blocks_ r;
     ptt_length_ := ptt_length_ r; ptt_capacity_ := ptt_capacity_ r;
     dirty_entries_ := dirty_entries_ r; total_nvm_writes_ :=
     total_nvm_writes_ r; total_dram_writes_ := total_dram_writes_ r;
     dirty_nvm_blocks_ := dirty_nvm_blocks_ r; dirty_nvm_pages_ :=
     dirty_nvm_pages_ r; dirty_dram_pages_ := dirty_dram_pages_ r; free_slots_
     := free_slots_ r; entries_ := entries_ r; nvm_pages_ := nvm_pages_ r;
     dram_heap_ := dram_heap_ r; nvm_heap_ := nvm_heap_ r; dram_heap_filled_
     := dram_heap_filled_ r; nvm_heap_filled_ := nvm_heap_filled_ r;
     iterations_ := iterations_ r |}.
Definition set_block_mask_ (v : Z) (r : MigrationController) : MigrationController :=
  {| block_bits_ := block_bits_ r; block_mask_ := v; page_bits_ := page_bits_
     r; page_mask_ := page_mask_ r; page_blocks_ := page_blocks_ r;
     ptt_length_ := ptt_length_ r; ptt_capacity_ := ptt_capacity_ r;
     dirty_entries_ := dirty_entries_ r; total_nvm_writes_ :=
     total_nvm_writes_ r; total_dram_writes_ := total_dram_writes_ r;
     dirty_nvm_blocks_ := dirty_nvm_blocks_ r; dirty_nvm_pages_ :=
     dirty_nvm_pages_ r; dirty_dram_pages_ := dirty_dram_pages_ r; free_slots_
     := free_slots_ r; entries_ := entries_ r; nvm_pages_ := nvm_pages_ r;
     dram_heap_ := dram_heap_ r; nvm_heap_ := nvm_heap_ r; dram_heap_filled_
     := dram_heap_filled_ r; nvm_heap_filled_ := nvm_heap_filled_ r;
     iterations_ := iterations_ r |}.
Definition set_page_bits_ (v : Z) (r : MigrationController) : MigrationController :=
  {| block_bits_ := block_bits_ r; block_mask_ := block_mask_ r; page_bits_ :=
     v; page_mask_ := page_mask_ r; page_blocks_ := page_blocks_ r;
     ptt_length_ := ptt_length_ r; ptt_capacity_ := ptt_capacity_ r;
     dirty_entries_ := dirty_entries_ r; total_nvm_writes_ :=
     total_nvm_writes_ r; total_dram_writes_ := total_dram_writes_ r;
     dirty_nvm_blocks_ := dirty_nvm_blocks_ r; dirty_nvm_pages_ :=
     dirty_nvm_pages_ r; dirty_dram_pages_ := dirty_dram_pages_ r; free_slots_
     := free_slots_ r; entries_ := entries_ r; nvm_pages_ := nvm_pages_ r;
     dram_heap_ := dram_heap_ r; nvm_heap_ := nvm_heap_ r; dram_heap_filled_
     := dram_heap_filled_ r; nvm_heap_filled_ := nvm_heap_filled_ r;
     iterations_ := iterations_ r |}.
Definition set_page_mask_ (v : Z) (r : MigrationController) : MigrationController :=
  {| block_bits_ := block_bits_ r; block_mask_ := block_mask_ r; page_bits_ :=
     page_bits_ r; page_mask_ := v; page_blocks_ := page_blocks_ r;
     ptt_length_ := ptt_length_ r; ptt_capacity_ := ptt_capacity_ r;
     dirty_entries_ := dirty_entries_ r; total_nvm_writes_ :=
     total_nvm_writes_ r; total_dram_writes_ := total_dram_writes_ r;
     dirty_nvm_blocks_ := dirty_nvm_blocks_ r; dirty_nvm_pages_ :=
     dirty_nvm_pages_ r; dirty_dram_pages_ := dirty_dram_pages_ r; free_slots_
     := free_slots_ r; entries_ := entries_ r; nvm_pages_ := nvm_pages_ r;
     dram_heap_ := dram_heap_ r; nvm_heap_ := nvm_heap_ r; dram_heap_filled_
     := dram_heap_filled_ r; nvm_heap_filled_ := nvm_heap_filled_ r;
     iterations_ := iterations_ r |}.
Definition set_page_blocks_ (v : Z) (r : MigrationController) : MigrationController :=
  {| block_bits_ := block_bits_ r; block_mask_ := block_mask_ r; page_bits_ :=
     page_bits_ r; page_mask_ := page_mask_ r; page_blocks_ := v; ptt_length_
     := ptt_length_ r; ptt_capacity_ := ptt_capacity_ r; dirty_entries_ :=
     dirty_entries_ r; total_nvm_writes_ := total_nvm_writes_ r;
     total_dram_writes_ := total_dram_writes_ r; dirty_nvm_blocks_ :=
     dirty_nvm_blocks_ r; dirty_nvm_pages_ := dirty_nvm_pages_ r;
     dirty_dram_pages_ := dirty_dram_pages_ r; free_slots_ := free_slots_ r;
     entries_ := entries_ r; nvm_pages_ := nvm_pages_ r; dram_heap_ :=
     dram_heap_ r; nvm_heap_ := nvm_heap_ r; dram_heap_filled_ :=
     dram_heap_filled_ r; nvm_heap_filled_ := nvm_heap_filled_ r; iterations_
     := iterations_ r |}.
Definition set_ptt_length_ (v : Z) (r : MigrationController) : MigrationController :=
  {| block_bits_ := block_bits_ r; block_mask_ := block_mask_ r; page_bits_ :=
     page_bits_ r; page_mask_ := page_mask_ r; page_blocks_ := page_blocks_ r;
     ptt_length_ := v; ptt_capacity_ := ptt_capacity_ r; dirty_entries_ :=
     dirty_entries_ r; total_nvm_writes_ := total_nvm_writes_ r;
     total_dram_writes_ := total_dram_writes_ r; dirty_nvm_blocks_ :=
     dirty_nvm_blocks_ r; dirty_nvm_pages_ := dirty_nvm_pages_ r;
     dirty_dram_pages_ := dirty_dram_pages_ r; free_slots_ := free_slots_ r;
     entries_ := entries_ r; nvm_pages_ := nvm_pages_ r; dram_heap_ :=
     dram_heap_ r; nvm_heap_ := nvm_heap_ r; dram_heap_filled_ :=
     dram_heap_filled_ r; nvm_heap_filled_ := nvm_heap_filled_ r; iterations_
     := iterations_ r |}.
Definition set_ptt_capacity_ (v : Z) (r : MigrationController) : MigrationController :=
  {| block_bits_ := block_bits_ r; block_mask_ := block_mask_ r; page_bits_ :=
     page_bits_ r; page_mask_ := page_mask_ r; page_blocks_ := page_blocks_ r;
     ptt_length_ := ptt_length_ r; ptt_capacity_ := v; dirty_entries_ :=
     dirty_entries_ r; total_nvm_writes_ := total_nvm_writes_ r;
     total_dram_writes_ := total_dram_writes_ r; dirty_nvm_blocks_ :=
     dirty_nvm_blocks_ r; dirty_nvm_pages_ := dirty_nvm_pages_ r;
     dirty_dram_pages_ := dirty_dram_pages_ r; free_slots_ := free_slots_ r;
     entries_ := entries_ r; nvm_pages_ := nvm_pages_ r; dram_heap_ :=
     dram_heap_ r; nvm_heap_ := nvm_heap_ r; dram_heap_filled_ :=
     dram_heap_filled_ r; nvm_heap_filled_ := nvm_heap_filled_ r; iterations_
     := iterations_ r |}.
Definition set_dirty_entries_ (v : Z) (r : MigrationController) : MigrationController :=
  {| block_bits_ := block_bits_ r; block_mask_ := block_mask_ r; page_bits_ :=
     page_bits_ r; page_mask_ := page_mask_ r; page_blocks_ := page_blocks_ r;
     ptt_length_ := ptt_length_ r; ptt_capacity_ := ptt_capacity_ r;
     dirty_entries_ := v; total_nvm_writes_ := total_nvm_writes_ r;
     total_dram_writes_ := total_dram_writes_ r; dirty_nvm_blocks_ :=
     dirty_nvm_blocks_ r; dirty_nvm_pages_ := dirty_nvm_pages_ r;
     dirty_dram_pages_ := dirty_dram_pages_ r; free_slots_ := free_slots_ r;
     entries_ := entries_ r; nvm_pages_ := nvm_pages_ r; dram_heap_ :=
     dram_heap_ r; nvm_heap_ := nvm_heap_ r; dram_heap_filled_ :=
     dram_heap_filled_ r; nvm_heap_filled_ := nvm_heap_filled_ r; iterations_
     := iterations_ r |}.
Definition set_total_nvm_writes_ (v : Z) (r : MigrationController) : MigrationController :=
  {| block_bits_ := block_bits_ r; block_mask_ := block_mask_ r; page_bits_ :=
     page_bits_ r; page_mask_ := page_mask_ r; page_blocks_ := page_blocks_ r;
     ptt_length_ := ptt_length_ r; ptt_capacity_ := ptt_capacity_ r;
     dirty_entries_ := dirty_entries_ r; total_nvm_writes_ := v;
     total_dram_writes_ := total_dram_writes_ r; dirty_nvm_blocks_ :=
     dirty_nvm_blocks_ r; dirty_nvm_pages_ := dirty_nvm_pages_ r;
     dirty_dram_pages_ := dirty_dram_pages_ r; free_slots_ := free_slots_ r;
     entries_ := entries_ r; nvm_pages_ := nvm_pages_ r; dram_heap_ :=
     dram_heap_ r; nvm_heap_ := nvm_heap_ r; dram_heap_filled_ :=
     dram_heap_filled_ r; nvm_heap_filled_ := nvm_heap_filled_ r; iterations_
     := iterations_ r |}.
Definition set_total_dram_writes_ (v : Z) (r : MigrationController) : MigrationController :=
  {| block_bits_ := block_bits_ r; block_mask_ := block_mask_ r; page_bits_ :=
     page_bits_ r; page_mask_ := page_mask_ r; page_blocks_ := page_blocks_ r;
     ptt_length_ := ptt_length_ r; ptt_capacity_ := ptt_capacity_ r;
     dirty_entries_ := dirty_entries_ r; total_nvm_writes_ :=
     total_nvm_writes_ r; total_dram_writes_ := v; dirty_nvm_blocks_ :=
     dirty_nvm_blocks_ r; dirty_nvm_pages_ := dirty_nvm_pages_ r;
     dirty_dram_pages_ := dirty_dram_pages_ r; free_slots_ := free_slots_ r;
     entries_ := entries_ r; nvm_pages_ := nvm_pages_ r; dram_heap_ :=
     dram_heap_ r; nvm_heap_ := nvm_heap_ r; dram_heap_filled_ :=
     dram_heap_filled_ r; nvm_heap_filled_ := nvm_heap_filled_ r; iterations_
     := iterations_ r |}.
Definition set_dirty_nvm_blocks_ (v : Z) (r : MigrationController) : MigrationController :=
  {| block_bits_ := block_bits_ r; block_mask_ := block_mask_ r; page_bits_ :=
     page_bits_ r; page_mask_ := page_mask_ r; page_blocks_ := page_blocks_ r;
     ptt_length_ := ptt_length_ r; ptt_capacity_ := ptt_capacity_ r;
     dirty_entries_ := dirty_entries_ r; total_nvm_writes_ :=
     total_nvm_writes_ r; total_dram_writes_ := total_dram_writes_ r;
     dirty_nvm_blocks_ := v; dirty_nvm_pages_ := dirty_nvm_pages_ r;
     dirty_dram_pages_ := dirty_dram_pages_ r; free_slots_ := free_slots_ r;
     entries_ := entries_ r; nvm_pages_ := nvm_pages_ r; dram_heap_ :=
     dram_heap_ r; nvm_heap_ := nvm_heap_ r; dram_heap_filled_ :=
     dram_heap_filled_ r; nvm_heap_filled_ := nvm_heap_filled_ r; iterations_
     := iterations_ r |}.
Definition set_dirty_nvm_pages_ (v : Z) (r : MigrationController) : MigrationController :=
  {| block_bits_ := block_bits_ r; block_mask_ := block_mask_ r; page_bits_ :=
     page_bits_ r; page_mask_ := page_mask_ r; page_blocks_ := page_blocks_ r;
     ptt_length_ := ptt_length_ r; ptt_capacity_ := ptt_capacity_ r;
     dirty_entries_ := dirty_entries_ r; total_nvm_writes_ :=
     total_nvm_writes_ r; total_dram_writes_ := total_dram_writes_ r;
     dirty_nvm_blocks_ := dirty_nvm_blocks_ r; dirty_nvm_pages_ := v;
     dirty_dram_pages_ := dirty_dram_pages_ r; free_slots_ := free_slots_ r;
     entries_ := entries_ r; nvm_pages_ := nvm_pages_ r; dram_heap_ :=
     dram_heap_ r; nvm_heap_ := nvm_heap_ r; dram_heap_filled_ :=
     dram_heap_filled_ r; nvm_heap_filled_ := nvm_heap_filled_ r; iterations_
     := iterations_ r |}.
Definition set_dirty_dram_pages_ (v : Z) (r : MigrationController) : MigrationController :=
  {| block_bits_ := block_bits_ r; block_mask_ := block_mask_ r; page_bits_ :=
     page_bits_ r; page_mask_ := page_mask_ r; page_blocks_ := page_blocks_ r;
     ptt_length_ := ptt_length_ r; ptt_capacity_ := ptt_capacity_ r;
     dirty_entries_ := dirty_entries_ r; total_nvm_writes_ :=
     total_nvm_writes_ r; total_dram_writes_ := total_dram_writes_ r;
     dirty_nvm_blocks_ := dirty_nvm_blocks_ r; dirty_nvm_pages_ :=
     dirty_nvm_pages_ r; dirty_dram_pages_ := v; free_slots_ := free_slots_ r;
     entries_ := entries_ r; nvm_pages_ := nvm_pages_ r; dram_heap_ :=
     dram_heap_ r; nvm_heap_ := nvm_heap_ r; dram_heap_filled_ :=
     dram_heap_filled_ r; nvm_heap_filled_ := nvm_heap_filled_ r; iterations_
     := iterations_ r |}.
Definition set_free_slots_ (v : list Z) (r : MigrationController) : MigrationController :=
  {| block_bits_ := block_bits_ r; block_mask_ := block_mask_ r; page_bits_ :=
     page_bits_ r; page_mask_ := page_mask_ r; page_blocks_ := page_blocks_ r;
     ptt_length_ := ptt_length_ r; ptt_capacity_ := ptt_capacity_ r;
     dirty_entries_ := dirty_entries_ r; total_nvm_writes_ :=
     total_nvm_writes_ r; total_dram_writes_ := total_dram_writes_ r;
     dirty_nvm_blocks_ := dirty_nvm_blocks_ r; dirty_nvm_pages_ :=
     dirty_nvm_pages_ r; dirty_dram_pages_ := dirty_dram_pages_ r; free_slots_
     := v; entries_ := entries_ r; nvm_pages_ := nvm_pages_ r; dram_heap_ :=
     dram_heap_ r; nvm_heap_ := nvm_heap_ r; dram_heap_filled_ :=
     dram_heap_filled_ r; nvm_heap_filled_ := nvm_heap_filled_ r; iterations_
     := iterations_ r |}.
Definition set_entries_ (v : gmap Z PTTEntry) (r : MigrationController) : MigrationController :=
  {| block_bits_ := block_bits_ r; block_mask_ := block_mask_ r; page_bits_ :=
     page_bits_ r; page_mask_ := page_mask_ r; page_blocks_ := page_blocks_ r;
     ptt_length_ := ptt_length_ r; ptt_capacity_ := ptt_capacity_ r;
     dirty_entries_ := dirty_entries_ r; total_nvm_writes_ :=
     total_nvm_writes_ r; total_dram_writes_ := total_dram_writes_ r;
     dirty_nvm_blocks_ := dirty_nvm_blocks_ r; dirty_nvm_pages_ :=
     dirty_nvm_pages_ r; dirty_dram_pages_ := dirty_dram_pages_ r; free_slots_
     := free_slots_ r; entries_ := v; nvm_pages_ := nvm_pages_ r; dram_heap_
     := dram_heap_ r; nvm_heap_ := nvm_heap_ r; dram_heap_filled_ :=
     dram_heap_filled_ r; nvm_heap_filled_ := nvm_heap_filled_ r; iterations_
     := iterations_ r |}.
Definition set_nvm_pages_ (v : gmap Z NVMPage) (r : MigrationController) : MigrationController :=
  {| block_bits_ := block_bits_ r; block_mask_ := block_mask_ r; page_bits_ :=
     page_bits_ r; page_mask_ := page_mask_ r; page_blocks_ := page_blocks_ r;
     ptt_length_ := ptt_length_ r; ptt_capacity_ := ptt_capacity_ r;
     dirty_entries_ := dirty_entries_ r; total_nvm_writes_ :=
     total_nvm_writes_ r; total_dram_writes_ := total_dram_writes_ r;
     dirty_nvm_blocks_ := dirty_nvm_blocks_ r; dirty_nvm_pages_ :=
     dirty_nvm_pages_ r; dirty_dram_pages_ := dirty_dram_pages_ r; free_slots_
     := free_slots_ r; entries_ := entries_ r; nvm_pages_ := v; dram_heap_ :=
     dram_heap_ r; nvm_heap_ := nvm_heap_ r; dram_heap_filled_ :=
     dram_heap_filled_ r; nvm_heap_filled_ := nvm_heap_filled_ r; iterations_
     := iterations_ r |}.
Definition set_dram_heap_ (v : list DRAMPageStats) (r : MigrationController) : MigrationController :=
  {| block_bits_ := block_bits_ r; block_mask_ := block_mask_ r; page_bits_ :=
     page_bits_ r; page_mask_ := page_mask_ r; page_blocks_ := page_blocks_ r;
     ptt_length_ := ptt_length_ r; ptt_capacity_ := ptt_capacity_ r;
     dirty_entries_ := dirty_entries_ r; total_nvm_writes_ :=
     total_nvm_writes_ r; total_dram_writes_ := total_dram_writes_ r;
     dirty_nvm_blocks_ := dirty_nvm_blocks_ r; dirty_nvm_pages_ :=
     dirty_nvm_pages_ r; dirty_dram_pages_ := dirty_dram_pages_ r; free_slots_
     := free_slots_ r; entries_ := entries_ r; nvm_pages_ := nvm_pages_ r;
     dram_heap_ := v; nvm_heap_ := nvm_heap_ r; dram_heap_filled_ :=
     dram_heap_filled_ r; nvm_heap_filled_ := nvm_heap_filled_ r; iterations_
     := iterations_ r |}.
Definition set_nvm_heap_ (v : list NVMPageStats) (r : MigrationController) : MigrationController :=
  {| block_bits_ := block_bits_ r; block_mask_ := block_mask_ r; page_bits_ :=
     page_bits_ r; page_mask_ := page_mask_ r; page_blocks_ := page_blocks_ r;
     ptt_length_ := ptt_length_ r; ptt_capacity_ := ptt_capacity_ r;
     dirty_entries_ := dirty_entries_ r; total_nvm_writes_ :=
     total_nvm_writes_ r; total_dram_writes_ := total_dram_writes_ r;
     dirty_nvm_blocks_ := dirty_nvm_blocks_ r; dirty_nvm_pages_ :=
     dirty_nvm_pages_ r; dirty_dram_pages_ := dirty_dram_pages_ r; free_slots_
     := free_slots_ r; entries_ := entries_ r; nvm_pages_ := nvm_pages_ r;
     dram_heap_ := dram_heap_ r; nvm_heap_ := v; dram_heap_filled_ :=
     dram_heap_filled_ r; nvm_heap_filled_ := nvm_heap_filled_ r; iterations_
     := iterations_ r |}.
Definition set_dram_heap_filled_ (v : bool) (r : MigrationController) : MigrationController :=
  {| block_bits_ := block_bits_ r; block_mask_ := block_mask_ r; page_bits_ :=
     page_bits_ r; page_mask_ := page_mask_ r; page_blocks_ := page_blocks_ r;
     ptt_length_ := ptt_length_ r; ptt_capacity_ := ptt_capacity_ r;
     dirty_entries_ := dirty_entries_ r; total_nvm_writes_ :=
     total_nvm_writes_ r; total_dram_writes_ := total_dram_writes_ r;
     dirty_nvm_blocks_ := dirty_nvm_blocks_ r; dirty_nvm_pages_ :=
     dirty_nvm_pages_ r; dirty_dram_pages_ := dirty_dram_pages_ r; free_slots_
     := free_slots_ r; entries_ := entries_ r; nvm_pages_ := nvm_pages_ r;
     dram_heap_ := dram_heap_ r; nvm_heap_ := nvm_heap_ r; dram_heap_filled_
     := v; nvm_heap_filled_ := nvm_heap_filled_ r; iterations_ := iterations_
     r |}.
Definition set_nvm_heap_filled_ (v : bool) (r : MigrationController) : MigrationController :=
  {| block_bits_ := block_bits_ r; block_mask_ := block_mask_ r; page_bits_ :=
     page_bits_ r; page_mask_ := page_mask_ r; page_blocks_ := page_blocks_ r;
     ptt_length_ := ptt_length_ r; ptt_capacity_ := ptt_capacity_ r;
     dirty_entries_ := dirty_entries_ r; total_nvm_writes_ :=
     total_nvm_writes_ r; total_dram_writes_ := total_dram_writes_ r;
     dirty_nvm_blocks_ := dirty_nvm_blocks_ r; dirty_nvm_pages_ :=
     dirty_nvm_pages_ r; dirty_dram_pages_ := dirty_dram_pages_ r; free_slots_
     := free_slots_ r; entries_ := entries_ r; nvm_pages_ := nvm_pages_ r;
     dram_heap_ := dram_heap_ r; nvm_heap_ := nvm_heap_ r; dram_heap_filled_
     := dram_heap_filled_ r; nvm_heap_filled_ := v; iterations_ := iterations_
     r |}.
Definition set_iterations_ (v : nat) (r : MigrationController) : MigrationController :=
  {| block_bits_ := block_bits_ r; block_mask_ := block_mask_ r; page_bits_ :=
     page_bits_ r; page_mask_ := page_mask_ r; page_blocks_ := page_blocks_ r;
     ptt_length_ := ptt_length_ r; ptt_capacity_ := ptt_capacity_ r;
     dirty_entries_ := dirty_entries_ r; total_nvm_writes_ :=
     total_nvm_writes_ r; total_dram_writes_ := total_dram_writes_ r;
     dirty_nvm_blocks_ := dirty_nvm_blocks_ r; dirty_nvm_pages_ :=
     dirty_nvm_pages_ r; dirty_dram_pages_ := dirty_dram_pages_ r; free_slots_
     := free_slots_ r; entries_ := entries_ r; nvm_pages_ := nvm_pages_ r;
     dram_heap_ := dram_heap_ r; nvm_heap_ := nvm_heap_ r; dram_heap_filled_
     := dram_heap_filled_ r; nvm_heap_filled_ := nvm_heap_filled_ r;
     iterations_ := v |}.

(** [iterations_] counts the iterations over the hash maps; see [HashOrder]. *)
Definition new_MigrationController (block_bits page_bits ptt_length : Z) : MigrationController :=
  let cap := i32 (ptt_length + Z.shiftr ptt_length 4) in
  {| block_bits_ := block_bits; block_mask_ := u64 (i32 (Z.shiftl 1 block_bits) - 1);
     page_bits_ := page_bits; page_mask_ := u64 (i32 (Z.shiftl 1 page_bits) - 1);
     page_blocks_ := i32 (Z.shiftl 1 (page_bits - block_bits));
     ptt_length_ := ptt_length; ptt_capacity_ := cap; dirty_entries_ := 0;
     total_nvm_writes_ := 0; total_dram_writes_ := 0; dirty_nvm_blocks_ := 0;
     dirty_nvm_pages_ := 0; dirty_dram_pages_ := 0;
     free_slots_ := zseq cap; entries_ := ∅; nvm_pages_ := ∅; dram_heap_ := []; nvm_heap_ := [];
     dram_heap_filled_ := false; nvm_heap_filled_ := false; iterations_ := 0 |}.

Definition page_size (m : MigrationController) : Z := i32 (Z.shiftl 1 (page_bits_ m)).
Definition PageAlign (m : MigrationController) (addr : Z) : Z := Z.ldiff addr (page_mask_ m).
Definition BlockAlign (m : MigrationController) (addr : Z) : Z := Z.ldiff addr (block_mask_ m).
(** [ptt_capacity_ << page_bits_], an [int] shift. *)
Definition dram_capacity (m : MigrationController) : Z :=
  u64 (i32 (Z.shiftl (ptt_capacity_ m) (page_bits_ m))).
Definition num_entries (m : MigrationController) : Z := Z.of_nat (size (entries_ m)).
Definition num_dirty_entries (m : MigrationController) : Z := dirty_entries_ m.

Definition slots_consistent (m : MigrationController) : bool :=
  Z.of_nat (length (free_slots_ m)) + num_entries m =? ptt_capacity_ m.

Definition LookupPage (phy_addr : Z) (pf : pfref) : PM MigrationController PTTEntry :=
  prof pf AddTableOp ;;
  own (m ← get;
       mret (match entries_ m !! PageAlign m phy_addr with
             | None => new_PTTEntry
             | Some e => e
             end)).

Definition Contains (phy_addr : Z) (pf : pfref) : PM MigrationController bool :=
  prof pf AddTableOp ;;
  own (m ← get; mret (bool_decide (is_Some (entries_ m !! PageAlign m phy_addr)))).

(** [entries_.find(PageAlign(phy_addr))] asserted to be present, then updated. *)
Definition page_mod (site : string) (page : Z) (f : PTTEntry → PTTEntry) :
    M MigrationController unit :=
  m ← get;
  assert_ site (bool_decide (is_Some (entries_ m !! page))) ;;
  modify (λ m, set_entries_ (alter f page (entries_ m)) m).

Definition AddDRAMPageRead (phy_addr : Z) : M MigrationController unit :=
  m ← get;
  page_mod "MigrationController::AddDRAMPageRead" (PageAlign m phy_addr)
    (λ e, set_epoch_reads (i32 (epoch_reads e + 1)) e).

Definition AddDRAMPageWrite (phy_addr : Z) : M MigrationController unit :=
  m ← get;
  page_mod "MigrationController::AddDRAMPageWrite" (PageAlign m phy_addr)
    (λ e, set_epoch_writes (i32 (epoch_writes e + 1)) e).

(** [ShiftState(PTTEntryIterator, ...)]: [page] is the key of the iterator. *)
Definition ShiftState_it (page : Z) (s : PTTState) (pf : pfref) : PM MigrationController unit :=
  own (modify (λ m, set_entries_ (alter (set_state s) page (entries_ m)) m) ;;
       (if is_dirty s then modify (λ m, set_dirty_entries_ (i32 (dirty_entries_ m + 1)) m) else mret tt)) ;;
  prof pf AddTableOp.

Definition ShiftState (page_addr : Z) (s : PTTState) (pf : pfref) : PM MigrationController unit :=
  own (m ← get;
       assert_ "MigrationController::ShiftState" (PageAlign m page_addr =? page_addr) ;;
       assert_ "MigrationController::ShiftState" (bool_decide (is_Some (entries_ m !! page_addr)))) ;;
  ShiftState_it page_addr s pf.

Definition Free (page_addr : Z) (pf : pfref) : PM MigrationController unit :=
  own (m ← get;
       assert_ "MigrationController::Free" (PageAlign m page_addr =? page_addr)) ;;
  entry ← LookupPage page_addr PfOverlap;
  own (m ← get;
       assert_ "MigrationController::Free"
         ((0 <=? index entry) && (index entry <? ptt_capacity_ m)) ;;
       (if is_dirty (state entry)
        then modify (λ m, set_dirty_entries_ (i32 (dirty_entries_ m - 1)) m) else mret tt) ;;
       modify (λ m, set_entries_ (delete (mach_base entry) (entries_ m)) m) ;;
       modify (λ m, set_free_slots_ (free_slots_ m ++ [index entry]) m) ;;
       m ← get;
       assert_ "MigrationController::Free" (slots_consistent m)) ;;
  prof pf AddTableOp.

Definition Setup (page_addr : Z) (s : PTTState) (pf : pfref) : PM MigrationController unit :=
  own (m ← get;
       assert_ "MigrationController::Setup" (PageAlign m page_addr =? page_addr)) ;;
  c ← Contains page_addr PfOverlap;
  own (assert_ "MigrationController::Setup" (negb c) ;;
       m ← get;
       slot ← of_option (EUndef "free_slots_.back()") (last (free_slots_ m));
       let fresh := set_index slot new_PTTEntry in
       modify (λ m, set_entries_ (<[page_addr := fresh]> (entries_ m)) m) ;;
       modify (λ m, set_free_slots_ (removelast (free_slots_ m)) m) ;;
       m ← get;
       assert_ "MigrationController::Setup" (slots_consistent m) ;;
       modify (λ m, set_entries_ (alter (set_state s) page_addr (entries_ m)) m) ;;
       (if is_dirty s then modify (λ m, set_dirty_entries_ (i32 (dirty_entries_ m + 1)) m) else mret tt) ;;
       modify (λ m, set_entries_ (alter (set_mach_base page_addr) page_addr (entries_ m)) m) ;;
       m ← get;
       assert_ "MigrationController::Setup" (num_entries m <=? ptt_capacity_ m)) ;;
  prof pf AddTableOp.

Definition Translate (phy_addr page_base : Z) : M MigrationController Z :=
  m ← get;
  assert_ "MigrationController::Translate" (Z.land page_base (page_mask_ m) =? 0) ;;
  mret (u64 (page_base + Z.land phy_addr (page_mask_ m))).

(** The loop of [AddToBlockList]; a page has [page_blocks_] blocks. *)
Fixpoint block_loop (fuel : nat) (a next_page step : Z) (list : list Z) : res (Datatypes.list Z) :=
  match fuel with
  | O => Err EFuel
  | Datatypes.S fuel' =>
      if a <? next_page then block_loop fuel' (u64 (a + step)) next_page step (list ++ [a])
      else Ok list
  end.

Definition AddToBlockList (page : Z) (list : Datatypes.list Z) :
    M MigrationController (Datatypes.list Z) :=
  m ← get;
  assert_ "MigrationController::AddToBlockList" (Z.land page (page_mask_ m) =? 0) ;;
  match block_loop (Datatypes.S (Z.to_nat (page_blocks_ m))) page (u64 (page + page_size m))
          (i32 (Z.shiftl 1 (block_bits_ m))) list with
  | Ok l => mret l
  | Err e => err e
  end.

Section Heaps.
Context `{HashOrder, HeapAlgo}.

Definition ratio (n page_blocks : Z) : Q := Qmake n (Z.to_pos page_blocks).

(** An iteration over a hash map takes the next order. *)
Definition iterate {V} (f : MigrationController → gmap Z V) : M MigrationController (list (Z * V)) :=
  m ← get;
  modify (λ m, set_iterations_ (Datatypes.S (iterations_ m)) m) ;;
  mret (iter_order (iterations_ m) (f m)).

Definition FillNVMPageHeap : M MigrationController unit :=
  l ← iterate nvm_pages_;
  for_each l (λ '(addr, p),
    modify (λ m, set_nvm_heap_ (nvm_heap_ m ++
      [{| n_phy_addr := addr;
          n_dirty_ratio := ratio (Z.of_nat (size (p_blocks p))) (page_blocks_ m);
          n_write_ratio := ratio (p_epoch_writes p) (page_blocks_ m) |}]) m) ;;
    modify (λ m, set_total_nvm_writes_ (u64 (total_nvm_writes_ m + p_epoch_writes p)) m) ;;
    modify (λ m, set_dirty_nvm_blocks_
      (u64 (dirty_nvm_blocks_ m + Z.of_nat (size (p_blocks p)))) m)) ;;
  modify (λ m, set_nvm_heap_ (make_heap nvm_less (nvm_heap_ m)) m) ;;
  modify (set_nvm_heap_filled_ true).

Definition FillDRAMPageHeap : M MigrationController unit :=
  l ← iterate entries_;
  for_each l (λ '(addr, e),
    modify (λ m, set_dram_heap_ (dram_heap_ m ++
      [{| d_phy_addr := addr; d_state := state e;
          d_write_ratio := ratio (epoch_writes e) (page_blocks_ m) |}]) m) ;;
    modify (λ m, set_total_dram_writes_ (u64 (total_dram_writes_ m + epoch_writes e)) m)) ;;
  m ← get;
  let dirts := Z.of_nat (length (filter (λ x : Z * PTTEntry, epoch_writes x.2 ≠ 0) l)) in
  assert_ "MigrationController::FillDRAMPageHeap" (dirts =? dirty_entries_ m) ;;
  modify (λ m, set_dirty_dram_pages_ (u64 (dirty_dram_pages_ m + dirty_entries_ m)) m) ;;
  modify (λ m, set_dram_heap_ (make_heap dram_less (dram_heap_ m)) m) ;;
  modify (set_dram_heap_filled_ true).

Definition input_block (it : AddrTransTable.ATTEntry) : M MigrationController unit :=
  if AddrTransTable.state_eqb (AddrTransTable.state it) AddrTransTable.CLEAN ||
     AddrTransTable.state_eqb (AddrTransTable.state it) AddrTransTable.FREE then
    assert_ "MigrationController::InputBlocks" (AddrTransTable.epoch_writes it =? 0)
  else
    m ← get;
    let block_addr := u64 (Z.shiftl (AddrTransTable.phy_tag it) (block_bits_ m)) in
    let page := PageAlign m block_addr in
    let p := default (MkNVMPage 0 0 ∅) (nvm_pages_ m !! page) in
    let p1 := MkNVMPage (i32 (p_epoch_reads p + AddrTransTable.epoch_reads it))
                        (i32 (p_epoch_writes p + AddrTransTable.epoch_writes it)) (p_blocks p) in
    if negb (AddrTransTable.epoch_writes it =? 0) then
      let p2 := MkNVMPage (p_epoch_reads p1) (p_epoch_writes p1) ({[block_addr]} ∪ p_blocks p1) in
      put (set_nvm_pages_ (<[page := p2]> (nvm_pages_ m)) m) ;;
      assert_ "MigrationController::InputBlocks" (Z.of_nat (size (p_blocks p2)) <=? page_blocks_ m)
    else put (set_nvm_pages_ (<[page := p1]> (nvm_pages_ m)) m).

Definition InputBlocks (blocks : list AddrTransTable.ATTEntry) : M MigrationController unit :=
  m ← get;
  assert_ "MigrationController::InputBlocks" (bool_decide (nvm_pages_ m = ∅)) ;;
  for_each blocks input_block ;;
  modify (λ m, set_dirty_nvm_pages_
    (u64 (dirty_nvm_pages_ m + Z.of_nat (size (nvm_pages_ m)))) m) ;;
  FillNVMPageHeap ;;
  FillDRAMPageHeap.

(** [stats] is the argument the sources fill in; [None] is the result false. *)
Definition ExtractNVMPage (pf : pfref) : PM MigrationController (option NVMPageStats) :=
  r ← own (m ← get;
           assert_ "MigrationController::ExtractNVMPage" (nvm_heap_filled_ m) ;;
           match nvm_heap_ m with
           | [] => mret None
           | stats :: _ =>
               modify (λ m, set_nvm_heap_ (pop_heap nvm_less (nvm_heap_ m)) m) ;;
               modify (λ m, set_nvm_heap_ (removelast (nvm_heap_ m)) m) ;;
               mret (Some stats)
           end);
  match r with
  | None => mret None
  | Some stats => prof pf AddTableOp ;; mret (Some stats)
  end.

Definition ExtractDRAMPage (pf : pfref) : PM MigrationController (option DRAMPageStats) :=
  r ← own (m ← get;
           assert_ "MigrationController::ExtractDRAMPage" (dram_heap_filled_ m) ;;
           match dram_heap_ m with
           | [] => mret None
           | stats :: _ =>
               modify (λ m, set_dram_heap_ (pop_heap dram_less (dram_heap_ m)) m) ;;
               modify (λ m, set_dram_heap_ (removelast (dram_heap_ m)) m) ;;
               mret (Some stats)
           end);
  match r with
  | None => mret None
  | Some stats => prof pf AddTableOp ;; mret (Some stats)
  end.

(** One turn of the loop of [Clear], for the entry with key [page]. *)
Definition clear_page (page : Z) (pf : pfref) (ckpt : list Z) : PM MigrationController (list Z) :=
  own (modify (λ m, set_entries_
    (alter (λ e, set_epoch_writes 0 (set_epoch_reads 0 e)) page (entries_ m)) m)) ;;
  e ← own (m ← get; of_option (EUndef "PTTEntryIterator") (entries_ m !! page));
  match state e with
  | DIRTY_DIRECT =>
      ShiftState_it page CLEAN_DIRECT pf ;;
      own (modify (λ m, set_dirty_entries_ (i32 (dirty_entries_ m - 1)) m) ;;
           AddToBlockList (mach_base e) ckpt)
  | DIRTY_STATIC =>
      ShiftState_it page CLEAN_STATIC pf ;;
      own (modify (λ m, set_dirty_entries_ (i32 (dirty_entries_ m - 1)) m) ;;
           AddToBlockList (mach_base e) ckpt)
  | _ => mret ckpt
  end.

Fixpoint clear_pages (pages : list (Z * PTTEntry)) (pf : pfref) (ckpt : list Z) :
    PM MigrationController (list Z) :=
  match pages with
  | [] => mret ckpt
  | (page, _) :: l => ckpt' ← clear_page page pf ckpt; clear_pages l pf ckpt'
  end.

Definition Clear (pf : pfref) (ckpt : list Z) : PM MigrationController (list Z) :=
  d ← own (gets dirty_entries_);
  prof pf (AddPageMoveInter d) ;;
  l ← own (iterate entries_);
  ckpt' ← clear_pages l pf ckpt;
  own (m ← get;
       assert_ "MigrationController::Clear" (dirty_entries_ m =? 0) ;;
       modify (set_nvm_pages_ ∅) ;;
       modify (set_dram_heap_ []) ;;
       modify (set_nvm_heap_ []) ;;
       modify (set_dram_heap_filled_ false) ;;
       modify (set_nvm_heap_filled_ false)) ;;
  mret ckpt'.

End Heaps.
