(* ===== verification/MigrationSpec.v ===== *)
(** Specifications of the migration controller: the invariant [mig_ok] of the
    page table (every DRAM frame belongs to one page or is free, and the count of
    dirty pages is exact), the link [mig_stats] between the state of a page and
    its write counter, and what each operation does to them. *)

From Stdlib Require Import QArith.
From S2P Require Import Prelude Profiler StdAlgo MigrationController.
From S2P Require AddrTransTable.
#[global] Open Scope Z_scope.

Record mig_geom (m : MigrationController) : Prop := {
  mg_bits : 0 ≤ block_bits_ m ≤ page_bits_ m;
  mg_page : page_bits_ m < 31;
  mg_bmask : block_mask_ m = 2 ^ block_bits_ m - 1;
  mg_pmask : page_mask_ m = 2 ^ page_bits_ m - 1;
  mg_blocks : page_blocks_ m = 2 ^ (page_bits_ m - block_bits_ m);
  mg_cap : ptt_capacity_ m < 2 ^ 31;
}.

(** A page number that can be used without wrap-around. *)
Definition page_ok (m : MigrationController) (page : Z) : Prop :=
  page mod 2 ^ page_bits_ m = 0 ∧ 0 ≤ page ∧ page + 2 ^ page_bits_ m < 2 ^ 64.

Definition dirty_page (e : PTTEntry) : bool := is_dirty (state e).

Record mig_ok (m : MigrationController) : Prop := {
  m_geom : mig_geom m;
  m_slots : Z.of_nat (length (free_slots_ m)) + num_entries m = ptt_capacity_ m;
  m_page page e : entries_ m !! page = Some e →
    page_ok m page ∧ mach_base e = page ∧ 0 ≤ index e < ptt_capacity_ m;
  m_inj p p' e e' : entries_ m !! p = Some e → entries_ m !! p' = Some e' →
    index e = index e' → p = p';
  m_nodup : NoDup (free_slots_ m);
  m_free s : s ∈ free_slots_ m → 0 ≤ s < ptt_capacity_ m;
  m_free_unused s page e : s ∈ free_slots_ m → entries_ m !! page = Some e → index e ≠ s;
  m_dirty : dirty_entries_ m = mcount dirty_page (entries_ m);
}.

Definition mig_stats (m : MigrationController) : Prop :=
  ∀ page e, entries_ m !! page = Some e →
    0 ≤ epoch_writes e ∧ (epoch_writes e ≠ 0 ↔ is_dirty (state e) = true).

(** The fields set by the constructor. *)
Definition same_mgeom (m m' : MigrationController) : Prop :=
  block_bits_ m' = block_bits_ m ∧ block_mask_ m' = block_mask_ m ∧
  page_bits_ m' = page_bits_ m ∧ page_mask_ m' = page_mask_ m ∧
  page_blocks_ m' = page_blocks_ m ∧ ptt_length_ m' = ptt_length_ m ∧
  ptt_capacity_ m' = ptt_capacity_ m.

(** What the choice of pages works on. *)
Definition same_heaps (m m' : MigrationController) : Prop :=
  nvm_pages_ m' = nvm_pages_ m ∧ dram_heap_ m' = dram_heap_ m ∧ nvm_heap_ m' = nvm_heap_ m ∧
  dram_heap_filled_ m' = dram_heap_filled_ m ∧ nvm_heap_filled_ m' = nvm_heap_filled_ m.

(** Nothing but statistics that are only reported. *)
Definition same_table (m m' : MigrationController) : Prop :=
  same_mgeom m m' ∧ entries_ m' = entries_ m ∧ free_slots_ m' = free_slots_ m ∧
  dirty_entries_ m' = dirty_entries_ m.

(** The blocks of a page. *)
Definition page_list (m : MigrationController) (page : Z) : list Z :=
  (λ k, page + k * 2 ^ block_bits_ m) <$> zseq (page_blocks_ m).

Definition clean_of (s : PTTState) : PTTState :=
  match s with DIRTY_DIRECT => CLEAN_DIRECT | DIRTY_STATIC => CLEAN_STATIC | s => s end.

Definition clear_entry (e : PTTEntry) : PTTEntry :=
  set_state (clean_of (state e)) (set_epoch_writes 0 (set_epoch_reads 0 e)).

(** ** Geometry *)

Lemma same_mgeom_geom m m' : same_mgeom m m' → mig_geom m → mig_geom m'.
Proof. intros (E1&E2&E3&E4&E5&E6&E7) []. split; rewrite ?E1, ?E2, ?E3, ?E4, ?E5, ?E7; auto. Qed.

#[global] Instance same_mgeom_preorder : PreOrder same_mgeom.
Proof.
  split; [done|]. unfold same_mgeom. intros x y z H1 H2. destruct_and!. split_and!; congruence.
Qed.

#[global] Instance same_heaps_preorder : PreOrder same_heaps.
Proof.
  split; [done|]. unfold same_heaps. intros x y z H1 H2. destruct_and!. split_and!; congruence.
Qed.

#[global] Instance same_table_preorder : PreOrder same_table.
Proof.
  split; [done|]. unfold same_table. intros x y z H1 H2. destruct_and!.
  split; [by etrans|]. split_and!; congruence.
Qed.

Lemma page_ok_same m m' page : same_mgeom m m' → page_ok m page → page_ok m' page.
Proof. unfold page_ok. by intros (_&_&->&_). Qed.

Lemma PageAlign_eq m addr : mig_geom m → PageAlign m addr = addr - addr mod 2 ^ page_bits_ m.
Proof. intros []. unfold PageAlign. rewrite mg_pmask0. apply ldiff_mask. lia. Qed.

Lemma PageAlign_page m page : mig_geom m → page_ok m page → PageAlign m page = page.
Proof. intros Hg (Hp&_). rewrite PageAlign_eq, Hp by done. lia. Qed.

Lemma page_size_eq m : mig_geom m → page_size m = 2 ^ page_bits_ m.
Proof.
  intros Hg. pose proof (mg_bits _ Hg). pose proof (mg_page _ Hg). unfold page_size.
  rewrite shiftl_pow2, Z.mul_1_l by lia.
  assert (0 < 2 ^ page_bits_ m < 2 ^ 31) by (split; [apply pow2_pos|apply Z.pow_lt_mono_r]; lia).
  apply i32_small. lia.
Qed.

Lemma page_blocks_mul m : mig_geom m →
  0 < page_blocks_ m ∧ page_blocks_ m * 2 ^ block_bits_ m = 2 ^ page_bits_ m.
Proof.
  intros Hg. pose proof (mg_bits _ Hg). rewrite (mg_blocks _ Hg). split; [apply pow2_pos; lia|].
  rewrite <- Z.pow_add_r by lia. f_equal. lia.
Qed.

(** ** AddToBlockList *)

Lemma block_loop_S n a next step l : block_loop (S n) a next step l =
  if a <? next then block_loop n (u64 (a + step)) next step (l ++ [a]) else Ok l.
Proof. done. Qed.

Lemma block_loop_spec n a step l next : 0 < step → 0 ≤ a →
  next = a + Z.of_nat n * step → next < 2 ^ 64 →
  block_loop (S n) a next step l = Ok (l ++ ((λ k, a + k * step) <$> zseq (Z.of_nat n))).
Proof.
  intros Hs. revert a l. induction n as [|n IH]; intros a l Ha Hn Htop.
  - rewrite block_loop_S. destruct (Z.ltb_spec a next); [lia|]. by rewrite app_nil_r.
  - rewrite block_loop_S. destruct (Z.ltb_spec a next); [|nia]. rewrite u64_small by nia.
    rewrite IH by nia. rewrite <- app_assoc. do 2 f_equal.
    unfold zseq. rewrite Nat2Z.inj_succ, (seqZ_cons 0 (Z.succ _)) by lia. rewrite Z.pred_succ.
    simpl. f_equal; [lia|]. replace (Z.succ 0) with (1 + 0) by lia.
    rewrite <- fmap_add_seqZ, <- list_fmap_compose.
    apply list_fmap_ext. intros ? k _. simpl. lia.
Qed.

Lemma wp_AddToBlockList m page l (Q : list Z → MigrationController → Prop) :
  mig_geom m → page_ok m page → Q (l ++ page_list m page) m → wp (AddToBlockList page l) Q m.
Proof.
  intros Hg (Hal&H0&Htop) HQ. pose proof (mg_bits _ Hg). pose proof (mg_page _ Hg).
  pose proof (page_blocks_mul _ Hg) as [Hb Hmul].
  assert (0 < 2 ^ block_bits_ m < 2 ^ 31) by (split; [apply pow2_pos|apply Z.pow_lt_mono_r]; lia).
  assert (2 ^ block_bits_ m ≤ 2 ^ page_bits_ m) by (apply Z.pow_le_mono_r; lia).
  unfold AddToBlockList. do 4 wp_step.
  { rewrite (mg_pmask _ Hg), land_mask, Hal by lia. done. }
  rewrite page_size_eq, (u64_small (page + _)), shiftl_pow2, Z.mul_1_l, i32_small by (done || lia).
  rewrite block_loop_spec by nia. rewrite Z2Nat.id by lia. done.
Qed.

(** ** The page table *)

Lemma wp_LookupPage m ps addr pf (Q : PTTEntry → MigrationController * Profs → Prop) :
  (∀ ps', pf_same ps ps' →
     Q (default new_PTTEntry (entries_ m !! PageAlign m addr)) (m, ps')) →
  wp (LookupPage addr pf) Q (m, ps).
Proof.
  intros HQ. unfold LookupPage. wp_step. apply wp_prof_quiet; [apply _|]. intros ps' Hps.
  apply wp_own. repeat wp_step. specialize (HQ ps' Hps). by destruct (entries_ m !! _).
Qed.

Lemma wp_mig_Contains m ps addr pf (Q : bool → MigrationController * Profs → Prop) :
  (∀ ps', pf_same ps ps' →
     Q (bool_decide (is_Some (entries_ m !! PageAlign m addr))) (m, ps')) →
  wp (Contains addr pf) Q (m, ps).
Proof.
  intros HQ. unfold Contains. wp_step. apply wp_prof_quiet; [apply _|]. intros ps' Hps.
  apply wp_own. repeat wp_step. by apply HQ.
Qed.

Lemma mig_ok_table m m' : same_table m m' → mig_ok m → mig_ok m'.
Proof.
  intros (Hg&Hent&Hfree&Hdirty) Hok.
  pose proof (proj2 (proj2 (proj2 (proj2 (proj2 (proj2 Hg)))))) as Hcap.
  split; rewrite ?Hent, ?Hfree, ?Hdirty, ?Hcap; try apply Hok.
  - eapply same_mgeom_geom; [done|]. apply (m_geom _ Hok).
  - unfold num_entries. rewrite Hent. apply (m_slots _ Hok).
  - intros page e He. destruct (m_page _ Hok _ _ He) as (?&?&?).
    split; [by eapply page_ok_same|done].
Qed.

Lemma mig_stats_table m m' : same_table m m' → mig_stats m → mig_stats m'.
Proof. intros (_&Hent&_) Hs page e. rewrite Hent. apply Hs. Qed.

(** The count of dirty pages is an [int] and cannot wrap. *)
Lemma dirty_counted m m' : mig_geom m → Z.of_nat (length (free_slots_ m')) + num_entries m' = ptt_capacity_ m → ∀ x,
  x = mcount dirty_page (entries_ m') → dirty_entries_ m' = x ∨ dirty_entries_ m' = i32 x → dirty_entries_ m' = mcount dirty_page (entries_ m').
Proof.
  intros Hg Hs x -> [->| ->]; [done|]. pose proof (mg_cap _ Hg). pose proof (mcount_nonneg dirty_page (entries_ m')).
  pose proof (mcount_le_size dirty_page (entries_ m')). unfold num_entries in Hs. apply i32_small. lia.
Qed.

(** Rewriting the entry of a page without moving it. *)
Lemma mig_ok_alter m m' page e f :
  mig_ok m → entries_ m !! page = Some e → same_mgeom m m' →
  entries_ m' = alter f page (entries_ m) → free_slots_ m' = free_slots_ m →
  index (f e) = index e → mach_base (f e) = mach_base e →
  (let x := dirty_entries_ m - Z.b2z (dirty_page e) + Z.b2z (dirty_page (f e)) in dirty_entries_ m' = x ∨ dirty_entries_ m' = i32 x) →
  mig_ok m'.
Proof.
  intros Hok He Hg Hent Hfree Hidx Hbase Hdirty.
  assert (∀ p e', entries_ m' !! p = Some e' →
    ∃ e0, entries_ m !! p = Some e0 ∧ index e' = index e0 ∧ mach_base e' = mach_base e0) as Hback.
  { intros p e'. rewrite Hent, lookup_alter_Some. intros [(->&e0&He0&->)|[_ ?]]; [|by eauto].
    exists e0. rewrite He0 in He. injection He as ->. eauto. }
  pose proof (proj2 (proj2 (proj2 (proj2 (proj2 (proj2 Hg)))))) as Hcap.
  assert (Z.of_nat (length (free_slots_ m')) + num_entries m' = ptt_capacity_ m) as Hsl.
  { unfold num_entries. rewrite Hfree, <- (m_slots _ Hok), Hent.
    rewrite <- !size_dom, dom_alter_L. unfold num_entries. by rewrite <- size_dom. }
  split.
  - eapply same_mgeom_geom; [done|]. apply (m_geom _ Hok).
  - by rewrite Hcap.
  - intros p e' Hp. destruct (Hback _ _ Hp) as (e0&He0&->&->).
    destruct (m_page _ Hok _ _ He0) as (?&?&?). rewrite Hcap.
    split; [by eapply page_ok_same|done].
  - intros p p' e1 e2 H1 H2. destruct (Hback _ _ H1) as (?&?&->&_), (Hback _ _ H2) as (?&?&->&_).
    by eapply (m_inj _ Hok).
  - rewrite Hfree. apply (m_nodup _ Hok).
  - intros s. rewrite Hfree, Hcap. apply (m_free _ Hok).
  - intros s p e1 Hs H1. destruct (Hback _ _ H1) as (?&?&->&_).
    rewrite Hfree in Hs. by eapply (m_free_unused _ Hok).
  - eapply (dirty_counted m); [apply (m_geom _ Hok)|done| |exact Hdirty].
    rewrite Hent, (m_dirty _ Hok), (alter_as_insert _ _ _ e) by done. by erewrite mcount_insert.
Qed.

Lemma wp_page_mod site page f e m (Q : unit → MigrationController → Prop) :
  entries_ m !! page = Some e →
  Q tt (set_entries_ (alter f page (entries_ m)) m) → wp (page_mod site page f) Q m.
Proof.
  intros He HQ. unfold page_mod. repeat wp_step; [|done].
  apply bool_decide_eq_true. eauto.
Qed.

(** A statistic of a page is bumped. *)
Lemma mig_ok_bump m page e f :
  mig_ok m → entries_ m !! page = Some e →
  index (f e) = index e → mach_base (f e) = mach_base e → state (f e) = state e →
  mig_ok (set_entries_ (alter f page (entries_ m)) m).
Proof.
  intros Hok He H1 H2 H3. eapply mig_ok_alter; [done|done|done|done|done|done|done|].
  left. unfold dirty_page. rewrite H3. simpl. lia.
Qed.

Lemma wp_mig_ShiftState m ps page e s pf (Q : unit → MigrationController * Profs → Prop) :
  mig_ok m → entries_ m !! page = Some e → is_dirty (state e) = false →
  (∀ m' ps', mig_ok m' → same_mgeom m m' → same_heaps m m' →
     entries_ m' = alter (set_state s) page (entries_ m) → pf_same ps ps' → Q tt (m', ps')) →
  wp (ShiftState page s pf) Q (m, ps).
Proof.
  intros Hok He Hclean HQ. destruct (m_page _ Hok _ _ He) as (Hp&_).
  unfold ShiftState, ShiftState_it. wp_step. apply wp_own. repeat wp_step.
  - rewrite PageAlign_page; [apply Z.eqb_refl|apply (m_geom _ Hok)|done].
  - apply bool_decide_eq_true. eauto.
  - apply wp_own. repeat wp_step.
    set (m' := if is_dirty s then
       set_dirty_entries_ (i32 (dirty_entries_ m + 1))
         (set_entries_ (alter (set_state s) page (entries_ m)) m)
       else set_entries_ (alter (set_state s) page (entries_ m)) m).
    assert (mig_ok m') as Hok'.
    { unfold m'. eapply (mig_ok_alter m _ page e (set_state s));
        [done|done| | | |done|done|]; destruct (is_dirty s) eqn:Es; try done;
        unfold dirty_page; simpl; rewrite Es, Hclean; simpl; rewrite Z.sub_0_r, ?Z.add_0_r; auto. }
    assert (wp (if is_dirty s then modify (λ m, set_dirty_entries_ (i32 (dirty_entries_ m + 1)) m)
                else mret tt) (λ _ m1, m1 = m')
      (set_entries_ (alter (set_state s) page (entries_ m)) m)) as Hif.
    { unfold m'. by destruct (is_dirty s). }
    eapply wp_mono; [exact Hif|]. intros [] m1 ->. apply wp_prof_quiet; [apply _|].
    intros ps' Hps. apply HQ; [done|..|done]; unfold m'; by destruct (is_dirty s).
Qed.

Lemma slots_consistent_true m :
  Z.of_nat (length (free_slots_ m)) + num_entries m = ptt_capacity_ m → slots_consistent m = true.
Proof. apply Z.eqb_eq. Qed.

(** The table without the page whose entry is [e]: its frame becomes free. *)
Lemma mig_ok_free m m' page e :
  mig_ok m → entries_ m !! page = Some e → same_mgeom m m' →
  entries_ m' = delete page (entries_ m) → free_slots_ m' = free_slots_ m ++ [index e] →
  (let x := dirty_entries_ m - Z.b2z (dirty_page e) in dirty_entries_ m' = x ∨ dirty_entries_ m' = i32 x) → mig_ok m'.
Proof.
  intros Hok He Hg Hent Hfree Hdirty.
  pose proof (proj2 (proj2 (proj2 (proj2 (proj2 (proj2 Hg)))))) as Hcap.
  assert (∀ p e', entries_ m' !! p = Some e' → p ≠ page ∧ entries_ m !! p = Some e') as Hback.
  { intros p e'. rewrite Hent, lookup_delete_Some. naive_solver. }
  assert (Z.of_nat (length (free_slots_ m')) + num_entries m' = ptt_capacity_ m) as Hsl.
  { unfold num_entries. rewrite Hfree, <- (m_slots _ Hok), Hent, length_app.
    unfold num_entries. rewrite map_size_delete_Some by eauto.
    assert (size (entries_ m) ≠ 0%nat) by (apply map_size_non_empty_iff; intros E; by rewrite E in He).
    simpl. lia. }
  destruct (m_page _ Hok _ _ He) as (?&?&Hidx). split.
  - eapply same_mgeom_geom; [done|]. apply (m_geom _ Hok).
  - by rewrite Hcap.
  - intros p e' Hp. destruct (Hback _ _ Hp) as [_ Hp']. rewrite Hcap.
    destruct (m_page _ Hok _ _ Hp') as (?&?&?). split; [by eapply page_ok_same|done].
  - intros p p' e1 e2 [_ H1]%Hback [_ H2]%Hback. by eapply (m_inj _ Hok).
  - rewrite Hfree. apply NoDup_app. split; [apply (m_nodup _ Hok)|]. split; [|apply NoDup_singleton].
    intros s Hs Hs'%list_elem_of_singleton. subst s. by eapply (m_free_unused _ Hok).
  - intros s. rewrite Hfree, Hcap, elem_of_app, list_elem_of_singleton.
    intros [?| ->]; [by eapply (m_free _ Hok)|done].
  - intros s p e1. rewrite Hfree, elem_of_app, list_elem_of_singleton.
    intros [Hs| ->] [Hne H1]%Hback; [by eapply (m_free_unused _ Hok)|].
    intros E. apply Hne. by eapply (m_inj _ Hok).
  - eapply (dirty_counted m); [apply (m_geom _ Hok)|done| |exact Hdirty]. rewrite Hent, (m_dirty _ Hok). by erewrite mcount_delete.
Qed.

Lemma wp_Free m ps page e pf (Q : unit → MigrationController * Profs → Prop) :
  mig_ok m → entries_ m !! page = Some e →
  (∀ m' ps', mig_ok m' → same_mgeom m m' → same_heaps m m' →
     entries_ m' = delete page (entries_ m) → pf_same ps ps' → Q tt (m', ps')) →
  wp (Free page pf) Q (m, ps).
Proof.
  intros Hok He HQ. destruct (m_page _ Hok _ _ He) as (Hp&Hbase&Hidx).
  pose proof (m_geom _ Hok) as Hg. unfold Free. wp_step. apply wp_own. repeat wp_step.
  { rewrite PageAlign_page by done. apply Z.eqb_refl. }
  apply wp_LookupPage. intros ps1 Hps1. rewrite PageAlign_page, He by done. simpl default.
  wp_step. apply wp_own. do 3 wp_step. wp_step.
  { apply andb_true_iff. rewrite Z.leb_le, Z.ltb_lt. lia. }
  set (m1 := if is_dirty (state e) then set_dirty_entries_ (i32 (dirty_entries_ m - 1)) m else m).
  wp_step. apply (wp_mono _ (λ _ m0, m0 = m1)).
  { unfold m1. by destruct (is_dirty (state e)). }
  intros [] ? ->. do 4 wp_step.
  set (m2 := set_free_slots_ _ _). assert (same_mgeom m m2) as Hgm.
  { unfold m2, m1. by destruct (is_dirty (state e)). }
  assert (mig_ok m2) as Hok2.
  { eapply (mig_ok_free m); [done|done|done|..]; unfold m2, m1, dirty_page;
      destruct (is_dirty (state e)); simpl; rewrite ?Hbase, ?Z.sub_0_r; auto. }
  repeat wp_step; [by apply slots_consistent_true, m_slots|].
  apply wp_prof_quiet; [apply _|]. intros ps2 Hps2. apply HQ; [done|done|..|by etrans];
    unfold m2, m1; destruct (is_dirty (state e)); simpl; by rewrite ?Hbase.
Qed.

(** The table with a new page in the frame [slot]. *)
Lemma mig_ok_setup m m' page e l slot :
  mig_ok m → entries_ m !! page = None → page_ok m page → same_mgeom m m' →
  free_slots_ m = l ++ [slot] → free_slots_ m' = l →
  entries_ m' = <[page := e]> (entries_ m) → index e = slot → mach_base e = page →
  (let x := dirty_entries_ m + Z.b2z (dirty_page e) in dirty_entries_ m' = x ∨ dirty_entries_ m' = i32 x) → mig_ok m'.
Proof.
  intros Hok Hnone Hp Hg Hl Hfree Hent Hidx Hbase Hdirty.
  pose proof (proj2 (proj2 (proj2 (proj2 (proj2 (proj2 Hg)))))) as Hcap.
  assert (∀ p e', entries_ m' !! p = Some e' → (p = page ∧ e' = e) ∨
    (p ≠ page ∧ entries_ m !! p = Some e')) as Hback.
  { intros p e'. rewrite Hent, lookup_insert_Some. naive_solver. }
  assert (slot ∈ free_slots_ m ∧ ∀ s, s ∈ l → s ∈ free_slots_ m ∧ s ≠ slot) as [Hslot Hsub].
  { pose proof (m_nodup _ Hok) as Hnd. rewrite Hl in *. apply NoDup_app in Hnd as (_&Hd&_).
    split; [set_solver|]. intros s Hs. split; [set_solver|]. intros ->. set_solver. }
  assert (Z.of_nat (length (free_slots_ m')) + num_entries m' = ptt_capacity_ m) as Hsl.
  { unfold num_entries. rewrite Hfree, <- (m_slots _ Hok), Hent, Hl, length_app.
    unfold num_entries. rewrite map_size_insert_None by done. simpl. lia. }
  split.
  - eapply same_mgeom_geom; [done|]. apply (m_geom _ Hok).
  - by rewrite Hcap.
  - intros p e' Hp'. rewrite Hcap. destruct (Hback _ _ Hp') as [[-> ->]|[_ H1]].
    + split; [by eapply page_ok_same|]. rewrite Hidx. split; [done|]. by apply (m_free _ Hok).
    + destruct (m_page _ Hok _ _ H1) as (?&?&?). split; [by eapply page_ok_same|done].
  - intros p p' e1 e2 [[-> ->]|[_ H1]]%Hback [[-> ->]|[_ H2]]%Hback; [done|..|by eapply (m_inj _ Hok)].
    + rewrite Hidx. intros E. by destruct (m_free_unused _ Hok _ _ _ Hslot H2).
    + rewrite Hidx. intros E. by destruct (m_free_unused _ Hok _ _ _ Hslot H1).
  - pose proof (m_nodup _ Hok) as Hnd. rewrite Hl in Hnd. rewrite Hfree.
    by apply NoDup_app in Hnd as (?&_).
  - intros s. rewrite Hfree, Hcap. intros [Hs _]%Hsub. by apply (m_free _ Hok).
  - intros s p e1. rewrite Hfree. intros [Hs Hne]%Hsub [[-> ->]|[_ H1]]%Hback; [congruence|].
    by eapply (m_free_unused _ Hok).
  - eapply (dirty_counted m); [apply (m_geom _ Hok)|done| |exact Hdirty]. rewrite Hent, (m_dirty _ Hok). by rewrite mcount_insert_fresh.
Qed.

Lemma wp_mig_Setup m ps page s pf (Q : unit → MigrationController * Profs → Prop) :
  mig_ok m → entries_ m !! page = None → page_ok m page → num_entries m < ptt_capacity_ m →
  (∀ m' ps' slot, mig_ok m' → same_mgeom m m' → same_heaps m m' →
     entries_ m' = <[page := MkPTTEntry s 0 0 slot page]> (entries_ m) →
     pf_same ps ps' → Q tt (m', ps')) →
  wp (Setup page s pf) Q (m, ps).
Proof.
  intros Hok Hnone Hp Hcap HQ. pose proof (m_geom _ Hok) as Hg.
  assert (∃ l slot, free_slots_ m = l ++ [slot]) as (l&slot&Hl).
  { pose proof (m_slots _ Hok) as Hs.
    destruct (free_slots_ m) as [|slot l _] using rev_ind; [simpl in *; lia|eauto]. }
  set (e := MkPTTEntry s 0 0 slot page).
  unfold Setup. wp_step. apply wp_own. repeat wp_step.
  { rewrite PageAlign_page by done. apply Z.eqb_refl. }
  apply wp_mig_Contains. intros ps1 Hps1. rewrite PageAlign_page, Hnone by done.
  rewrite bool_decide_eq_false_2 by (by intros []).
  wp_step. apply wp_own. wp_steps. apply wp_assert; [done|]. wp_steps.
  eapply wp_of_option; [by rewrite Hl, last_snoc|]. wp_steps. apply wp_assert.
  { apply slots_consistent_true. simpl. rewrite Hl, removelast_last. simpl.
    unfold num_entries in *. simpl. rewrite map_size_insert_None by done.
    pose proof (m_slots _ Hok) as Hs. rewrite Hl, length_app in Hs. unfold num_entries in Hs.
    simpl in *. lia. }
  wp_steps. set (m0 := set_entries_ _ _).
  set (m1 := if is_dirty s then set_dirty_entries_ (i32 (dirty_entries_ m + 1)) m0 else m0).
  apply (wp_mono _ (λ _ m', m' = m1)).
  { unfold m1. by destruct (is_dirty s). }
  intros [] ? ->. wp_steps. set (m2 := set_entries_ _ m1).
  assert (same_mgeom m m2) as Hgm by (unfold m2, m1; by destruct (is_dirty s)).
  assert (entries_ m2 = <[page := e]> (entries_ m)) as Hent.
  { transitivity (alter (set_mach_base page) page (entries_ m0)).
    - unfold m2, m1. by destruct (is_dirty s).
    - simpl. by rewrite alter_insert, decide_True, alter_insert, decide_True by done. }
  assert (mig_ok m2) as Hok2.
  { eapply (mig_ok_setup m); [done|done|done|done|done|..|done|done|done|];
      unfold m2, m1; destruct (is_dirty s) eqn:Es; simpl; rewrite ?Hl, ?removelast_last;
      unfold dirty_page; simpl; rewrite ?Es; simpl; rewrite ?Z.add_0_r; auto. }
  apply wp_assert.
  { apply Z.leb_le. pose proof (m_slots _ Hok2). lia. }
  apply wp_prof_quiet; [apply _|]. intros ps2 Hps2. apply (HQ _ _ slot); [done|done| |done|by etrans].
  unfold m2, m1. by destruct (is_dirty s).
Qed.

(** ** Clear *)

Definition dirty_blocks (m : MigrationController) (l : list (Z * PTTEntry)) : list Z :=
  l ≫= λ x, if dirty_page x.2 then page_list m x.1 else [].

Lemma wp_clear_page m ps page e pf ckpt (Q : list Z → MigrationController * Profs → Prop) :
  mig_ok m → entries_ m !! page = Some e →
  (∀ m' ps', mig_ok m' → same_mgeom m m' → same_heaps m m' → iterations_ m' = iterations_ m →
     entries_ m' = <[page := clear_entry e]> (entries_ m) → pf_same ps ps' →
     Q (ckpt ++ dirty_blocks m [(page, e)]) (m', ps')) →
  wp (clear_page page pf ckpt) Q (m, ps).
Proof.
  intros Hok He HQ. destruct (m_page _ Hok _ _ He) as (Hp&Hbase&_).
  unfold clear_page. wp_step. apply wp_own. wp_steps. apply wp_own. wp_steps.
  set (f := λ e, set_epoch_writes 0 (set_epoch_reads 0 e)).
  set (m1 := set_entries_ (alter f page (entries_ m)) m).
  assert (entries_ m1 !! page = Some (f e)) as He1 by (simpl; by rewrite lookup_alter_eq, He).
  eapply wp_of_option; [exact He1|].
  assert (mig_ok m1) as Hok1 by (by eapply mig_ok_bump).
  assert (∀ s, alter (set_state s) page (entries_ m1) = <[page := set_state s (f e)]> (entries_ m)) as Halt.
  { intros s. rewrite (alter_as_insert _ _ _ (f e)) by done. simpl.
    rewrite (alter_as_insert _ _ _ e) by done. by rewrite insert_insert_eq. }
  assert (∀ s, is_dirty (state e) = true → clear_entry e = set_state s (f e) → is_dirty s = false →
    wp (ShiftState_it page s pf ≫= λ _,
        own (modify (λ m, set_dirty_entries_ (i32 (dirty_entries_ m - 1)) m) ≫= λ _,
             AddToBlockList (mach_base (f e)) ckpt)) Q (m1, ps)) as Hdirty.
  { intros s Hd Hcl Hs. unfold ShiftState_it. wp_step. wp_step. apply wp_own. rewrite Hs. wp_steps.
    apply wp_prof_quiet; [apply _|]. intros ps1 Hps1. apply wp_own. wp_steps.
    set (m2 := set_dirty_entries_ _ _).
    assert (mig_ok m2) as Hok2.
    { eapply (mig_ok_alter m1 _ page (f e) (set_state s)); [done|done|done|done|done|done|done|].
      right. unfold m2, dirty_page. simpl. rewrite Hd, Hs. simpl. by rewrite Z.add_0_r. }
    apply wp_AddToBlockList; [apply (m_geom _ Hok2)|by rewrite <- Hbase in Hp|].
    replace (page_list m2 (mach_base (f e))) with (dirty_blocks m [(page, e)]).
    - apply HQ; [done..| |done]. rewrite Hcl. apply Halt.
    - unfold dirty_blocks, dirty_page. simpl. rewrite Hd, app_nil_r. by rewrite <- Hbase at 1. }
  assert (is_dirty (state e) = false → wp (mret ckpt) Q (m1, ps)) as Hclean.
  { intros Hd. wp_step. replace ckpt with (ckpt ++ dirty_blocks m [(page, e)]).
    - apply HQ; [done..| |done]. simpl. rewrite (alter_as_insert _ _ _ e) by done.
      f_equal. unfold clear_entry, f. by destruct e as [[] ????].
    - unfold dirty_blocks, dirty_page. simpl. rewrite Hd. apply app_nil_r. }
  destruct (state e) eqn:Es; change (state (f e)) with (state e); rewrite Es.
  - by apply Hclean.
  - by apply Hclean.
  - apply Hdirty; [done| |done]. unfold clear_entry. by rewrite Es.
  - apply Hdirty; [done| |done]. unfold clear_entry. by rewrite Es.
Qed.

Lemma wp_clear_pages l pf ckpt m ps :
  mig_ok m → NoDup l.*1 → (∀ p e, (p, e) ∈ l → entries_ m !! p = Some e) →
  wp (clear_pages l pf ckpt) (λ ck st,
    ck = ckpt ++ dirty_blocks m l ∧ mig_ok st.1 ∧ same_mgeom m st.1 ∧
    iterations_ st.1 = iterations_ m ∧ pf_same ps st.2 ∧
    (∀ p, entries_ st.1 !! p =
       if decide (p ∈ l.*1) then clear_entry <$> entries_ m !! p else entries_ m !! p)) (m, ps).
Proof.
  revert ckpt m ps. induction l as [|[page e] l IH]; intros ckpt m ps Hok Hnd Hin;
    cbn [clear_pages].
  { wp_step. split_and!; [by rewrite app_nil_r|done..|]. intros p.
    rewrite decide_False by set_solver. done. }
  rewrite fmap_cons in Hnd. apply NoDup_cons in Hnd as [Hni Hnd]. simpl in Hni. wp_step.
  eapply (wp_clear_page _ _ _ e); [done|apply Hin; set_solver|]. intros m1 ps1 Hok1 Hg1 _ Hit1 Hent1 Hps1.
  eapply wp_mono.
  { apply IH; [done|done|]. intros p e' Hp. rewrite Hent1, lookup_insert_ne; [apply Hin; set_solver|].
    intros <-. apply Hni. by apply (list_elem_of_fmap_2 fst _ (page, e')). }
  intros ck [m2 ps2] (->&Hok2&Hg2&Hit2&Hps2&Hent2). simpl in *. split_and!; [|done|by etrans|congruence|by etrans|].
  - rewrite <- app_assoc. f_equal. unfold dirty_blocks. simpl. rewrite app_nil_r. f_equal.
    apply list_bind_ext; [|done]. intros [p e']. simpl.
    unfold page_list. by destruct Hg1 as (->&_&_&_&->&_).
  - intros p. rewrite Hent2, Hent1. destruct (decide (page = p)) as [<-|Hne].
    + rewrite decide_False by done. rewrite decide_True by set_solver.
      rewrite lookup_insert_eq, (Hin page e) by set_solver. done.
    + rewrite lookup_insert_ne by done. apply decide_ext. set_solver.
Qed.

Lemma wp_Clear `{HashOrder} m ps pf ckpt (Q : list Z → MigrationController * Profs → Prop) :
  mig_ok m →
  (∀ m' ps', mig_ok m' → mig_stats m' → same_mgeom m m' → pf_same ps ps' →
     entries_ m' = clear_entry <$> entries_ m → dirty_entries_ m' = 0 →
     nvm_pages_ m' = ∅ → dram_heap_ m' = [] → nvm_heap_ m' = [] →
     dram_heap_filled_ m' = false → nvm_heap_filled_ m' = false →
     Q (ckpt ++ dirty_blocks m (iter_order (iterations_ m) (entries_ m))) (m', ps')) →
  wp (Clear pf ckpt) Q (m, ps).
Proof.
  intros Hok HQ. unfold Clear. wp_step. apply wp_own. wp_steps.
  apply wp_prof_quiet; [apply _|]. intros ps1 Hps1. wp_step. apply wp_own.
  unfold iterate. wp_steps. set (l := iter_order _ _).
  assert (l ≡ₚ map_to_list (entries_ m)) as Hl by apply iter_order_perm.
  set (m0 := set_iterations_ _ m). assert (mig_ok m0) as Hok0 by (by apply (mig_ok_table m)).
  eapply wp_mono.
  { apply wp_clear_pages; [exact Hok0|..].
    - rewrite Hl. apply NoDup_fst_map_to_list.
    - intros p e. rewrite Hl. apply elem_of_map_to_list. }
  intros ck [m1 ps2] (->&Hok1&Hg1&_&Hps2&Hent). simpl in *.
  assert (entries_ m1 = clear_entry <$> entries_ m) as Hent1.
  { apply map_eq. intros p. rewrite Hent, lookup_fmap. destruct (decide _) as [|Hp]; [done|].
    destruct (entries_ m !! p) as [e|] eqn:E; [|done]. destruct Hp.
    rewrite Hl. apply (list_elem_of_fmap_2 fst _ (p, e)). by apply elem_of_map_to_list. }
  assert (dirty_entries_ m1 = 0) as Hd0.
  { rewrite (m_dirty _ Hok1), Hent1, mcount_fmap.
    apply mcount_none. intros _ e _. by destruct e as [[] ????]. }
  wp_steps. apply wp_own. wp_steps. apply wp_assert; [by apply Z.eqb_eq|]. wp_steps.
  apply HQ; [by apply (mig_ok_table m1)| |done|by etrans|done..].
  intros p e. simpl. rewrite Hent1, lookup_fmap.
  intros (e0&_&->)%fmap_Some. split; [done|]. by destruct e0 as [[] ????].
Qed.

(** ** Orders of the heaps *)

Lemma Qlt_bool_true x y : Qlt_bool x y = true ↔ (x < y)%Q.
Proof.
  unfold Qlt_bool. rewrite negb_true_iff. split.
  - intros H. apply Qnot_le_lt. intros Hle%Qle_bool_iff. congruence.
  - intros Hlt. apply not_true_is_false. intros Hle%Qle_bool_iff. by apply Qlt_not_le in Hlt.
Qed.

Lemma Qlt_bool_false x y : Qlt_bool x y = false ↔ (y <= x)%Q.
Proof. unfold Qlt_bool. rewrite negb_false_iff. apply Qle_bool_iff. Qed.

#[global] Instance Qlt_bool_weak : StrictWeak Qlt_bool.
Proof.
  split.
  - intros x. apply Qlt_bool_false, Qle_refl.
  - intros x y z. rewrite !Qlt_bool_true. apply Qlt_trans.
  - intros x y z. rewrite !Qlt_bool_false. intros. by eapply Qle_trans.
Qed.

#[global] Instance nvm_less_weak : StrictWeak nvm_less.
Proof.
  split; unfold nvm_less; intros.
  - apply less_irrefl.
  - by eapply less_trans.
  - by eapply less_incomp.
Qed.

#[global] Instance dram_less_weak : StrictWeak dram_less.
Proof.
  split; unfold dram_less.
  - intros x. rewrite bool_decide_eq_true_2 by done. apply less_irrefl.
  - intros [? [] ?] [? [] ?] [? [] ?]; simpl; try done; intros; by eapply less_trans.
  - intros [? [] ?] [? [] ?] [? [] ?]; simpl; try done; intros; by eapply less_incomp.
Qed.

(** ** InputBlocks *)

Section Input.
Context `{HO : HashOrder, HA : HeapAlgo}.
Import AddrTransTable (ATTEntry, phy_tag).

Definition blk_addr (m : MigrationController) (b : ATTEntry) : Z := phy_tag b * 2 ^ block_bits_ m.

Definition written (b : ATTEntry) : Prop := AddrTransTable.epoch_writes b ≠ 0.

(** What [InputBlocks] relies on: the entries that are not in use or clean were
    not written, and the written ones are blocks of the physical space. *)
Definition block_ok (m : MigrationController) (b : ATTEntry) : Prop :=
  (AddrTransTable.state b = AddrTransTable.CLEAN ∨ AddrTransTable.state b = AddrTransTable.FREE →
   ¬ written b) ∧
  (written b → 0 ≤ blk_addr m b ∧ blk_addr m b + 2 ^ page_bits_ m < 2 ^ 64).

(** The block at [a] was written and belongs to [page]. *)
Definition recorded (m : MigrationController) (bs : list ATTEntry) (page a : Z) : Prop :=
  ∃ b, b ∈ bs ∧ written b ∧ AddrTransTable.state b ≠ AddrTransTable.CLEAN ∧
    AddrTransTable.state b ≠ AddrTransTable.FREE ∧ a = blk_addr m b ∧ 0 ≤ a ∧ page = PageAlign m a.

Definition pages_ok (m : MigrationController) (bs : list ATTEntry) : Prop :=
  ∀ page p a, nvm_pages_ m !! page = Some p → a ∈ p_blocks p → recorded m bs page a.

Lemma recorded_mono m m' bs bs' page a :
  same_mgeom m m' → bs ⊆ bs' → recorded m bs page a → recorded m' bs' page a.
Proof.
  intros (E1&_&_&E4&_) Hbs (b&?&?&?&?&->&?&->). exists b. unfold blk_addr, PageAlign in *.
  rewrite E1, E4. split_and!; auto.
Qed.

Lemma pages_ok_insert m bs b page p :
  pages_ok m bs → (∀ a, a ∈ p_blocks p → recorded m (bs ++ [b]) page a) →
  pages_ok (set_nvm_pages_ (<[page := p]> (nvm_pages_ m)) m) (bs ++ [b]).
Proof.
  intros Hok Hp page' p' a. cbn [nvm_pages_ set_nvm_pages_]. rewrite lookup_insert_Some.
  intros [[<- <-]|[_ Hp']] Ha; [by apply Hp|].
  apply (recorded_mono m _ bs); [done|set_solver|]. by eapply Hok.
Qed.

Lemma blk_in_page m b : mig_geom m → 0 ≤ blk_addr m b →
  blk_addr m b ∈ page_list m (PageAlign m (blk_addr m b)).
Proof.
  intros Hg H0. pose proof (mg_bits _ Hg). destruct (page_blocks_mul _ Hg) as [Hb Hmul].
  assert (0 < 2 ^ block_bits_ m) as Hp by (apply pow2_pos; lia).
  rewrite PageAlign_eq by done. apply list_elem_of_fmap. unfold blk_addr in *.
  set (t := phy_tag b) in *. rewrite <- Hmul.
  pose proof (Z.mod_pos_bound t (page_blocks_ m) Hb).
  exists (t mod page_blocks_ m). rewrite (Z.mul_mod_distr_r t _ _) by lia. split; [lia|].
  unfold zseq. apply elem_of_seqZ. lia.
Qed.

Lemma page_list_NoDup m page : 0 ≤ block_bits_ m → NoDup (page_list m page).
Proof.
  intros Hb%pow2_pos. apply NoDup_fmap_2; [|apply NoDup_seqZ]. intros x y. nia.
Qed.

Lemma page_list_size m (s : gset Z) page : mig_geom m →
  (∀ a, a ∈ s → a ∈ page_list m page) → Z.of_nat (size s) ≤ page_blocks_ m.
Proof.
  intros Hg Hs. destruct (page_blocks_mul _ Hg) as [Hb _].
  assert (s ⊆ list_to_set (page_list m page)) as Hsub%subseteq_size by set_solver.
  rewrite size_list_to_set in Hsub by (apply page_list_NoDup, (mg_bits _ Hg)).
  unfold page_list, zseq in Hsub. rewrite length_fmap, length_seqZ in Hsub. lia.
Qed.

Lemma wp_input_block m b bs (Q : unit → MigrationController → Prop) :
  mig_geom m → block_ok m b → pages_ok m bs →
  (∀ m', same_table m m' → iterations_ m' = iterations_ m → dram_heap_ m' = dram_heap_ m →
     nvm_heap_ m' = nvm_heap_ m → pages_ok m' (bs ++ [b]) → Q tt m') →
  wp (input_block b) Q m.
Proof.
  intros Hg [Hidle Hw] Hpages HQ. unfold input_block, AddrTransTable.state_eqb.
  destruct (bool_decide_reflect (AddrTransTable.state b = AddrTransTable.CLEAN ∨
    AddrTransTable.state b = AddrTransTable.FREE)) as [Hi|Hi].
  { replace (_ || _) with true by (by destruct Hi as [-> | ->]).
    wp_step; [|apply HQ; [done..|]].
    - apply Z.eqb_eq, dec_stable. by apply Hidle.
    - intros page p a Hp Ha. apply (recorded_mono m _ bs); [done|set_solver|]. by eapply Hpages. }
  assert (AddrTransTable.state b ≠ AddrTransTable.CLEAN ∧ AddrTransTable.state b ≠ AddrTransTable.FREE)
    as [Hc Hf] by tauto.
  rewrite !bool_decide_eq_false_2 by done. cbn [orb]. wp_steps. set (a := u64 _). set (p := default _ _).
  assert (∀ x, x ∈ p_blocks p → recorded m (bs ++ [b]) (PageAlign m a) x) as Hp.
  { intros x Hx. unfold p in Hx. destruct (nvm_pages_ m !! _) as [p0|] eqn:E; [|set_solver].
    apply (recorded_mono m _ bs); [done|set_solver|]. by eapply Hpages. }
  destruct (Z.eqb_spec (AddrTransTable.epoch_writes b) 0) as [Hz|Hnz]; simpl.
  - wp_steps. apply HQ; [done..|]. by apply pages_ok_insert.
  - destruct (Hw Hnz) as [Ha0 Ha1]. pose proof (mg_bits _ Hg).
    assert (a = blk_addr m b) as Ea.
    { unfold a, blk_addr in *. rewrite shiftl_pow2 by lia. apply u64_small.
      pose proof (pow2_pos (page_bits_ m)). lia. }
    assert (∀ x, x ∈ {[a]} ∪ p_blocks p → recorded m (bs ++ [b]) (PageAlign m a) x) as Hp'.
    { intros x [->%elem_of_singleton|Hx]%elem_of_union; [|by apply Hp].
      exists b. rewrite Ea. set_solver. }
    wp_steps. apply wp_assert; [|apply HQ; [done..|]; by apply pages_ok_insert].
    apply Z.leb_le, (page_list_size m _ (PageAlign m a) Hg). cbn [p_blocks].
    intros x (b'&_&_&_&_&->&?&->)%Hp'. by apply blk_in_page.
Qed.

Lemma wp_input_blocks m bs :
  mig_geom m → Forall (block_ok m) bs → nvm_pages_ m = ∅ →
  wp (for_each bs input_block) (λ _ m', same_table m m' ∧ iterations_ m' = iterations_ m ∧
    dram_heap_ m' = dram_heap_ m ∧ nvm_heap_ m' = nvm_heap_ m ∧ pages_ok m' bs) m.
Proof.
  intros Hg Hbs Hempty. eapply wp_mono.
  - apply (wp_for_each _ (λ rest m', ∃ done, (done ++ rest) = bs ∧ same_table m m' ∧
      iterations_ m' = iterations_ m ∧ dram_heap_ m' = dram_heap_ m ∧
      nvm_heap_ m' = nvm_heap_ m ∧ pages_ok m' done)).
    + exists []. split_and!; try done. intros page p a. by rewrite Hempty, lookup_empty.
    + intros b rest m' (dn&Hdn&Ht&Hit&Hd&Hn&Hp).
      assert (block_ok m b) as [Hb1 Hb2].
      { rewrite Forall_forall in Hbs. apply Hbs. rewrite <- Hdn. set_solver. }
      pose proof (proj1 Ht) as Hgm. apply wp_input_block with dn; [by eapply same_mgeom_geom| |done|].
      * split; [done|]. unfold blk_addr in *. destruct Hgm as (->&_&->&_). done.
      * intros m2 Ht2 Hit2 Hd2 Hn2 Hp2. exists (dn ++ [b]).
        split_and!; [by rewrite <- app_assoc|by etrans|congruence..|done].
  - intros [] m' (dn&Hdn&?&?&?&?&?). rewrite app_nil_r in Hdn. by subst.
Qed.

(** What the heaps are filled with. *)
Definition nvm_stat (blocks : Z) (x : Z * NVMPage) : NVMPageStats :=
  {| n_phy_addr := x.1; n_dirty_ratio := ratio (Z.of_nat (size (p_blocks x.2))) blocks;
     n_write_ratio := ratio (p_epoch_writes x.2) blocks |}.

Definition dram_stat (blocks : Z) (x : Z * PTTEntry) : DRAMPageStats :=
  {| d_phy_addr := x.1; d_state := state x.2; d_write_ratio := ratio (epoch_writes x.2) blocks |}.

Lemma wp_FillNVMPageHeap m (Q : unit → MigrationController → Prop) :
  nvm_heap_ m = [] →
  (∀ m' l, same_table m m' → nvm_pages_ m' = nvm_pages_ m → dram_heap_ m' = dram_heap_ m →
     nvm_heap_filled_ m' = true → l ≡ₚ map_to_list (nvm_pages_ m) →
     nvm_heap_ m' = make_heap nvm_less (nvm_stat (page_blocks_ m) <$> l) → Q tt m') →
  wp FillNVMPageHeap Q m.
Proof.
  intros Hnil HQ. unfold FillNVMPageHeap, iterate. wp_steps. set (l := iter_order _ _).
  eapply wp_mono.
  - apply (wp_for_each _ (λ rest m', ∃ dn, (dn ++ rest) = l ∧ same_table m m' ∧
      nvm_pages_ m' = nvm_pages_ m ∧ dram_heap_ m' = dram_heap_ m ∧
      nvm_heap_ m' = nvm_stat (page_blocks_ m) <$> dn)); [by exists []|].
    intros [page p] rest m' (dn&Hdn&Ht&Hn&Hd&Hh). wp_steps. exists (dn ++ [(page, p)]).
    split_and!; [by rewrite <- app_assoc|done..|]. simpl. rewrite Hh, fmap_app. simpl.
    by destruct Ht as ((_&_&_&_&->&_)&_).
  - intros [] m' (dn&Hdn&Ht&Hn&Hd&Hh). rewrite app_nil_r in Hdn. subst dn. wp_steps.
    apply (HQ _ l); [done..| |by simpl; rewrite Hh]. apply iter_order_perm.
Qed.

Lemma wp_FillDRAMPageHeap m (Q : unit → MigrationController → Prop) :
  mig_ok m → mig_stats m → dram_heap_ m = [] →
  (∀ m' l, same_table m m' → nvm_pages_ m' = nvm_pages_ m → nvm_heap_ m' = nvm_heap_ m →
     nvm_heap_filled_ m' = nvm_heap_filled_ m →
     dram_heap_filled_ m' = true → l ≡ₚ map_to_list (entries_ m) →
     dram_heap_ m' = make_heap dram_less (dram_stat (page_blocks_ m) <$> l) → Q tt m') →
  wp FillDRAMPageHeap Q m.
Proof.
  intros Hok Hst Hnil HQ. unfold FillDRAMPageHeap, iterate. wp_steps. set (l := iter_order _ _).
  assert (l ≡ₚ map_to_list (entries_ m)) as Hl by apply iter_order_perm.
  eapply wp_mono.
  - apply (wp_for_each _ (λ rest m', ∃ dn, (dn ++ rest) = l ∧ same_table m m' ∧
      nvm_pages_ m' = nvm_pages_ m ∧ nvm_heap_ m' = nvm_heap_ m ∧
      nvm_heap_filled_ m' = nvm_heap_filled_ m ∧
      dram_heap_ m' = dram_stat (page_blocks_ m) <$> dn)); [by exists []|].
    intros [page e] rest m' (dn&Hdn&Ht&Hn&Hd&Hf&Hh). wp_steps. exists (dn ++ [(page, e)]).
    split_and!; [by rewrite <- app_assoc|done..|]. simpl. rewrite Hh, fmap_app. simpl.
    by destruct Ht as ((_&_&_&_&->&_)&_).
  - intros [] m' (dn&Hdn&Ht&Hn&Hd&Hf&Hh). rewrite app_nil_r in Hdn. subst dn. wp_steps.
    apply wp_assert; [|wp_steps; by apply (HQ _ l); try done; simpl; rewrite Hh].
    apply Z.eqb_eq. destruct Ht as (_&_&_&->). rewrite (m_dirty _ Hok).
    rewrite <- (mcount_list dirty_page _ l) by done. f_equal. f_equal.
    apply list_filter_ext_in. intros [page e] Hin. simpl.
    rewrite Hl, elem_of_map_to_list in Hin. apply (Hst _ _ Hin).
Qed.

(** The heaps after [InputBlocks]: a page of the NVM heap with a positive dirty
    ratio holds a written block, and the DRAM heap lists the page table. *)
Record heaps_ok (m : MigrationController) (bs : list ATTEntry) : Prop := {
  h_nvm_heap : is_heap nvm_less (nvm_heap_ m);
  h_nvm_nodup : NoDup (n_phy_addr <$> nvm_heap_ m);
  h_nvm s : s ∈ nvm_heap_ m → (0 < n_dirty_ratio s)%Q → ∃ a, recorded m bs (n_phy_addr s) a;
  h_dram_heap : is_heap dram_less (dram_heap_ m);
  h_dram_nodup : NoDup (d_phy_addr <$> dram_heap_ m);
  h_dram d : d ∈ dram_heap_ m → ∃ e, entries_ m !! d_phy_addr d = Some e ∧ d_state d = state e;
  h_filled : nvm_heap_filled_ m = true ∧ dram_heap_filled_ m = true;
}.

Lemma ratio_pos n blocks : (0 < ratio n blocks)%Q → 0 < n.
Proof. unfold ratio, Qlt. simpl. lia. Qed.

Lemma nvm_stat_fst blocks l : n_phy_addr <$> (nvm_stat blocks <$> l) = l.*1.
Proof. by rewrite <- list_fmap_compose. Qed.

Lemma dram_stat_fst blocks l : d_phy_addr <$> (dram_stat blocks <$> l) = l.*1.
Proof. by rewrite <- list_fmap_compose. Qed.

Lemma wp_InputBlocks m bs (Q : unit → MigrationController → Prop) :
  mig_ok m → mig_stats m → nvm_pages_ m = ∅ → nvm_heap_ m = [] → dram_heap_ m = [] →
  Forall (block_ok m) bs →
  (∀ m', same_table m m' → heaps_ok m' bs → Q tt m') →
  wp (InputBlocks bs) Q m.
Proof.
  intros Hok Hst Hpages Hnh Hdh Hbs HQ. unfold InputBlocks. wp_steps.
  apply wp_assert; [by apply bool_decide_eq_true|]. wp_steps.
  eapply wp_mono; [apply wp_input_blocks; [apply (m_geom _ Hok)|done|done]|].
  intros [] m1 (Ht1&_&Hd1&Hn1&Hp1). wp_steps. set (m2 := set_dirty_nvm_pages_ _ m1).
  apply wp_FillNVMPageHeap; [by rewrite <- Hnh|]. intros m3 l Ht3 Hpg3 Hd3 Hf3 Hl Hh3.
  assert (same_table m m3) as Ht by (etrans; [exact Ht1|]; etrans; [|exact Ht3]; done).
  apply wp_FillDRAMPageHeap; [by eapply mig_ok_table|by eapply mig_stats_table|by rewrite Hd3; simpl; rewrite Hd1|].
  intros m4 l' Ht4 Hpg4 Hn4 Hf4 Hfd4 Hl' Hh4. apply HQ; [by etrans|]. rewrite <- Hn4 in Hh3.
  split.
  - rewrite Hh3. by apply make_heap_heap, _.
  - rewrite Hh3, make_heap_perm, nvm_stat_fst, Hl. apply NoDup_fst_map_to_list.
  - intros s. rewrite Hh3, make_heap_perm. intros ([page p]&->&Hin)%list_elem_of_fmap.
    rewrite Hl, elem_of_map_to_list in Hin. simpl. intros Hr%ratio_pos.
    destruct (set_choose_or_empty (p_blocks p)) as [[a Ha]|Hemp].
    + exists a. eapply (recorded_mono m1 _ bs); [|done|by eapply Hp1].
      etrans; [|apply (proj1 Ht4)]. etrans; [|apply (proj1 Ht3)]. done.
    + apply leibniz_equiv in Hemp. rewrite Hemp, size_empty in Hr. lia.
  - rewrite Hh4. by apply make_heap_heap, _.
  - rewrite Hh4, make_heap_perm, dram_stat_fst, Hl'. apply NoDup_fst_map_to_list.
  - intros d. rewrite Hh4, make_heap_perm. intros ([page e]&->&Hin)%list_elem_of_fmap.
    rewrite Hl', elem_of_map_to_list in Hin. exists e. simpl.
    split; [by rewrite (proj1 (proj2 Ht4))|done].
  - split; [congruence|done].
Qed.

Lemma pop_heap_removelast {A} (less : A → A → bool) `{!StrictWeak less} x l :
  is_heap less (x :: l) → removelast (pop_heap less (x :: l)) ≡ₚ l ∧
    is_heap less (removelast (pop_heap less (x :: l))).
Proof.
  intros Hh. destruct (pop_heap_cons _ _ _ _ Hh) as (l'&->&?&?). by rewrite removelast_last.
Qed.

Lemma wp_ExtractNVMPage m ps pf bs (Q : option NVMPageStats → MigrationController * Profs → Prop) :
  heaps_ok m bs →
  (nvm_heap_ m = [] → Q None (m, ps)) →
  (∀ s l m' ps', nvm_heap_ m = s :: l → (∀ s', s' ∈ l → (n_dirty_ratio s' <= n_dirty_ratio s)%Q) →
     same_table m m' → dram_heap_ m' = dram_heap_ m → nvm_heap_ m' ≡ₚ l → heaps_ok m' bs →
     pf_same ps ps' → Q (Some s) (m', ps')) →
  wp (ExtractNVMPage pf) Q (m, ps).
Proof.
  intros Hh Hnone Hsome. unfold ExtractNVMPage. wp_step. apply wp_own. wp_steps.
  apply wp_assert; [apply (h_filled _ _ Hh)|].
  destruct (nvm_heap_ m) as [|s l] eqn:E; wp_steps; [by apply Hnone|]. simpl. rewrite E.
  pose proof (h_nvm_heap _ _ Hh) as Hheap. rewrite E in Hheap.
  destruct (pop_heap_removelast _ _ _ Hheap) as [Hperm Hheap'].
  apply wp_prof_quiet; [apply _|]. intros ps' Hps. wp_steps.
  apply (Hsome s l); [done| |done|done|done| |done].
  - intros s' Hs'. apply Qlt_bool_false. apply (heap_front_max nvm_less s l); [done|set_solver].
  - pose proof (h_nvm_nodup _ _ Hh) as Hnd. rewrite E in Hnd.
    split; simpl; try apply Hh; [done|..].
    + rewrite Hperm. by apply NoDup_cons in Hnd as [_ ?].
    + intros s'. rewrite Hperm. intros Hs'. apply (h_nvm _ _ Hh). rewrite E. set_solver.
Qed.

Lemma wp_ExtractDRAMPage m ps pf bs (Q : option DRAMPageStats → MigrationController * Profs → Prop) :
  heaps_ok m bs →
  (dram_heap_ m = [] → Q None (m, ps)) →
  (∀ d l m' ps', dram_heap_ m = d :: l → (∀ d', d' ∈ l → dram_less d d' = false) →
     same_table m m' → nvm_heap_ m' = nvm_heap_ m → dram_heap_ m' ≡ₚ l → heaps_ok m' bs →
     pf_same ps ps' → Q (Some d) (m', ps')) →
  wp (ExtractDRAMPage pf) Q (m, ps).
Proof.
  intros Hh Hnone Hsome. unfold ExtractDRAMPage. wp_step. apply wp_own. wp_steps.
  apply wp_assert; [apply (h_filled _ _ Hh)|].
  destruct (dram_heap_ m) as [|d l] eqn:E; wp_steps; [by apply Hnone|]. simpl. rewrite E.
  pose proof (h_dram_heap _ _ Hh) as Hheap. rewrite E in Hheap.
  destruct (pop_heap_removelast _ _ _ Hheap) as [Hperm Hheap'].
  apply wp_prof_quiet; [apply _|]. intros ps' Hps. wp_steps.
  apply (Hsome d l); [done| |done|done|done| |done].
  - intros d' Hd'. apply (heap_front_max dram_less d l); [done|set_solver].
  - pose proof (h_dram_nodup _ _ Hh) as Hnd. rewrite E in Hnd.
    split; simpl; try apply Hh; [done|..].
    + rewrite Hperm. by apply NoDup_cons in Hnd as [_ ?].
    + intros d'. rewrite Hperm. intros Hd'. apply (h_dram _ _ Hh). rewrite E. set_solver.
Qed.

End Input.
