(* ===== verification/DRAMBanks.v ===== *)
(** DRAMBanks (src/dram_banks.h): row buffers and the queues of checkpoint writes.
    Besides the row-buffer timing, the banks decide when a checkpoint is complete:
    a round issues the next write of every idle bank, and the queues shorten by one. *)

From S2P Require Import Prelude.
#[global] Open Scope Z_scope.

Record Address := MkAddress { rank_ID : Z; bank_ID : Z; row_ID : Z }.

Record Bank := MkBank { open_row_ : Z; busy_time_ : Z; write_queue_ : list Address }.

Definition set_open_row_ (v : Z) (b : Bank) : Bank := MkBank v (busy_time_ b) (write_queue_ b).
Definition set_busy_time (v : Z) (b : Bank) : Bank := MkBank (open_row_ b) v (write_queue_ b).
Definition set_write_queue_ (v : list Address) (b : Bank) : Bank := MkBank (open_row_ b) (busy_time_ b) v.

Definition new_Bank : Bank := MkBank (u32 (- EINVAL)) 0 [].

Record DRAMBanks := MkDRAMBanks {
  burst_size_ : Z;
  row_buffer_size_ : Z;
  ranks_per_channel_ : Z;
  banks_per_rank_ : Z;
  capacity_ : Z;
  columns_per_row_buffer_ : Z;
  rows_per_bank_ : Z;
  banks_ : list (list Bank);
}.

Definition set_banks_ (v : list (list Bank)) (d : DRAMBanks) : DRAMBanks :=
  MkDRAMBanks (burst_size_ d) (row_buffer_size_ d) (ranks_per_channel_ d) (banks_per_rank_ d)
    (capacity_ d) (columns_per_row_buffer_ d) (rows_per_bank_ d) v.

(** [Bank::Access]: [open_row()] is unsigned, so [row] is converted before the
    comparison. *)
Definition Bank_Access (row : Z) (b : Bank) : bool * Bank :=
  if open_row_ b =? u32 row then (true, b) else (false, set_open_row_ (u32 row) b).

Definition Bank_PushWrite (addr : Address) : M Bank unit :=
  b ← get;
  assert_ "DRAMBanks::Bank::PushWrite"
    (match last (write_queue_ b) with None => true | Some a => bank_ID a =? bank_ID addr end) ;;
  modify (set_write_queue_ (write_queue_ b ++ [addr])).

Definition Bank_PopWrite : M Bank Address :=
  b ← get;
  a ← of_option (EUndef "vector::back") (last (write_queue_ b));
  modify (set_write_queue_ (removelast (write_queue_ b))) ;;
  mret a.

Definition Bank_HasPendingWrite (b : Bank) : bool := match write_queue_ b with [] => false | _ => true end.

(** [DRAMBanks::DRAMBanks]; the quotients are stored as [int]. *)
Definition new_DRAMBanks (capacity burst row_buffer ranks banks : Z) : DRAMBanks :=
  {| burst_size_ := burst; row_buffer_size_ := row_buffer; ranks_per_channel_ := ranks;
     banks_per_rank_ := banks; capacity_ := capacity;
     columns_per_row_buffer_ := Z.quot row_buffer burst;
     rows_per_bank_ := i32 (capacity / u64 (i32 (row_buffer * banks * ranks)));
     banks_ := replicate (Z.to_nat ranks) (replicate (Z.to_nat banks) new_Bank) |}.

Definition new_DDR3Banks (capacity : Z) : DRAMBanks := new_DRAMBanks capacity 64 8192 2 8.

Definition row_buffer_size (d : DRAMBanks) : Z := row_buffer_size_ d.

(** A division by an [int] converted to [uint64_t]; by zero it is undefined. *)
Definition udiv (x y : Z) : M DRAMBanks Z :=
  if y =? 0 then err (EUndef "division by zero") else mret (x / u64 y).
Definition umod (x y : Z) : M DRAMBanks Z :=
  if y =? 0 then err (EUndef "division by zero") else mret (i32 (x mod u64 y)).

Definition ParseAddr (addr : Z) : M DRAMBanks Address :=
  d ← get;
  addr ← udiv addr (burst_size_ d);
  addr ← udiv addr (columns_per_row_buffer_ d);
  bank ← umod addr (banks_per_rank_ d);
  addr ← udiv addr (banks_per_rank_ d);
  assert_ "DRAMBanks::ParseAddr" ((0 <=? bank) && (bank <? banks_per_rank_ d)) ;;
  rank ← umod addr (ranks_per_channel_ d);
  addr ← udiv addr (ranks_per_channel_ d);
  assert_ "DRAMBanks::ParseAddr" ((0 <=? rank) && (rank <? ranks_per_channel_ d)) ;;
  row ← umod addr (rows_per_bank_ d);
  assert_ "DRAMBanks::ParseAddr" ((0 <=? row) && (row <? rows_per_bank_ d)) ;;
  mret (MkAddress rank bank row).

(** [banks_[i][j]] *)
Definition bank_at (d : DRAMBanks) (i j : Z) : option Bank := zlookup (banks_ d) i ≫= λ l, zlookup l j.
Definition put_bank (i j : Z) (b : Bank) (d : DRAMBanks) : DRAMBanks :=
  match zlookup (banks_ d) i with
  | Some l => set_banks_ (zinsert i (zinsert j b l) (banks_ d)) d
  | None => d
  end.
Definition on_bank {A} (i j : Z) (m : M Bank A) : M DRAMBanks A :=
  d ← get;
  b ← of_option (EUndef "vector::operator[]") (bank_at d i j);
  match m b with
  | Ok (a, b') => modify (put_bank i j b') ;; mret a
  | Err e => err e
  end.

Definition PushWrite (addr : Z) : M DRAMBanks unit :=
  a ← ParseAddr addr;
  on_bank (rank_ID a) (bank_ID a) (Bank_PushWrite a).

Definition HasPendingWrite (d : DRAMBanks) : bool := existsb (existsb Bank_HasPendingWrite) (banks_ d).

(** The private [Access(Address, bool&)]; a [Bank*] is the pair of indices. *)
Definition Access_Address (a : Address) : M DRAMBanks (Z * Z * bool) :=
  hit ← on_bank (rank_ID a) (bank_ID a) (λ b, Ok (Bank_Access (row_ID a) b));
  mret (rank_ID a, bank_ID a, hit).

Definition Access (addr : Z) : M DRAMBanks (Z * Z * bool) :=
  a ← ParseAddr addr;
  Access_Address a.

(** The loop body of [Access(Time t, int* flushed)] for bank [(i, j)]; the
    accumulators are [ret] and what [flushed] points to. *)
Definition access_bank (t : Z) (ij : Z * Z) : M (DRAMBanks * (list (Z * Z * bool) * Z)) unit :=
  s ← get;
  b ← of_option (EUndef "vector::operator[]") (bank_at s.1 ij.1 ij.2);
  let flushed := if busy_time_ b =? t then s.2.2 + 1 else s.2.2 in
  if (busy_time_ b <=? t) && Bank_HasPendingWrite b then
    r ← zoom fst (λ d s, (d, s.2)) (a ← on_bank ij.1 ij.2 Bank_PopWrite; Access_Address a);
    modify (λ s, (s.1, (s.2.1 ++ [r], flushed)))
  else modify (λ s, (s.1, (s.2.1, flushed))).

(** The pairs [(i, j)] in the order of the two nested loops. *)
Definition bank_indices (d : DRAMBanks) : list (Z * Z) :=
  zseq (Z.of_nat (length (banks_ d))) ≫= λ i,
    (λ j, (i, j)) <$> zseq (Z.of_nat (length (default [] (zlookup (banks_ d) i)))).

(** [Access(Time t, int* flushed)]: the banks that issued a write, and the number of
    banks that finished one. *)
Definition Access_time (t : Z) : M DRAMBanks (list (Z * Z * bool) * Z) :=
  λ d, match for_each (bank_indices d) (access_bank t) (d, ([], 0)) with
       | Ok (_, (d', r)) => Ok (r, d')
       | Err e => Err e
       end.

(** [NextTime]: the earliest busy time after [now], or 0. *)
Definition NextTime (now : Z) (d : DRAMBanks) : Z :=
  let next := foldl (λ next b, if (now <? busy_time_ b) && (busy_time_ b <? next)
                               then busy_time_ b else next) (2 ^ 64 - 1) (mjoin (banks_ d)) in
  if next =? 2 ^ 64 - 1 then 0 else next.

(** ** Invariant *)

Record banks_ok (d : DRAMBanks) : Prop := {
  bo_burst : 0 < burst_size_ d < 2 ^ 31;
  bo_columns : 0 < columns_per_row_buffer_ d < 2 ^ 31;
  bo_banks : 0 < banks_per_rank_ d < 2 ^ 31;
  bo_ranks : 0 < ranks_per_channel_ d < 2 ^ 31;
  bo_rows : 0 < rows_per_bank_ d < 2 ^ 31;
  bo_length : Z.of_nat (length (banks_ d)) = ranks_per_channel_ d;
  bo_lengths i l : zlookup (banks_ d) i = Some l → Z.of_nat (length l) = banks_per_rank_ d;
  bo_queue i j b a : bank_at d i j = Some b → a ∈ write_queue_ b → rank_ID a = i ∧ bank_ID a = j;
}.

(** Where an address lives: consecutive row buffers go round the banks, then the ranks. *)
Definition home (d : DRAMBanks) (addr : Z) : Address :=
  let x := addr / (burst_size_ d * columns_per_row_buffer_ d) in
  MkAddress (x / banks_per_rank_ d mod ranks_per_channel_ d) (x mod banks_per_rank_ d)
    (x / banks_per_rank_ d / ranks_per_channel_ d mod rows_per_bank_ d).

(** The shape of the channel: everything but the contents of the banks. *)
Definition same_shape (d d' : DRAMBanks) : Prop :=
  set_banks_ [] d = set_banks_ [] d'.

Lemma u64_int x : 0 < x < 2 ^ 31 → u64 x = x.
Proof. intros. apply u64_small. lia. Qed.

Lemma umod_int x y : 0 < y < 2 ^ 31 → i32 (x mod u64 y) = x mod y.
Proof.
  intros Hy. rewrite u64_int by done. pose proof (Z.mod_pos_bound x y).
  apply i32_small. lia.
Qed.

Lemma wp_udiv x y (Q : Z → DRAMBanks → Prop) d :
  0 < y < 2 ^ 31 → Q (x / y) d → wp (udiv x y) Q d.
Proof. intros Hy ?. unfold udiv. destruct (Z.eqb_spec y 0); [lia|]. apply wp_ret. by rewrite u64_int. Qed.

Lemma wp_umod x y (Q : Z → DRAMBanks → Prop) d :
  0 < y < 2 ^ 31 → Q (x mod y) d → wp (umod x y) Q d.
Proof. intros Hy ?. unfold umod. destruct (Z.eqb_spec y 0); [lia|]. apply wp_ret. by rewrite umod_int. Qed.

Lemma in_range x y : 0 < y → (0 <=? x mod y) && (x mod y <? y) = true.
Proof. intros. pose proof (Z.mod_pos_bound x y). lia. Qed.

(** No assertion of [ParseAddr] fails. *)
Lemma wp_ParseAddr addr (Q : Address → DRAMBanks → Prop) d :
  banks_ok d → Q (home d addr) d → wp (ParseAddr addr) Q d.
Proof.
  intros [] HQ. unfold ParseAddr. wp_steps. do 2 (apply wp_udiv; [done|]; wp_steps).
  apply wp_umod; [done|]. wp_step. apply wp_udiv; [done|]. wp_steps. apply wp_assert; [apply in_range; lia|].
  wp_step. apply wp_umod; [done|]. wp_step. apply wp_udiv; [done|]. wp_steps. apply wp_assert; [apply in_range; lia|].
  wp_step. apply wp_umod; [done|]. wp_steps. apply wp_assert; [apply in_range; lia|].
  wp_steps. unfold home in HQ. by rewrite <- Z.div_div in HQ by lia.
Qed.

Lemma bank_at_put d i j b i' j' : is_Some (bank_at d i j) →
  bank_at (put_bank i j b d) i' j' = if decide ((i', j') = (i, j)) then Some b else bank_at d i' j'.
Proof.
  unfold bank_at, put_bank. intros [b0 Hb]. destruct (zlookup (banks_ d) i) as [l|] eqn:Hl; [|done]. simpl in Hb.
  cbn [banks_ set_banks_]. pose proof (zlookup_Some _ _ _ Hb) as Hj. pose proof (zlookup_Some _ _ _ Hl) as Hi'.
  case_decide as E.
  - injection E as -> ->. rewrite zlookup_insert_eq by done. simpl. by rewrite zlookup_insert_eq.
  - destruct (decide (i' = i)) as [->|]; [|by rewrite zlookup_insert_ne].
    rewrite zlookup_insert_eq, Hl by done. simpl. rewrite zlookup_insert_ne; [done|]. intros ->. done.
Qed.

Lemma put_put d i j b b' : is_Some (bank_at d i j) →
  put_bank i j b' (put_bank i j b d) = put_bank i j b' d.
Proof.
  unfold bank_at, put_bank. intros [b0 Hb]. destruct (zlookup (banks_ d) i) as [l|] eqn:Hl; [|done].
  pose proof (zlookup_Some _ _ _ Hl). pose proof (zlookup_Some _ _ _ Hb).
  cbn [banks_ set_banks_]. rewrite zlookup_insert_eq by done. unfold set_banks_. simpl. f_equal.
  unfold zinsert. destruct (Z.ltb_spec i 0), (Z.ltb_spec j 0); try lia. by rewrite !list_insert_insert_eq.
Qed.

Lemma put_shape d i j b : same_shape d (put_bank i j b d).
Proof. unfold same_shape, put_bank. by destruct (zlookup _ _). Qed.

Lemma bank_at_Some d i j : banks_ok d →
  is_Some (bank_at d i j) ↔ 0 ≤ i < ranks_per_channel_ d ∧ 0 ≤ j < banks_per_rank_ d.
Proof.
  intros Hd. rewrite <- (bo_length d Hd), <- zlookup_is_Some. unfold bank_at.
  destruct (zlookup (banks_ d) i) as [l|] eqn:Hl; simpl.
  - rewrite <- (bo_lengths d Hd i l Hl), <- zlookup_is_Some. naive_solver.
  - split; [by intros []|by intros [[]]].
Qed.

Lemma ok_put d i j b : banks_ok d → is_Some (bank_at d i j) →
  (∀ a, a ∈ write_queue_ b → rank_ID a = i ∧ bank_ID a = j) → banks_ok (put_bank i j b d).
Proof.
  intros Hd Hs Hq. pose proof (put_shape d i j b) as E. unfold same_shape, set_banks_ in E.
  injection E as E1 E2 E3 E4 E5 E6 E7. destruct Hd.
  constructor; rewrite <- ?E1, <- ?E6, <- ?E4, <- ?E3, <- ?E7; try done.
  - rewrite <- bo_length0. unfold put_bank. destruct (zlookup _ _); [|done]. simpl. by rewrite length_zinsert.
  - unfold put_bank. destruct (zlookup (banks_ d) i) as [l|] eqn:Hl; [|done]. simpl. intros i' l' Hl'.
    apply zlookup_insert_Some in Hl' as [[-> ->]|[? ?]]; [|by eapply bo_lengths0].
    rewrite length_zinsert. by eapply bo_lengths0.
  - intros i' j' b' a. rewrite bank_at_put by done. case_decide as E; [|apply bo_queue0].
    injection E as -> ->. intros [= <-]. apply Hq.
Qed.

Lemma wp_on_bank {A} i j (m : M Bank A) (Q : A → DRAMBanks → Prop) d b :
  bank_at d i j = Some b → wp m (λ a b', Q a (put_bank i j b' d)) b → wp (on_bank i j m) Q d.
Proof.
  intros Hb Hm. unfold on_bank. wp_steps. eapply wp_of_option; [done|].
  unfold wp in Hm. by destruct (m b) as [[a b']|].
Qed.

(** ** Operations *)

Lemma home_at d addr : banks_ok d → is_Some (bank_at d (rank_ID (home d addr)) (bank_ID (home d addr))).
Proof.
  intros Hd. apply bank_at_Some; [done|]. destruct Hd. simpl. split; apply Z.mod_pos_bound; lia.
Qed.

Lemma ok_update d i j b b' : banks_ok d → bank_at d i j = Some b → write_queue_ b' = write_queue_ b →
  banks_ok (put_bank i j b' d).
Proof.
  intros Hd Hb Hq. apply ok_put; [done|by eexists|]. rewrite Hq. intros a. by apply (bo_queue d Hd i j b a).
Qed.

(** Queues the write in the bank that holds the address. *)
Lemma wp_PushWrite addr (Q : unit → DRAMBanks → Prop) d : banks_ok d →
  (∀ b, bank_at d (rank_ID (home d addr)) (bank_ID (home d addr)) = Some b →
    let d' := put_bank (rank_ID (home d addr)) (bank_ID (home d addr))
                (set_write_queue_ (write_queue_ b ++ [home d addr]) b) d in
    banks_ok d' → Q tt d') →
  wp (PushWrite addr) Q d.
Proof.
  intros Hd HQ. unfold PushWrite. wp_step. apply wp_ParseAddr; [done|].
  destruct (home_at d addr Hd) as [b Hb]. eapply wp_on_bank; [done|]. unfold Bank_PushWrite. wp_steps.
  apply wp_assert.
  - destruct (last (write_queue_ b)) as [a|] eqn:Ha; [|done]. apply Z.eqb_eq.
    apply last_Some_elem_of in Ha. by apply (bo_queue d Hd _ _ _ a Hb).
  - wp_steps. apply (HQ b Hb). apply ok_put; [done|by eexists|]. simpl. intros a.
    rewrite elem_of_app, list_elem_of_singleton. intros [Ha| ->]; [by apply (bo_queue d Hd _ _ _ a Hb)|done].
Qed.

(** Opens the row of the address; a hit exactly when it was open. *)
Lemma wp_Access addr (Q : Z * Z * bool → DRAMBanks → Prop) d : banks_ok d →
  (∀ b, let a := home d addr in
    bank_at d (rank_ID a) (bank_ID a) = Some b →
    let d' := put_bank (rank_ID a) (bank_ID a) (Bank_Access (row_ID a) b).2 d in
    banks_ok d' → Q (rank_ID a, bank_ID a, open_row_ b =? u32 (row_ID a)) d') →
  wp (Access addr) Q d.
Proof.
  intros Hd HQ. unfold Access, Access_Address. wp_step. apply wp_ParseAddr; [done|]. wp_step.
  destruct (home_at d addr Hd) as [b Hb]. eapply wp_on_bank; [done|].
  specialize (HQ b Hb). unfold wp. cbv zeta in HQ.
  assert (Hok : banks_ok (put_bank (rank_ID (home d addr)) (bank_ID (home d addr))
                            (Bank_Access (row_ID (home d addr)) b).2 d)).
  { eapply ok_update; [done..|]. unfold Bank_Access. by destruct (_ =? _). }
  specialize (HQ Hok). unfold Bank_Access in *. by destruct (_ =? _).
Qed.

(** What a round at time [t] does to one bank: an idle bank starts its newest write. *)
Definition due (t : Z) (b : Bank) : bool := (busy_time_ b <=? t) && Bank_HasPendingWrite b.
Definition issue (t : Z) (b : Bank) : Bank :=
  if due t b then
    match last (write_queue_ b) with
    | Some a => (Bank_Access (row_ID a) (set_write_queue_ (removelast (write_queue_ b)) b)).2
    | None => b
    end
  else b.

Definition due_at (t : Z) (d : DRAMBanks) (ij : Z * Z) : bool :=
  match bank_at d ij.1 ij.2 with Some b => due t b | None => false end.
Definition done_at (t : Z) (d : DRAMBanks) (ij : Z * Z) : bool :=
  match bank_at d ij.1 ij.2 with Some b => busy_time_ b =? t | None => false end.

Lemma snoc_last {A} (l : list A) x : last l = Some x → l = removelast l ++ [x].
Proof. intros [l' ->]%last_Some. by rewrite removelast_last. Qed.

Lemma pending_last b : Bank_HasPendingWrite b = true → ∃ a, last (write_queue_ b) = Some a ∧ a ∈ write_queue_ b.
Proof.
  unfold Bank_HasPendingWrite. destruct (write_queue_ b) as [|x q] eqn:E; [done|]. intros _.
  destruct (last (x :: q)) as [a|] eqn:Ha; [|by apply last_None in Ha].
  exists a. split; [done|]. by apply last_Some_elem_of.
Qed.

Lemma issue_queue t b a : a ∈ write_queue_ (issue t b) → a ∈ write_queue_ b.
Proof.
  unfold issue. destruct (due t b); [|done]. destruct (last (write_queue_ b)) as [x|] eqn:E; [|done].
  assert (H : write_queue_ (Bank_Access (row_ID x) (set_write_queue_ (removelast (write_queue_ b)) b)).2 =
              removelast (write_queue_ b)) by (unfold Bank_Access; by destruct (_ =? _)).
  rewrite H. rewrite (snoc_last _ _ E) at 2. set_solver.
Qed.

(** One iteration of the loop of [Access(Time t, int* flushed)]. *)
Lemma wp_access_bank t ij (Q : unit → DRAMBanks * (list (Z * Z * bool) * Z) → Prop) s b :
  banks_ok s.1 → bank_at s.1 ij.1 ij.2 = Some b →
  (∀ d' r, banks_ok d' → same_shape s.1 d' →
    (∀ i j, bank_at d' i j = if decide ((i, j) = ij) then Some (issue t b) else bank_at s.1 i j) →
    fst <$> r = (if due t b then [ij] else []) →
    Q tt (d', (s.2.1 ++ r, s.2.2 + Z.b2z (busy_time_ b =? t)))) →
  wp (access_bank t ij) Q s.
Proof.
  destruct s as [d [r0 n]], ij as [i j]. cbn [fst snd]. intros Hd Hb HQ. unfold access_bank. wp_steps.
  eapply wp_of_option; [done|]. cbn [fst snd]. fold (due t b). cbv zeta.
  replace (if busy_time_ b =? t then n + 1 else n) with (n + Z.b2z (busy_time_ b =? t))
    by (destruct (_ =? t); simpl; lia).
  destruct (due t b) eqn:Hdue.
  - destruct (pending_last b) as (a & Ha & Hin); [by apply andb_true_iff in Hdue as [_ ?]|].
    destruct (bo_queue d Hd i j b a Hb Hin) as [Hr Hk].
    wp_step. apply wp_zoom. cbn [fst snd]. wp_step. eapply wp_on_bank; [done|]. unfold Bank_PopWrite. wp_steps.
    eapply wp_of_option; [done|]. wp_steps. unfold Access_Address. wp_step. rewrite Hr, Hk.
    eapply wp_on_bank; [by rewrite bank_at_put, decide_True by (done || by eexists)|].
    remember (Bank_Access (row_ID a) (set_write_queue_ (removelast (write_queue_ b)) b)) as x eqn:Hx.
    assert (Hi : issue t b = x.2) by (unfold issue; by rewrite Hdue, Ha, Hx).
    destruct x as [hit b']. unfold wp at 1. rewrite <- Hx. wp_steps.
    cbn [fst snd] in *. subst b'. apply HQ.
    + assert (is_Some (bank_at d i j)) by by eexists. rewrite put_put by done. apply ok_put; [done..|].
      intros a' Ha'. eapply (bo_queue d Hd i j b a' Hb), issue_queue, Ha'.
    + rewrite put_put by by eexists. apply put_shape.
    + intros i' j'. rewrite put_put by by eexists. by rewrite bank_at_put by by eexists.
    + done.
  - wp_steps. cbn [fst snd]. rewrite <- (app_nil_r r0). apply HQ; [done..| |done]. intros i' j'.
    case_decide as E; [|done]. injection E as -> ->. unfold issue. by rewrite Hdue.
Qed.

Lemma zseq_elem n x : x ∈ zseq n ↔ 0 ≤ x < n.
Proof. unfold zseq. rewrite elem_of_seqZ. lia. Qed.

Lemma bank_indices_elem d i j : (i, j) ∈ bank_indices d ↔ is_Some (bank_at d i j).
Proof.
  unfold bank_indices, bank_at. rewrite list_elem_of_bind. split.
  - intros (i' & (j' & [= -> ->] & Hj%zseq_elem)%list_elem_of_fmap & Hi%zseq_elem).
    apply zlookup_is_Some in Hi as [l Hl]. rewrite Hl in *. simpl in *. by apply zlookup_is_Some.
  - intros [b Hb]. destruct (zlookup (banks_ d) i) as [l|] eqn:Hl; [|done]. simpl in Hb.
    exists i. split; [|by apply zseq_elem, zlookup_is_Some; eexists]. rewrite Hl. simpl.
    apply list_elem_of_fmap. exists j. split; [done|]. apply zseq_elem, zlookup_is_Some. by eexists.
Qed.

Lemma bank_indices_NoDup d : NoDup (bank_indices d).
Proof.
  unfold bank_indices. apply NoDup_bind.
  - intros i1 i2 ij _ _. rewrite !list_elem_of_fmap. naive_solver.
  - intros i _. apply NoDup_fmap; [by intros ?? [= ->]|apply NoDup_seqZ].
  - apply NoDup_seqZ.
Qed.

(** The loop after the banks [p]. *)
Record round_inv (t : Z) (d : DRAMBanks) (p : list (Z * Z)) (s : DRAMBanks * (list (Z * Z * bool) * Z)) : Prop := {
  ri_ok : banks_ok s.1;
  ri_shape : same_shape d s.1;
  ri_at i j : bank_at s.1 i j = (if bool_decide ((i, j) ∈ p) then issue t else id) <$> bank_at d i j;
  ri_issued : fst <$> s.2.1 = filter (λ ij, due_at t d ij = true) p;
  ri_flushed : s.2.2 = Z.of_nat (length (filter (λ ij, done_at t d ij = true) p));
}.

Lemma round_step t d p i j s : round_inv t d p s → is_Some (bank_at d i j) → (i, j) ∉ p →
  wp (access_bank t (i, j)) (λ _, round_inv t d (p ++ [(i, j)])) s.
Proof.
  intros [Hok Hs Hat Hr Hn] [b Hb] Hni. eapply (wp_access_bank t (i, j) _ s b); [done| |].
  { cbn. rewrite Hat, Hb. by rewrite bool_decide_eq_false_2. }
  intros d' r Hok' Hs' Hat' Hr'. constructor; cbn [fst snd].
  - done.
  - etrans; [apply Hs|apply Hs'].
  - intros i' j'. rewrite Hat', Hat. case_decide as E.
    + injection E as -> ->. rewrite bool_decide_eq_true_2 by set_solver. by rewrite Hb.
    + f_equal. destruct (bool_decide_reflect ((i', j') ∈ p)); [by rewrite bool_decide_eq_true_2 by set_solver|].
      by rewrite bool_decide_eq_false_2 by set_solver.
  - rewrite fmap_app, Hr, filter_app, Hr'. f_equal. rewrite filter_cons.
    assert (E : due_at t d (i, j) = due t b) by (unfold due_at; simpl; by rewrite Hb). rewrite E. by destruct (due t b).
  - rewrite Hn, filter_app, length_app, filter_cons.
    assert (E : done_at t d (i, j) = (busy_time_ b =? t)) by (unfold done_at; simpl; by rewrite Hb). rewrite E.
    destruct (busy_time_ b =? t); simpl; lia.
Qed.

(** A round of [Access]: every idle bank with a write starts one, no other bank
    changes, and the result lists those banks. *)
Lemma wp_Access_time t (Q : list (Z * Z * bool) * Z → DRAMBanks → Prop) d : banks_ok d →
  (∀ r d', banks_ok d' → same_shape d d' →
    (∀ i j, bank_at d' i j = issue t <$> bank_at d i j) →
    fst <$> r.1 = filter (λ ij, due_at t d ij = true) (bank_indices d) →
    r.2 = Z.of_nat (length (filter (λ ij, done_at t d ij = true) (bank_indices d))) →
    Q r d') →
  wp (Access_time t) Q d.
Proof.
  intros Hd HQ.
  assert (H : wp (for_each (bank_indices d) (access_bank t))
    (λ _ s, ∃ p, bank_indices d = p ++ [] ∧ round_inv t d p s) (d, ([], 0))).
  { apply (wp_for_each _ (λ l s, ∃ p, bank_indices d = p ++ l ∧ round_inv t d p s)).
    - exists []. split; [done|]. constructor; try done. intros i j. simpl. by destruct (bank_at d i j).
    - intros [i j] l s (p & Hp & HI). eapply wp_mono; [apply round_step; [done|..]|].
      + apply bank_indices_elem. rewrite Hp. set_solver.
      + pose proof (bank_indices_NoDup d) as Hnd. rewrite Hp in Hnd. apply NoDup_app in Hnd. set_solver.
      + intros [] s' HI'. exists (p ++ [(i, j)]). by rewrite <- app_assoc. }
  apply wp_ok in H as ([] & [d' r] & Hrun & p & Hp & [Hok Hs Hat Hr Hn]). unfold wp, Access_time. rewrite Hrun.
  rewrite app_nil_r in Hp. subst p. apply HQ; try done. intros i j. simpl in Hat. rewrite Hat.
  destruct (bank_at d i j) as [b|] eqn:Hb; [|done].
  rewrite bool_decide_eq_true_2; [done|]. apply bank_indices_elem. by eexists.
Qed.

(** ** Draining the queues *)

(** Both [SimpleMemory::freeze] and [unfreeze] mark the banks that started a write
    as busy until [now + latency]. *)
Definition mark_busy (t : Z) (l : list (Z * Z * bool)) : M DRAMBanks unit :=
  for_each l (λ x, on_bank x.1.1 x.1.2 (modify (set_busy_time t))).

Definition drain_round (now lat : Z) : M DRAMBanks (Z * Z) :=
  r ← Access_time now;
  mark_busy (u64 (now + lat)) r.1 ;;
  d ← get;
  mret (r.2, NextTime now d).

Definition pending (d : DRAMBanks) : nat := sum_list_with (λ b, length (write_queue_ b)) (mjoin (banks_ d)).

(** A bank after a round. *)
Definition round_bank (now lat : Z) (b : Bank) : Bank :=
  if due now b then set_busy_time (now + lat) (issue now b) else b.

Lemma wp_mark_busy t l (Q : unit → DRAMBanks → Prop) d : banks_ok d →
  (∀ x, x ∈ l → is_Some (bank_at d x.1.1 x.1.2)) →
  (∀ d', banks_ok d' → same_shape d d' →
    (∀ i j, bank_at d' i j = (if bool_decide ((i, j) ∈ fst <$> l) then set_busy_time t else id) <$> bank_at d i j) →
    Q tt d') →
  wp (mark_busy t l) Q d.
Proof.
  revert d. induction l as [|[[i j] h] l IH]; intros d Hd Hl HQ.
  - apply HQ; [done..|]. intros i j. simpl. by destruct (bank_at d i j).
  - destruct (Hl _ (list_elem_of_here _ _)) as [b Hb]. cbn [fst snd] in Hb. unfold mark_busy. cbn [for_each]. wp_step.
    eapply wp_on_bank; [done|]. wp_steps.
    assert (Hok : banks_ok (put_bank i j (set_busy_time t b) d)) by by eapply ok_update.
    assert (Hs : is_Some (bank_at d i j)) by by eexists.
    apply IH; [done| |].
    + intros x Hx. rewrite bank_at_put by done. case_decide; [by eexists|]. apply Hl. by right.
    + intros d' Hok' Hs' Hat. apply HQ; [done|etrans; [apply put_shape|apply Hs']|].
      intros i' j'. rewrite Hat, bank_at_put by done. cbn [fmap list_fmap fst]. case_decide as E.
      * injection E as -> ->. rewrite (bool_decide_eq_true_2 (_ ∈ _ :: _)) by set_solver. rewrite Hb. by destruct (bool_decide _).
      * f_equal. destruct (bool_decide_reflect ((i', j') ∈ fst <$> l)); [by rewrite bool_decide_eq_true_2 by set_solver|].
        by rewrite bool_decide_eq_false_2 by set_solver.
Qed.

(** The banks after an operation that treats all of them alike. *)
Lemma banks_fmap (f : Bank → Bank) d d' : banks_ok d → banks_ok d' → same_shape d d' →
  (∀ i j, bank_at d' i j = f <$> bank_at d i j) → banks_ d' = (λ l : list Bank, f <$> l) <$> banks_ d.
Proof.
  intros Hd Hd' Hs Hat. unfold same_shape, set_banks_ in Hs. injection Hs as _ _ E3 E4 _ _ _.
  assert (Hlen : length (banks_ d') = length (banks_ d)).
  { pose proof (bo_length d Hd). pose proof (bo_length d' Hd'). lia. }
  apply list_eq_same_length with (length (banks_ d)); [by rewrite length_fmap|done|].
  intros i l' l2 Hi Hl' Hl2. rewrite list_lookup_fmap in Hl2. apply fmap_Some in Hl2 as (l & Hl & ->).
  assert (Zl : ∀ (x : list (list Bank)) y, x !! i = Some y → zlookup x (Z.of_nat i) = Some y).
  { intros x y. unfold zlookup. destruct (Z.ltb_spec (Z.of_nat i) 0); [lia|]. by rewrite Nat2Z.id. }
  pose proof (bo_lengths d Hd _ _ (Zl _ _ Hl)). pose proof (bo_lengths d' Hd' _ _ (Zl _ _ Hl')).
  apply list_eq_same_length with (length l); [by rewrite length_fmap|lia|]. intros j x y Hj Hx Hy.
  specialize (Hat (Z.of_nat i) (Z.of_nat j)). unfold bank_at in Hat. rewrite (Zl _ _ Hl), (Zl _ _ Hl') in Hat. simpl in Hat.
  unfold zlookup in Hat. destruct (Z.ltb_spec (Z.of_nat j) 0); [lia|]. rewrite Nat2Z.id, Hx in Hat.
  rewrite list_lookup_fmap in Hy. congruence.
Qed.

Definition idle_by (t : Z) (d : DRAMBanks) : Prop := Forall (λ b, busy_time_ b ≤ t) (mjoin (banks_ d)).

Lemma mjoin_fmap (f : Bank → Bank) (l : list (list Bank)) :
  mjoin ((λ x : list Bank, f <$> x) <$> l) = f <$> mjoin l.
Proof. induction l as [|x l IH]; [done|]. simpl. by rewrite fmap_app, <- IH. Qed.

Lemma HasPendingWrite_join d : HasPendingWrite d = existsb Bank_HasPendingWrite (mjoin (banks_ d)).
Proof.
  unfold HasPendingWrite. induction (banks_ d) as [|x l IH]; [done|]. simpl. by rewrite existsb_app, IH.
Qed.

Lemma due_idle now b : busy_time_ b ≤ now → due now b = Bank_HasPendingWrite b.
Proof. intros. unfold due. rewrite (proj2 (Z.leb_le _ _)) by done. done. Qed.

Lemma issue_length now b : due now b = true → S (length (write_queue_ (issue now b))) = length (write_queue_ b).
Proof.
  intros Hd. destruct (pending_last b) as (a & Ha & _); [by apply andb_true_iff in Hd as [_ ?]|].
  unfold issue. rewrite Hd, Ha. replace (write_queue_ _) with (removelast (write_queue_ b)).
  - rewrite (snoc_last _ _ Ha) at 2. rewrite length_app. simpl. lia.
  - unfold Bank_Access. by destruct (_ =? _).
Qed.

Lemma round_length now lat b :
  length (write_queue_ b) = (length (write_queue_ (round_bank now lat b)) + (if due now b then 1 else 0))%nat.
Proof.
  unfold round_bank. destruct (due now b) eqn:E; [|lia]. rewrite <- (issue_length now b E). simpl. lia.
Qed.

Lemma round_busy now lat b : busy_time_ b ≤ now →
  busy_time_ (round_bank now lat b) = if Bank_HasPendingWrite b then now + lat else busy_time_ b.
Proof. intros H. unfold round_bank. rewrite due_idle by done. by destruct (Bank_HasPendingWrite b). Qed.

(** [NextTime] after a round: the end of the writes just started, if any. *)
Lemma next_time_round now lat l : 0 < lat → now + lat < 2 ^ 64 - 1 → Forall (λ b, busy_time_ b ≤ now) l →
  ∀ acc, acc = 2 ^ 64 - 1 ∨ acc = now + lat →
  foldl (λ next b, if (now <? busy_time_ b) && (busy_time_ b <? next) then busy_time_ b else next) acc
    (round_bank now lat <$> l) = if existsb Bank_HasPendingWrite l then now + lat else acc.
Proof.
  intros Hlat Hmax. induction 1 as [|b l Hb Hl IH]; intros acc Hacc; [done|]. simpl.
  rewrite round_busy by done. destruct (Bank_HasPendingWrite b); simpl.
  - destruct (Z.ltb_spec now (now + lat)); [|lia]. simpl. rewrite IH.
    + destruct (existsb _ l); [done|]. destruct (Z.ltb_spec (now + lat) acc); lia.
    + destruct (Z.ltb_spec (now + lat) acc); lia.
  - destruct (Z.ltb_spec now (busy_time_ b)); [lia|]. simpl. by apply IH.
Qed.

(** A round on idle banks: every bank with a write starts one; [NextTime] is when they
    end, or 0 when nothing was left to write. *)
Lemma wp_drain_round now lat (Q : Z * Z → DRAMBanks → Prop) d :
  banks_ok d → idle_by now d → 0 ≤ now → 0 < lat → now + lat < 2 ^ 64 - 1 →
  (∀ r d', banks_ok d' → same_shape d d' →
    banks_ d' = (λ l : list Bank, round_bank now lat <$> l) <$> banks_ d →
    r.1 = Z.of_nat (length (filter (λ ij, done_at now d ij = true) (bank_indices d))) →
    r.2 = (if HasPendingWrite d then now + lat else 0) → Q r d') →
  wp (drain_round now lat) Q d.
Proof.
  intros Hd Hidle Hnow Hlat Hmax HQ. unfold drain_round. wp_step. apply wp_Access_time; [done|].
  intros r d1 Hok1 Hs1 Hat1 Hr Hfl. rewrite u64_small by lia. wp_step.
  assert (Hin : ∀ i j, (i, j) ∈ fst <$> r.1 ↔ ∃ b, bank_at d i j = Some b ∧ due now b = true).
  { intros i j. rewrite Hr, list_elem_of_filter, bank_indices_elem. unfold due_at. simpl.
    split; [intros [? [b Hb]]; rewrite Hb in *; by exists b|intros (b & -> & ?); by eauto]. }
  apply wp_mark_busy; [done| |].
  { intros [[i j] h] Hx. destruct (proj1 (Hin i j)) as (b & Hb & _).
    - apply list_elem_of_fmap. by exists (i, j, h).
    - cbn [fst snd]. rewrite Hat1, Hb. by eexists. }
  intros d2 Hok2 Hs2 Hat2. wp_steps.
  assert (E : banks_ d2 = (λ l : list Bank, round_bank now lat <$> l) <$> banks_ d).
  { apply banks_fmap; [done|done|etrans; [apply Hs1|apply Hs2]|]. intros i j. rewrite Hat2, Hat1.
    destruct (bank_at d i j) as [b|] eqn:Hb; [|done]. simpl. f_equal. unfold round_bank.
    destruct (bool_decide_reflect ((i, j) ∈ fst <$> r.1)) as [H|H].
    - apply Hin in H as (b' & Hb' & Hdue). replace b' with b in Hdue by congruence. by rewrite Hdue.
    - destruct (due now b) eqn:Hdue; [|unfold issue; by rewrite Hdue]. destruct H. apply Hin. by exists b. }
  apply HQ; [done|etrans; [apply Hs1|apply Hs2]|done|done|]. cbn [snd]. unfold NextTime.
  rewrite E, mjoin_fmap, (next_time_round now lat) by auto. rewrite HasPendingWrite_join.
  destruct (existsb _ _); [|done]. destruct (Z.eqb_spec (now + lat) (2 ^ 64 - 1)); lia.
Qed.

Lemma pending_round now lat d d' : idle_by now d →
  banks_ d' = (λ l : list Bank, round_bank now lat <$> l) <$> banks_ d →
  HasPendingWrite d = true → (pending d' < pending d)%nat.
Proof.
  intros Hidle E. unfold pending, idle_by in *. rewrite E, mjoin_fmap, HasPendingWrite_join. clear E.
  assert (Hle : ∀ l, (sum_list_with (λ b, length (write_queue_ b)) (round_bank now lat <$> l) ≤
                 sum_list_with (λ b, length (write_queue_ b)) l)%nat).
  { induction l as [|b l IH]; [done|]. rewrite fmap_cons. cbn [sum_list_with]. pose proof (round_length now lat b). destruct (due now b); lia. }
  induction Hidle as [|b l Hb Hl IH]; [done|]. rewrite fmap_cons. cbn [existsb sum_list_with]. pose proof (round_length now lat b) as Hn. rewrite due_idle in Hn by done.
  specialize (Hle l). destruct (Bank_HasPendingWrite b); simpl; [lia|]. intros H%IH. lia.
Qed.

Lemma idle_round now lat d d' : 0 ≤ lat → idle_by now d →
  banks_ d' = (λ l : list Bank, round_bank now lat <$> l) <$> banks_ d → idle_by (now + lat) d'.
Proof.
  intros Hlat Hi E. unfold idle_by in *. rewrite E, mjoin_fmap. apply Forall_fmap.
  eapply Forall_impl; [done|]. intros b Hb. cbn beta in Hb. unfold compose. rewrite round_busy by done.
  destruct (Bank_HasPendingWrite b); lia.
Qed.

(** A round with nothing to write leaves the banks idle. *)
Lemma idle_round_none now lat d d' : idle_by now d → HasPendingWrite d = false →
  banks_ d' = (λ l : list Bank, round_bank now lat <$> l) <$> banks_ d → idle_by now d'.
Proof.
  intros Hi Hp E. unfold idle_by in *. rewrite HasPendingWrite_join in Hp. rewrite E, mjoin_fmap. clear E. revert Hp.
  induction Hi as [|b l Hb Hl IH]; [done|]. cbn [existsb]. rewrite orb_false_iff. intros [E1 E2]. rewrite fmap_cons. constructor; [|by apply IH].
  cbn beta in Hb. by rewrite round_busy, E1.
Qed.

Lemma pending_zero d : HasPendingWrite d = false ↔ pending d = 0%nat.
Proof.
  rewrite HasPendingWrite_join. unfold pending. induction (mjoin (banks_ d)) as [|b l IH]; [done|]. simpl.
  rewrite orb_false_iff, IH. unfold Bank_HasPendingWrite. destruct (write_queue_ b); simpl; naive_solver lia.
Qed.

(** ** Counting *)

(** A sum over all banks. *)
Definition tally (f : Bank → nat) (d : DRAMBanks) : nat := sum_list_with f (mjoin (banks_ d)).

(** The writes that end at time [t]. *)
Definition ends_at (t : Z) (b : Bank) : nat := if busy_time_ b =? t then 1%nat else 0%nat.
Definition ends_after (t : Z) (b : Bank) : nat := if busy_time_ b <=? t then 0%nat else 1%nat.
Definition flying (t : Z) (d : DRAMBanks) : nat := tally (ends_at t) d.

Lemma sum_insert {A} (f : A → nat) l i x y : l !! i = Some x →
  (sum_list_with f (<[i := y]> l) + f x = sum_list_with f l + f y)%nat.
Proof.
  revert i. induction l as [|z l IH]; intros [|i]; [done..| |].
  - intros [= ->]. cbn. lia.
  - intros H%(IH i). cbn. rewrite <- !Nat.add_assoc. f_equal. exact H.
Qed.

Lemma sum_join {A} (f : A → nat) (l : list (list A)) : sum_list_with f (mjoin l) = sum_list_with (sum_list_with f) l.
Proof. induction l as [|x l IH]; [done|]. cbn. rewrite sum_list_with_app. by rewrite <- IH. Qed.

Lemma tally_put f d i j b b' : bank_at d i j = Some b →
  (tally f (put_bank i j b' d) + f b = tally f d + f b')%nat.
Proof.
  unfold bank_at, put_bank, tally. destruct (zlookup (banks_ d) i) as [l|] eqn:Hl; [|done]. simpl. intros Hb.
  cbn [banks_ set_banks_]. rewrite !sum_join. pose proof (zlookup_Some _ _ _ Hl). pose proof (zlookup_Some _ _ _ Hb).
  unfold zlookup, zinsert in *. destruct (Z.ltb_spec i 0), (Z.ltb_spec j 0); try lia.
  pose proof (sum_insert f l _ _ b' Hb). pose proof (sum_insert (sum_list_with f) _ _ _ (<[Z.to_nat j := b']> l) Hl). lia.
Qed.

Lemma idle_tally t d : idle_by t d ↔ tally (ends_after t) d = 0%nat.
Proof.
  unfold idle_by, tally, ends_after. induction (mjoin (banks_ d)) as [|b l IH]; [done|]. cbn. rewrite Forall_cons, IH.
  destruct (Z.leb_spec (busy_time_ b) t); naive_solver lia.
Qed.

(** The banks in the order of the nested loops. *)
Lemma fmap_zlookup_zseq {A} (l : list A) : zlookup l <$> zseq (Z.of_nat (length l)) = Some <$> l.
Proof.
  apply list_eq. intros k. rewrite !list_lookup_fmap. unfold zseq. destruct (decide (k < length l)%nat) as [Hk|Hk].
  - rewrite lookup_seqZ_lt by lia. destruct (lookup_lt_is_Some_2 l k Hk) as [x Hx]. rewrite Hx. cbn. unfold zlookup.
    destruct (Z.ltb_spec (0 + Z.of_nat k) 0); [lia|]. f_equal. by rewrite Z.add_0_l, Nat2Z.id.
  - rewrite lookup_seqZ_ge by lia. by rewrite lookup_ge_None_2 by lia.
Qed.

Lemma bank_indices_banks d : (λ ij, bank_at d ij.1 ij.2) <$> bank_indices d = Some <$> mjoin (banks_ d).
Proof.
  unfold bank_indices, bank_at. set (F := λ o : option (list Bank), Some <$> default [] o).
  transitivity (mjoin (F <$> (zlookup (banks_ d) <$> zseq (Z.of_nat (length (banks_ d)))))).
  - induction (zseq _) as [|i ks IH]; [done|]. cbn [mbind list_bind fmap list_fmap mjoin list_join]. rewrite fmap_app. f_equal; [|exact IH].
    subst F. cbn beta. rewrite <- list_fmap_compose. destruct (zlookup (banks_ d) i) as [l|] eqn:El; [|done].
    rewrite <- fmap_zlookup_zseq. apply list_fmap_ext. intros k j _. unfold compose. cbn [fst snd]. by rewrite El.
  - rewrite fmap_zlookup_zseq. subst F. induction (banks_ d) as [|l ls IH]; [done|]. cbn. rewrite fmap_app. by f_equal.
Qed.

Lemma done_flying t d : length (filter (λ ij, done_at t d ij = true) (bank_indices d)) = flying t d.
Proof.
  unfold flying, tally.
  transitivity (length (filter (λ o : option Bank, match o with Some b => busy_time_ b =? t | None => false end = true)
    ((λ ij, bank_at d ij.1 ij.2) <$> bank_indices d))).
  - induction (bank_indices d) as [|ij l IH]; [done|]. rewrite fmap_cons, !filter_cons. unfold done_at at 1.
    destruct (decide _); cbn; by rewrite IH.
  - rewrite bank_indices_banks. induction (mjoin (banks_ d)) as [|b l IH]; [done|]. rewrite fmap_cons, filter_cons. cbn [sum_list_with].
    unfold ends_at. destruct (busy_time_ b =? t) eqn:E; (destruct (decide _); [|]); try done; cbn; by rewrite IH.
Qed.

(** Queueing a write. *)
Lemma push_counts d i j b b' : bank_at d i j = Some b → busy_time_ b' = busy_time_ b →
  length (write_queue_ b') = S (length (write_queue_ b)) →
  pending (put_bank i j b' d) = S (pending d) ∧
  ∀ t, (idle_by t d → idle_by t (put_bank i j b' d)) ∧ flying t (put_bank i j b' d) = flying t d.
Proof.
  intros Hb Eb El. pose proof (tally_put (λ b, length (write_queue_ b)) d i j b b' Hb) as Hp. split; [unfold pending, tally in *; lia|].
  intros t. rewrite !idle_tally. unfold flying.
  pose proof (tally_put (ends_after t) d i j b b' Hb) as H1.
  pose proof (tally_put (ends_at t) d i j b b' Hb) as H2. unfold ends_at, ends_after in *. rewrite Eb in *. lia.
Qed.

(** A round: every write that was queued is still queued or ends after the latency. *)
Lemma round_counts now lat d d' : 0 < lat → idle_by now d →
  banks_ d' = (λ l : list Bank, round_bank now lat <$> l) <$> banks_ d →
  (pending d = pending d' + flying (now + lat) d')%nat.
Proof.
  intros Hlat Hidle E. unfold pending, flying, tally, idle_by in *. rewrite E, mjoin_fmap. clear E.
  induction Hidle as [|b l Hb Hl IH]; [done|]. rewrite !fmap_cons. cbn [sum_list_with]. cbn beta in Hb. rewrite IH.
  pose proof (round_length now lat b) as Hn. pose proof (round_busy now lat b Hb) as Eb. rewrite due_idle in Hn by done.
  unfold ends_at at 2. rewrite Eb. destruct (Bank_HasPendingWrite b); [rewrite Z.eqb_refl; lia|].
  destruct (Z.eqb_spec (busy_time_ b) (now + lat)); lia.
Qed.

(** ** Construction *)

Lemma zlookup_replicate {A} n (x : A) i y : zlookup (replicate n x) i = Some y → y = x.
Proof. unfold zlookup. destruct (_ <? _); [done|]. intros [-> _]%lookup_replicate_1. done. Qed.

Lemma new_banks_ok capacity : 131072 ≤ capacity < 2 ^ 48 → banks_ok (new_DDR3Banks capacity).
Proof.
  intros Hcap. assert (Hr : rows_per_bank_ (new_DDR3Banks capacity) = capacity / 131072).
  { change (i32 (capacity / 131072) = capacity / 131072). apply i32_small.
    assert (0 ≤ capacity / 131072) by (apply Z.div_pos; lia).
    assert (capacity / 131072 < 2 ^ 31) by (apply Z.div_lt_upper_bound; lia). lia. }
  constructor; rewrite ?Hr; try (cbn; lia).
  - by change (columns_per_row_buffer_ (new_DDR3Banks capacity)) with 128.
  - split; [apply Z.div_str_pos; lia|apply Z.div_lt_upper_bound; lia].
  - done.
  - cbn [banks_ new_DDR3Banks new_DRAMBanks banks_per_rank_]. by intros i l ->%zlookup_replicate.
  - intros i j b a. unfold bank_at. cbn [banks_ new_DDR3Banks new_DRAMBanks].
    destruct (zlookup _ i) as [l|] eqn:Hl; [|done]. apply zlookup_replicate in Hl as ->. cbn [mbind option_bind].
    intros ->%zlookup_replicate. simpl. by intros ?%elem_of_nil.
Qed.

Lemma new_banks_idle capacity : idle_by 0 (new_DDR3Banks capacity) ∧ pending (new_DDR3Banks capacity) = 0%nat.
Proof. split; [|done]. unfold idle_by. cbn. by repeat constructor. Qed.

(** Row buffers are spread over all rows of all banks: within the capacity, the
    coordinates determine the row buffer. *)
Lemma home_inverse d addr : banks_ok d → 0 ≤ addr →
  addr / (burst_size_ d * columns_per_row_buffer_ d) <
    rows_per_bank_ d * ranks_per_channel_ d * banks_per_rank_ d →
  addr / (burst_size_ d * columns_per_row_buffer_ d) =
  (row_ID (home d addr) * ranks_per_channel_ d + rank_ID (home d addr)) * banks_per_rank_ d + bank_ID (home d addr).
Proof.
  intros [] Ha. unfold home. cbn [rank_ID bank_ID row_ID].
  set (x := addr / _). intros Hx.
  assert (0 ≤ x) by (apply Z.div_pos; nia).
  pose proof (Z.div_mod x (banks_per_rank_ d)). set (y := x / banks_per_rank_ d) in *.
  assert (0 ≤ y) by (apply Z.div_pos; lia).
  pose proof (Z.div_mod y (ranks_per_channel_ d)). set (z := y / ranks_per_channel_ d) in *.
  assert (z < rows_per_bank_ d).
  { unfold z, y. rewrite Z.div_div by lia. apply Z.div_lt_upper_bound; nia. }
  rewrite (Z.mod_small z) by (split; [apply Z.div_pos|]; lia). nia.
Qed.
