(* ===== verification/MemStore.v ===== *)
(** MemStore (src/mem_store.h): the interface through which the controller moves
    data, asks for latencies and reports statistics. [MemStore] lists the
    operations the controller calls; [MemStoreLaws] says what they promise for a
    memory laid out by a configuration. The memory that implements it is
    modelled in AbstractMem; MemLaws proves that it keeps them. *)

From S2P Require Import Prelude.
From S2P Require AddrTransTable MigrationController.

(** The parameters of the controller and the layout they give:
    physical space || NVM buffer || DRAM buffer. *)
Record Config := MkConfig {
  c_phy_range : Z;
  c_dram_size : Z;
  c_att_len : Z;
  c_block_bits : Z;
  c_page_bits : Z;
}.

Definition c_bsize (c : Config) : Z := 2 ^ c_block_bits c.
Definition c_nvm_base (c : Config) : Z := c_phy_range c.
Definition c_dram_base (c : Config) : Z := c_phy_range c + 2 * c_att_len c * c_bsize c.
Definition c_top (c : Config) : Z := c_phy_range c + 3 * c_att_len c * c_bsize c.
Definition c_ptt_length (c : Config) : Z := c_dram_size c / 2 ^ c_page_bits c.
Definition c_ptt_capacity (c : Config) : Z := c_ptt_length c + c_ptt_length c / 16.

(** Configurations in which no computation of a size wraps. *)
Record wf_config (c : Config) : Prop := {
  wf_bits : 0 ≤ c_block_bits c ≤ c_page_bits c;
  wf_page : c_page_bits c < 31;
  wf_att : 0 < c_att_len c;
  wf_buf : 2 * c_att_len c * c_bsize c < 2 ^ 31;
  wf_dram : 0 ≤ c_dram_size c ≤ c_phy_range c;
  wf_align : c_phy_range c mod 2 ^ c_page_bits c = 0;
  wf_cap : c_ptt_capacity c < 2 ^ 31;
  wf_top : c_top c + 2 ^ c_page_bits c < 2 ^ 63;
}.

Class MemStore (St : Type) := {
  MemCopy : Z → Z → Z → M St unit;
  MemSwap : Z → Z → Z → M St unit;
  GetReadLatency : Z → bool → option MigrationController.PTTEntry → M St Z;
  GetWriteLatency : Z → bool → option MigrationController.PTTEntry → M St Z;
  OnEpochEnd : M St unit;
  OnATTWriteHit : AddrTransTable.ATTState → M St unit;
  OnATTWriteMiss : AddrTransTable.ATTState → M St unit;
  statsNVMWrites : M St unit;
  statsDRAMWrites : M St unit;
  ckDRAMWriteHit : M St unit;
}.

(** [content] is the byte at a machine address and [lat_ok] the latency queries
    the memory answers. *)
Class MemStoreLaws (St : Type) `{!MemStore St} (c : Config) := {
  content : St → Z → Z;
  st_ok : St → Prop;
  lat_ok : Z → bool → option MigrationController.PTTEntry → Prop;

  law_copy dest src size st :
    st_ok st → dest ≠ src → 0 ≤ dest → 0 ≤ src → 0 ≤ size →
    dest + size ≤ c_top c → src + size ≤ c_top c → 0 < size →
    dest + size ≤ src ∨ src + size ≤ dest →
    wp (MemCopy dest src size) (λ _ st', st_ok st' ∧ ∀ a, content st' a =
      if bool_decide (dest ≤ a < dest + size) then content st (src + (a - dest))
      else content st a) st;
  law_swap x y size st :
    st_ok st → x ≠ y → 0 ≤ x → 0 ≤ y → 0 < size →
    x + size ≤ c_top c → y + size ≤ c_top c →
    x + size ≤ y ∨ y + size ≤ x →
    wp (MemSwap x y size) (λ _ st', st_ok st' ∧ ∀ a, content st' a =
      if bool_decide (x ≤ a < x + size) then content st (y + (a - x))
      else if bool_decide (y ≤ a < y + size) then content st (x + (a - y))
      else content st a) st;
  law_read_latency a d p st : st_ok st → lat_ok a d p →
    wp (GetReadLatency a d p) (λ lat st', 0 < lat < 2 ^ 31 ∧ st_ok st' ∧
      ∀ x, content st' x = content st x) st;
  law_write_latency a d p st : st_ok st → lat_ok a d p →
    wp (GetWriteLatency a d p) (λ lat st', 0 < lat < 2 ^ 31 ∧ st_ok st' ∧
      ∀ x, content st' x = content st x) st;
  law_hook op st : st_ok st →
    (op = OnEpochEnd ∨ op = statsNVMWrites ∨ op = statsDRAMWrites ∨ op = ckDRAMWriteHit ∨
     (∃ s, op = OnATTWriteHit s) ∨ (∃ s, op = OnATTWriteMiss s)) →
    wp op (λ _ st', st_ok st' ∧ ∀ x, content st' x = content st x) st;

  (* the queries the controller makes *)
  law_lat_nvm a : 0 ≤ a < c_dram_base c → lat_ok a false None;
  law_lat_dram a : c_dram_base c ≤ a < c_top c → lat_ok a true None;
  law_lat_page a p : 0 ≤ a < c_phy_range c →
    0 ≤ MigrationController.index p < c_ptt_capacity c → lat_ok a true (Some p);
}.

(** ** The device *)

(** The accesses of the processor to the bytes at a machine address. *)
Class MemDevice (St : Type) := {
  DevRead : Z → M St Z;
  DevWrite : Z → list Z → M St unit;
}.

Class MemDeviceLaws (St : Type) `{!MemStore St, !MemDevice St} (c : Config) `{!MemStoreLaws St c} := {
  law_dev_read a st : st_ok st → 0 ≤ a < c_top c →
    wp (DevRead a) (λ v st', v = content st a ∧ st_ok st' ∧ ∀ x, content st' x = content st x) st;
  law_dev_write a data st : st_ok st → 0 ≤ a < c_top c → a + Z.of_nat (length data) ≤ c_top c →
    wp (DevWrite a data) (λ _ st', st_ok st' ∧ ∀ x, content st' x =
      if (a <=? x) && (x <? a + Z.of_nat (length data)) then data !!! Z.to_nat (x - a)
      else content st x) st;
}.
