(* ===== verification/AddrTransController.v ===== *)
(** AddrTransController (src/addr_trans_controller.h, src/addr_trans_controller.cc):
    the memory controller that redirects stores so that the last checkpoint is
    never overwritten. Its operations run on [Sys]: the controller, the memory
    behind [MemStore], the profilers of the call and the vector of blocks to
    write back. A [vector<Addr>*] argument that may be NULL is a boolean: whether
    the call passes the vector. *)

From Stdlib Require Import QArith.
From S2P Require Import Prelude Profiler StdAlgo MemStore.
From S2P Require IndexQueue AddrTransTable VersionBuffer MigrationController.
#[global] Open Scope Z_scope.

Module ATT := AddrTransTable.
Module VB := VersionBuffer.
Module Mig := MigrationController.

(** [enum Control] *)
Inductive Control := REG_WRITE | NEW_EPOCH | WAIT_CKPT.

Record AddrTransController := MkCtl {
  att_ : ATT.AddrTransTable;
  nvm_buffer_ : VB.VersionBuffer;
  dram_buffer_ : VB.VersionBuffer;
  migrator_ : Mig.MigrationController;
  phy_range_ : Z;
  in_checkpointing_ : bool;
  pages_to_dram_ : Z;
  pages_to_nvm_ : Z;
}.

Definition set_att_ (v : ATT.AddrTransTable) (r : AddrTransController) : AddrTransController :=
  {| att_ := v; nvm_buffer_ := nvm_buffer_ r; dram_buffer_ := dram_buffer_ r;
     migrator_ := migrator_ r; phy_range_ := phy_range_ r; in_checkpointing_
     := in_checkpointing_ r; pages_to_dram_ := pages_to_dram_ r; pages_to_nvm_
     := pages_to_nvm_ r |}.
Definition set_nvm_buffer_ (v : VB.VersionBuffer) (r : AddrTransController) : AddrTransController :=
  {| att_ := att_ r; nvm_buffer_ := v; dram_buffer_ := dram_buffer_ r;
     migrator_ := migrator_ r; phy_range_ := phy_range_ r; in_checkpointing_
     := in_checkpointing_ r; pages_to_dram_ := pages_to_dram_ r; pages_to_nvm_
     := pages_to_nvm_ r |}.
Definition set_dram_buffer_ (v : VB.VersionBuffer) (r : AddrTransController) : AddrTransController :=
  {| att_ := att_ r; nvm_buffer_ := nvm_buffer_ r; dram_buffer_ := v;
     migrator_ := migrator_ r; phy_range_ := phy_range_ r; in_checkpointing_
     := in_checkpointing_ r; pages_to_dram_ := pages_to_dram_ r; pages_to_nvm_
     := pages_to_nvm_ r |}.
Definition set_migrator_ (v : Mig.MigrationController) (r : AddrTransController) : AddrTransController :=
  {| att_ := att_ r; nvm_buffer_ := nvm_buffer_ r; dram_buffer_ :=
     dram_buffer_ r; migrator_ := v; phy_range_ := phy_range_ r;
     in_checkpointing_ := in_checkpointing_ r; pages_to_dram_ :=
     pages_to_dram_ r; pages_to_nvm_ := pages_to_nvm_ r |}.
Definition set_phy_range_ (v : Z) (r : AddrTransController) : AddrTransController :=
  {| att_ := att_ r; nvm_buffer_ := nvm_buffer_ r; dram_buffer_ :=
     dram_buffer_ r; migrator_ := migrator_ r; phy_range_ := v;
     in_checkpointing_ := in_checkpointing_ r; pages_to_dram_ :=
     pages_to_dram_ r; pages_to_nvm_ := pages_to_nvm_ r |}.
Definition set_in_checkpointing_ (v : bool) (r : AddrTransController) : AddrTransController :=
  {| att_ := att_ r; nvm_buffer_ := nvm_buffer_ r; dram_buffer_ :=
     dram_buffer_ r; migrator_ := migrator_ r; phy_range_ := phy_range_ r;
     in_checkpointing_ := v; pages_to_dram_ := pages_to_dram_ r; pages_to_nvm_
     := pages_to_nvm_ r |}.
Definition set_pages_to_dram_ (v : Z) (r : AddrTransController) : AddrTransController :=
  {| att_ := att_ r; nvm_buffer_ := nvm_buffer_ r; dram_buffer_ :=
     dram_buffer_ r; migrator_ := migrator_ r; phy_range_ := phy_range_ r;
     in_checkpointing_ := in_checkpointing_ r; pages_to_dram_ := v;
     pages_to_nvm_ := pages_to_nvm_ r |}.
Definition set_pages_to_nvm_ (v : Z) (r : AddrTransController) : AddrTransController :=
  {| att_ := att_ r; nvm_buffer_ := nvm_buffer_ r; dram_buffer_ :=
     dram_buffer_ r; migrator_ := migrator_ r; phy_range_ := phy_range_ r;
     in_checkpointing_ := in_checkpointing_ r; pages_to_dram_ :=
     pages_to_dram_ r; pages_to_nvm_ := v |}.

Record Sys (St : Type) := MkSys {
  ctl : AddrTransController;
  store : St;
  profs : Profs;
  ckpt : list Z;
}.
Arguments MkSys {St}.
Arguments ctl {St}.
Arguments store {St}.
Arguments profs {St}.
Arguments ckpt {St}.

Definition set_ctl {St} (c : AddrTransController) (s : Sys St) : Sys St :=
  MkSys c (store s) (profs s) (ckpt s).
Definition set_ckpt {St} (l : list Z) (s : Sys St) : Sys St :=
  MkSys (ctl s) (store s) (profs s) l.

(** [AddrTransController::AddrTransController]; [junk] is the memory of the
    table's entries before construction. *)
Definition new_AddrTransController (phy_range dram_size att_len block_bits page_bits : Z)
    (junk : Z → ATT.ATTEntry) : M unit AddrTransController :=
  att ← ATT.new_AddrTransTable att_len block_bits junk;
  let nvm := VB.new_VersionBuffer (i32 (2 * att_len)) block_bits in
  let dram := VB.new_VersionBuffer att_len block_bits in
  let mig := Mig.new_MigrationController block_bits page_bits (i32 (Z.shiftr dram_size page_bits)) in
  assert_ "MigrationController" (Mig.slots_consistent mig) ;;
  assert_ "AddrTransController" (dram_size <=? phy_range) ;;
  let nvm := VB.set_addr_base phy_range nvm in
  let dram := VB.set_addr_base (u64 (VB.addr_base_ nvm + VB.Size nvm)) dram in
  mret (MkCtl att nvm dram mig phy_range false 0 0).

Section Controller.
Context {St : Type} `{!MemStore St} `{!HashOrder, !HeapAlgo}.

Abbreviation SM := (M (Sys St)) (only parsing).

(** Calls into the parts. *)
Definition on_att {A} (m : PM ATT.AddrTransTable A) : SM A :=
  zoom (λ s, (att_ (ctl s), profs s))
       (λ t s, MkSys (set_att_ t.1 (ctl s)) (store s) t.2 (ckpt s)) m.
Definition on_nvm {A} (m : PM VB.VersionBuffer A) : SM A :=
  zoom (λ s, (nvm_buffer_ (ctl s), profs s))
       (λ t s, MkSys (set_nvm_buffer_ t.1 (ctl s)) (store s) t.2 (ckpt s)) m.
Definition on_dram {A} (m : PM VB.VersionBuffer A) : SM A :=
  zoom (λ s, (dram_buffer_ (ctl s), profs s))
       (λ t s, MkSys (set_dram_buffer_ t.1 (ctl s)) (store s) t.2 (ckpt s)) m.
Definition on_mig {A} (m : PM Mig.MigrationController A) : SM A :=
  zoom (λ s, (migrator_ (ctl s), profs s))
       (λ t s, MkSys (set_migrator_ t.1 (ctl s)) (store s) t.2 (ckpt s)) m.
Definition on_store {A} (m : M St A) : SM A :=
  zoom store (λ t s, MkSys (ctl s) t (profs s) (ckpt s)) m.
Definition on_pf {A} (r : pfref) (m : M Profiler A) : SM A :=
  zoom (λ s, sel r (profs s)) (λ p s, MkSys (ctl s) (store s) (upd r p (profs s)) (ckpt s)) m.

Definition in_checkpointing : SM bool := gets (λ s, in_checkpointing_ (ctl s)).
Definition ToTag (addr : Z) : SM Z := gets (λ s, ATT.ToTag (att_ (ctl s)) addr).
Definition ToAddr (tag : Z) : SM Z := gets (λ s, ATT.ToAddr (att_ (ctl s)) tag).
Definition block_size : SM Z := gets (λ s, ATT.block_size (att_ (ctl s))).

(** [const ATTEntry& entry = att_.At(index)], and a later use of the reference. *)
Definition att_At (index : Z) : SM ATT.ATTEntry := on_att (own (ATT.At index)).
Definition att_ref (index : Z) : SM ATT.ATTEntry := on_att (own (ATT.entry_at index)).
Definition att_Translate (phy_addr base : Z) : SM Z := on_att (own (ATT.Translate phy_addr base)).
Definition att_IsEmpty (s : ATT.ATTState) : SM bool := on_att (own (ATT.IsEmpty s)).

(** [ckpt_blocks->push_back(a)] when the pointer is not NULL. *)
Definition push_ckpt (ck : bool) (a : Z) : SM unit :=
  if ck then modify (λ s, set_ckpt (ckpt s ++ [a]) s) else mret tt.

Definition Size (c : AddrTransController) : Z :=
  u64 (phy_range_ c + VB.Size (nvm_buffer_ c) + VB.Size (dram_buffer_ c)).

Definition IsDRAM (phy_addr : Z) (pf : pfref) : SM bool := on_mig (Mig.Contains phy_addr pf).

Definition CheckValid (phy_addr size : Z) : SM bool :=
  t ← ToTag phy_addr;
  t' ← ToTag (u64 (phy_addr + size - 1));
  mret (t =? t').

Definition FullBlock (phy_addr size : Z) : SM bool :=
  bs ← block_size;
  mret ((Z.land phy_addr (u64 (bs - 1)) =? 0) && (size =? bs)).

Definition CopyBlockIntra (dest src : Z) (pf : pfref) (ck : bool) : SM unit :=
  bs ← block_size;
  on_store (MemCopy dest src bs) ;;
  on_pf pf (AddBlockMoveIntra 1) ;;
  push_ckpt ck dest.

Definition CopyBlockInter (dest src : Z) (pf : pfref) (ck : bool) : SM unit :=
  bs ← block_size;
  on_store (MemCopy dest src bs) ;;
  on_pf pf (AddBlockMoveInter 1) ;;
  push_ckpt ck dest.

Definition SwapBlock (direct_addr mach_addr : Z) (pf : pfref) (ck : bool) : SM unit :=
  bs ← block_size;
  on_store (MemSwap direct_addr mach_addr bs) ;;
  on_pf pf (AddBlockMoveIntra 3) ;;
  push_ckpt ck direct_addr ;;
  push_ckpt ck direct_addr ;;
  push_ckpt ck mach_addr.

Definition Setup (phy_addr base : Z) (s : ATT.ATTState) (move_data : bool) (pf : pfref) : SM Z :=
  assert_ "AddrTransController::Setup"
    (ATT.state_eqb s ATT.DIRTY || ATT.state_eqb s ATT.STAINED || ATT.state_eqb s ATT.LOAN) ;;
  phy_tag ← ToTag phy_addr;
  (if move_data then
     src ← ToAddr phy_tag;
     CopyBlockIntra base src pf false
   else mret tt) ;;
  on_att (ATT.Setup phy_tag base s pf).

Definition HideClean (index : Z) (move_data : bool) (pf : pfref) : SM unit :=
  ck ← in_checkpointing;
  assert_ "AddrTransController::HideClean" (negb ck) ;;
  entry ← att_At index;
  assert_ "AddrTransController::HideClean" (ATT.state_eqb (ATT.state entry) ATT.CLEAN) ;;
  phy_addr ← ToAddr (ATT.phy_tag entry);
  (if move_data then CopyBlockIntra phy_addr (ATT.mach_base entry) pf false else mret tt) ;;
  on_nvm (VB.SlotBackup (ATT.mach_base entry) VB.BACKUP0 pf) ;;
  on_att (ATT.Reset index phy_addr ATT.HIDDEN PfOverlap).

Definition ResetClean (index : Z) (move_data : bool) (pf : pfref) : SM Z :=
  ck ← in_checkpointing;
  assert_ "AddrTransController::ResetClean" ck ;;
  entry ← att_At index;
  assert_ "AddrTransController::ResetClean" (ATT.state_eqb (ATT.state entry) ATT.CLEAN) ;;
  mach_base ← on_dram (VB.SlotAlloc pf);
  (if move_data then CopyBlockInter mach_base (ATT.mach_base entry) pf false else mret tt) ;;
  on_nvm (VB.SlotBackup (ATT.mach_base entry) VB.BACKUP1 pf) ;;
  on_att (ATT.Reset index mach_base ATT.TEMP PfOverlap) ;;
  mret mach_base.

Definition FreeClean (index : Z) (pf : pfref) : SM unit :=
  entry ← att_At index;
  assert_ "AddrTransController::FreeClean" (ATT.state_eqb (ATT.state entry) ATT.CLEAN) ;;
  phy_addr ← ToAddr (ATT.phy_tag entry);
  ck ← in_checkpointing;
  (if (ck : bool) then SwapBlock phy_addr (ATT.mach_base entry) pf false
   else CopyBlockIntra phy_addr (ATT.mach_base entry) pf false) ;;
  on_nvm (VB.SlotBackup (ATT.mach_base entry) (if (ck : bool) then VB.BACKUP1 else VB.BACKUP0) pf) ;;
  on_att (ATT.ShiftState index ATT.FREE PfOverlap).

Definition DirtyStained (index : Z) (move_data : bool) (pf : pfref) (ckb : bool) : SM Z :=
  ck ← in_checkpointing;
  assert_ "AddrTransController::DirtyStained" (negb ck) ;;
  entry ← att_At index;
  assert_ "AddrTransController::DirtyStained" (ATT.state_eqb (ATT.state entry) ATT.STAINED) ;;
  mach_base ← on_nvm (VB.SlotAlloc pf);
  (if move_data then
     CopyBlockInter mach_base (ATT.mach_base entry) pf false ;;
     push_ckpt ckb mach_base
   else mret tt) ;;
  on_dram (VB.FreeSlot (ATT.mach_base entry) VB.IN_USE pf) ;;
  on_att (ATT.Reset index mach_base ATT.DIRTY PfOverlap) ;;
  mret mach_base.

Definition FreeLoan (index : Z) (move_data : bool) (pf : pfref) (ckb : bool) : SM unit :=
  ck ← in_checkpointing;
  assert_ "AddrTransController::FreeLoan" (negb ck) ;;
  entry ← att_At index;
  assert_ "AddrTransController::FreeLoan" (ATT.state_eqb (ATT.state entry) ATT.LOAN) ;;
  phy_addr ← ToAddr (ATT.phy_tag entry);
  (if move_data then
     d ← IsDRAM phy_addr PfNull;
     assert_ "AddrTransController::FreeLoan" d ;;
     CopyBlockIntra phy_addr (ATT.mach_base entry) pf false ;;
     push_ckpt ckb phy_addr
   else mret tt) ;;
  on_dram (VB.FreeSlot (ATT.mach_base entry) VB.IN_USE pf) ;;
  on_att (ATT.ShiftState index ATT.FREE PfOverlap).

Definition HideTemp (index : Z) (move_data : bool) (pf : pfref) (ckb : bool) : SM unit :=
  ck ← in_checkpointing;
  assert_ "AddrTransController::HideTemp" (negb ck) ;;
  entry ← att_At index;
  assert_ "AddrTransController::HideTemp" (ATT.state_eqb (ATT.state entry) ATT.TEMP) ;;
  phy_addr ← ToAddr (ATT.phy_tag entry);
  (if move_data then
     d ← IsDRAM phy_addr PfNull;
     assert_ "AddrTransController::HideTemp" (negb d) ;;
     CopyBlockInter phy_addr (ATT.mach_base entry) pf false ;;
     push_ckpt ckb phy_addr
   else mret tt) ;;
  on_dram (VB.FreeSlot (ATT.mach_base entry) VB.IN_USE pf) ;;
  on_att (ATT.Reset index phy_addr ATT.HIDDEN PfOverlap).

(** [Discard(index, vb, pf)]; [nvm] tells which buffer is passed. *)
Definition Discard (index : Z) (nvm : bool) (pf : pfref) : SM unit :=
  ck ← in_checkpointing;
  assert_ "AddrTransController::Discard" (negb ck) ;;
  entry ← att_At index;
  (if nvm then on_nvm (VB.FreeSlot (ATT.mach_base entry) VB.IN_USE PfOverlap)
   else on_dram (VB.FreeSlot (ATT.mach_base entry) VB.IN_USE PfOverlap)) ;;
  on_att (ATT.ShiftState index ATT.FREE pf).

Definition LoadAddr (phy_addr : Z) (pf : pfref) : SM Z :=
  tag ← ToTag phy_addr;
  index ← on_att (ATT.Lookup tag pf);
  if negb (index =? - EINVAL) then
    entry ← att_At index;
    on_att (own (ATT.AddBlockRead index)) ;;
    mach_addr ← att_Translate phy_addr (ATT.mach_base entry);
    let is_dram := ATT.state_eqb (ATT.state entry) ATT.TEMP ||
                   ATT.state_eqb (ATT.state entry) ATT.LOAN ||
                   ATT.state_eqb (ATT.state entry) ATT.STAINED in
    lat ← on_store (GetReadLatency mach_addr is_dram None);
    on_pf pf (AddLatency lat) ;;
    mret mach_addr
  else
    page ← on_mig (Mig.LookupPage phy_addr pf);
    if Mig.index page <? 0 then
      lat ← on_store (GetReadLatency phy_addr false None);
      on_pf pf (AddLatency lat) ;;
      mret phy_addr
    else
      on_mig (own (Mig.AddDRAMPageRead (Mig.mach_base page))) ;;
      mach_addr ← on_mig (own (Mig.Translate phy_addr (Mig.mach_base page)));
      lat ← on_store (GetReadLatency mach_addr true (Some page));
      on_pf pf (AddLatency lat) ;;
      mret mach_addr.

Definition DRAMStore (phy_addr size : Z) (page : Mig.PTTEntry) (pf : pfref) : SM Z :=
  tag ← ToTag phy_addr;
  index ← on_att (ATT.Lookup tag pf);
  ck ← in_checkpointing;
  if negb (index =? - EINVAL) then
    entry ← att_At index;
    on_store (OnATTWriteHit (ATT.state entry)) ;;
    if (ck : bool) then
      lat ← on_store (GetWriteLatency phy_addr true None);
      on_pf pf (AddLatency lat) ;;
      entry ← att_ref index;
      att_Translate phy_addr (ATT.mach_base entry)
    else
      full ← FullBlock phy_addr size;
      FreeLoan index (negb full) pf false ;;
      lat ← on_store (GetWriteLatency phy_addr true (Some page));
      on_pf pf (AddLatency lat) ;;
      mret phy_addr
  else if (ck : bool) then
    ef ← att_IsEmpty ATT.FREE;
    (if (ef : bool) then
       ec ← att_IsEmpty ATT.CLEAN;
       assert_ "AddrTransController::DRAMStore" (negb ec) ;;
       front ← on_att (own (ATT.GetFront ATT.CLEAN));
       FreeClean front pf ;;
       on_store (OnATTWriteMiss ATT.LOAN)
     else on_store (OnATTWriteHit ATT.LOAN)) ;;
    mach_base ← on_dram (VB.SlotAlloc PfOverlap);
    full ← FullBlock phy_addr size;
    Setup phy_addr mach_base ATT.LOAN (negb full) pf ;;
    mach_addr ← att_Translate phy_addr mach_base;
    lat ← on_store (GetWriteLatency mach_addr true None);
    on_pf pf (AddLatency lat) ;;
    mret mach_addr
  else
    on_store ckDRAMWriteHit ;;
    lat ← on_store (GetWriteLatency phy_addr true (Some page));
    on_pf pf (AddLatency lat) ;;
    mret phy_addr.

(** The branches of [NVMStore]; each gives the index of the entry and the machine
    address. In the first one the case TEMP falls through to DIRTY and HIDDEN. *)
Definition NVMStore_hit_running (index phy_addr size : Z) (pf : pfref) : SM (Z * Z) :=
  entry ← att_At index;
  on_store (OnATTWriteHit (ATT.state entry)) ;;
  full ← FullBlock phy_addr size;
  mach_addr ←
    match ATT.state entry with
    | ATT.TEMP =>
        HideTemp index (negb full) pf false ;;
        entry' ← att_ref index;
        att_Translate phy_addr (ATT.mach_base entry')
    | ATT.DIRTY | ATT.HIDDEN => att_Translate phy_addr (ATT.mach_base entry)
    | ATT.STAINED =>
        base ← DirtyStained index (negb full) pf false;
        att_Translate phy_addr base
    | _ =>
        HideClean index (negb full) pf ;;
        mret phy_addr
    end;
  mret (index, mach_addr).

Definition NVMStore_miss_running (phy_addr size : Z) (pf : pfref) : SM (Z * Z) :=
  ef ← att_IsEmpty ATT.FREE;
  (if (ef : bool) then
     el ← att_IsEmpty ATT.LOAN;
     (if negb el then
        li ← on_att (own (ATT.GetFront ATT.LOAN));
        FreeLoan li true pf false
      else
        ec ← att_IsEmpty ATT.CLEAN;
        assert_ "AddrTransController::NVMStore" (negb ec) ;;
        ci ← on_att (own (ATT.GetFront ATT.CLEAN));
        FreeClean ci pf) ;;
     on_store (OnATTWriteMiss ATT.DIRTY)
   else on_store (OnATTWriteHit ATT.DIRTY)) ;;
  mach_base ← on_nvm (VB.SlotAlloc PfOverlap);
  full ← FullBlock phy_addr size;
  index ← Setup phy_addr mach_base ATT.DIRTY (negb full) pf;
  mach_addr ← att_Translate phy_addr mach_base;
  mret (index, mach_addr).

Definition NVMStore_hit_ckpt (index phy_addr size : Z) (pf : pfref) : SM (Z * Z) :=
  entry ← att_At index;
  on_store (OnATTWriteHit (ATT.state entry)) ;;
  mach_addr ←
    (if ATT.state_eqb (ATT.state entry) ATT.TEMP || ATT.state_eqb (ATT.state entry) ATT.STAINED then
       att_Translate phy_addr (ATT.mach_base entry)
     else
       full ← FullBlock phy_addr size;
       mach_base ← ResetClean index (negb full) pf;
       att_Translate phy_addr mach_base);
  mret (index, mach_addr).

Definition NVMStore_miss_ckpt (phy_addr size : Z) (pf : pfref) : SM (Z * Z) :=
  ef ← att_IsEmpty ATT.FREE;
  (if (ef : bool) then
     ec ← att_IsEmpty ATT.CLEAN;
     assert_ "AddrTransController::NVMStore" (negb ec) ;;
     front ← on_att (own (ATT.GetFront ATT.CLEAN));
     FreeClean front pf ;;
     on_store (OnATTWriteMiss ATT.STAINED)
   else on_store (OnATTWriteHit ATT.STAINED)) ;;
  mach_base ← on_dram (VB.SlotAlloc PfOverlap);
  full ← FullBlock phy_addr size;
  index ← Setup phy_addr mach_base ATT.STAINED (negb full) pf;
  mach_addr ← att_Translate phy_addr mach_base;
  mret (index, mach_addr).

Definition NVMStore (phy_addr size : Z) (pf : pfref) : SM Z :=
  phy_tag ← ToTag phy_addr;
  index ← on_att (ATT.Lookup phy_tag pf);
  ck ← in_checkpointing;
  r ← (if negb ck then
         if negb (index =? - EINVAL) then NVMStore_hit_running index phy_addr size pf
         else NVMStore_miss_running phy_addr size pf
       else
         if negb (index =? - EINVAL) then NVMStore_hit_ckpt index phy_addr size pf
         else NVMStore_miss_ckpt phy_addr size pf);
  lat ← on_store (GetWriteLatency r.2 ck None);
  on_pf pf (AddLatency lat) ;;
  on_att (own (ATT.AddBlockWrite r.1)) ;;
  mret r.2.

Definition Probe (phy_addr : Z) : SM Control :=
  dram ← on_mig (Mig.Contains phy_addr PfNull);
  ck ← in_checkpointing;
  if (dram : bool) then
    if (ck : bool) then
      c ← on_att (ATT.Contains phy_addr PfNull);
      if (c : bool) then mret REG_WRITE else
      ef ← att_IsEmpty ATT.FREE;
      if negb ef then mret REG_WRITE else
      ec ← att_IsEmpty ATT.CLEAN;
      mret (if (ec : bool) then WAIT_CKPT else REG_WRITE)
    else mret REG_WRITE
  else
    c ← on_att (ATT.Contains phy_addr PfNull);
    if (c : bool) then mret REG_WRITE else
    if (ck : bool) then
      ef ← att_IsEmpty ATT.FREE;
      if negb ef then mret REG_WRITE else
      ec ← att_IsEmpty ATT.CLEAN;
      mret (if (ec : bool) then WAIT_CKPT else REG_WRITE)
    else
      n ← on_att (own (ATT.GetLength ATT.DIRTY));
      s ← get;
      mret (if (n =? ATT.length_ (att_ (ctl s))) ||
               (Mig.ptt_length_ (migrator_ (ctl s)) <=? Mig.num_dirty_entries (migrator_ (ctl s)))
            then NEW_EPOCH else REG_WRITE).

Definition StoreAddr (phy_addr size : Z) (pf : pfref) : SM Z :=
  v ← CheckValid phy_addr size;
  s ← get;
  assert_ "AddrTransController::StoreAddr" (v && (phy_addr <? phy_range_ (ctl s))) ;;
  page ← on_mig (Mig.LookupPage phy_addr pf);
  if Mig.index page <? 0 then
    on_store statsNVMWrites ;;
    NVMStore phy_addr size pf
  else
    on_mig (own (Mig.AddDRAMPageWrite (Mig.mach_base page))) ;;
    page' ←
      match Mig.state page with
      | Mig.CLEAN_STATIC =>
          on_mig (Mig.ShiftState (Mig.mach_base page) Mig.DIRTY_DIRECT pf) ;;
          mret (Mig.set_state Mig.DIRTY_DIRECT page)
      | Mig.CLEAN_DIRECT =>
          on_mig (Mig.ShiftState (Mig.mach_base page) Mig.DIRTY_STATIC pf) ;;
          mret (Mig.set_state Mig.DIRTY_STATIC page)
      | _ => mret page
      end;
    on_store statsDRAMWrites ;;
    DRAMStore phy_addr size page' pf.

(** [DirtyCleaner::Visit]; [entry] is a reference, read again after the calls. *)
Definition DirtyCleaner_Visit (pf : pfref) (i : Z) : SM unit :=
  entry ← att_At i;
  (if ATT.state_eqb (ATT.state entry) ATT.STAINED then
     DirtyStained i true pf true ;; mret tt
   else if ATT.state_eqb (ATT.state entry) ATT.TEMP then
     HideTemp i true pf true
   else mret tt) ;;
  entry ← att_ref i;
  if ATT.state_eqb (ATT.state entry) ATT.DIRTY then
    on_att (ATT.ShiftState i ATT.CLEAN PfOverlap)
  else if ATT.state_eqb (ATT.state entry) ATT.HIDDEN then
    on_att (ATT.ShiftState i ATT.FREE PfOverlap)
  else mret tt.

(** [LoanRevoker::Visit] *)
Definition LoanRevoker_Visit (pf : pfref) (i : Z) : SM unit :=
  entry ← att_At i;
  assert_ "LoanRevoker::Visit" (ATT.state_eqb (ATT.state entry) ATT.LOAN) ;;
  FreeLoan i true pf true.

(** [migrator_.AddToBlockList(page, &ckpt_blocks)] *)
Definition add_page_blocks (page : Z) : SM unit :=
  s ← get;
  l ← on_mig (own (Mig.AddToBlockList page (ckpt s)));
  modify (set_ckpt l).

Definition MigrateDRAM (stats : Mig.DRAMPageStats) (pf : pfref) : SM unit :=
  (match Mig.d_state stats with
   | Mig.CLEAN_STATIC =>
       on_pf pf (AddPageMoveIntra 1) ;;
       add_page_blocks (Mig.d_phy_addr stats)
   | Mig.DIRTY_DIRECT =>
       on_pf pf (AddPageMoveInter 1) ;;
       add_page_blocks (Mig.d_phy_addr stats)
   | Mig.DIRTY_STATIC =>
       on_pf pf (AddPageMoveIntra 1) ;;
       on_pf pf (AddPageMoveInter 1) ;;
       add_page_blocks (Mig.d_phy_addr stats) ;;
       add_page_blocks (Mig.d_phy_addr stats)
   | Mig.CLEAN_DIRECT => mret tt
   end) ;;
  on_mig (Mig.Free (Mig.d_phy_addr stats) pf).

(** The body of the loop of [MigrateNVM] for one tag. *)
Definition migrate_block (pf : pfref) (tag : Z) : SM unit :=
  index ← on_att (ATT.Lookup tag pf);
  if index =? - EINVAL then on_pf pf (AddBlockMoveInter 1) else
  entry ← att_At index;
  on_pf pf set_ignore_latency ;;
  phy_addr ← ToAddr (ATT.phy_tag entry);
  (match ATT.state entry with
   | ATT.CLEAN | ATT.DIRTY =>
       on_pf pf (AddBlockMoveInter 1) ;;
       CopyBlockIntra phy_addr (ATT.mach_base entry) pf false ;;
       push_ckpt true phy_addr ;;
       Discard index true pf
   | ATT.STAINED | ATT.TEMP =>
       on_pf pf (AddBlockMoveIntra 1) ;;
       CopyBlockInter phy_addr (ATT.mach_base entry) pf false ;;
       push_ckpt true phy_addr ;;
       Discard index false pf
   | ATT.LOAN | ATT.FREE => assert_ "AddrTransController::MigrateNVM" false
   | ATT.HIDDEN =>
       on_pf pf (AddBlockMoveInter 1) ;;
       on_att (ATT.ShiftState index ATT.FREE pf)
   end) ;;
  on_pf pf clear_ignore_latency.

Definition MigrateNVM (stats : Mig.NVMPageStats) (pf : pfref) : SM unit :=
  s ← get;
  let m := migrator_ (ctl s) in
  phy_tag ← ToTag (Mig.n_phy_addr stats);
  next_page ← ToTag (u64 (Mig.n_phy_addr stats + Mig.page_size m));
  assert_ "AddrTransController::MigrateNVM" (next_page - phy_tag =? Mig.page_blocks_ m) ;;
  for_each ((λ k, phy_tag + k) <$> zseq (next_page - phy_tag)) (migrate_block pf) ;;
  (if Mig.Qlt_bool (1 # 2) (Mig.n_dirty_ratio stats) then
     on_mig (Mig.Setup (Mig.n_phy_addr stats) Mig.CLEAN_STATIC pf)
   else on_mig (Mig.Setup (Mig.n_phy_addr stats) Mig.CLEAN_DIRECT pf)) ;;
  add_page_blocks (Mig.n_phy_addr stats) ;;
  modify (λ s, set_ctl (set_pages_to_dram_ (u64 (pages_to_dram_ (ctl s) + 1)) (ctl s)) s).

(** How the first loop of [MigratePages] ends: by a [return], or by leaving the
    loop with a DRAM page at hand ([d_ready]) or without one. *)
Inductive loop_exit := ExitReturn | ExitReady (d : Mig.DRAMPageStats) | ExitLoop.

Fixpoint migrate_nvm_loop (fuel : nat) (pf : pfref) (dr : Q) : SM loop_exit :=
  match fuel with
  | O => err EFuel
  | S fuel' =>
      r ← on_mig (Mig.ExtractNVMPage pf);
      match r with
      | None => mret ExitLoop
      | Some n =>
          if Mig.Qlt_bool (Mig.n_dirty_ratio n) dr then mret ExitLoop else
          s ← get;
          if Mig.num_entries (migrator_ (ctl s)) =? Mig.ptt_capacity_ (migrator_ (ctl s)) then
            r' ← on_mig (Mig.ExtractDRAMPage PfOverlap);
            match r' with
            | None => mret ExitReturn
            | Some d =>
                if Mig.Qlt_bool 0 (Mig.d_write_ratio d) then mret (ExitReady d) else
                on_pf pf set_ignore_latency ;;
                MigrateDRAM d pf ;;
                on_pf pf clear_ignore_latency ;;
                MigrateNVM n pf ;;
                migrate_nvm_loop fuel' pf dr
            end
          else
            MigrateNVM n pf ;;
            migrate_nvm_loop fuel' pf dr
      end
  end.

(** The do-while loop of [MigratePages]; [continue] goes to the condition. *)
Fixpoint migrate_dram_loop (fuel : nat) (pf : pfref) (wr : Q) (d : Mig.DRAMPageStats)
    (limit : Z) : SM unit :=
  match fuel with
  | O => err EFuel
  | S fuel' =>
      let condition := λ limit : Z,
        if limit =? 0 then mret tt else
        r ← on_mig (Mig.ExtractDRAMPage (if Qeq_bool (Mig.d_write_ratio d) 0 then PfNull else pf));
        match r with
        | None => mret tt
        | Some d' => migrate_dram_loop fuel' pf wr d' limit
        end in
      if Qeq_bool (Mig.d_write_ratio d) 0 then condition limit else
      if Mig.Qlt_bool wr (Mig.d_write_ratio d) then mret tt else
      on_pf pf set_ignore_latency ;;
      MigrateDRAM d pf ;;
      on_pf pf clear_ignore_latency ;;
      modify (λ s, set_ctl (set_pages_to_nvm_ (u64 (pages_to_nvm_ (ctl s) + 1)) (ctl s)) s) ;;
      condition (limit - 1)
  end.

Definition MigratePages (pf : pfref) (dr wr : Q) : SM unit :=
  ck ← in_checkpointing;
  assert_ "AddrTransController::MigratePages" (negb ck) ;;
  ATT.VisitQueue (λ s, att_ (ctl s)) ATT.LOAN (LoanRevoker_Visit pf) ;;
  el ← att_IsEmpty ATT.LOAN;
  assert_ "AddrTransController::MigratePages" el ;;
  s ← get;
  on_mig (own (Mig.InputBlocks (ATT.entries_ (att_ (ctl s))))) ;;
  s ← get;
  x ← migrate_nvm_loop (S (length (Mig.nvm_heap_ (migrator_ (ctl s))))) pf dr;
  let finish := λ d : Mig.DRAMPageStats,
    s ← get;
    let m := migrator_ (ctl s) in
    migrate_dram_loop (S (length (Mig.dram_heap_ m))) pf wr d
      (Mig.ptt_capacity_ m - Mig.ptt_length_ m) in
  match x with
  | ExitReturn => mret tt
  | ExitReady d => finish d
  | ExitLoop =>
      r ← on_mig (Mig.ExtractDRAMPage pf);
      match r with
      | None => mret tt
      | Some d => finish d
      end
  end.

Definition BeginCheckpointing (pf : pfref) : SM unit :=
  ck ← in_checkpointing;
  assert_ "AddrTransController::BeginCheckpointing" (negb ck) ;;
  ATT.VisitQueue (λ s, att_ (ctl s)) ATT.DIRTY (DirtyCleaner_Visit pf) ;;
  nc ← on_att (own (ATT.GetLength ATT.CLEAN));
  nf ← on_att (own (ATT.GetLength ATT.FREE));
  s ← get;
  assert_ "AddrTransController::BeginCheckpointing" (nc + nf =? ATT.length_ (att_ (ctl s))) ;;
  on_pf pf AddTableOp ;;
  modify (λ s, set_ctl (set_in_checkpointing_ true (ctl s)) s) ;;
  on_att (ATT.ClearStats pf) ;;
  s ← get;
  l ← on_mig (Mig.Clear pf (ckpt s));
  modify (set_ckpt l).

Definition FinishCheckpointing : SM unit :=
  ck ← in_checkpointing;
  assert_ "AddrTransController::FinishCheckpointing" ck ;;
  on_nvm (VB.ClearBackup PfNull) ;;
  modify (λ s, set_ctl (set_in_checkpointing_ false (ctl s)) s) ;;
  on_store OnEpochEnd.

End Controller.
