(* ===== verification/AccessCost.v ===== *)
(** The cost of an access: however large the tables are, a load or a store charges the
    profiler with a constant number of table and buffer operations and one memory access. *)

From S2P Require Import Prelude Profiler StdAlgo MemStore AddrTransController.
From S2P Require AddrTransTable VersionBuffer MigrationController.
#[global] Open Scope Z_scope.

Definition ops (p : Profiler) : Z := num_table_ops_ p + num_buffer_ops_ p.

(** The counters have not wrapped. *)
Definition tame (p : Profiler) : Prop := 0 ≤ latency_ p ∧ 0 ≤ num_table_ops_ p ∧ 0 ≤ num_buffer_ops_ p.

(** At most [o] operations and [l] memory accesses; a latency is an [int]. *)
Definition spent (o l : nat) (p p' : Profiler) : Prop :=
  tame p → tame p' ∧ ops p' ≤ ops p + Z.of_nat o ∧ latency_ p' ≤ latency_ p + Z.of_nat l * (2 ^ 31 - 1).

Lemma spent_refl p : spent 0 0 p p.
Proof. intros H. split_and!; [done|lia|lia]. Qed.

Lemma spent_trans o1 l1 o2 l2 p q r : spent o1 l1 p q → spent o2 l2 q r → spent (o1 + o2) (l1 + l2) p r.
Proof. intros H1 H2 (H3 & H4 & H5)%H1. destruct (H2 H3) as (H6 & H7 & H8). split; [done|lia]. Qed.

Lemma spent_le o l o' l' p q : spent o l p q → (o ≤ o')%nat → (l ≤ l')%nat → spent o' l' p q.
Proof. intros H Ho Hl (H1 & H2 & H3)%H. split; [done|nia]. Qed.

Section Costs.
Context {S : Type} (π : S → Profs).

(** The profiler passed to the access pays at most [o] and [l]. *)
Definition costs {A} (o l : nat) (m : M S A) : Prop :=
  ∀ s a s', m s = Ok (a, s') → spent o l (sel PfArg (π s)) (sel PfArg (π s')).

Lemma costs_free {A} (m : M S A) : (∀ s a s', m s = Ok (a, s') → sel PfArg (π s') = sel PfArg (π s)) → costs 0 0 m.
Proof. intros H s a s' E%H. rewrite E. apply spent_refl. Qed.

Lemma costs_le {A} o l o' l' (m : M S A) : costs o l m → (o ≤ o')%nat → (l ≤ l')%nat → costs o' l' m.
Proof. intros H Ho Hl s a s' E. by eapply spent_le; [eapply H|..]. Qed.

Lemma costs_ret {A} (a : A) : costs 0 0 (mret a).
Proof. apply costs_free. intros s b s' H. by injection H as _ <-. Qed.

Lemma costs_gets {A} (f : S → A) : costs 0 0 (gets f).
Proof. apply costs_free. intros s b s' H. by injection H as _ <-. Qed.

Lemma costs_get : costs 0 0 get.
Proof. apply costs_free. intros s b s' H. by injection H as _ <-. Qed.

Lemma costs_assert e b : costs 0 0 (assert_ e b : M S unit).
Proof. apply costs_free. intros s x s' H. unfold assert_ in H. destruct b; [|done]. by injection H as _ <-. Qed.

Lemma costs_err {A} e : costs 0 0 (err e : M S A).
Proof. by intros s a s' H. Qed.

Lemma costs_bind {A B} o1 l1 o l (m : M S A) (f : A → M S B) : costs o1 l1 m → (o1 ≤ o)%nat → (l1 ≤ l)%nat →
  (∀ a, costs (o - o1) (l - l1) (f a)) → costs o l (m ≫= f).
Proof.
  intros Hm Ho Hl Hf s b s' H. cbv [mbind M_bind] in H. destruct (m s) as [[a s1]|] eqn:E; [|done].
  eapply spent_le; [eapply spent_trans; [by eapply Hm|by eapply Hf]|lia|lia].
Qed.

Lemma costs_modify f : (∀ s, π (f s) = π s) → costs 0 0 (modify f).
Proof. intros Hf. apply costs_free. intros s b s' H. injection H as _ <-. by rewrite Hf. Qed.

End Costs.

Lemma costs_zoom {S T A} (π : S → Profs) (ρ : T → Profs) (g : S → T) p (m : M T A) o l :
  (∀ s, ρ (g s) = π s) → (∀ t s, π (p t s) = ρ t) → costs ρ o l m → costs π o l (zoom g p m).
Proof.
  intros Hg Hp Hm s a s' H. unfold zoom in H. destruct (m (g s)) as [[b t]|] eqn:E; [|done]. injection H as <- <-.
  rewrite Hp, <- Hg. by eapply Hm.
Qed.

Lemma costs_zoom_free {S T A} (π : S → Profs) (g : S → T) p (m : M T A) : (∀ t s, π (p t s) = π s) → costs π 0 0 (zoom g p m).
Proof.
  intros Hp. apply costs_free. intros s a s' H. unfold zoom in H. destruct (m (g s)) as [[b t]|] eqn:E; [|done]. injection H as <- <-. by rewrite Hp.
Qed.

(** ** Profiler operations *)

Definition charges (o l : nat) {A} (op : M Profiler A) : Prop := ∀ p a p', op p = Ok (a, p') → spent o l p p'.

Lemma u64_le x : 0 ≤ x → 0 ≤ u64 x ≤ x.
Proof. intros H. unfold u64. split; [apply Z.mod_pos_bound; lia|apply Z.mod_le; lia]. Qed.

Lemma AddTableOp_charges : charges 1 0 AddTableOp.
Proof.
  intros p a p' H. cbv [AddTableOp AddTableOp_n modify] in H. injection H as _ <-. intros (H1 & H2 & H3). unfold ops.
  pose proof (u64_le (num_table_ops_ p + 1) ltac:(lia)). unfold tame.
  destruct (ignore_latency_ p); cbn [latency_ num_table_ops_ num_buffer_ops_ set_num_table_ops_]; split_and!; lia.
Qed.

Lemma AddBufferOp_charges : charges 1 0 AddBufferOp.
Proof.
  intros p a p' H. cbv [AddBufferOp AddBufferOp_n modify] in H. injection H as _ <-. intros (H1 & H2 & H3). unfold ops.
  pose proof (u64_le (num_buffer_ops_ p + 1) ltac:(lia)). unfold tame.
  destruct (ignore_latency_ p); cbn [latency_ num_table_ops_ num_buffer_ops_ set_num_buffer_ops_]; split_and!; lia.
Qed.

Lemma AddLatency_charges lat : charges 0 1 (AddLatency lat).
Proof.
  intros p a p' H. unfold AddLatency, assert_ in H. cbv [mbind M_bind gets modify] in H.
  destruct (Z.ltb_spec 0 (i32 lat)); [|done]. destruct (negb (ignore_latency_ p)); [|done]. cbn [andb] in H. injection H as _ <-.
  intros (H1 & H2 & H3). pose proof (i32_range lat). pose proof (u64_le (latency_ p + i32 lat) ltac:(lia)).
  unfold tame, ops. cbn [latency_ num_table_ops_ num_buffer_ops_ set_latency_]. split_and!; lia.
Qed.

Lemma moves_charge op : (∀ p a p', op p = Ok (a, p') → latency_ p' = latency_ p ∧ num_table_ops_ p' = num_table_ops_ p ∧
  num_buffer_ops_ p' = num_buffer_ops_ p) → charges 0 0 (op : M Profiler unit).
Proof. intros H p a p' (E1 & E2 & E3)%H. unfold spent, tame, ops. rewrite E1, E2, E3. lia. Qed.

(** ** The tables *)

Definition other (r : pfref) : bool := match r with PfArg => false | _ => true end.

Lemma spent_upd r o l p p' ps : sel r ps = p → spent o l p p' → spent o l (sel PfArg ps) (sel PfArg (upd r p' ps)).
Proof.
  intros Hp H. destruct r; cbn; [by rewrite <- Hp in H|..]; (apply (spent_le 0 0); [apply spent_refl|lia|lia]).
Qed.

Lemma costs_prof {T A} r o l (op : M Profiler A) : charges o l op → costs snd o l (prof r op : PM T A).
Proof.
  intros Hop s a s' H. unfold prof, zoom in H. destruct (op (sel r s.2)) as [[b p]|] eqn:E; [|done]. injection H as <- <-.
  by eapply spent_upd; [|eapply Hop].
Qed.

Lemma costs_other {T A} r (op : M Profiler A) : other r = true → costs snd 0 0 (prof r op : PM T A).
Proof.
  intros Hr. apply costs_free. intros s a s' H. unfold prof, zoom in H. destruct (op (sel r s.2)) as [[b p]|] eqn:E; [|done].
  injection H as <- <-. by destruct r.
Qed.

Lemma costs_own {T A} (m : M T A) : costs snd 0 0 (own m : PM T A).
Proof. by apply costs_zoom_free. Qed.

(** Symbolic execution against a bound: a step that a lemma of the database bounds is
    paid from what is left. *)
Ltac costs_step :=
  match goal with
  | |- costs _ _ _ (mbind _ _) =>
      eapply costs_bind; [solve [eauto 2 with cost]|cbn; lia|cbn; lia|intros; cbn [Nat.sub]]
  | |- costs _ _ _ (if ?b then _ else _) => destruct b
  | |- costs _ _ _ (match ?x with _ => _ end) => destruct x
  | |- costs _ _ _ (let _ := _ in _) => cbv zeta
  | |- costs _ _ _ _ => eapply costs_le; [solve [eauto 2 with cost]|cbn; lia|cbn; lia]
  end.
Ltac costs_steps := repeat costs_step.
Ltac costs_up_to o l := eapply (costs_bind _ o l); [costs_steps|cbn; lia|cbn; lia|intros; cbn [Nat.sub]].

#[export] Hint Resolve costs_ret costs_gets costs_get costs_assert costs_err costs_own : cost.
#[export] Hint Extern 0 (costs _ _ _ (prof PfOverlap _)) => by apply costs_other : cost.
#[export] Hint Extern 0 (costs _ _ _ (prof PfNull _)) => by apply costs_other : cost.
#[export] Hint Extern 1 (costs _ _ _ (prof _ AddTableOp)) => apply costs_prof, AddTableOp_charges : cost.
#[export] Hint Extern 1 (costs _ _ _ (prof _ AddBufferOp)) => apply costs_prof, AddBufferOp_charges : cost.

Lemma Lookup_costs tag pf : costs snd 1 0 (ATT.Lookup tag pf).
Proof. unfold ATT.Lookup. costs_steps. Qed.

Lemma Setup_costs tag base st pf : costs snd 1 0 (ATT.Setup tag base st pf).
Proof. unfold ATT.Setup. costs_steps. Qed.

Lemma ShiftState_costs i st pf : costs snd 1 0 (ATT.ShiftState i st pf).
Proof. unfold ATT.ShiftState. costs_steps. Qed.

Lemma ShiftState_overlap i st : costs snd 0 0 (ATT.ShiftState i st PfOverlap).
Proof. unfold ATT.ShiftState. costs_steps. Qed.

Lemma Reset_overlap i b st : costs snd 0 0 (ATT.Reset i b st PfOverlap).
Proof. unfold ATT.Reset. eapply costs_bind; [apply costs_own|done|done|]. intros _. apply ShiftState_overlap. Qed.

Lemma SlotAlloc_costs pf : costs snd 1 0 (VB.SlotAlloc pf).
Proof. unfold VB.SlotAlloc. costs_steps. Qed.

Lemma SlotAlloc_overlap : costs snd 0 0 (VB.SlotAlloc PfOverlap).
Proof. unfold VB.SlotAlloc. costs_steps. Qed.

Lemma FreeSlot_costs a st pf : costs snd 1 0 (VB.FreeSlot a st pf).
Proof. unfold VB.FreeSlot. costs_steps. Qed.

Lemma SlotBackup_costs a st pf : costs snd 1 0 (VB.SlotBackup a st pf).
Proof. unfold VB.SlotBackup. costs_steps. Qed.

Lemma LookupPage_costs a pf : costs snd 1 0 (Mig.LookupPage a pf).
Proof. unfold Mig.LookupPage. costs_steps. Qed.

Lemma Mig_Contains_null a : costs snd 0 0 (Mig.Contains a PfNull).
Proof. unfold Mig.Contains. costs_steps. Qed.

Lemma Mig_ShiftState_costs a st pf : costs snd 1 0 (Mig.ShiftState a st pf).
Proof. unfold Mig.ShiftState, Mig.ShiftState_it. costs_steps. Qed.

#[export] Hint Resolve Lookup_costs Setup_costs ShiftState_overlap Reset_overlap SlotAlloc_overlap FreeSlot_costs SlotBackup_costs
  LookupPage_costs Mig_Contains_null Mig_ShiftState_costs : cost.
#[export] Hint Resolve ShiftState_costs SlotAlloc_costs | 5 : cost.

(** ** The controller *)

Section Controller.
Context {St : Type} `{!MemStore St} `{!HashOrder, !HeapAlgo}.

Abbreviation bill := (costs (@profs St)).

Lemma bill_att {A} o l (m : PM ATT.AddrTransTable A) : costs snd o l m → bill o l (on_att m).
Proof. by apply costs_zoom. Qed.
Lemma bill_nvm {A} o l (m : PM VB.VersionBuffer A) : costs snd o l m → bill o l (on_nvm m).
Proof. by apply costs_zoom. Qed.
Lemma bill_dram {A} o l (m : PM VB.VersionBuffer A) : costs snd o l m → bill o l (on_dram m).
Proof. by apply costs_zoom. Qed.
Lemma bill_mig {A} o l (m : PM Mig.MigrationController A) : costs snd o l m → bill o l (on_mig m).
Proof. by apply costs_zoom. Qed.
Lemma bill_store {A} (m : M St A) : bill 0 0 (on_store m).
Proof. by apply costs_zoom_free. Qed.

Lemma bill_pf {A} r o l (op : M Profiler A) : charges o l op → bill o l (on_pf r op).
Proof.
  intros Hop s a s' Hr. unfold on_pf, zoom in Hr. destruct (op (sel r (profs s))) as [[b p]|] eqn:E; [|done]. injection Hr as <- <-.
  by eapply spent_upd; [|eapply Hop].
Qed.

#[local] Hint Resolve bill_att bill_nvm bill_dram bill_mig bill_store : cost.
#[local] Hint Extern 1 (costs _ _ _ (on_pf _ (AddLatency _))) => apply bill_pf, AddLatency_charges : cost.

Lemma LoadAddr_bill a pf : bill 2 1 (LoadAddr a pf).
Proof. unfold LoadAddr, ToTag, att_At, att_Translate. costs_steps. Qed.

Lemma move_charges n : charges 0 0 (AddBlockMoveIntra n) ∧ charges 0 0 (AddBlockMoveInter n).
Proof. split; apply moves_charge; intros p a p' Hr; by injection Hr as _ <-. Qed.

Lemma push_ckpt_bill ck a : bill 0 0 (push_ckpt ck a : M (Sys St) unit).
Proof. destruct ck; [by apply costs_modify|apply costs_ret]. Qed.
#[local] Hint Resolve push_ckpt_bill : cost.
#[local] Hint Extern 1 (costs _ _ _ (on_pf _ (AddBlockMoveIntra _))) => apply bill_pf, move_charges : cost.
#[local] Hint Extern 1 (costs _ _ _ (on_pf _ (AddBlockMoveInter _))) => apply bill_pf, move_charges : cost.

Lemma Copy_bill d s pf ck : bill 0 0 (CopyBlockIntra d s pf ck) ∧ bill 0 0 (CopyBlockInter d s pf ck).
Proof. unfold CopyBlockIntra, CopyBlockInter, block_size. split; costs_steps. Qed.

Lemma FullBlock_bill a n : bill 0 0 (FullBlock a n).
Proof. unfold FullBlock, block_size. costs_steps. Qed.

Lemma CheckValid_bill a n : bill 0 0 (CheckValid a n).
Proof. unfold CheckValid, ToTag. costs_steps. Qed.

Lemma Swap_bill x y pf ck : bill 0 0 (SwapBlock x y pf ck).
Proof. unfold SwapBlock, block_size. costs_steps. Qed.

#[local] Hint Resolve Swap_bill FullBlock_bill CheckValid_bill : cost.
#[local] Hint Extern 0 (costs _ _ _ (CopyBlockIntra _ _ _ _)) => apply Copy_bill : cost.
#[local] Hint Extern 0 (costs _ _ _ (CopyBlockInter _ _ _ _)) => apply Copy_bill : cost.

Ltac open_bill := unfold ToTag, ToAddr, block_size, in_checkpointing, att_At, att_ref, att_Translate, att_IsEmpty, IsDRAM.
Ltac bill_steps := repeat first [costs_step | costs_up_to 0%nat 0%nat].

Lemma FreeClean_bill i pf : bill 1 0 (FreeClean i pf).
Proof. unfold FreeClean; open_bill. bill_steps. Qed.

Lemma FreeLoan_bill i mv pf ck : bill 1 0 (FreeLoan i mv pf ck).
Proof. unfold FreeLoan; open_bill. bill_steps. Qed.

Lemma HideTemp_bill i mv pf ck : bill 1 0 (HideTemp i mv pf ck).
Proof. unfold HideTemp; open_bill. bill_steps. Qed.

Lemma HideClean_bill i mv pf : bill 1 0 (HideClean i mv pf).
Proof. unfold HideClean; open_bill. bill_steps. Qed.

Lemma DirtyStained_bill i mv pf ck : bill 2 0 (DirtyStained i mv pf ck).
Proof. unfold DirtyStained; open_bill. bill_steps. Qed.

Lemma ResetClean_bill i mv pf : bill 2 0 (ResetClean i mv pf).
Proof. unfold ResetClean; open_bill. bill_steps. Qed.

Lemma Setup_bill a b st mv pf : bill 1 0 (AddrTransController.Setup a b st mv pf).
Proof. unfold AddrTransController.Setup; open_bill. bill_steps. Qed.

#[local] Hint Resolve FreeClean_bill FreeLoan_bill HideTemp_bill HideClean_bill DirtyStained_bill ResetClean_bill Setup_bill : cost.

Lemma hit_running_bill i a n pf : bill 2 0 (NVMStore_hit_running i a n pf).
Proof. unfold NVMStore_hit_running; open_bill. costs_steps. costs_up_to 2%nat 0%nat. costs_steps. Qed.

Lemma miss_running_bill a n pf : bill 2 0 (NVMStore_miss_running a n pf).
Proof.
  unfold NVMStore_miss_running; open_bill. costs_steps. costs_up_to 1%nat 0%nat; [costs_up_to 1%nat 0%nat; costs_steps|]. costs_steps.
Qed.

Lemma hit_ckpt_bill i a n pf : bill 2 0 (NVMStore_hit_ckpt i a n pf).
Proof. unfold NVMStore_hit_ckpt; open_bill. costs_steps. costs_up_to 2%nat 0%nat. costs_steps. Qed.

Lemma miss_ckpt_bill a n pf : bill 2 0 (NVMStore_miss_ckpt a n pf).
Proof. unfold NVMStore_miss_ckpt; open_bill. costs_steps. costs_up_to 1%nat 0%nat. costs_steps. Qed.

#[local] Hint Resolve hit_running_bill miss_running_bill hit_ckpt_bill miss_ckpt_bill : cost.

Lemma NVMStore_bill a n pf : bill 3 1 (NVMStore a n pf).
Proof. unfold NVMStore; open_bill. costs_steps. costs_up_to 2%nat 0%nat. costs_steps. Qed.

Lemma DRAMStore_bill a n page pf : bill 3 1 (DRAMStore a n page pf).
Proof. unfold DRAMStore; open_bill. costs_steps. costs_up_to 1%nat 0%nat. costs_steps. Qed.

#[local] Hint Resolve NVMStore_bill DRAMStore_bill : cost.

Lemma StoreAddr_bill a n pf : bill 5 1 (StoreAddr a n pf).
Proof. unfold StoreAddr; open_bill. costs_steps. costs_up_to 1%nat 0%nat. costs_steps. Qed.

End Controller.
