(* ===== verification/AbstractMem.v ===== *)
(** The memory behind the controller: the part of AbstractMemory and SimpleMemory
    (src/gem5-stable/src/mem/abstract_mem.hh, abstract_mem.cc, simple_mem.hh, simple_mem.cc)
    that implements [MemStore]: the host memory with [MemCopy] and [MemSwap], the
    row-buffer latencies and the statistics hooks. [MemGeo] holds the constants of the
    controller that [GetVirtMachAddr] reads through [addrController]; [geo_of] gives them.
    Counters of the statistics package are integers; [statsNVMWrites] and [statsDRAMWrites]
    are called with their default argument 1. [MemLaws] proves the laws the controller
    relies on. *)

From S2P Require Import Prelude MemStore AddrTransController.
From S2P Require IntMath DRAMBanks.
#[global] Open Scope Z_scope.

Module Banks := DRAMBanks.

Record MemGeo := MkGeo {
  g_phy_range : Z;        (* addrController.phy_range() *)
  g_nvm_size : Z;         (* addrController.nvm_buffer().Size() *)
  g_dram_base : Z;        (* addrController.dram_buffer(): addr_base_ ... *)
  g_dram_size : Z;        (* ... and Size() *)
  g_size : Z;             (* addrController.Size() *)
  g_dram_capacity : Z;    (* addrController.migrator().dram_capacity() *)
  g_page_size : Z;        (* addrController.page_size() *)
  g_page_mask : Z;        (* of addrController.migrator().Translate() *)
}.

Definition geo_of (k : AddrTransController) : MemGeo :=
  {| g_phy_range := phy_range_ k; g_nvm_size := VB.Size (nvm_buffer_ k);
     g_dram_base := VB.addr_base_ (dram_buffer_ k); g_dram_size := VB.Size (dram_buffer_ k);
     g_size := Size k; g_dram_capacity := Mig.dram_capacity (migrator_ k);
     g_page_size := Mig.page_size (migrator_ k); g_page_mask := Mig.page_mask_ (migrator_ k) |}.

Record MemSt := MkMemSt {
  geo : MemGeo;
  pmemAddr : option (gmap Z Z);
  banks : Banks.DRAMBanks;
  latency : Z;
  latency_miss : Z;
  tNVMRead : Z;
  tNVMWrite : Z;
  numEpochs : Z;
  numATTWriteHits : Z;
  numATTWriteMisses : Z;
  numNVMWrites : Z;
  numDRAMWrites : Z;
  ckDRAMWriteHits : Z;
  readRowHits : Z;
  readRowMisses : Z;
  writeRowHits : Z;
  writeRowMisses : Z;
  regCaches : Z;
}.

Definition set_pmemAddr (v : option (gmap Z Z)) (r : MemSt) : MemSt :=
  {| geo := geo r; pmemAddr := v; banks := banks r; latency := latency r;
     latency_miss := latency_miss r; tNVMRead := tNVMRead r; tNVMWrite :=
     tNVMWrite r; numEpochs := numEpochs r; numATTWriteHits := numATTWriteHits
     r; numATTWriteMisses := numATTWriteMisses r; numNVMWrites := numNVMWrites
     r; numDRAMWrites := numDRAMWrites r; ckDRAMWriteHits := ckDRAMWriteHits
     r; readRowHits := readRowHits r; readRowMisses := readRowMisses r;
     writeRowHits := writeRowHits r; writeRowMisses := writeRowMisses r;
     regCaches := regCaches r |}.
Definition set_banks (v : Banks.DRAMBanks) (r : MemSt) : MemSt :=
  {| geo := geo r; pmemAddr := pmemAddr r; banks := v; latency := latency r;
     latency_miss := latency_miss r; tNVMRead := tNVMRead r; tNVMWrite :=
     tNVMWrite r; numEpochs := numEpochs r; numATTWriteHits := numATTWriteHits
     r; numATTWriteMisses := numATTWriteMisses r; numNVMWrites := numNVMWrites
     r; numDRAMWrites := numDRAMWrites r; ckDRAMWriteHits := ckDRAMWriteHits
     r; readRowHits := readRowHits r; readRowMisses := readRowMisses r;
     writeRowHits := writeRowHits r; writeRowMisses := writeRowMisses r;
     regCaches := regCaches r |}.
Definition set_numEpochs (v : Z) (r : MemSt) : MemSt :=
  {| geo := geo r; pmemAddr := pmemAddr r; banks := banks r; latency :=
     latency r; latency_miss := latency_miss r; tNVMRead := tNVMRead r;
     tNVMWrite := tNVMWrite r; numEpochs := v; numATTWriteHits :=
     numATTWriteHits r; numATTWriteMisses := numATTWriteMisses r; numNVMWrites
     := numNVMWrites r; numDRAMWrites := numDRAMWrites r; ckDRAMWriteHits :=
     ckDRAMWriteHits r; readRowHits := readRowHits r; readRowMisses :=
     readRowMisses r; writeRowHits := writeRowHits r; writeRowMisses :=
     writeRowMisses r; regCaches := regCaches r |}.
Definition set_numATTWriteHits (v : Z) (r : MemSt) : MemSt :=
  {| geo := geo r; pmemAddr := pmemAddr r; banks := banks r; latency :=
     latency r; latency_miss := latency_miss r; tNVMRead := tNVMRead r;
     tNVMWrite := tNVMWrite r; numEpochs := numEpochs r; numATTWriteHits := v;
     numATTWriteMisses := numATTWriteMisses r; numNVMWrites := numNVMWrites r;
     numDRAMWrites := numDRAMWrites r; ckDRAMWriteHits := ckDRAMWriteHits r;
     readRowHits := readRowHits r; readRowMisses := readRowMisses r;
     writeRowHits := writeRowHits r; writeRowMisses := writeRowMisses r;
     regCaches := regCaches r |}.
Definition set_numATTWriteMisses (v : Z) (r : MemSt) : MemSt :=
  {| geo := geo r; pmemAddr := pmemAddr r; banks := banks r; latency :=
     latency r; latency_miss := latency_miss r; tNVMRead := tNVMRead r;
     tNVMWrite := tNVMWrite r; numEpochs := numEpochs r; numATTWriteHits :=
     numATTWriteHits r; numATTWriteMisses := v; numNVMWrites := numNVMWrites
     r; numDRAMWrites := numDRAMWrites r; ckDRAMWriteHits := ckDRAMWriteHits
     r; readRowHits := readRowHits r; readRowMisses := readRowMisses r;
     writeRowHits := writeRowHits r; writeRowMisses := writeRowMisses r;
     regCaches := regCaches r |}.
Definition set_numNVMWrites (v : Z) (r : MemSt) : MemSt :=
  {| geo := geo r; pmemAddr := pmemAddr r; banks := banks r; latency :=
     latency r; latency_miss := latency_miss r; tNVMRead := tNVMRead r;
     tNVMWrite := tNVMWrite r; numEpochs := numEpochs r; numATTWriteHits :=
     numATTWriteHits r; numATTWriteMisses := numATTWriteMisses r; numNVMWrites
     := v; numDRAMWrites := numDRAMWrites r; ckDRAMWriteHits :=
     ckDRAMWriteHits r; readRowHits := readRowHits r; readRowMisses :=
     readRowMisses r; writeRowHits := writeRowHits r; writeRowMisses :=
     writeRowMisses r; regCaches := regCaches r |}.
Definition set_numDRAMWrites (v : Z) (r : MemSt) : MemSt :=
  {| geo := geo r; pmemAddr := pmemAddr r; banks := banks r; latency :=
     latency r; latency_miss := latency_miss r; tNVMRead := tNVMRead r;
     tNVMWrite := tNVMWrite r; numEpochs := numEpochs r; numATTWriteHits :=
     numATTWriteHits r; numATTWriteMisses := numATTWriteMisses r; numNVMWrites
     := numNVMWrites r; numDRAMWrites := v; ckDRAMWriteHits := ckDRAMWriteHits
     r; readRowHits := readRowHits r; readRowMisses := readRowMisses r;
     writeRowHits := writeRowHits r; writeRowMisses := writeRowMisses r;
     regCaches := regCaches r |}.
Definition set_ckDRAMWriteHits (v : Z) (r : MemSt) : MemSt :=
  {| geo := geo r; pmemAddr := pmemAddr r; banks := banks r; latency :=
     latency r; latency_miss := latency_miss r; tNVMRead := tNVMRead r;
     tNVMWrite := tNVMWrite r; numEpochs := numEpochs r; numATTWriteHits :=
     numATTWriteHits r; numATTWriteMisses := numATTWriteMisses r; numNVMWrites
     := numNVMWrites r; numDRAMWrites := numDRAMWrites r; ckDRAMWriteHits :=
     v; readRowHits := readRowHits r; readRowMisses := readRowMisses r;
     writeRowHits := writeRowHits r; writeRowMisses := writeRowMisses r;
     regCaches := regCaches r |}.
Definition set_readRowHits (v : Z) (r : MemSt) : MemSt :=
  {| geo := geo r; pmemAddr := pmemAddr r; banks := banks r; latency :=
     latency r; latency_miss := latency_miss r; tNVMRead := tNVMRead r;
     tNVMWrite := tNVMWrite r; numEpochs := numEpochs r; numATTWriteHits :=
     numATTWriteHits r; numATTWriteMisses := numATTWriteMisses r; numNVMWrites
     := numNVMWrites r; numDRAMWrites := numDRAMWrites r; ckDRAMWriteHits :=
     ckDRAMWriteHits r; readRowHits := v; readRowMisses := readRowMisses r;
     writeRowHits := writeRowHits r; writeRowMisses := writeRowMisses r;
     regCaches := regCaches r |}.
Definition set_readRowMisses (v : Z) (r : MemSt) : MemSt :=
  {| geo := geo r; pmemAddr := pmemAddr r; banks := banks r; latency :=
     latency r; latency_miss := latency_miss r; tNVMRead := tNVMRead r;
     tNVMWrite := tNVMWrite r; numEpochs := numEpochs r; numATTWriteHits :=
     numATTWriteHits r; numATTWriteMisses := numATTWriteMisses r; numNVMWrites
     := numNVMWrites r; numDRAMWrites := numDRAMWrites r; ckDRAMWriteHits :=
     ckDRAMWriteHits r; readRowHits := readRowHits r; readRowMisses := v;
     writeRowHits := writeRowHits r; writeRowMisses := writeRowMisses r;
     regCaches := regCaches r |}.
Definition set_writeRowHits (v : Z) (r : MemSt) : MemSt :=
  {| geo := geo r; pmemAddr := pmemAddr r; banks := banks r; latency :=
     latency r; latency_miss := latency_miss r; tNVMRead := tNVMRead r;
     tNVMWrite := tNVMWrite r; numEpochs := numEpochs r; numATTWriteHits :=
     numATTWriteHits r; numATTWriteMisses := numATTWriteMisses r; numNVMWrites
     := numNVMWrites r; numDRAMWrites := numDRAMWrites r; ckDRAMWriteHits :=
     ckDRAMWriteHits r; readRowHits := readRowHits r; readRowMisses :=
     readRowMisses r; writeRowHits := v; writeRowMisses := writeRowMisses r;
     regCaches := regCaches r |}.
Definition set_writeRowMisses (v : Z) (r : MemSt) : MemSt :=
  {| geo := geo r; pmemAddr := pmemAddr r; banks := banks r; latency :=
     latency r; latency_miss := latency_miss r; tNVMRead := tNVMRead r;
     tNVMWrite := tNVMWrite r; numEpochs := numEpochs r; numATTWriteHits :=
     numATTWriteHits r; numATTWriteMisses := numATTWriteMisses r; numNVMWrites
     := numNVMWrites r; numDRAMWrites := numDRAMWrites r; ckDRAMWriteHits :=
     ckDRAMWriteHits r; readRowHits := readRowHits r; readRowMisses :=
     readRowMisses r; writeRowHits := writeRowHits r; writeRowMisses := v;
     regCaches := regCaches r |}.
Definition set_regCaches (v : Z) (r : MemSt) : MemSt :=
  {| geo := geo r; pmemAddr := pmemAddr r; banks := banks r; latency :=
     latency r; latency_miss := latency_miss r; tNVMRead := tNVMRead r;
     tNVMWrite := tNVMWrite r; numEpochs := numEpochs r; numATTWriteHits :=
     numATTWriteHits r; numATTWriteMisses := numATTWriteMisses r; numNVMWrites
     := numNVMWrites r; numDRAMWrites := numDRAMWrites r; ckDRAMWriteHits :=
     ckDRAMWriteHits r; readRowHits := readRowHits r; readRowMisses :=
     readRowMisses r; writeRowHits := writeRowHits r; writeRowMisses :=
     writeRowMisses r; regCaches := v |}.

(** ** Host memory *)

Definition hostSize (st : MemSt) : Z := g_size (geo st).

(** [hostAddr(local_addr)]: the pointer is the local address. *)
Definition hostAddr (local_addr : Z) : M MemSt Z :=
  st ← get; assert_ "AbstractMemory::hostAddr" (local_addr <? hostSize st) ;; mret local_addr.

Definition mem_byte (m : gmap Z Z) (a : Z) : Z := default 0 (m !! a).
Definition mem_read (m : gmap Z Z) (a n : Z) : list Z := (λ i, mem_byte m (a + i)) <$> zseq n.
Fixpoint mem_write (a : Z) (l : list Z) (m : gmap Z Z) : gmap Z Z :=
  match l with [] => m | x :: l' => <[a := x]> (mem_write (a + 1) l' m) end.

(** The host memory, which must be there, and a range of it. *)
Definition host_mem (a n : Z) : M MemSt (gmap Z Z) :=
  st ← get;
  m ← of_option (EUndef "null host memory") (pmemAddr st);
  (if (0 <=? n) && (0 <=? a) && (a + n <=? hostSize st) then mret tt else err (EUndef "memcpy out of range")) ;;
  mret m.

(** [memcpy] from host memory, to host memory, and within it. *)
Definition host_load (src n : Z) : M MemSt (list Z) := m ← host_mem src n; mret (mem_read m src n).
Definition host_store (dest : Z) (data : list Z) : M MemSt unit :=
  m ← host_mem dest (Z.of_nat (length data)); modify (set_pmemAddr (Some (mem_write dest data m))).
Definition host_memcpy (dest src n : Z) : M MemSt unit :=
  data ← host_load src n;
  (if (dest + n <=? src) || (src + n <=? dest) then mret tt else err (EUndef "memcpy overlap")) ;;
  host_store dest data.

(** [AbstractMemory::MemCopy] and [MemSwap] *)
Definition mem_MemCopy (direct_addr mach_addr size : Z) : M MemSt unit :=
  assert_ "AbstractMemory::MemCopy" (negb (direct_addr =? mach_addr)) ;;
  dest ← hostAddr direct_addr;
  src ← hostAddr mach_addr;
  host_memcpy dest src size.

Definition mem_MemSwap (direct_addr mach_addr size : Z) : M MemSt unit :=
  assert_ "AbstractMemory::MemSwap" (negb (direct_addr =? mach_addr)) ;;
  x ← hostAddr direct_addr;
  data ← host_load x size;
  y ← hostAddr mach_addr;
  host_memcpy x y size ;;
  host_store y data.

(** ** Latencies *)

Definition GetVirtRegionBase (st : MemSt) : Z :=
  let row := Banks.row_buffer_size (banks st) in
  u64 (Z.ldiff (u64 (g_size (geo st) - 1)) (row - 1) + row).

(** [addrController.dram_buffer().Contains(mach_addr)] *)
Definition dram_Contains (g : MemGeo) (a : Z) : bool :=
  (g_dram_base g <=? a) && (u64 (a - g_dram_base g) <? g_dram_size g).

(** [addrController.migrator().Translate(phy_addr, page_base)] *)
Definition page_Translate (g : MemGeo) (phy_addr page_base : Z) : M MemSt Z :=
  assert_ "MigrationController::Translate" (Z.land page_base (g_page_mask g) =? 0) ;;
  mret (u64 (page_base + Z.land phy_addr (g_page_mask g))).

Definition GetVirtMachAddr (mach_addr : Z) (is_dram : bool) (page : option Mig.PTTEntry) : M MemSt Z :=
  st ← get;
  let g := geo st in
  let has_page := match page with Some _ => true | None => false end in
  assert_ "SimpleMemory::GetVirtMachAddr"
    (has_page || is_dram || (mach_addr <? u64 (g_phy_range g + g_nvm_size g))) ;;
  assert_ "SimpleMemory::GetVirtMachAddr" (has_page || negb is_dram || dram_Contains g mach_addr) ;;
  let backup_base := GetVirtRegionBase st in
  assert_ "SimpleMemory::GetVirtMachAddr" (g_size g <=? backup_base) ;;
  let cache_base := u64 (backup_base + g_dram_capacity g) in
  let cache_limit := u64 (cache_base + g_dram_capacity g) in
  match page with
  | None => mret mach_addr
  | Some e =>
      assert_ "SimpleMemory::GetVirtMachAddr" (mach_addr <? g_phy_range g) ;;
      if is_dram then
        a ← page_Translate g mach_addr (u64 (cache_base + u64 (i32 (Mig.index e * g_page_size g))));
        assert_ "SimpleMemory::GetVirtMachAddr" ((cache_base <=? a) && (a <? cache_limit)) ;;
        mret a
      else
        match Mig.state e with
        | Mig.DIRTY_STATIC =>
            a ← page_Translate g mach_addr (u64 (backup_base + u64 (i32 (Mig.index e * g_page_size g))));
            assert_ "SimpleMemory::GetVirtMachAddr" ((backup_base <=? a) && (a <? cache_base)) ;;
            mret a
        | s => assert_ "SimpleMemory::GetVirtMachAddr" (bool_decide (s = Mig.DIRTY_DIRECT)) ;; mret mach_addr
        end
  end.

(** [banks.Access(mach_addr, hit)] *)
Definition row_Access (mach_addr : Z) : M MemSt bool :=
  r ← zoom banks set_banks (Banks.Access mach_addr); mret r.2.

Definition mem_GetReadLatency (mach_addr : Z) (is_dram : bool) (page : option Mig.PTTEntry) : M MemSt Z :=
  mach_addr ← GetVirtMachAddr mach_addr is_dram page;
  hit ← row_Access mach_addr;
  st ← get;
  if (hit : bool) then
    modify (λ st, set_readRowHits (readRowHits st + 1) st) ;; mret (i64 (latency st))
  else
    modify (λ st, set_readRowMisses (readRowMisses st + 1) st) ;;
    mret (i64 (if is_dram then latency_miss st else tNVMRead st)).

Definition mem_GetWriteLatency (mach_addr : Z) (is_dram : bool) (page : option Mig.PTTEntry) : M MemSt Z :=
  mach_addr ← GetVirtMachAddr mach_addr is_dram page;
  hit ← row_Access mach_addr;
  st ← get;
  if (hit : bool) then
    modify (λ st, set_writeRowHits (writeRowHits st + 1) st) ;; mret (i64 (latency st))
  else
    modify (λ st, set_writeRowMisses (writeRowMisses st + 1) st) ;;
    mret (i64 (if is_dram then latency_miss st else tNVMWrite st)).

(** ** Statistics hooks *)

Definition mem_OnEpochEnd : M MemSt unit := modify (λ st, set_numEpochs (numEpochs st + 1) st).
Definition mem_OnATTWriteHit (s : ATT.ATTState) : M MemSt unit :=
  modify (λ st, set_numATTWriteHits (numATTWriteHits st + 1) st).
Definition mem_OnATTWriteMiss (s : ATT.ATTState) : M MemSt unit :=
  modify (λ st, set_numATTWriteMisses (numATTWriteMisses st + 1) st).
Definition OnCacheRegister : M MemSt unit := modify (λ st, set_regCaches (regCaches st + 1) st).
Definition mem_statsNVMWrites : M MemSt unit := modify (λ st, set_numNVMWrites (numNVMWrites st + 1) st).
Definition mem_statsDRAMWrites : M MemSt unit := modify (λ st, set_numDRAMWrites (numDRAMWrites st + 1) st).
Definition mem_ckDRAMWriteHit : M MemSt unit := modify (λ st, set_ckDRAMWriteHits (u64 (ckDRAMWriteHits st + 1)) st).

#[global] Instance mem_store : MemStore MemSt := {|
  MemCopy := mem_MemCopy; MemSwap := mem_MemSwap;
  GetReadLatency := mem_GetReadLatency; GetWriteLatency := mem_GetWriteLatency;
  OnEpochEnd := mem_OnEpochEnd; OnATTWriteHit := mem_OnATTWriteHit; OnATTWriteMiss := mem_OnATTWriteMiss;
  statsNVMWrites := mem_statsNVMWrites; statsDRAMWrites := mem_statsDRAMWrites;
  ckDRAMWriteHit := mem_ckDRAMWriteHit |}.

(** A byte of the host memory, and bytes written to it, as [access] does. *)
#[global] Instance mem_device : MemDevice MemSt := {|
  DevRead a := p ← hostAddr a; l ← host_load p 1; mret (l !!! 0%nat);
  DevWrite a data := p ← hostAddr a; host_store p data |}.
