(* ===== verification/WriteCounts.v ===== *)
(** The write counters. [SimpleMemory::freeze] asserts that three ways of counting stores
    agree: the memory counts them by kind as they come, the table and the page table count
    them per block and per page, and the migration controller adds those up once an epoch.
    [books] is the state of these accounts between the operations; it is kept by loads and
    stores, closed by [MigratePages] and opened again by [BeginCheckpointing]. *)

From Stdlib Require QArith_base.
From S2P Require Import Prelude Drift Profiler StdAlgo MemStore AddrTransController AbstractMem.
From S2P Require IndexQueue AddrTransTable VersionBuffer MigrationController.
#[global] Open Scope Z_scope.

(** ** The counters of the tables *)

Definition counts (t : ATT.AddrTransTable) : list Z := ATT.epoch_writes <$> ATT.entries_ t.
Definition att_writes (t : ATT.AddrTransTable) : Z := zsum ATT.epoch_writes (ATT.entries_ t).
Definition ptt_writes (m : Mig.MigrationController) : Z := msum Mig.epoch_writes (Mig.entries_ m).

Definition same_att (t t' : ATT.AddrTransTable) : Prop := counts t' = counts t.
(** The page counters and the totals. *)
Definition same_mig (m m' : Mig.MigrationController) : Prop :=
  ptt_writes m' = ptt_writes m ∧ Mig.total_nvm_writes_ m' = Mig.total_nvm_writes_ m ∧ Mig.total_dram_writes_ m' = Mig.total_dram_writes_ m.
(** Of a component with the profilers. *)
Definition firsts {T} (R : T → T → Prop) (p p' : T * Profs) : Prop := R p.1 p'.1.

#[global] Instance same_att_preorder : PreOrder same_att.
Proof. split; [done|]. intros x y z H1 H2. unfold same_att in *. congruence. Qed.
#[global] Instance same_mig_preorder : PreOrder same_mig.
Proof. split; [done|]. intros x y z (?&?&?) (?&?&?). split_and!; congruence. Qed.
#[global] Instance firsts_preorder {T} (R : T → T → Prop) `{!PreOrder R} : PreOrder (firsts R).
Proof. split; [intros x; unfold firsts; reflexivity|]. intros x y z H1 H2. unfold firsts in *. by etrans. Qed.

Lemma same_att_writes t t' : same_att t t' → att_writes t' = att_writes t.
Proof. apply zsum_ext. Qed.

Lemma own_firsts {T A} R (m : M T A) : transits R m → transits (firsts R) (own m).
Proof. intros Hm. apply transits_zoom. intros s t a E. by apply (Hm _ _ _ E). Qed.

Lemma prof_firsts {T A} (R : T → T → Prop) `{!PreOrder R} r (op : M Profiler A) : transits (firsts R) (prof r op : PM T A).
Proof. apply transits_zoom. intros s t a E. unfold firsts. reflexivity. Qed.

#[local] Hint Resolve own_firsts : frame.
#[local] Hint Extern 1 (transits (firsts _) (prof _ _)) => apply prof_firsts; apply _ : frame.

(** ** The table *)

Section Queue.
Context `{IndexQueue.IndexArray A R}.

Definition same_node_rest (s s' : A * IndexQueue.IndexQueue) : Prop := IndexQueue.node_rest s'.1 = IndexQueue.node_rest s.1.
#[local] Instance same_node_rest_preorder : PreOrder same_node_rest.
Proof. split; [done|]. intros x y z H1 H2. unfold same_node_rest in *. congruence. Qed.

Lemma write_rest i x : transits same_node_rest (IndexQueue.write_prev i x) ∧ transits same_node_rest (IndexQueue.write_next i x).
Proof.
  unfold IndexQueue.write_prev, IndexQueue.write_next, IndexQueue.read_node.
  split; transits_steps; intros s; apply IndexQueue.node_rest_set.
Qed.

Lemma Remove_rest i : transits same_node_rest (IndexQueue.Remove i).
Proof. unfold IndexQueue.Remove, IndexQueue.read_node, IndexQueue.qget, IndexQueue.qmod. transits_steps; try done; apply write_rest. Qed.

Lemma Empty_rest : transits same_node_rest IndexQueue.Empty.
Proof. unfold IndexQueue.Empty, IndexQueue.qget. transits_steps. Qed.

Lemma PushBack_rest i : transits same_node_rest (IndexQueue.PushBack i).
Proof.
  unfold IndexQueue.PushBack, IndexQueue.read_node, IndexQueue.qget, IndexQueue.qmod.
  transits_steps; try done; try apply write_rest; apply Empty_rest.
Qed.

Lemma PopFront_rest : transits same_node_rest IndexQueue.PopFront.
Proof. unfold IndexQueue.PopFront, IndexQueue.qget. transits_steps; [apply Empty_rest|apply Remove_rest]. Qed.

Lemma qget_rest : transits same_node_rest (q ← IndexQueue.qget; mret (IndexQueue.length_ q)) ∧
  transits same_node_rest (q ← IndexQueue.qget; mret (IndexQueue.Front q)).
Proof. unfold IndexQueue.qget. split; transits_steps. Qed.

End Queue.

Lemma with_queue_att {A} s (m : M (list ATT.ATTEntry * IndexQueue.IndexQueue) A) : transits same_node_rest m → transits same_att (ATT.with_queue s m).
Proof.
  intros Hm t a t' E. unfold ATT.with_queue in E. destruct (zlookup _ _) as [q|]; [|done].
  destruct (m (ATT.entries_ t, q)) as [[b [es q']]|] eqn:Em; [|done]. injection E as _ <-. specialize (Hm _ _ _ Em).
  unfold same_att, counts. cbn [ATT.entries_ ATT.set_entries_ ATT.set_queues_]. unfold same_node_rest in Hm. cbn in Hm.
  apply (f_equal (fmap ATT.epoch_writes)) in Hm. by rewrite <- !list_fmap_compose in Hm.
Qed.

Lemma entry_mod_att i f : (∀ e, ATT.epoch_writes (f e) = ATT.epoch_writes e) → transits same_att (ATT.entry_mod i f).
Proof.
  intros Hf t a t' E. unfold ATT.entry_mod, ATT.entry_at in E. cbv [mbind M_bind get of_option modify] in E.
  destruct (zlookup (ATT.entries_ t) i) as [e|] eqn:He; [|done]. injection E as _ <-.
  unfold same_att, counts. cbn. rewrite zinsert_fmap, Hf. unfold zinsert. unfold zlookup in He. destruct (i <? 0); [done|].
  apply list_insert_id. rewrite list_lookup_fmap, He. done.
Qed.

Lemma entry_at_att i : transits same_att (ATT.entry_at i).
Proof. unfold ATT.entry_at. transits_steps. Qed.

#[local] Hint Resolve with_queue_att entry_at_att Remove_rest PushBack_rest PopFront_rest Empty_rest : frame.
#[local] Hint Extern 1 (transits same_att (ATT.entry_mod _ _)) => by apply entry_mod_att : frame.

Ltac att_steps := transits_steps; eauto with frame.

Lemma At_att i : transits same_att (ATT.At i).
Proof. unfold ATT.At. att_steps. Qed.
Lemma Translate_att a b : transits same_att (ATT.Translate a b).
Proof. unfold ATT.Translate. att_steps. Qed.
Lemma IsEmpty_att s : transits same_att (ATT.IsEmpty s).
Proof. unfold ATT.IsEmpty. att_steps. Qed.
Lemma GetFront_att s : transits same_att (ATT.GetFront s).
Proof. unfold ATT.GetFront. transits_steps. apply with_queue_att, qget_rest. Qed.
Lemma GetLength_att s : transits same_att (ATT.GetLength s).
Proof. unfold ATT.GetLength. transits_steps. apply with_queue_att, qget_rest. Qed.
Lemma AddBlockRead_att i : transits same_att (ATT.AddBlockRead i).
Proof. by apply entry_mod_att. Qed.

Lemma Lookup_att tag pf : transits (firsts same_att) (ATT.Lookup tag pf).
Proof. unfold ATT.Lookup. att_steps. apply own_firsts. att_steps. Qed.

Lemma Setup_att tag b s pf : transits (firsts same_att) (ATT.Setup tag b s pf).
Proof. unfold ATT.Setup. transits_steps; eauto with frame. apply own_firsts. att_steps. done. Qed.

Lemma ShiftState_att i s pf : transits (firsts same_att) (ATT.ShiftState i s pf).
Proof. unfold ATT.ShiftState. transits_steps; eauto with frame. apply own_firsts. att_steps. done. Qed.

Lemma Reset_att i b s pf : transits (firsts same_att) (ATT.Reset i b s pf).
Proof. unfold ATT.Reset. transits_steps; [|apply ShiftState_att]. apply own_firsts. by apply entry_mod_att. Qed.

Lemma Contains_att a pf : transits (firsts same_att) (ATT.Contains a pf).
Proof. unfold ATT.Contains. transits_steps; eauto with frame. apply own_firsts. att_steps. Qed.

(** The counter is an [int]. *)
Lemma AddBlockWrite_counts i t a t' : ATT.AddBlockWrite i t = Ok (a, t') → ∃ w, att_writes t' = att_writes t - w + i32 (w + 1).
Proof.
  unfold ATT.AddBlockWrite, ATT.entry_mod, ATT.entry_at. cbv [mbind M_bind get of_option modify]. intros E.
  destruct (zlookup (ATT.entries_ t) i) as [e|] eqn:He; [|done]. injection E as _ <-.
  exists (ATT.epoch_writes e). unfold att_writes. cbn. by rewrite (zsum_zinsert _ _ e).
Qed.

Lemma ClearStats_counts pf s a s' : ATT.ClearStats pf s = Ok (a, s') → att_writes s'.1 = 0.
Proof.
  unfold ATT.ClearStats. cbv [mbind M_bind own zoom modify]. intros E. apply (prof_firsts same_att) in E.
  apply same_att_writes in E. cbn in E. rewrite E. apply zsum_zero. intros e (e' & -> & _)%list_elem_of_fmap. done.
Qed.

(** ** The page table *)

Lemma page_mod_mig site page f : (∀ e, Mig.epoch_writes (f e) = Mig.epoch_writes e) → transits same_mig (Mig.page_mod site page f).
Proof.
  intros Hf. unfold Mig.page_mod. transits_steps. intros m. split; [|done]. by apply msum_alter_same.
Qed.

Lemma AddDRAMPageRead_mig a : transits same_mig (Mig.AddDRAMPageRead a).
Proof. unfold Mig.AddDRAMPageRead. transits_steps. by apply page_mod_mig. Qed.

Lemma Mig_Translate_mig a b : transits same_mig (Mig.Translate a b).
Proof. unfold Mig.Translate. transits_steps. Qed.

Lemma LookupPage_mig a pf : transits (firsts same_mig) (Mig.LookupPage a pf).
Proof. unfold Mig.LookupPage. transits_steps; eauto with frame. apply own_firsts. transits_steps. Qed.

Lemma Contains_mig a pf : transits (firsts same_mig) (Mig.Contains a pf).
Proof. unfold Mig.Contains. transits_steps; eauto with frame. apply own_firsts. transits_steps. Qed.

Lemma ShiftState_mig a s pf : transits (firsts same_mig) (Mig.ShiftState a s pf).
Proof.
  unfold Mig.ShiftState, Mig.ShiftState_it. transits_steps; eauto with frame; apply own_firsts; transits_steps; try done.
  intros m. split; [|done]. by apply msum_alter_same.
Qed.

Lemma AddDRAMPageWrite_counts a m u m' : Mig.AddDRAMPageWrite a m = Ok (u, m') → (∃ w, ptt_writes m' = ptt_writes m - w + i32 (w + 1)) ∧
  Mig.total_nvm_writes_ m' = Mig.total_nvm_writes_ m ∧ Mig.total_dram_writes_ m' = Mig.total_dram_writes_ m.
Proof.
  unfold Mig.AddDRAMPageWrite, Mig.page_mod. cbv [mbind M_bind get assert_ modify]. case_bool_decide as Hp; [|done]. destruct Hp as [e He]. intros E. injection E as _ <-.
  split; [|done]. exists (Mig.epoch_writes e). unfold ptt_writes. cbn. rewrite (alter_as_insert _ _ _ e), (msum_insert _ _ _ e) by done. done.
Qed.

(** What is left of them once pages come and go. *)
Definition same_totals (m m' : Mig.MigrationController) : Prop :=
  Mig.total_nvm_writes_ m' = Mig.total_nvm_writes_ m ∧ Mig.total_dram_writes_ m' = Mig.total_dram_writes_ m.

#[global] Instance same_totals_preorder : PreOrder same_totals.
Proof. split; [done|]. intros x y z (?&?) (?&?). split; congruence. Qed.

Lemma firsts_weaken {T A} (R R' : T → T → Prop) (m : PM T A) : (∀ t t', R t t' → R' t t') → transits (firsts R) m → transits (firsts R') m.
Proof. intros HR Hm s a s' E. apply HR. by apply (Hm _ _ _ E). Qed.

Lemma mig_totals {A} (m : PM Mig.MigrationController A) : transits (firsts same_mig) m → transits (firsts same_totals) m.
Proof. apply firsts_weaken. by intros t t' (_ & ?). Qed.

Lemma Mig_Setup_totals page st pf : transits (firsts same_totals) (Mig.Setup page st pf).
Proof.
  unfold Mig.Setup. transits_steps; eauto with frame; [..|apply own_firsts; transits_steps; done]; [apply own_firsts; transits_steps|].
  apply mig_totals, Contains_mig.
Qed.

Lemma Mig_Free_totals page pf : transits (firsts same_totals) (Mig.Free page pf).
Proof.
  unfold Mig.Free. transits_steps; eauto with frame; [..|apply own_firsts; transits_steps; done]; [apply own_firsts; transits_steps|].
  apply mig_totals, LookupPage_mig.
Qed.

Section Heaps.
Context `{HO : HashOrder, HA : HeapAlgo}.

Lemma Extract_totals pf : transits (firsts same_totals) (Mig.ExtractNVMPage pf) ∧ transits (firsts same_totals) (Mig.ExtractDRAMPage pf).
Proof.
  unfold Mig.ExtractNVMPage, Mig.ExtractDRAMPage.
  split; transits_steps; eauto with frame; apply own_firsts; transits_steps; done.
Qed.

Lemma iterate_totals {V} (g : Mig.MigrationController → gmap Z V) : transits same_totals (Mig.iterate g).
Proof. unfold Mig.iterate. transits_steps. done. Qed.

Lemma AddToBlockList_totals page l : transits same_mig (Mig.AddToBlockList page l).
Proof. unfold Mig.AddToBlockList. transits_steps. Qed.

Lemma clear_page_totals page pf l : transits (firsts same_totals) (Mig.clear_page page pf l).
Proof.
  unfold Mig.clear_page, Mig.ShiftState_it. transits_steps; eauto with frame; apply own_firsts; transits_steps; try done.
  all: intros m u m' E; by apply AddToBlockList_totals in E as (_ & ?).
Qed.

Lemma Clear_totals pf l : transits (firsts same_totals) (Mig.Clear pf l).
Proof.
  unfold Mig.Clear. transits_steps; eauto with frame; try (apply own_firsts; transits_steps; done); [apply own_firsts, iterate_totals|].
  match goal with |- transits _ (Mig.clear_pages ?pages _ ?k) => generalize k; induction pages as [|[page e] pages IH]; intros k' end; cbn [Mig.clear_pages]; transits_steps;
    [apply clear_page_totals|apply IH].
Qed.

(** The pages whose counters are yet to be cleared. *)
Definition dues (ks : list Z) (m : Mig.MigrationController) : Prop :=
  ∀ k e, Mig.entries_ m !! k = Some e → Mig.epoch_writes e = 0 ∨ k ∈ ks.

Lemma dues_alter f page ks m : (∀ e, Mig.epoch_writes (f e) = Mig.epoch_writes e) → dues ks m →
  dues ks (Mig.set_entries_ (alter f page (Mig.entries_ m)) m).
Proof.
  intros Hf Hd k e. cbn. destruct (decide (page = k)) as [<-|Hne]; [|rewrite lookup_alter_ne by done; apply Hd].
  rewrite lookup_alter_eq. destruct (Mig.entries_ m !! page) as [e0|] eqn:E; [|done]. intros [= <-]. rewrite Hf. by apply Hd.
Qed.

Lemma dues_clear page ks m : dues (page :: ks) m →
  dues ks (Mig.set_entries_ (alter (λ e, Mig.set_epoch_writes 0 (Mig.set_epoch_reads 0 e)) page (Mig.entries_ m)) m).
Proof.
  intros Hd k e. cbn. destruct (decide (page = k)) as [<-|Hne].
  - rewrite lookup_alter_eq. destruct (Mig.entries_ m !! page) as [e0|]; [|done]. intros [= <-]. by left.
  - rewrite lookup_alter_ne by done. intros He. destruct (Hd k e He) as [|[->|]%elem_of_cons]; [by left|done|by right].
Qed.

Definition dues_kept (m m' : Mig.MigrationController) : Prop := ∀ ks, dues ks m → dues ks m'.
#[local] Instance dues_kept_preorder : PreOrder dues_kept.
Proof. split; [by intros x ks H|]. intros x y z H1 H2 ks H. by apply H2, H1. Qed.

Lemma clear_page_dues page pf l s a s' ks : Mig.clear_page page pf l s = Ok (a, s') → dues (page :: ks) s.1 → dues ks s'.1.
Proof.
  intros E Hd. unfold Mig.clear_page in E. apply bind_Ok in E as ([] & s1 & E1 & E). injection E1 as <-.
  refine ((_ : transits (firsts dues_kept) _) _ _ _ E ks (dues_clear page ks s.1 Hd)).
  unfold Mig.ShiftState_it, Mig.AddToBlockList. transits_steps; eauto with frame; apply own_firsts; transits_steps; try done.
  all: intros m ks'; first [exact id|by apply dues_alter].
Qed.

Lemma clear_pages_dues pages pf l s a s' : Mig.clear_pages pages pf l s = Ok (a, s') → dues pages.*1 s.1 → dues [] s'.1.
Proof.
  revert l s. induction pages as [|[page e] pages IH]; intros l s E Hd; cbn [Mig.clear_pages] in E.
  - injection E as _ <-. done.
  - apply bind_Ok in E as (l1 & s1 & E1 & E). eapply IH; [exact E|]. by eapply clear_page_dues.
Qed.

Lemma Clear_counts pf l s a s' : Mig.Clear pf l s = Ok (a, s') → ptt_writes s'.1 = 0.
Proof.
  intros E. unfold Mig.Clear in E. apply bind_Ok in E as (d & s1 & E1 & E). injection E1 as _ <-.
  apply bind_Ok in E as ([] & s2 & E1 & E). apply (prof_firsts eq) in E1. unfold firsts in E1. cbn in E1.
  apply bind_Ok in E as (pages & s3 & E2 & E). unfold Mig.iterate in E2. injection E2 as <- <-.
  apply bind_Ok in E as (l1 & s4 & E2 & E). apply clear_pages_dues in E2.
  - apply bind_Ok in E as ([] & s5 & E3 & E). injection E as _ <-.
    eapply (own_firsts dues_kept) in E3; [apply E3 in E2|transits_steps; by intros m ks].
    apply zsum_zero. intros [k e] He%elem_of_map_to_list. by destruct (E2 k e He) as [|Hk%elem_of_nil].
  - intros k e He. right. cbn in He |- *. apply list_elem_of_fmap. exists (k, e). split; [done|].
    rewrite iter_order_perm. by apply elem_of_map_to_list.
Qed.

End Heaps.

(** ** The memory *)

Definition counters (st : MemSt) : Z * Z * Z * Z * Z :=
  (numNVMWrites st, numDRAMWrites st, numATTWriteHits st, numATTWriteMisses st, ckDRAMWriteHits st).
Definition same_counters (st st' : MemSt) : Prop := counters st' = counters st.

#[global] Instance same_counters_preorder : PreOrder same_counters.
Proof. split; [done|]. intros x y z H1 H2. unfold same_counters in *. congruence. Qed.

Lemma host_counters a n l : transits same_counters (hostAddr a) ∧ transits same_counters (host_load a n) ∧ transits same_counters (host_store a l).
Proof. unfold hostAddr, host_load, host_store, host_mem. split_and!; transits_steps; done. Qed.

#[local] Hint Extern 1 (transits same_counters (hostAddr _)) => apply (host_counters _ 0 []) : frame.
#[local] Hint Extern 1 (transits same_counters (host_load _ _)) => apply (host_counters _ _ []) : frame.
#[local] Hint Extern 1 (transits same_counters (host_store _ _)) => apply (host_counters _ 0 _) : frame.

Lemma MemCopy_counters x y n : transits same_counters (mem_MemCopy x y n).
Proof. unfold mem_MemCopy, host_memcpy. transits_steps; auto with frame. Qed.

Lemma MemSwap_counters x y n : transits same_counters (mem_MemSwap x y n).
Proof. unfold mem_MemSwap, host_memcpy. transits_steps; auto with frame. Qed.

Lemma latency_counters a d p : transits same_counters (mem_GetReadLatency a d p) ∧ transits same_counters (mem_GetWriteLatency a d p).
Proof.
  assert (transits same_counters (GetVirtMachAddr a d p)) by (unfold GetVirtMachAddr, page_Translate; transits_steps).
  assert (∀ x, transits same_counters (row_Access x)) by (intros x; unfold row_Access; transits_steps; by apply transits_zoom).
  unfold mem_GetReadLatency, mem_GetWriteLatency. split; transits_steps; done.
Qed.

(** ** The two halves of [BeginCheckpointing] *)

Section Halves.
Context {St : Type} `{!MemStore St, HO : HashOrder}.

(** [BeginCheckpointing] up to where the counters start again. *)
Definition begin_first (pf : pfref) : M (Sys St) unit :=
  ck ← in_checkpointing;
  assert_ "AddrTransController::BeginCheckpointing" (negb ck) ;;
  ATT.VisitQueue (λ s, att_ (ctl s)) ATT.DIRTY (DirtyCleaner_Visit pf) ;;
  nc ← on_att (own (ATT.GetLength ATT.CLEAN));
  nf ← on_att (own (ATT.GetLength ATT.FREE));
  s ← get;
  assert_ "AddrTransController::BeginCheckpointing" (nc + nf =? ATT.length_ (att_ (ctl s))) ;;
  on_pf pf AddTableOp ;;
  modify (λ s, set_ctl (set_in_checkpointing_ true (ctl s)) s).

Definition begin_last (pf : pfref) : M (Sys St) unit :=
  on_att (ATT.ClearStats pf) ;;
  s ← get;
  l ← on_mig (Mig.Clear pf (ckpt s));
  modify (set_ckpt l).

Lemma BeginCheckpointing_split pf s : BeginCheckpointing pf s = (begin_first pf ;; begin_last pf) s.
Proof.
  unfold BeginCheckpointing, begin_first, begin_last, mbind, M_bind, in_checkpointing, gets, get, modify.
  repeat match goal with |- context [match ?x with Ok _ => _ | Err _ => _ end] => destruct x as [[? ?]|]; [|done] end. done.
Qed.

End Halves.

(** ** The accounts of a store *)

(** The counters have their types: the statistics of the memory count up from zero, the
    others are 64-bit words. *)
Record words (s : Sys MemSt) : Prop := {
  wd_nvm : 0 ≤ numNVMWrites (store s);
  wd_dram : 0 ≤ numDRAMWrites (store s);
  wd_hits : 0 ≤ numATTWriteHits (store s);
  wd_misses : 0 ≤ numATTWriteMisses (store s);
  wd_direct : 0 ≤ ckDRAMWriteHits (store s) < 2 ^ 64;
  wd_total_nvm : 0 ≤ Mig.total_nvm_writes_ (migrator_ (ctl s)) < 2 ^ 64;
  wd_total_dram : 0 ≤ Mig.total_dram_writes_ (migrator_ (ctl s)) < 2 ^ 64;
}.

Lemma drift_Accept_loop rel `{!Slack rel} {S} (I : S → Prop) f nxt (visit : Z → M S unit) fuel i k :
  (∀ i, drift rel I f 0 (visit i)) → drift rel I f 0 (IndexQueue.Accept_loop fuel nxt visit i k).
Proof.
  intros Hv. revert i k. induction fuel as [|fuel IH]; intros i k; [apply drift_err|]. cbn [IndexQueue.Accept_loop].
  drift_step; [drift_steps|]. do 2 (eapply (drift_bind _ _ _ 0); [drift_steps|intros ?]). apply IH.
Qed.

Lemma drift_VisitQueue rel `{!Slack rel} {S} (I : S → Prop) f att st (visit : Z → M S unit) :
  (∀ i, drift rel I f 0 (visit i)) → drift rel I f 0 (ATT.VisitQueue att st visit).
Proof.
  intros Hv. unfold ATT.VisitQueue, IndexQueue.Accept. do 4 (eapply (drift_bind _ _ _ 0); [eauto with drift|intros ?]).
  by apply drift_Accept_loop.
Qed.

(** With a property of the counters of the blocks. *)
Record tallied (N : list Z → Prop) (s : Sys MemSt) : Prop := {
  tl_words : words s;
  tl_counts : N (counts (att_ (ctl s)));
}.

Definition any_counts (N : list Z → Prop) : Prop := ∀ l, N l.

(** The counters of the blocks and pages are [int]s, weighed by [w]. *)
Definition wraps (rel : Z → Z → Prop) (w : Z) : Prop := ∀ a b, rel (a - w * b - w) (a - w * i32 (b + 1)).

Section Balance.
Context (rel : Z → Z → Prop) `{!Slack rel} (N : list Z → Prop) (x x' y y' z v p q : Z).
(** The counter of the direct hits may wrap; a store that hits nothing is one of them. *)
Hypothesis Hck : ∀ a b, rel (a - v * b - v) (a - v * u64 (b + 1)).
Hypothesis Hzv : rel 0 (z - v).

Definition weigh (s : Sys MemSt) : Z :=
  let st := store s in
  x * numNVMWrites st - x' * att_writes (att_ (ctl s)) + y * numDRAMWrites st - y' * ptt_writes (migrator_ (ctl s)) +
  z * (numNVMWrites st + numDRAMWrites st - numATTWriteHits st - numATTWriteMisses st) -
  p * Mig.total_nvm_writes_ (migrator_ (ctl s)) - q * Mig.total_dram_writes_ (migrator_ (ctl s)) - v * ckDRAMWriteHits st.

Abbreviation moves d m := (drift rel (tallied N) weigh d m).

(** A change of the state that no counter sees. *)
Ltac tally Hw := destruct Hw as [[] Hcn]; split; [split|]; cbn in *; try done; try congruence; try lia.

Lemma moves_att {A} (m : PM ATT.AddrTransTable A) : transits (firsts same_att) m → moves 0 (on_att m).
Proof.
  intros Hm. apply drift_none; [apply _|]. intros s a s' Hw E. unfold on_att, zoom in E.
  destruct (m _) as [[b t]|] eqn:Em; [|done]. injection E as _ <-. specialize (Hm _ _ _ Em).
  split; [tally Hw; by rewrite Hm|]. unfold weigh. cbn. by rewrite (same_att_writes _ _ Hm).
Qed.

Lemma moves_mig {A} (m : PM Mig.MigrationController A) : transits (firsts same_mig) m → moves 0 (on_mig m).
Proof.
  intros Hm. apply drift_none; [apply _|]. intros s a s' Hw E. unfold on_mig, zoom in E.
  destruct (m _) as [[b t]|] eqn:Em; [|done]. injection E as _ <-. destruct (Hm _ _ _ Em) as (H1 & H2 & H3).
  split; [tally Hw|]. unfold weigh. cbn. by rewrite H1, H2, H3.
Qed.

Lemma moves_store {A} (m : M MemSt A) : transits same_counters m → moves 0 (on_store m).
Proof.
  intros Hm. apply drift_none; [apply _|]. intros s a s' Hw E. unfold on_store, zoom in E.
  destruct (m _) as [[b t]|] eqn:Em; [|done]. injection E as _ <-. specialize (Hm _ _ _ Em).
  injection Hm as E1 E2 E3 E4 E5. split; [tally Hw|]. unfold weigh. cbn. by rewrite E1, E2, E3, E4, E5.
Qed.

Lemma moves_stats st : moves (x + z) (on_store statsNVMWrites) ∧ moves (y + z) (on_store statsDRAMWrites) ∧
  moves (- z) (on_store (OnATTWriteHit st)) ∧ moves (- z) (on_store (OnATTWriteMiss st)) ∧ moves (- v) (on_store ckDRAMWriteHit).
Proof.
  split_and!; intros s a s' Hw E; injection E as _ <-; (split; [tally Hw; apply u64_range|]); unfold weigh; cbn.
  5: { etrans; [|apply Hck]. match goal with |- rel ?a ?b => replace a with b by lia; reflexivity end. }
  all: match goal with |- rel ?a ?b => replace a with b by lia; reflexivity end.
Qed.

Lemma moves_set_ckpt l : moves 0 (modify (set_ckpt l)).
Proof. apply drift_modify; [apply _|]. intros s Hw. split; [tally Hw|]. unfold weigh. cbn. lia. Qed.

Lemma moves_ckpt a : moves 0 (modify (λ s, set_ckpt (ckpt s ++ [a]) s)).
Proof. apply drift_modify; [apply _|]. intros s Hw. split; [tally Hw|]. unfold weigh. cbn. lia. Qed.

Lemma moves_aside {T A} (g : Sys MemSt → T) put (m : M T A) :
  (∀ s t, tallied N s → tallied N (put t s) ∧ weigh (put t s) = weigh s) → moves 0 (zoom g put m).
Proof. apply drift_zoom_free; apply _. Qed.

#[local] Hint Extern 2 (drift _ _ _ _ (on_att (own _))) => apply moves_att, own_firsts : drift.
#[local] Hint Extern 2 (drift _ _ _ _ (on_att _)) => apply moves_att : drift.
#[local] Hint Extern 2 (drift _ _ _ _ (on_mig (own _))) => apply moves_mig, own_firsts : drift.
#[local] Hint Extern 2 (drift _ _ _ _ (on_mig _)) => apply moves_mig : drift.
#[local] Hint Extern 1 (drift _ _ _ _ (on_nvm _)) => apply moves_aside; by destruct 1 as [[]] : drift.
#[local] Hint Extern 1 (drift _ _ _ _ (on_dram _)) => apply moves_aside; by destruct 1 as [[]] : drift.
#[local] Hint Extern 1 (drift _ _ _ _ (on_store statsNVMWrites)) => apply (moves_stats ATT.FREE) : drift.
#[local] Hint Extern 1 (drift _ _ _ _ (on_store statsDRAMWrites)) => apply (moves_stats ATT.FREE) : drift.
#[local] Hint Extern 1 (drift _ _ _ _ (on_store (OnATTWriteHit _))) => apply moves_stats : drift.
#[local] Hint Extern 1 (drift _ _ _ _ (on_store (OnATTWriteMiss _))) => apply moves_stats : drift.
#[local] Hint Extern 1 (drift _ _ _ _ (on_store ckDRAMWriteHit)) => apply (moves_stats ATT.FREE) : drift.
#[local] Hint Extern 1 (drift _ _ _ _ (on_store (MemCopy _ _ _))) => apply moves_store, MemCopy_counters : drift.
#[local] Hint Extern 1 (drift _ _ _ _ (on_store (MemSwap _ _ _))) => apply moves_store, MemSwap_counters : drift.
#[local] Hint Extern 1 (drift _ _ _ _ (on_store (GetReadLatency _ _ _))) => apply moves_store, latency_counters : drift.
#[local] Hint Extern 1 (drift _ _ _ _ (on_store (GetWriteLatency _ _ _))) => apply moves_store, latency_counters : drift.
#[local] Hint Extern 1 (drift _ _ _ _ (on_pf _ _)) => apply moves_aside; by destruct 1 as [[]] : drift.
#[local] Hint Resolve entry_at_att At_att Translate_att IsEmpty_att GetFront_att GetLength_att AddBlockRead_att Lookup_att Setup_att ShiftState_att
  Reset_att Contains_att AddDRAMPageRead_mig Mig_Translate_mig LookupPage_mig Contains_mig ShiftState_mig : drift.

Ltac open_moves := unfold ToTag, ToAddr, block_size, in_checkpointing, att_At, att_ref, att_Translate, att_IsEmpty, IsDRAM.

Lemma LoadAddr_moves a pf : moves 0 (LoadAddr a pf).
Proof. unfold LoadAddr; open_moves. drift_steps. Qed.

Lemma push_ckpt_moves ck a : moves 0 (push_ckpt ck a).
Proof. destruct ck; [apply moves_ckpt|apply drift_ret; apply _]. Qed.
#[local] Hint Resolve push_ckpt_moves : drift.

Lemma Copy_moves a b pf ck : moves 0 (CopyBlockIntra a b pf ck) ∧ moves 0 (CopyBlockInter a b pf ck) ∧ moves 0 (SwapBlock a b pf ck).
Proof. unfold CopyBlockIntra, CopyBlockInter, SwapBlock; open_moves. split_and!; drift_steps. Qed.

Lemma FullBlock_moves a n : moves 0 (FullBlock a n) ∧ moves 0 (CheckValid a n).
Proof. unfold FullBlock, CheckValid; open_moves. split; drift_steps. Qed.

#[local] Hint Extern 1 (drift _ _ _ _ (CopyBlockIntra _ _ _ _)) => apply Copy_moves : drift.
#[local] Hint Extern 1 (drift _ _ _ _ (CopyBlockInter _ _ _ _)) => apply Copy_moves : drift.
#[local] Hint Extern 1 (drift _ _ _ _ (SwapBlock _ _ _ _)) => apply Copy_moves : drift.
#[local] Hint Extern 1 (drift _ _ _ _ (FullBlock _ _)) => apply FullBlock_moves : drift.
#[local] Hint Extern 1 (drift _ _ _ _ (CheckValid _ _)) => apply FullBlock_moves : drift.

(** A run whose branches in the middle add nothing. *)
Ltac moves_steps := repeat first [drift_step | drift_branch 0]; drift_close.

Lemma Setup_moves a b st mv pf : moves 0 (AddrTransController.Setup a b st mv pf).
Proof. unfold AddrTransController.Setup; open_moves. moves_steps. Qed.
Lemma HideClean_moves i mv pf : moves 0 (HideClean i mv pf).
Proof. unfold HideClean; open_moves. moves_steps. Qed.
Lemma ResetClean_moves i mv pf : moves 0 (ResetClean i mv pf).
Proof. unfold ResetClean; open_moves. moves_steps. Qed.
Lemma FreeClean_moves i pf : moves 0 (FreeClean i pf).
Proof. unfold FreeClean; open_moves. moves_steps. Qed.
Lemma DirtyStained_moves i mv pf ck : moves 0 (DirtyStained i mv pf ck).
Proof. unfold DirtyStained; open_moves. moves_steps. Qed.
Lemma FreeLoan_moves i mv pf ck : moves 0 (FreeLoan i mv pf ck).
Proof. unfold FreeLoan; open_moves. moves_steps. Qed.
Lemma HideTemp_moves i mv pf ck : moves 0 (HideTemp i mv pf ck).
Proof. unfold HideTemp; open_moves. moves_steps. Qed.
Lemma Discard_moves i nvm pf : moves 0 (Discard i nvm pf).
Proof. unfold Discard; open_moves. moves_steps. Qed.

#[local] Hint Resolve Setup_moves HideClean_moves ResetClean_moves FreeClean_moves DirtyStained_moves FreeLoan_moves HideTemp_moves Discard_moves : drift.

Lemma hit_running_moves i a n pf : moves (- z) (NVMStore_hit_running i a n pf).
Proof. unfold NVMStore_hit_running; open_moves. moves_steps. Qed.
Lemma miss_running_moves a n pf : moves (- z) (NVMStore_miss_running a n pf).
Proof. unfold NVMStore_miss_running; open_moves. drift_step. drift_branch (- z); [drift_branch 0; drift_steps|]. moves_steps. Qed.
Lemma hit_ckpt_moves i a n pf : moves (- z) (NVMStore_hit_ckpt i a n pf).
Proof. unfold NVMStore_hit_ckpt; open_moves. moves_steps. Qed.
Lemma miss_ckpt_moves a n pf : moves (- z) (NVMStore_miss_ckpt a n pf).
Proof. unfold NVMStore_miss_ckpt; open_moves. drift_step. drift_branch (- z). moves_steps. Qed.

#[local] Hint Resolve hit_running_moves miss_running_moves hit_ckpt_moves miss_ckpt_moves : drift.

Lemma DRAMStore_moves a n page pf : moves (- z) (DRAMStore a n page pf).
Proof.
  unfold DRAMStore; open_moves. do 3 drift_step. drift_step; [moves_steps|]. drift_step.
  - drift_step. drift_branch (- z). moves_steps.
  - drift_steps. replace (- z - 0 - 0 - 0 - - v - 0 - 0) with (0 + (v - z)) by lia.
    replace 0 with (z - v + (v - z)) at 2 by lia. by apply slack_add.
Qed.

Section Counting.
(** The counters of the epoch may wrap where they are counted. *)
Hypothesis Hxw : wraps rel x'.
Hypothesis Hyw : wraps rel y'.
Hypothesis HN : any_counts N.

Lemma moves_AddBlockWrite i : moves (- x') (on_att (own (ATT.AddBlockWrite i))).
Proof.
  intros s a s' Hw E. unfold on_att, own, zoom in E. cbn [fst snd] in E.
  destruct (ATT.AddBlockWrite i _) as [[b t]|] eqn:Em; [|done]. injection E as _ <-. apply AddBlockWrite_counts in Em as [w Ew].
  split; [tally Hw; apply HN|]. etrans; [|etrans; [apply (Hxw (weigh s + x' * w) w)|]]; unfold weigh; cbn; rewrite ?Ew;
    match goal with |- rel ?a ?b => replace a with b by lia; reflexivity end.
Qed.

Lemma moves_AddDRAMPageWrite a : moves (- y') (on_mig (own (Mig.AddDRAMPageWrite a))).
Proof.
  intros s u s' Hw E. unfold on_mig, own, zoom in E. cbn [fst snd] in E.
  destruct (Mig.AddDRAMPageWrite a _) as [[b t]|] eqn:Em; [|done]. injection E as _ <-. apply AddDRAMPageWrite_counts in Em as ([w H1] & H2 & H3).
  split; [tally Hw|]. etrans; [|etrans; [apply (Hyw (weigh s + y' * w) w)|]]; unfold weigh; cbn; rewrite ?H1, ?H2, ?H3;
    match goal with |- rel ?a ?b => replace a with b by lia; reflexivity end.
Qed.

#[local] Hint Extern 1 (drift _ _ _ _ (on_att (own (ATT.AddBlockWrite _)))) => apply moves_AddBlockWrite : drift.
#[local] Hint Extern 1 (drift _ _ _ _ (on_mig (own (Mig.AddDRAMPageWrite _)))) => apply moves_AddDRAMPageWrite : drift.

Lemma NVMStore_moves a n pf : moves (- z - x') (NVMStore a n pf).
Proof. unfold NVMStore; open_moves. do 3 drift_step. drift_branch (- z). moves_steps. Qed.

#[local] Hint Resolve NVMStore_moves DRAMStore_moves : drift.

(** A store is counted once by the memory and once by the tables. *)
Lemma StoreAddr_moves a n pf : x' = x → y' = y → moves 0 (StoreAddr a n pf).
Proof. intros Ex Ey. unfold StoreAddr; open_moves. moves_steps. Qed.

End Counting.

Lemma Probe_moves a : moves 0 (Probe a).
Proof. unfold Probe; open_moves. moves_steps. Qed.

Lemma OnEpochEnd_moves : moves 0 (on_store OnEpochEnd).
Proof. apply moves_store. by apply transits_modify. Qed.

Lemma LoanRevoker_moves pf i : moves 0 (LoanRevoker_Visit pf i).
Proof. unfold LoanRevoker_Visit; open_moves. moves_steps. Qed.

Lemma DirtyCleaner_moves pf i : moves 0 (DirtyCleaner_Visit pf i).
Proof. unfold DirtyCleaner_Visit; open_moves. moves_steps. Qed.

Lemma add_page_moves page : moves 0 (add_page_blocks page).
Proof.
  unfold add_page_blocks. drift_step. eapply (drift_bind _ _ _ 0); [|intros l].
  - apply moves_mig, own_firsts, AddToBlockList_totals.
  - eapply drift_eq; [apply moves_set_ckpt|lia].
Qed.

Lemma migrate_block_moves pf tag : moves 0 (migrate_block pf tag).
Proof. unfold migrate_block; open_moves. moves_steps. Qed.

Lemma moves_ctl g : (∀ k, att_ (g k) = att_ k ∧ migrator_ (g k) = migrator_ k) → moves 0 (modify (λ s, set_ctl (g (ctl s)) s)).
Proof.
  intros Hg. apply drift_modify; [apply _|]. intros s Hw. destruct (Hg (ctl s)) as [E1 E2].
  split; [tally Hw|]. unfold weigh. cbn. rewrite E1, E2. lia.
Qed.

(** Once the epoch's counters are added up, those of the blocks and pages do not matter. *)
Section Closed.
Context `{HO : HashOrder, HA : HeapAlgo} (Hx : x' = 0) (Hy : y' = 0) (HN : any_counts N).

Lemma moves_att_any {A} (m : PM ATT.AddrTransTable A) : moves 0 (on_att m).
Proof. apply moves_aside. intros s t Hw. split; [tally Hw; apply HN|]. unfold weigh. by rewrite Hx, !Z.mul_0_l. Qed.

Lemma moves_totals {A} (m : PM Mig.MigrationController A) : transits (firsts same_totals) m → moves 0 (on_mig m).
Proof.
  intros Hm. apply drift_none; [apply _|]. intros s a s' Hw E. unfold on_mig, zoom in E.
  destruct (m _) as [[b t]|] eqn:Em; [|done]. injection E as _ <-. destruct (Hm _ _ _ Em) as (H2 & H3).
  split; [tally Hw|]. unfold weigh. rewrite Hy, !Z.mul_0_l. cbn. by rewrite H2, H3.
Qed.

#[local] Hint Extern 1 (drift _ _ _ _ (on_mig (Mig.Setup _ _ _))) => apply moves_totals, Mig_Setup_totals : drift.
#[local] Hint Extern 1 (drift _ _ _ _ (on_mig (Mig.Free _ _))) => apply moves_totals, Mig_Free_totals : drift.
#[local] Hint Extern 1 (drift _ _ _ _ (on_mig (Mig.ExtractNVMPage _))) => apply moves_totals, Extract_totals : drift.
#[local] Hint Extern 1 (drift _ _ _ _ (on_mig (Mig.ExtractDRAMPage _))) => apply moves_totals, Extract_totals : drift.
#[local] Hint Extern 1 (drift _ _ _ _ (on_mig (Mig.Clear _ _))) => apply moves_totals, Clear_totals : drift.
#[local] Hint Resolve add_page_moves migrate_block_moves moves_set_ckpt : drift.

#[local] Hint Extern 1 (drift _ _ _ _ (modify _)) => by apply (moves_ctl (λ k, set_pages_to_dram_ (u64 (pages_to_dram_ k + 1)) k)) : drift.
#[local] Hint Extern 1 (drift _ _ _ _ (modify _)) => by apply (moves_ctl (λ k, set_pages_to_nvm_ (u64 (pages_to_nvm_ k + 1)) k)) : drift.
#[local] Hint Extern 1 (drift _ _ _ _ (modify _)) => by apply (moves_ctl (set_in_checkpointing_ true)) : drift.

Lemma MigrateDRAM_moves d pf : moves 0 (MigrateDRAM d pf).
Proof. unfold MigrateDRAM. drift_branch 0. moves_steps. Qed.

Lemma MigrateNVM_moves n pf : moves 0 (MigrateNVM n pf).
Proof.
  unfold MigrateNVM; open_moves. repeat drift_step. eapply (drift_bind _ _ _ 0); [apply drift_for_each_none; eauto with drift|intros ?].
  drift_branch 0. drift_step. drift_step; drift_close.
Qed.

#[local] Hint Resolve MigrateDRAM_moves MigrateNVM_moves : drift.

Lemma migrate_nvm_loop_moves fuel pf dr : moves 0 (migrate_nvm_loop fuel pf dr).
Proof. induction fuel as [|fuel IH]; [apply drift_err|]. cbn [migrate_nvm_loop]. drift_steps. Qed.

Lemma migrate_dram_loop_moves fuel pf wr d limit : moves 0 (migrate_dram_loop fuel pf wr d limit).
Proof. revert d limit. induction fuel as [|fuel IH]; intros d limit; [apply drift_err|]. cbn [migrate_dram_loop]. drift_steps. Qed.

(** [MigratePages] from where the epoch has been added up. *)
Definition migrate_rest (pf : pfref) (dr wr : QArith_base.Q) : M (Sys MemSt) unit :=
  s ← get;
  x ← migrate_nvm_loop (S (length (Mig.nvm_heap_ (migrator_ (ctl s))))) pf dr;
  let finish := λ d : Mig.DRAMPageStats,
    s ← get;
    let m := migrator_ (ctl s) in
    migrate_dram_loop (S (length (Mig.dram_heap_ m))) pf wr d (Mig.ptt_capacity_ m - Mig.ptt_length_ m) in
  match x with
  | ExitReturn => mret tt
  | ExitReady d => finish d
  | ExitLoop => r ← on_mig (Mig.ExtractDRAMPage pf); match r with None => mret tt | Some d => finish d end
  end.

#[local] Hint Resolve migrate_nvm_loop_moves migrate_dram_loop_moves : drift.

Lemma migrate_rest_moves pf dr wr : moves 0 (migrate_rest pf dr wr).
Proof. unfold migrate_rest. drift_steps. Qed.

Lemma begin_moves pf : moves 0 (begin_first pf) ∧ moves 0 (begin_last pf).
Proof.
  split; [unfold begin_first; open_moves|unfold begin_last].
  - do 2 drift_step. eapply (drift_bind _ _ _ 0); [apply drift_VisitQueue; [apply _|]; intros i; apply DirtyCleaner_moves|intros ?]. drift_steps.
  - eapply (drift_bind _ _ _ 0); [apply moves_att_any|intros ?]. drift_steps.
Qed.

End Closed.

End Balance.

(** ** Adding up an epoch *)

Section Adding.
Context `{HO : HashOrder, HA : HeapAlgo}.

(** The writes of the pages being collected. *)
Definition page_writes (m : Mig.MigrationController) : Z := msum Mig.p_epoch_writes (Mig.nvm_pages_ m).
(** What [InputBlocks] leaves alone while it collects. *)
Record collects (m0 m : Mig.MigrationController) : Prop := {
  co_totals : same_totals m0 m;
  co_entries : Mig.entries_ m = Mig.entries_ m0;
  co_pages : map_Forall (λ _ p, 0 ≤ Mig.p_epoch_writes p) (Mig.nvm_pages_ m);
}.

Lemma page_writes_insert m page p d : Mig.p_epoch_writes p = Mig.p_epoch_writes (default (Mig.MkNVMPage 0 0 ∅) (Mig.nvm_pages_ m !! page)) + d →
  page_writes (Mig.set_nvm_pages_ (<[page := p]> (Mig.nvm_pages_ m)) m) = page_writes m + d.
Proof.
  intros Hp. unfold page_writes. cbn. destruct (Mig.nvm_pages_ m !! page) as [p0|] eqn:E; cbn in Hp.
  - rewrite (msum_insert _ _ _ p0) by done. lia.
  - rewrite msum_fresh by done. lia.
Qed.

(** A page enters with the writes of one more block, which an [int] can hold. *)
Lemma collect_page m0 m page r b d : collects m0 m → 0 ≤ d → page_writes m + d < 2 ^ 31 →
  let p := default (Mig.MkNVMPage 0 0 ∅) (Mig.nvm_pages_ m !! page) in
  let m' := Mig.set_nvm_pages_ (<[page := Mig.MkNVMPage r (i32 (Mig.p_epoch_writes p + d)) b]> (Mig.nvm_pages_ m)) m in
  collects m0 m' ∧ page_writes m' = page_writes m + d.
Proof.
  intros [Ht He Hp] Hd Hs p m'. assert (0 ≤ Mig.p_epoch_writes p ≤ page_writes m) as Hb.
  { unfold p. destruct (Mig.nvm_pages_ m !! page) as [p0|] eqn:E; cbn.
    - split; [by apply (Hp page)|by apply (msum_elem _ _ page)].
    - split; [done|]. apply zsum_nonneg. intros [k x] Hx%elem_of_map_to_list. by apply (Hp k). }
  unfold m'. rewrite (i32_small (_ + d)) by lia. split; [|by apply page_writes_insert]. split; [done..|]. cbn.
  apply map_Forall_insert_2; [cbn; lia|done].
Qed.

Lemma input_block_writes m0 it m a m' : Mig.input_block it m = Ok (a, m') → collects m0 m → 0 ≤ ATT.epoch_writes it →
  page_writes m + ATT.epoch_writes it < 2 ^ 31 → collects m0 m' ∧ page_writes m' = page_writes m + ATT.epoch_writes it.
Proof.
  intros E Hco Hd Hs. unfold Mig.input_block in E. destruct (_ || _).
  - unfold assert_ in E. destruct (Z.eqb_spec (ATT.epoch_writes it) 0) as [E0|]; [|done]. injection E as _ <-. rewrite E0, Z.add_0_r. done.
  - apply bind_Ok in E as (m1 & m2 & E1 & E). injection E1 as <- <-. cbv zeta in E. destruct (negb _).
    + apply bind_Ok in E as ([] & m3 & E1 & E). injection E1 as <-. unfold assert_ in E. destruct (_ <=? _); [|done]. injection E as _ <-.
      by apply collect_page.
    + injection E as _ <-. by apply collect_page.
Qed.

Lemma collect_writes m0 es m a m' : for_each es Mig.input_block m = Ok (a, m') → collects m0 m →
  Forall (λ n, 0 ≤ n) (ATT.epoch_writes <$> es) → page_writes m + zsum ATT.epoch_writes es < 2 ^ 31 →
  collects m0 m' ∧ page_writes m' = page_writes m + zsum ATT.epoch_writes es.
Proof.
  revert m. induction es as [|e es IH]; intros m E Hco Hf Hs; cbn [for_each] in E.
  - injection E as _ <-. cbn. by rewrite Z.add_0_r.
  - apply bind_Ok in E as ([] & m1 & E1 & E). rewrite fmap_cons in Hf. apply Forall_cons in Hf as [H0 Hf]. cbn in Hs.
    assert (0 ≤ zsum ATT.epoch_writes es).
    { apply zsum_nonneg. intros x Hx. rewrite Forall_forall in Hf. apply Hf, list_elem_of_fmap. eauto. }
    apply (input_block_writes m0) in E1 as [H1 H2]; [|done|done|lia].
    apply IH in E as [H3 H4]; [|done|done|lia]. split; [done|]. cbn. lia.
Qed.

(** The two heaps add the collected writes to the totals. *)
Definition fills (E : gmap Z Mig.PTTEntry) (t : Z) (m : Mig.MigrationController) : Prop :=
  Mig.entries_ m = E ∧ Mig.total_dram_writes_ m = t ∧ 0 ≤ Mig.total_nvm_writes_ m < 2 ^ 64.

Lemma FillNVM_adds m a m' : Mig.FillNVMPageHeap m = Ok (a, m') → 0 ≤ Mig.total_nvm_writes_ m < 2 ^ 64 →
  Mig.entries_ m' = Mig.entries_ m ∧ Mig.total_dram_writes_ m' = Mig.total_dram_writes_ m ∧
  Mig.total_nvm_writes_ m' = u64 (Mig.total_nvm_writes_ m + page_writes m).
Proof.
  intros E Hr. unfold Mig.FillNVMPageHeap in E. apply bind_Ok in E as (l & m1 & E1 & E).
  unfold Mig.iterate in E1. injection E1 as <- <-.
  apply bind_Ok in E as ([] & m2 & E1 & E). injection E as _ <-.
  set (m1 := Mig.set_iterations_ _ m) in E1.
  eapply (drift_for_each mod64 (fills (Mig.entries_ m) (Mig.total_dram_writes_ m)) Mig.total_nvm_writes_
    (λ x : Z * Mig.NVMPage, Mig.p_epoch_writes x.2)) in E1 as [(H1 & H2 & H3) H4]; [|..|done].
  - unfold mod64 in H4. rewrite (u64_small (Mig.total_nvm_writes_ m2)) in H4 by done. cbn. rewrite <- H4. split_and!; [done..|].
    f_equal. f_equal. unfold page_writes, msum. by rewrite iter_order_perm.
  - intros [addr pg]. intros s b s' (G1 & G2 & G3) Hs. injection Hs as _ <-. cbn. split; [split; [done|]; split; [done|apply u64_range]|].
    unfold mod64. by rewrite u64_u64.
Qed.

Lemma FillDRAM_adds m a m' : Mig.FillDRAMPageHeap m = Ok (a, m') → 0 ≤ Mig.total_dram_writes_ m < 2 ^ 64 →
  Mig.total_nvm_writes_ m' = Mig.total_nvm_writes_ m ∧ Mig.total_dram_writes_ m' = u64 (Mig.total_dram_writes_ m + ptt_writes m).
Proof.
  intros E Hr. unfold Mig.FillDRAMPageHeap in E. apply bind_Ok in E as (l & m1 & E1 & E).
  unfold Mig.iterate in E1. injection E1 as <- <-.
  apply bind_Ok in E as ([] & m2 & E1 & E). apply bind_Ok in E as (m3 & m4 & E2 & E). injection E2 as <- <-. cbv zeta in E.
  apply bind_Ok in E as ([] & m5 & E2 & E). injection E as _ <-. unfold assert_ in E2. destruct (_ =? _); [|done]. injection E2 as <-.
  set (m1 := Mig.set_iterations_ _ m) in E1.
  eapply (drift_for_each mod64 (λ m', Mig.total_nvm_writes_ m' = Mig.total_nvm_writes_ m ∧ 0 ≤ Mig.total_dram_writes_ m' < 2 ^ 64) Mig.total_dram_writes_
    (λ x : Z * Mig.PTTEntry, Mig.epoch_writes x.2)) in E1 as [(H1 & H2) H3]; [|..|done].
  - unfold mod64 in H3. rewrite (u64_small (Mig.total_dram_writes_ m2)) in H3 by done. cbn. rewrite <- H3. split; [done|].
    f_equal. f_equal. unfold ptt_writes, msum. by rewrite iter_order_perm.
  - intros [addr pg]. intros s b s' (G1 & G2) Hs. injection Hs as _ <-. cbn. split; [split; [done|apply u64_range]|].
    unfold mod64. by rewrite u64_u64.
Qed.

Lemma InputBlocks_adds es m a m' : Mig.InputBlocks es m = Ok (a, m') → 0 ≤ Mig.total_nvm_writes_ m < 2 ^ 64 → 0 ≤ Mig.total_dram_writes_ m < 2 ^ 64 →
  Forall (λ n, 0 ≤ n) (ATT.epoch_writes <$> es) → zsum ATT.epoch_writes es < 2 ^ 31 →
  Mig.total_nvm_writes_ m' = u64 (Mig.total_nvm_writes_ m + zsum ATT.epoch_writes es) ∧
  Mig.total_dram_writes_ m' = u64 (Mig.total_dram_writes_ m + ptt_writes m).
Proof.
  intros E Hn Hd Hf Hs. unfold Mig.InputBlocks in E. apply bind_Ok in E as (m1 & m2 & E1 & E). injection E1 as <- <-.
  apply bind_Ok in E as ([] & m1 & E1 & E). unfold assert_ in E1. destruct (bool_decide _) eqn:E0; [|done]. injection E1 as <-. apply bool_decide_eq_true in E0.
  assert (page_writes m = 0) as Ew by (unfold page_writes; by rewrite E0).
  apply bind_Ok in E as ([] & m1 & E1 & E). apply (collect_writes m es) in E1 as [[[H1 H2] H3 _] H4];
    [|split; [done|done|by rewrite E0]|done|lia].
  apply bind_Ok in E as ([] & m2 & E2 & E). injection E2 as <-. apply bind_Ok in E as ([] & m3 & E2 & E).
  apply FillNVM_adds in E2 as (H5 & H6 & H7); [|cbn; by rewrite H1]. cbn in H5, H6, H7.
  apply FillDRAM_adds in E as [H8 H9]; [|by rewrite H6, H2]. rewrite H8, H9, H7, H6, H1, H2. split.
  - rewrite Ew in H4. f_equal. f_equal. exact H4.
  - unfold ptt_writes. by rewrite H5, H3.
Qed.

End Adding.

(** ** The accounts of an epoch *)

(** While the books are open the writes of the epoch are with the blocks and the pages;
    they are closed when the totals have them. Up to [rel]: the counters of an epoch are
    [int]s, so open books are only right as 32-bit words. *)
Record books (rel : Z → Z → Prop) (opened : bool) (s : Sys MemSt) : Prop := {
  bk_words : words s;
  bk_nvm : rel (numNVMWrites (store s)) ((if opened then att_writes (att_ (ctl s)) else 0) + Mig.total_nvm_writes_ (migrator_ (ctl s)));
  bk_dram : rel (numDRAMWrites (store s)) ((if opened then ptt_writes (migrator_ (ctl s)) else 0) + Mig.total_dram_writes_ (migrator_ (ctl s)));
  bk_direct : mod64 (numNVMWrites (store s) + numDRAMWrites (store s)) (numATTWriteHits (store s) + numATTWriteMisses (store s) + ckDRAMWriteHits (store s));
  bk_stores : numATTWriteHits (store s) + numATTWriteMisses (store s) ≤ numNVMWrites (store s) + numDRAMWrites (store s);
}.

(** Fewer than [2 ^ 31 - 1] writes are counted in the epoch, by the blocks, by the pages
    and by the memory, so that no [int] counter has wrapped or will with one more. *)
Record light (s : Sys MemSt) : Prop := {
  lt_counts : Forall (λ n, 0 ≤ n) (counts (att_ (ctl s)));
  lt_att : att_writes (att_ (ctl s)) < 2 ^ 31 - 1;
  lt_ptt : 0 ≤ ptt_writes (migrator_ (ctl s)) < 2 ^ 31 - 1;
  lt_nvm : u64 (numNVMWrites (store s) - Mig.total_nvm_writes_ (migrator_ (ctl s))) < 2 ^ 31 - 1;
  lt_dram : u64 (numDRAMWrites (store s) - Mig.total_dram_writes_ (migrator_ (ctl s))) < 2 ^ 31 - 1;
}.

Lemma counts_nonneg t : Forall (λ n, 0 ≤ n) (counts t) → 0 ≤ att_writes t.
Proof. intros Hf. apply zsum_nonneg. intros e He. rewrite Forall_forall in Hf. apply Hf, list_elem_of_fmap. eauto. Qed.

(** Words that agree and are small. *)
Lemma small_words n t w : mod32 n (w + t) → u64 (n - t) < 2 ^ 31 → 0 ≤ w < 2 ^ 31 → mod64 n (w + t).
Proof.
  intros H Hn Hw. pose proof (u64_range (n - t)) as Hr.
  assert (mod32 (u64 (n - t)) w) as E.
  { etrans; [apply mod64_mod32; unfold mod64; apply u64_u64|]. apply (slack_add (rel := mod32) _ _ (- t)) in H.
    by replace (w + t + - t) with w in H by lia. }
  unfold mod32, u32 in E. rewrite !Z.mod_small in E by lia. rewrite <- E.
  etrans; [|apply (slack_add (rel := mod64) (n - t)); unfold mod64; symmetry; apply u64_u64]. apply (f_equal u64). lia.
Qed.

(** The books of an epoch with few writes are right. *)
Lemma books_exact s : books mod32 true s → light s → books mod64 true s.
Proof.
  intros [Hw Hn Hd Hk Hs] [L1 L2 L3 L4 L5]. apply counts_nonneg in L1. split; [done| | |done|done]; apply small_words; try done; lia.
Qed.

(** Closed books whose counters have not wrapped agree exactly: the assertions of [freeze]. *)
Lemma books_agree s : books mod64 false s → numNVMWrites (store s) + numDRAMWrites (store s) < 2 ^ 64 →
  numNVMWrites (store s) = Mig.total_nvm_writes_ (migrator_ (ctl s)) ∧ numDRAMWrites (store s) = Mig.total_dram_writes_ (migrator_ (ctl s)) ∧
  numNVMWrites (store s) + numDRAMWrites (store s) = numATTWriteHits (store s) + numATTWriteMisses (store s) + ckDRAMWriteHits (store s).
Proof.
  intros [[] Hn Hd Hk Hs] Hsum. rewrite Z.add_0_l in Hn, Hd. unfold mod64 in Hn, Hd. rewrite !u64_small in Hn, Hd by lia. split; [done|]. split; [done|].
  apply (slack_add (rel := mod64) _ _ (- (numATTWriteHits (store s) + numATTWriteMisses (store s)))) in Hk. unfold mod64 in Hk.
  rewrite !u64_small in Hk by lia. lia.
Qed.

(** A sum is zero as a word. *)
Lemma rel_diff rel `{!Slack rel, !Symmetric rel} a b : rel a b ↔ rel 0 (a - b).
Proof.
  split; intros H.
  - apply (slack_add (rel := rel) _ _ (- b)) in H. rewrite Z.add_opp_diag_r in H. by symmetry.
  - apply (slack_add (rel := rel) _ _ b) in H. replace (a - b + b) with a in H by lia. by symmetry.
Qed.

Lemma rel_diff_kept rel `{!Slack rel, !Symmetric rel} a b a' b' w w' : rel a b → rel (w + 0) w' → w = a - b → w' = a' - b' → rel a' b'.
Proof.
  intros H1%(rel_diff rel) H2 -> ->. apply (rel_diff rel). etrans; [exact H1|]. etrans; [|exact H2].
  by rewrite Z.add_0_r.
Qed.

Lemma wrap_balance v a b : v = 0 ∨ v = 1 → mod64 (a - v * b - v) (a - v * u64 (b + 1)).
Proof.
  intros [-> | ->]; [unfold mod64; f_equal; lia|]. rewrite !Z.mul_1_l. unfold mod64, u64. rewrite Zminus_mod_idemp_r. f_equal. lia.
Qed.

Lemma wraps_0 rel `{!Slack rel} : wraps rel 0.
Proof. intros a b. rewrite !Z.mul_0_l, !Z.sub_0_r. reflexivity. Qed.

Lemma wraps_mod32 w : w = 0 ∨ w = 1 → wraps mod32 w.
Proof.
  intros [-> | ->]; [apply wraps_0; apply _|]. intros a b. rewrite !Z.mul_1_l. apply (rel_diff mod32).
  replace (a - b - 1 - (a - i32 (b + 1))) with (i32 (b + 1) + - (b + 1)) by lia.
  pose proof (slack_add (rel := mod32) _ _ (- (b + 1)) (i32_mod32 (b + 1))) as H. rewrite Z.add_opp_diag_r in H. by symmetry.
Qed.

Definition of_open (opened : bool) (w : Z) : Z := if opened then w else 0.

(** An operation that moves no account, with what it needs of the wrapping of counters. *)
Definition still (rel : Z → Z → Prop) (N : list Z → Prop) (opened : bool) {A} (m : M (Sys MemSt) A) : Prop :=
  ∀ x y z v p q, (∀ a b, rel (a - v * b - v) (a - v * u64 (b + 1))) → rel 0 (z - v) →
    wraps rel (of_open opened x) → wraps rel (of_open opened y) →
    drift rel (tallied N) (weigh x (of_open opened x) y (of_open opened y) z v p q) 0 m.

Lemma books_still rel `{!Slack rel, !Symmetric rel} N opened {A} (m : M (Sys MemSt) A) s a s' :
  (∀ x y p q, x = 0 ∨ x = 1 → y = 0 ∨ y = 1 → drift rel (tallied N) (weigh x (of_open opened x) y (of_open opened y) 0 0 p q) 0 m) →
  still mod64 N opened m → still Z.le N opened m → books rel opened s → N (counts (att_ (ctl s))) → m s = Ok (a, s') →
  books rel opened s' ∧ N (counts (att_ (ctl s'))).
Proof.
  intros Hm Hm64 Hle [Hw Hn Hd Hk Hs] HN E. assert (tallied N s) as Ht by (by split).
  assert (∀ rel' (_ : Slack rel'), wraps rel' (of_open opened 0)) as H0 by (intros; destruct opened; by apply wraps_0).
  destruct (Hm 1 0 1 0 ltac:(lia) ltac:(lia) _ _ _ Ht E) as [[Hw' HN'] Hn']. destruct (Hm 0 1 0 1 ltac:(lia) ltac:(lia) _ _ _ Ht E) as [_ Hd'].
  destruct (Hm64 0 0 1 1 0 0 (λ a b, wrap_balance 1 a b (or_intror eq_refl)) eq_refl (H0 _ _) (H0 _ _) _ _ _ Ht E) as [_ Hk'].
  destruct (Hle 0 0 1 0 0 0 (λ a b, ltac:(lia)) ltac:(lia) (H0 _ _) (H0 _ _) _ _ _ Ht E) as [_ Hs'].
  split; [|done]. unfold weigh in Hs'. split; [done|..|destruct opened; cbn in Hs'; lia].
  - eapply (rel_diff_kept rel); [exact Hn|exact Hn'|..]; unfold weigh; destruct opened; cbn; lia.
  - eapply (rel_diff_kept rel); [exact Hd|exact Hd'|..]; unfold weigh; destruct opened; cbn; lia.
  - eapply (rel_diff_kept mod64); [exact Hk|exact Hk'|..]; unfold weigh; destruct opened; cbn; lia.
Qed.

Lemma direct_0 rel `{!Slack rel} a b : rel (a - 0 * b - 0) (a - 0 * u64 (b + 1)).
Proof. rewrite !Z.mul_0_l, !Z.sub_0_r. reflexivity. Qed.

(** Open books are kept as 32-bit words, whatever is counted. *)
Lemma books_kept {A} (m : M (Sys MemSt) A) : (∀ rel (_ : Slack rel), still rel (λ _, True) true m) →
  ∀ s a s', books mod32 true s → m s = Ok (a, s') → books mod32 true s'.
Proof.
  intros Hm s a s' Hb E. eapply (books_still mod32 (λ _, True) true) in E as [H _]; [exact H|..|apply Hm; apply _|apply Hm; apply _|done|done].
  intros x y p q Hx Hy. apply (Hm mod32 _); [apply direct_0; apply _|done|by apply wraps_mod32..].
Qed.

(** Books are kept exactly by what counts no write, or once they are closed. *)
Lemma books_same N opened {A} (m : M (Sys MemSt) A) : (∀ rel (_ : Slack rel) x y z v p q,
     (∀ a b, rel (a - v * b - v) (a - v * u64 (b + 1))) → rel 0 (z - v) →
     drift rel (tallied N) (weigh x (of_open opened x) y (of_open opened y) z v p q) 0 m) →
  ∀ s a s', books mod64 opened s → N (counts (att_ (ctl s))) → m s = Ok (a, s') → books mod64 opened s' ∧ N (counts (att_ (ctl s'))).
Proof.
  intros Hm s a s' Hb HN E. eapply (books_still mod64 N opened); [..|exact Hb|exact HN|exact E].
  - intros x y p q _ _. apply (Hm mod64 _); [apply direct_0; apply _|done].
  - intros x y z v p q H1 H2 _ _. by apply (Hm mod64 _).
  - intros x y z v p q H1 H2 _ _. by apply (Hm Z.le _).
Qed.

Section Books.
Context `{HO : HashOrder, HA : HeapAlgo}.
Implicit Types s : Sys MemSt.

Lemma LoadAddr_books a pf s r s' : books mod32 true s → LoadAddr a pf s = Ok (r, s') → books mod32 true s'.
Proof. apply books_kept. intros ? ? ? ? ? ? ? ? ? ? ? ?. by apply LoadAddr_moves. Qed.

Lemma StoreAddr_books a n pf s r s' : books mod32 true s → StoreAddr a n pf s = Ok (r, s') → books mod32 true s'.
Proof. apply books_kept. intros ? ? ? ? ? ? ? ? ? ? ? ?. by apply StoreAddr_moves. Qed.

Lemma Probe_books a s r s' : books mod32 true s → Probe a s = Ok (r, s') → books mod32 true s'.
Proof. apply books_kept. intros ? ? ? ? ? ? ? ? ? ? ? ?. by apply Probe_moves. Qed.

Lemma FinishCheckpointing_books s r s' : books mod32 true s → FinishCheckpointing s = Ok (r, s') → books mod32 true s'.
Proof.
  apply books_kept. intros ? ? ? ? ? ? ? ? ? ? ? ?. unfold FinishCheckpointing, in_checkpointing. drift_step. drift_step.
  eapply (drift_bind _ _ _ 0); [apply moves_aside; [done|by destruct 1 as [[]]]|intros ?].
  eapply (drift_bind _ _ _ 0); [by apply (moves_ctl _ _ _ _ _ _ _ _ _ _ (set_in_checkpointing_ false))|intros ?]. by apply OnEpochEnd_moves.
Qed.

(** What [InputBlocks] can add up. *)
Definition addable (l : list Z) : Prop := Forall (λ n, 0 ≤ n) l ∧ zsum id l < 2 ^ 31.

(** Adding up the epoch closes the books. *)
Lemma InputBlocks_books s r s' : books mod64 true s → addable (counts (att_ (ctl s))) →
  on_mig (own (Mig.InputBlocks (ATT.entries_ (att_ (ctl s))))) s = Ok (r, s') → books mod64 false s'.
Proof.
  intros [Hw Hn Hd Hk Hs] [Hf Hlt] E. unfold on_mig, own, zoom in E. cbn [fst snd] in E. destruct (Mig.InputBlocks _ _) as [[u m']|] eqn:Em; [|done].
  injection E as _ <-. unfold counts in Hlt. rewrite zsum_fmap in Hlt.
  apply InputBlocks_adds in Em as [E1 E2]; [|apply Hw|apply Hw|done|done].
  split; cbn; [|rewrite ?E1, ?E2..|done|done].
  - destruct Hw. split; cbn; rewrite ?E1, ?E2; try done; apply u64_range.
  - rewrite Z.add_0_l. etrans; [exact Hn|]. unfold mod64. rewrite u64_u64, Z.add_comm. done.
  - rewrite Z.add_0_l. etrans; [exact Hd|]. unfold mod64. rewrite u64_u64, Z.add_comm. done.
Qed.

Lemma MigratePages_books pf dr wr s r s' : books mod32 true s → light s → MigratePages pf dr wr s = Ok (r, s') → books mod64 false s'.
Proof.
  intros Hb Hl E. pose proof (books_exact _ Hb Hl) as Hx. assert (addable (counts (att_ (ctl s)))) as Ha.
  { split; [apply Hl|]. unfold counts. rewrite zsum_fmap. destruct Hl. unfold att_writes in *. lia. }
  unfold MigratePages, in_checkpointing, att_IsEmpty in E.
  apply bind_Ok in E as (ck & s1 & E1 & E). injection E1 as _ <-.
  apply bind_Ok in E as ([] & s1 & E1 & E). unfold assert_ in E1. destruct (negb ck); [|done]. injection E1 as <-.
  apply bind_Ok in E as (n & s1 & E1 & E).
  eapply (books_same addable true) in E1 as [Hx1 Ha1]; [|intros; apply drift_VisitQueue; [done|]; intros; by apply LoanRevoker_moves|done|done].
  apply bind_Ok in E as (el & s2 & E2 & E).
  eapply (books_same addable true) in E2 as [Hx2 Ha2]; [|intros; apply moves_att; [done|]; apply own_firsts, IsEmpty_att|done|done].
  apply bind_Ok in E as ([] & s3 & E3 & E). unfold assert_ in E3. destruct el; [|done]. injection E3 as <-.
  apply bind_Ok in E as (s4 & s5 & E3 & E). injection E3 as <- <-. apply bind_Ok in E as ([] & s4 & E3 & E).
  apply InputBlocks_books in E3; [|done|done].
  eapply (books_same (λ _, True) false) in E as [H _]; [exact H| |exact E3|done]. intros. by apply migrate_rest_moves.
Qed.

(** The epoch's counters start again from zero. *)
Lemma begin_last_counts pf s r s' : begin_last pf s = Ok (r, s') → att_writes (att_ (ctl s')) = 0 ∧ ptt_writes (migrator_ (ctl s')) = 0.
Proof.
  intros E. unfold begin_last in E. apply bind_Ok in E as ([] & s1 & E1 & E). unfold on_att, zoom in E1.
  destruct (ATT.ClearStats _ _) as [[u t]|] eqn:Et; [|done]. injection E1 as _ <-. apply ClearStats_counts in Et.
  apply bind_Ok in E as (s2 & s3 & E1 & E). injection E1 as <- <-. apply bind_Ok in E as (l & s2 & E1 & E). injection E as _ <-.
  unfold on_mig, zoom in E1. destruct (Mig.Clear _ _ _) as [[v m]|] eqn:Em; [|done]. injection E1 as _ <-. apply Clear_counts in Em. done.
Qed.

Lemma BeginCheckpointing_books pf s r s' : books mod64 false s → BeginCheckpointing pf s = Ok (r, s') → books mod32 true s'.
Proof.
  intros Hb E. rewrite BeginCheckpointing_split in E. apply bind_Ok in E as ([] & s1 & E1 & E).
  eapply (books_same (λ _, True) false) in E1 as [Hb1 _]; [|intros; by apply begin_moves|done|done]. pose proof (begin_last_counts _ _ _ _ E) as [Ha Hp].
  eapply (books_same (λ _, True) false) in E as [[H1 H2 H3 H4 H5] _]; [|intros; by apply begin_moves|done|done].
  split; rewrite ?Ha, ?Hp; [done|by apply mod64_mod32..|done|done].
Qed.

End Books.
