(* ===== verification/BusLedger.v ===== *)
(** The bytes of a checkpoint. [SimpleMemory::unfreeze] asserts that the bytes charged to
    the profilers are those written to the NVM banks: whatever the migration and the start
    of a checkpoint move, they put on the list of blocks to write. [bus] is the difference;
    [MigratePages] and [BeginCheckpointing] leave it alone. *)

From S2P Require Import Prelude Drift Profiler StdAlgo MemStore MigrationSpec AddrTransController WriteCounts.
From S2P Require IndexQueue AddrTransTable VersionBuffer MigrationController.
#[global] Open Scope Z_scope.

(** ** The meters of a profiler *)

Definition meters (p : Profiler) : Z * Z * Z * Z := (block_bits_ p, page_bits_ p, bytes_intra_channel_ p, bytes_inter_channel_ p).
Definition same_meters (p p' : Profiler) : Prop := meters p' = meters p.
(** Of a component that charges them for its own operations only. *)
Definition metered {T} (R : T → T → Prop) (p p' : T * Profs) : Prop := R p.1 p'.1 ∧ same_meters (pf_arg p.2) (pf_arg p'.2).

#[global] Instance same_meters_preorder : PreOrder same_meters.
Proof. split; [done|]. intros x y z H1 H2. unfold same_meters in *. congruence. Qed.
#[global] Instance metered_preorder {T} (R : T → T → Prop) `{!PreOrder R} : PreOrder (metered R).
Proof.
  split; [intros x; split; reflexivity|]. intros x y z [H1 H2] [H3 H4]. split; [by etrans|]. unfold same_meters in *. congruence.
Qed.

Lemma op_meters : transits same_meters AddTableOp ∧ transits same_meters AddBufferOp ∧ transits same_meters set_ignore_latency ∧
  transits same_meters clear_ignore_latency.
Proof.
  unfold AddTableOp, AddTableOp_n, AddBufferOp, AddBufferOp_n, set_ignore_latency, clear_ignore_latency.
  split_and!; transits_steps; try done; intros p; by destruct (ignore_latency_ p).
Qed.

Lemma own_Ok {T A} (m : M T A) s a s' : own m s = Ok (a, s') → ∃ t, m s.1 = Ok (a, t) ∧ s' = (t, s.2).
Proof. unfold own, zoom. destruct (m s.1) as [[b t]|]; [|done]. intros [= <- <-]. eauto. Qed.

Lemma own_metered {T A} R (m : M T A) : transits R m → transits (metered R) (own m).
Proof. intros Hm. apply transits_zoom. intros s t a E. split; [by apply (Hm _ _ _ E)|done]. Qed.

Lemma prof_metered {T A} (R : T → T → Prop) `{!PreOrder R} r (op : M Profiler A) : transits same_meters op → transits (metered R) (prof r op : PM T A).
Proof. intros Hop. apply transits_zoom. intros s t a E. split; [cbn; reflexivity|]. apply Hop in E. by destruct r. Qed.

#[local] Hint Resolve own_metered : frame.
#[local] Hint Extern 1 (transits (metered _) (prof _ _)) => apply prof_metered; [apply _|apply op_meters] : frame.

(** ** The table and the buffers *)

Definition same_bits (t t' : ATT.AddrTransTable) : Prop := ATT.block_bits_ t' = ATT.block_bits_ t.
Definition any_buffer (v v' : VB.VersionBuffer) : Prop := True.

#[global] Instance same_bits_preorder : PreOrder same_bits.
Proof. split; [done|]. intros x y z H1 H2. unfold same_bits in *. congruence. Qed.
#[global] Instance any_buffer_preorder : PreOrder any_buffer.
Proof. done. Qed.

Lemma with_queue_bits {A} s (m : M (list ATT.ATTEntry * IndexQueue.IndexQueue) A) : transits same_bits (ATT.with_queue s m).
Proof.
  intros t a t' E. unfold ATT.with_queue in E. destruct (zlookup _ _) as [q|]; [|done].
  destruct (m (ATT.entries_ t, q)) as [[b [es q']]|]; [|done]. by injection E as _ <-.
Qed.

Lemma entry_at_bits i : transits same_bits (ATT.entry_at i).
Proof. unfold ATT.entry_at. transits_steps. Qed.
Lemma entry_mod_bits i f : transits same_bits (ATT.entry_mod i f).
Proof. unfold ATT.entry_mod. transits_steps; [apply entry_at_bits|done]. Qed.
#[local] Hint Resolve with_queue_bits entry_at_bits entry_mod_bits : frame.

Lemma At_bits i : transits same_bits (ATT.At i).
Proof. unfold ATT.At. transits_steps; eauto with frame. Qed.
Lemma queue_bits s : transits same_bits (ATT.IsEmpty s) ∧ transits same_bits (ATT.GetLength s).
Proof. unfold ATT.IsEmpty, ATT.GetLength. split; transits_steps; eauto with frame. Qed.
Lemma Lookup_meters tag pf : transits (metered same_bits) (ATT.Lookup tag pf).
Proof. unfold ATT.Lookup. transits_steps; eauto with frame. apply own_metered. transits_steps; eauto with frame. Qed.
Lemma ShiftState_meters i s pf : transits (metered same_bits) (ATT.ShiftState i s pf).
Proof. unfold ATT.ShiftState. transits_steps; eauto with frame. apply own_metered. transits_steps; eauto with frame. done. Qed.
Lemma Reset_meters i b s pf : transits (metered same_bits) (ATT.Reset i b s pf).
Proof. unfold ATT.Reset. transits_steps; [|apply ShiftState_meters]. apply own_metered, entry_mod_bits. Qed.
Lemma ClearStats_meters pf : transits (metered same_bits) (ATT.ClearStats pf).
Proof. unfold ATT.ClearStats. transits_steps; eauto with frame. apply own_metered. by apply transits_modify. Qed.

Lemma own_any {A} (m : M VB.VersionBuffer A) : transits (metered any_buffer) (own m).
Proof. by apply own_metered. Qed.
Lemma SlotAlloc_meters pf : transits (metered any_buffer) (VB.SlotAlloc pf).
Proof. unfold VB.SlotAlloc. transits_steps; try apply own_any; eauto with frame. Qed.
Lemma FreeSlot_meters a s pf : transits (metered any_buffer) (VB.FreeSlot a s pf).
Proof. unfold VB.FreeSlot. transits_steps; try apply own_any; eauto with frame. Qed.

(** ** The migration controller *)

(** The pages of the table can be listed without wrap-around. *)
Record mig_fits (B Pg : Z) (m : Mig.MigrationController) : Prop := {
  mf_geom : mig_geom m;
  mf_bits : Mig.block_bits_ m = B ∧ Mig.page_bits_ m = Pg;
  mf_entries page e : Mig.entries_ m !! page = Some e → page_ok m page ∧ Mig.mach_base e = page;
}.

Lemma mig_fits_entries B Pg m m' : mig_fits B Pg m → same_mgeom m m' →
  (∀ page e, Mig.entries_ m' !! page = Some e → Mig.mach_base e = page ∧ (is_Some (Mig.entries_ m !! page) ∨ page_ok m page)) → mig_fits B Pg m'.
Proof.
  intros [Hg Hb He] Hs He'. pose proof Hs as (E1 & _ & E2 & _). split; [by eapply same_mgeom_geom|by rewrite E1, E2|].
  intros page e (Hm & Hor)%He'. split; [|done]. eapply page_ok_same; [done|]. destruct Hor as [[e0 H0%He]|]; [apply H0|done].
Qed.

(** The pages offered by the heap are addresses. *)
Definition heap_fits (m : Mig.MigrationController) : Prop :=
  is_heap Mig.nvm_less (Mig.nvm_heap_ m) ∧ ∀ n, n ∈ Mig.nvm_heap_ m → 0 ≤ Mig.n_phy_addr n < 2 ^ 64.

Definition chooses B Pg (m : Mig.MigrationController) : Prop := mig_fits B Pg m ∧ heap_fits m.

(** Only the table may change, and it keeps pages that fit. *)
Definition table_fits B Pg (m m' : Mig.MigrationController) : Prop := mig_fits B Pg m → mig_fits B Pg m' ∧ Mig.nvm_heap_ m' = Mig.nvm_heap_ m.

#[global] Instance table_fits_preorder B Pg : PreOrder (table_fits B Pg).
Proof. split; [by intros m H|]. intros m1 m2 m3 H1 H2 [H3 H4]%H1. destruct (H2 H3) as [H5 H6]. split; [done|congruence]. Qed.

Lemma mig_fits_same B Pg m m' : same_mgeom m m' → Mig.entries_ m' = Mig.entries_ m → mig_fits B Pg m → mig_fits B Pg m'.
Proof.
  intros Hs He Hf. eapply mig_fits_entries; [done..|]. intros page e. rewrite He. intros H.
  split; [by apply (mf_entries _ _ _ Hf page e)|left; by eexists].
Qed.

Lemma table_fits_same B Pg m m' : same_mgeom m m' → Mig.entries_ m' = Mig.entries_ m → Mig.nvm_heap_ m' = Mig.nvm_heap_ m → table_fits B Pg m m'.
Proof. intros Hs He Hh Hf. split; [by eapply mig_fits_same|done]. Qed.

Lemma LookupPage_fits B Pg a pf : transits (metered (table_fits B Pg)) (Mig.LookupPage a pf).
Proof. unfold Mig.LookupPage. transits_steps; eauto with frame. apply own_metered. transits_steps. Qed.

Lemma Free_fits B Pg page pf : transits (metered (table_fits B Pg)) (Mig.Free page pf).
Proof.
  unfold Mig.Free. transits_steps; eauto with frame; [apply own_metered; transits_steps|apply LookupPage_fits|].
  apply own_metered. transits_steps; try (by intros m; apply table_fits_same).
  intros m Hf. split; [|done]. eapply mig_fits_entries; [done..|]. intros p e. cbn. intros [_ H]%lookup_delete_Some. split; [by apply (mf_entries _ _ _ Hf p e)|left; by eexists].
Qed.

(** A page that was freed was in the table. *)
Lemma Free_known page pf s a s' : Mig.Free page pf s = Ok (a, s') → is_Some (Mig.entries_ s.1 !! page).
Proof.
  intros E. unfold Mig.Free in E. apply bind_Ok in E as ([] & s1 & E1 & E). destruct s as [m ps]. unfold own, zoom, mbind, M_bind, get, assert_ in E1. cbn in E1.
  destruct (Z.eqb_spec (Mig.PageAlign m page) page) as [Ep|]; [|done]. injection E1 as <-.
  apply bind_Ok in E as (e & s1 & E1 & E). unfold Mig.LookupPage in E1. apply bind_Ok in E1 as ([] & s2 & E1 & E2).
  apply (prof_firsts eq) in E1. unfold firsts in E1. destruct s2 as [m2 ps2]. cbn in E1. subst m2.
  unfold own, zoom, mbind, M_bind, get in E2. cbn in E2. injection E2 as <- <-. cbn in *. rewrite Ep in E. destruct (Mig.entries_ m !! page) as [e|]; [done|].
  apply bind_Ok in E as ([] & s2 & E1 & _). unfold own, zoom, mbind, M_bind, get, assert_ in E1. done.
Qed.

Lemma setup_entry page st x (E : gmap Z Mig.PTTEntry) p e :
  alter (Mig.set_mach_base page) page (alter (Mig.set_state st) page (<[page := x]> E)) !! p = Some e →
  p = page ∧ Mig.mach_base e = page ∨ p ≠ page ∧ E !! p = Some e.
Proof.
  destruct (decide (page = p)) as [<-|Hne].
  - rewrite lookup_alter_eq, lookup_alter_eq, lookup_insert_eq. intros [= <-]. by left.
  - rewrite !lookup_alter_ne, lookup_insert_ne by done. right. done.
Qed.

(** A page that is set up is aligned. *)
Lemma Setup_fits B Pg page st pf s a s' : Mig.Setup page st pf s = Ok (a, s') → 0 ≤ page → page + 2 ^ Pg < 2 ^ 64 → mig_fits B Pg s.1 →
  page mod 2 ^ Pg = 0 ∧ mig_fits B Pg s'.1 ∧ Mig.nvm_heap_ s'.1 = Mig.nvm_heap_ s.1 ∧ same_meters (pf_arg s.2) (pf_arg s'.2).
Proof.
  intros E H0 Htop Hf. unfold Mig.Setup in E. apply bind_Ok in E as ([] & s1 & E1 & E). destruct s as [m ps]. unfold own, zoom, mbind, M_bind, get, assert_ in E1. cbn in E1.
  destruct (Z.eqb_spec (Mig.PageAlign m page) page) as [Ep|]; [|done]. injection E1 as <-. rewrite PageAlign_eq in Ep by apply Hf.
  destruct (mf_bits _ _ _ Hf) as [_ Epg]. cbn in Epg. rewrite Epg in Ep. assert (page_ok m page) as Hpk by (unfold page_ok; rewrite Epg; lia). split; [lia|].
  apply bind_Ok in E as (b & s1 & E1 & E). unfold Mig.Contains in E1. apply bind_Ok in E1 as ([] & s2 & E1 & E2).
  apply (prof_metered eq) in E1 as [E1 Hps]; [|apply op_meters]. destruct s2 as [m2 ps2]. cbn in E1, Hps. subst m2.
  injection E2 as _ <-. apply bind_Ok in E as ([] & s2 & E1 & E). apply (prof_metered eq) in E as [E Hps2]; [|apply op_meters]. rewrite <- E.
  unfold own, zoom, mbind, M_bind, get, assert_, of_option, modify, mret, M_ret in E1. cbn in E1.
  repeat (case_match; try done). all: simplify_eq; (split; [|split; [done|by etrans]]).
  all: (eapply mig_fits_entries; [exact Hf|done|]); cbn; intros p e [[-> Hb]|[Hne H]]%setup_entry.
  all: first [by split; [done|right]|split; [by apply (mf_entries _ _ _ Hf p e)|left; by eexists]].
Qed.

Section Heaps.
Context `{HO : HashOrder, HA : HeapAlgo} (B Pg : Z).
Implicit Types m : Mig.MigrationController.

Definition choosing m m' : Prop := chooses B Pg m → chooses B Pg m'.
#[global] Instance choosing_preorder : PreOrder choosing.
Proof. split; [by intros m H|]. intros x y z H1 H2 H. by apply H2, H1. Qed.

(** Nothing but the heap of DRAM pages, the iteration count and statistics. *)
Lemma chooses_same m m' : same_mgeom m m' → Mig.entries_ m' = Mig.entries_ m → Mig.nvm_heap_ m' = Mig.nvm_heap_ m → choosing m m'.
Proof. intros H1 H2 H3 [Hf Hh]. destruct (table_fits_same B Pg m m' H1 H2 H3 Hf) as [Hf' E]. split; [done|]. unfold heap_fits. by rewrite E. Qed.

Lemma fits_choosing m m' : table_fits B Pg m m' → choosing m m'.
Proof. intros H [Hf Hh]. destruct (H Hf) as [Hf' E]. split; [done|]. unfold heap_fits. by rewrite E. Qed.

Lemma ExtractDRAM_chooses pf : transits (metered choosing) (Mig.ExtractDRAMPage pf).
Proof.
  unfold Mig.ExtractDRAMPage. transits_steps; eauto with frame. apply own_metered. transits_steps; intros m; by apply chooses_same.
Qed.

Lemma ExtractNVM_chooses pf s r s' : Mig.ExtractNVMPage pf s = Ok (r, s') → chooses B Pg s.1 →
  chooses B Pg s'.1 ∧ same_meters (pf_arg s.2) (pf_arg s'.2) ∧ ∀ n, r = Some n → 0 ≤ Mig.n_phy_addr n < 2 ^ 64.
Proof.
  intros E Hch. pose proof Hch as [Hf [Hh Hr]]. destruct s as [m ps]. unfold Mig.ExtractNVMPage in E. apply bind_Ok in E as (r0 & s1 & E1 & E).
  unfold own, zoom, mbind, M_bind, get, assert_, modify in E1. cbn in E1, Hf, Hh, Hr. destruct (Mig.nvm_heap_filled_ m); [|done].
  destruct (Mig.nvm_heap_ m) as [|n l] eqn:El; [injection E1 as <- <-; by injection E as <- <-|]. clear Hch.
  injection E1 as <- <-. apply bind_Ok in E as ([] & s2 & E1 & E). injection E as <- <-.
  apply (prof_metered eq) in E1 as [E1 Hps]; [|apply op_meters]. rewrite <- E1. cbn in *. rewrite El.
  destruct (pop_heap_removelast Mig.nvm_less n l Hh) as [Hp Hh'].
  split; [|split; [done|]; intros n' [= <-]; apply Hr; by left]. split.
  - by apply (mig_fits_same B Pg m).
  - split; [done|]. intros n'. cbn. rewrite Hp. intros H. apply Hr. by right.
Qed.

(** The pages being collected are addresses too. *)
Definition collecting m : Prop := chooses B Pg m ∧ ∀ page p, Mig.nvm_pages_ m !! page = Some p → 0 ≤ page < 2 ^ 64.

Lemma collecting_insert m page p : 0 ≤ page < 2 ^ 64 → collecting m → collecting (Mig.set_nvm_pages_ (<[page := p]> (Mig.nvm_pages_ m)) m).
Proof.
  intros Hp [Hc Hn]. split; [by apply (chooses_same m)|]. cbn. intros p' q. destruct (decide (page = p')) as [<-|Hne]; [done|].
  rewrite lookup_insert_ne by done. apply Hn.
Qed.

Lemma PageAlign_range m a : mig_geom m → 0 ≤ a < 2 ^ 64 → 0 ≤ Mig.PageAlign m a < 2 ^ 64.
Proof.
  intros Hg Ha. rewrite PageAlign_eq by done. pose proof (mg_bits _ Hg). pose proof (pow2_pos (Mig.page_bits_ m) ltac:(lia)) as Hp.
  pose proof (Z.mod_le a (2 ^ Mig.page_bits_ m) ltac:(lia) Hp). pose proof (Z.mod_pos_bound a _ Hp). lia.
Qed.

Lemma input_block_collects it m a m' : Mig.input_block it m = Ok (a, m') → collecting m → collecting m'.
Proof.
  intros E Hc. unfold Mig.input_block in E. destruct (_ || _); [unfold assert_ in E; case_match; [|done]; by injection E as _ <-|].
  apply bind_Ok in E as (m1 & m2 & E1 & E). injection E1 as <- <-. cbv zeta in E.
  assert (0 ≤ Mig.PageAlign m (u64 (Z.shiftl (ATT.phy_tag it) (Mig.block_bits_ m))) < 2 ^ 64) as Hp
    by (apply PageAlign_range; [apply Hc|apply u64_range]).
  destruct (negb _).
  - apply bind_Ok in E as ([] & m3 & E1 & E). injection E1 as <-. unfold assert_ in E. case_match; [|done]. injection E as _ <-. by apply collecting_insert.
  - injection E as _ <-. by apply collecting_insert.
Qed.

Lemma for_each_keeps {S A} (I : S → Prop) (body : A → M S unit) l s a s' : (∀ x s a s', x ∈ l → body x s = Ok (a, s') → I s → I s') →
  for_each l body s = Ok (a, s') → I s → I s'.
Proof.
  revert s. induction l as [|x l IH]; intros s Hb E HI; [by injection E as _ <-|]. cbn in E. apply bind_Ok in E as ([] & s1 & E1 & E).
  eapply IH; [|exact E|by eapply Hb; [left|..]]. intros y s2 b s3 Hy. apply Hb. by right.
Qed.

Lemma FillNVM_chooses m a m' : Mig.FillNVMPageHeap m = Ok (a, m') → collecting m → chooses B Pg m'.
Proof.
  intros E [[Hf [Hh Hr]] Hn]. unfold Mig.FillNVMPageHeap in E. apply bind_Ok in E as (l & m1 & E1 & E). unfold Mig.iterate in E1. injection E1 as <- <-.
  apply bind_Ok in E as ([] & m2 & E1 & E). injection E as _ <-.
  eapply (for_each_keeps (λ m, mig_fits B Pg m ∧ ∀ n, n ∈ Mig.nvm_heap_ m → 0 ≤ Mig.n_phy_addr n < 2 ^ 64)) in E1 as [Hf2 Hr2].
  - split; [by apply (mig_fits_same B Pg m2)|]. split; cbn; [apply make_heap_heap, _|]. intros n. rewrite make_heap_perm. apply Hr2.
  - intros [page p] s b s' Hp. rewrite iter_order_perm, elem_of_map_to_list in Hp. intros Hs [Hf1 Hr1]. injection Hs as _ <-.
    split; [by apply (mig_fits_same B Pg s)|]. intros n. cbn. intros [H|H]%elem_of_app; [by apply Hr1|]. apply list_elem_of_singleton in H as ->. by apply (Hn page p).
  - split; [by apply (mig_fits_same B Pg m)|done].
Qed.

Lemma FillDRAM_chooses m a m' : Mig.FillDRAMPageHeap m = Ok (a, m') → chooses B Pg m → chooses B Pg m'.
Proof.
  intros E Hc. unfold Mig.FillDRAMPageHeap in E. apply bind_Ok in E as (l & m1 & E1 & E). unfold Mig.iterate in E1. injection E1 as <- <-.
  apply bind_Ok in E as ([] & m2 & E1 & E). eapply (for_each_keeps (chooses B Pg)) in E1.
  - apply bind_Ok in E as (m3 & m4 & E2 & E). injection E2 as <- <-. cbv zeta in E. apply bind_Ok in E as ([] & m5 & E2 & E).
    injection E as _ <-. unfold assert_ in E2. case_match; [|done]. injection E2 as <-. by apply (chooses_same m2).
  - intros [addr e] s b s' _ Hs Hs1. injection Hs as _ <-. by apply (chooses_same s).
  - by apply (chooses_same m).
Qed.

Lemma InputBlocks_chooses es m a m' : Mig.InputBlocks es m = Ok (a, m') → chooses B Pg m → chooses B Pg m'.
Proof.
  intros E Hc. unfold Mig.InputBlocks in E. apply bind_Ok in E as (m1 & m2 & E1 & E). injection E1 as <- <-.
  apply bind_Ok in E as ([] & m1 & E1 & E). unfold assert_ in E1. destruct (bool_decide _) eqn:E0; [|done]. injection E1 as <-. apply bool_decide_eq_true in E0.
  apply bind_Ok in E as ([] & m1 & E1 & E). eapply (for_each_keeps collecting) in E1; [|intros it m2 u m3 _; apply input_block_collects|split; [done|by rewrite E0]].
  apply bind_Ok in E as ([] & m2 & E2 & E). injection E2 as <-. apply bind_Ok in E as ([] & m3 & E2 & E).
  eapply FillDRAM_chooses; [exact E|]. eapply FillNVM_chooses; [exact E2|]. destruct E1 as [H1 H2]. split; [by apply (chooses_same m1)|done].
Qed.

End Heaps.

(** ** Listing the dirty pages *)

Section Clear.
Context `{HO : HashOrder} (B Pg : Z).

Lemma mig_fits_alter f page m : (∀ e, Mig.mach_base (f e) = Mig.mach_base e) → mig_fits B Pg m →
  mig_fits B Pg (Mig.set_entries_ (alter f page (Mig.entries_ m)) m).
Proof.
  intros Hf Hm. eapply mig_fits_entries; [done..|]. cbn. intros p e. destruct (decide (page = p)) as [<-|Hne].
  - rewrite lookup_alter_eq. destruct (Mig.entries_ m !! page) as [e0|] eqn:E; [|done]. intros [= <-]. rewrite Hf.
    split; [by apply (mf_entries _ _ _ Hm page e0)|left; by eexists].
  - rewrite lookup_alter_ne by done. intros H. split; [by apply (mf_entries _ _ _ Hm p e)|left; by eexists].
Qed.

Definition listing (l : list Z) (m : Mig.MigrationController) : Z := 2 ^ B * Z.of_nat (length l) + 2 ^ Pg * Mig.dirty_entries_ m.

(** The count of dirty pages can be taken down [n] times. *)
Definition countdown (n : nat) (m : Mig.MigrationController) : Prop := - 2 ^ 31 + Z.of_nat n ≤ Mig.dirty_entries_ m < 2 ^ 31.

Lemma list_dirty page l n m l' m' : mig_fits B Pg m → countdown (S n) m → page_ok m page →
  (modify (λ m, Mig.set_dirty_entries_ (i32 (Mig.dirty_entries_ m - 1)) m) ;; Mig.AddToBlockList page l) m = Ok (l', m') →
  mig_fits B Pg m' ∧ countdown n m' ∧ listing l' m' = listing l m.
Proof.
  unfold countdown. intros Hf Hn Hp E. apply bind_Ok in E as ([] & m1 & E1 & E). injection E1 as <-. set (m1 := Mig.set_dirty_entries_ _ m) in E.
  assert (mig_fits B Pg m1) as Hf1 by (by apply (mig_fits_same B Pg m)). pose proof Hf1 as [Hg [H1 H2] _].
  destruct (proj1 (wp_ok _ _ _) (wp_AddToBlockList m1 page l (λ l' m', l' = l ++ page_list m1 page ∧ m' = m1) Hg Hp (conj eq_refl eq_refl))) as (l2 & m2 & E2 & -> & ->).
  rewrite E2 in E. injection E as <- <-. split; [done|]. cbn [Mig.dirty_entries_ Mig.set_dirty_entries_ m1]. rewrite i32_small by lia. split; [lia|].
  unfold listing. rewrite length_app. unfold page_list, zseq. rewrite length_fmap, length_seqZ.
  destruct (page_blocks_mul _ Hg) as [Hb Hmul]. rewrite H1, H2 in Hmul. cbn in *. rewrite i32_small by lia.
  nia.
Qed.

Lemma clear_page_lists page pf l n s l' s' : Mig.clear_page page pf l s = Ok (l', s') → mig_fits B Pg s.1 → countdown (S n) s.1 →
  mig_fits B Pg s'.1 ∧ countdown n s'.1 ∧ same_meters (pf_arg s.2) (pf_arg s'.2) ∧ listing l' s'.1 = listing l s.1.
Proof.
  intros E Hf Hn. destruct s as [m ps]. unfold Mig.clear_page in E. apply bind_Ok in E as ([] & s1 & E1 & E). injection E1 as <-.
  apply (mig_fits_alter (λ e, Mig.set_epoch_writes 0 (Mig.set_epoch_reads 0 e)) page) in Hf; [|done]. cbn [fst snd] in *.
  set (m1 := Mig.set_entries_ _ m) in *. apply bind_Ok in E as (e & s1 & E1 & E). unfold own, zoom, mbind, M_bind, get, of_option in E1. cbn [fst] in E1.
  destruct (Mig.entries_ m1 !! page) as [e1|] eqn:He; [|done]. injection E1 as <- <-. cbn [fst snd] in *.
  assert (∀ st, Mig.is_dirty st = false → (Mig.ShiftState_it page st pf ;; own (modify (λ m, Mig.set_dirty_entries_ (i32 (Mig.dirty_entries_ m - 1)) m) ;;
     Mig.AddToBlockList (Mig.mach_base e1) l)) (m1, ps) = Ok (l', s') →
     mig_fits B Pg s'.1 ∧ countdown n s'.1 ∧ same_meters (pf_arg ps) (pf_arg s'.2) ∧ listing l' s'.1 = listing l m1) as Hclean.
  - intros st Hst F. apply bind_Ok in F as ([] & s1 & F1 & F). unfold Mig.ShiftState_it in F1. apply bind_Ok in F1 as ([] & s2 & F2 & F1).
    rewrite Hst in F2. injection F2 as <-. apply (prof_metered eq) in F1 as [F1 Hps]; [|apply op_meters]. destruct s1 as [m3 ps3]. cbn in F1, Hps. subst m3.
    apply own_Ok in F as (m4 & E4 & ->). apply (list_dirty _ _ n) in E4 as (H1 & H2 & H3); [done|by apply (mig_fits_alter (Mig.set_state st) page m1)|exact Hn|]. destruct (mf_entries _ _ _ Hf page e1 He) as [Hp ->]. exact Hp.
  - assert (countdown n m1) as Hn1 by (unfold countdown in *; cbn in *; lia).
    destruct (Mig.state e1); [by injection E as <- <-|by injection E as <- <-|by apply (Hclean Mig.CLEAN_DIRECT)|by apply (Hclean Mig.CLEAN_STATIC)].
Qed.

Lemma clear_pages_lists pages pf l s l' s' : Mig.clear_pages pages pf l s = Ok (l', s') → mig_fits B Pg s.1 → countdown (length pages) s.1 →
  mig_fits B Pg s'.1 ∧ same_meters (pf_arg s.2) (pf_arg s'.2) ∧ listing l' s'.1 = listing l s.1.
Proof.
  revert l s. induction pages as [|[page e] pages IH]; intros l s E Hf Hn; cbn [Mig.clear_pages] in E; [by injection E as <- <-|].
  apply bind_Ok in E as (l1 & s1 & E1 & E). apply (clear_page_lists _ _ _ (length pages)) in E1 as (H1 & Hn1 & H2 & H3); [|done|done].
  apply IH in E as (H4 & H5 & H6); [|done|done].
  split; [done|]. split; [by etrans|congruence].
Qed.

(** The pages that are dirty can be charged, and all pages can be counted. *)
Definition chargeable (m : Mig.MigrationController) : Prop :=
  mig_fits B Pg m ∧ 0 ≤ Mig.dirty_entries_ m ∧ Mig.dirty_entries_ m * 2 ^ Pg < 2 ^ 31 ∧ Mig.num_entries m < 2 ^ 31.

Lemma Clear_lists l s l' s' : Mig.Clear PfArg l s = Ok (l', s') → chargeable s.1 → page_bits_ (pf_arg s.2) = Pg →
  2 ^ B * Z.of_nat (length l') = 2 ^ B * Z.of_nat (length l) + 2 ^ Pg * Mig.dirty_entries_ s.1 ∧
  same_meters (set_bytes_inter_channel_ (u64 (bytes_inter_channel_ (pf_arg s.2) + 2 ^ Pg * Mig.dirty_entries_ s.1)) (pf_arg s.2)) (pf_arg s'.2).
Proof.
  intros E (Hf & Hd0 & Hd & Hsz) Hpg. destruct s as [m ps]. cbn [fst snd] in *. unfold Mig.Clear in E.
  assert (0 ≤ Pg) as HPg by (destruct (mf_bits _ _ _ Hf) as [_ <-]; pose proof (mg_bits _ (mf_geom _ _ _ Hf)); lia).
  apply bind_Ok in E as (d & s1 & E1 & E). injection E1 as <- <-. apply bind_Ok in E as ([] & s1 & E1 & E). injection E1 as <-.
  apply bind_Ok in E as (pages & s1 & E1 & E). unfold Mig.iterate in E1. injection E1 as <- <-.
  apply bind_Ok in E as (l1 & s1 & E1 & E). apply bind_Ok in E as ([] & s2 & E2 & E). injection E as <- <-.
  apply clear_pages_lists in E1 as (H1 & H2 & H3); [|by apply (mig_fits_same B Pg m)|].
  2: { unfold countdown. rewrite iter_order_perm, length_map_to_list. unfold Mig.num_entries in Hsz. cbn. pose proof (pow2_pos Pg HPg). nia. }
  cbn in H2, H3.
  apply own_Ok in E2 as (m2 & E2 & ->). apply bind_Ok in E2 as (m3 & m4 & E3 & E2). injection E3 as <- <-.
  apply bind_Ok in E2 as ([] & m3 & E3 & E2). unfold assert_ in E3. destruct (Z.eqb_spec (Mig.dirty_entries_ s1.1) 0) as [E0|]; [|done].
  unfold listing in H3. rewrite E0 in H3. cbn in H3. split; [lia|]. cbn.
  rewrite Hpg, shiftl_pow2 in H2 by lia. rewrite i32_small in H2 by (pose proof (pow2_pos Pg HPg); nia). by rewrite (Z.mul_comm (2 ^ Pg)).
Qed.

End Clear.

(** ** The ledger *)

Section Bus.
Context {St : Type} `{!MemStore St} (B Pg : Z) (HB : 0 < B ≤ Pg) (HPg : Pg < 31).
Implicit Types s : Sys St.

Context (ok : Mig.MigrationController → Prop) (Hok : ∀ m, ok m → mig_fits B Pg m).

(** All parts were built for blocks of [2 ^ B] and pages of [2 ^ Pg] bytes. *)
Record fitted s : Prop := {
  ft_pf : block_bits_ (pf_arg (profs s)) = B ∧ page_bits_ (pf_arg (profs s)) = Pg;
  ft_att : ATT.block_bits_ (att_ (ctl s)) = B;
  ft_mig : ok (migrator_ (ctl s));
}.

Definition bus s : Z := bytes_intra_channel_ (pf_arg (profs s)) + bytes_inter_channel_ (pf_arg (profs s)) - 2 ^ B * Z.of_nat (length (ckpt s)).

Abbreviation ledgers d m := (drift mod64 fitted bus d m).

Lemma meters_bus s s' : same_meters (pf_arg (profs s)) (pf_arg (profs s')) → ckpt s' = ckpt s → bus s' = bus s.
Proof. intros E1 E2. unfold bus. injection E1 as _ _ -> ->. by rewrite E2. Qed.

Lemma meters_bits p p' b pg : same_meters p p' → block_bits_ p = b ∧ page_bits_ p = pg → block_bits_ p' = b ∧ page_bits_ p' = pg.
Proof. by intros [= -> -> _ _]. Qed.

Lemma ledgers_att {A} (m : PM ATT.AddrTransTable A) : transits (metered same_bits) m → ledgers 0 (on_att m).
Proof.
  intros Hm. apply drift_none; [apply _|]. intros s a s' [] E. unfold on_att, zoom in E.
  destruct (m _) as [[b [t ps]]|] eqn:Em; [|done]. injection E as _ <-. apply Hm in Em as [H1 H2]. cbn in H1, H2.
  split; [split; cbn; [by eapply meters_bits|by rewrite H1|done]|by apply meters_bus].
Qed.

Lemma ledgers_mig {A} (m : PM Mig.MigrationController A) : transits (metered (λ t t', ok t → ok t')) m → ledgers 0 (on_mig m).
Proof.
  intros Hm. apply drift_none; [apply _|]. intros s a s' [] E. unfold on_mig, zoom in E.
  destruct (m _) as [[b [t ps]]|] eqn:Em; [|done]. injection E as _ <-. apply Hm in Em as [H1 H2]. cbn in H1, H2.
  split; [split; cbn; [by eapply meters_bits|done|by apply H1]|by apply meters_bus].
Qed.

Lemma ledgers_nvm {A} (m : PM VB.VersionBuffer A) : transits (metered any_buffer) m → ledgers 0 (on_nvm m) ∧ ledgers 0 (on_dram m).
Proof.
  intros Hm. split; (apply drift_none; [apply _|]); intros s a s' [] E; unfold on_nvm, on_dram, zoom in E;
    (destruct (m _) as [[b [t ps]]|] eqn:Em; [|done]); injection E as _ <-; apply Hm in Em as [H1 H2]; cbn in H2;
    (split; [split; cbn; [by eapply meters_bits|done|done]|by apply meters_bus]).
Qed.

Lemma ledgers_store {A} (m : M St A) : ledgers 0 (on_store m).
Proof. apply drift_zoom_free; [apply _|]. intros s t []. done. Qed.

Lemma ledgers_pf (op : M Profiler unit) : transits same_meters op → ledgers 0 (on_pf PfArg op).
Proof.
  intros Hop. apply drift_none; [apply _|]. intros s a s' [] E. unfold on_pf, zoom in E.
  destruct (op _) as [[b p]|] eqn:Em; [|done]. injection E as _ <-. apply Hop in Em.
  split; [split; cbn; [by eapply meters_bits|done|done]|by apply meters_bus].
Qed.

Lemma shift_one b : 0 ≤ b < 31 → i32 (Z.shiftl 1 b) = 2 ^ b.
Proof.
  intros Hb. rewrite shiftl_pow2, Z.mul_1_l by lia. pose proof (Z.pow_lt_mono_r 2 b 31). pose proof (pow2_pos b). apply i32_small. lia.
Qed.

Lemma word_moved x d c r r' : r = x + d + c → r' = u64 (x + d) + c → mod64 r r'.
Proof. intros -> ->. apply slack_add. unfold mod64. by rewrite u64_u64. Qed.

Lemma ledgers_move :
  ledgers (2 ^ B) (on_pf PfArg (AddBlockMoveInter 1)) ∧ ledgers (2 ^ B) (on_pf PfArg (AddBlockMoveIntra 1)) ∧
  ledgers (2 ^ Pg) (on_pf PfArg (AddPageMoveInter 1)) ∧ ledgers (2 ^ Pg) (on_pf PfArg (AddPageMoveIntra 1)).
Proof.
  split_and!; intros s a s' [[H1 H2] H3 H4] E; injection E as _ <-; (split; [by split|]); unfold bus; cbn; rewrite ?H1, ?H2, shift_one by lia;
    match goal with
    | |- mod64 _ (u64 (?x + ?y) + ?c - ?n) => apply (word_moved x y (c - n))
    | |- mod64 _ (?c + u64 (?x + ?y) - ?n) => apply (word_moved x y (c - n))
    end; lia.
Qed.

Lemma ledgers_ctl g : (∀ k, att_ (g k) = att_ k ∧ migrator_ (g k) = migrator_ k) → ledgers 0 (modify (λ s, set_ctl (g (ctl s)) s)).
Proof.
  intros Hg. apply drift_modify; [apply _|]. intros s []. destruct (Hg (ctl s)) as [E1 E2].
  split; [split; cbn; congruence|]. unfold bus. cbn. lia.
Qed.

Lemma ledgers_push (ck : bool) a : ledgers (if ck then - 2 ^ B else 0) (push_ckpt ck a).
Proof.
  destruct ck; [|apply drift_ret; apply _]. apply drift_modify; [apply _|]. intros s []. split; [done|]. unfold bus. cbn. rewrite length_app. cbn. lia.
Qed.

#[local] Hint Extern 1 (drift _ _ _ _ (modify _)) => by apply (ledgers_ctl (λ k, set_pages_to_nvm_ (u64 (pages_to_nvm_ k + 1)) k)) : drift.
#[local] Hint Extern 1 (drift _ _ _ _ (modify _)) => by apply (ledgers_ctl (set_in_checkpointing_ true)) : drift.
#[local] Hint Extern 2 (drift _ _ _ _ (on_att (own _))) => apply ledgers_att, own_metered : drift.
#[local] Hint Extern 2 (drift _ _ _ _ (on_att _)) => apply ledgers_att : drift.
#[local] Hint Extern 2 (drift _ _ _ _ (on_mig _)) => apply ledgers_mig : drift.
#[local] Hint Extern 1 (drift _ _ _ _ (on_nvm _)) => apply ledgers_nvm : drift.
#[local] Hint Extern 1 (drift _ _ _ _ (on_dram _)) => apply ledgers_nvm : drift.
#[local] Hint Extern 1 (drift _ _ _ _ (on_store _)) => apply ledgers_store : drift.
#[local] Hint Extern 1 (drift _ _ _ _ (on_pf _ (AddBlockMoveInter _))) => apply ledgers_move : drift.
#[local] Hint Extern 1 (drift _ _ _ _ (on_pf _ (AddBlockMoveIntra _))) => apply ledgers_move : drift.
#[local] Hint Extern 1 (drift _ _ _ _ (on_pf _ (AddPageMoveInter _))) => apply ledgers_move : drift.
#[local] Hint Extern 1 (drift _ _ _ _ (on_pf _ (AddPageMoveIntra _))) => apply ledgers_move : drift.
#[local] Hint Extern 2 (drift _ _ _ _ (on_pf _ _)) => apply ledgers_pf, op_meters : drift.
#[local] Hint Extern 1 (transits same_bits (ATT.IsEmpty _)) => apply queue_bits : drift.
#[local] Hint Extern 1 (transits same_bits (ATT.GetLength _)) => apply queue_bits : drift.
#[local] Hint Resolve ledgers_push entry_at_bits At_bits Lookup_meters ShiftState_meters Reset_meters ClearStats_meters SlotAlloc_meters FreeSlot_meters : drift.

Lemma Contains_ledgers a pf : ledgers 0 (on_mig (Mig.Contains a pf)).
Proof. apply ledgers_mig. unfold Mig.Contains. intros s b s' E. apply bind_Ok in E as ([] & s1 & E1 & E). injection E as _ <-.
  apply (prof_metered eq) in E1; [|apply op_meters]. destruct E1 as [<- E1]. by split. Qed.
#[local] Hint Resolve Contains_ledgers : drift.

Ltac open_ledgers := unfold ToTag, ToAddr, block_size, in_checkpointing, att_At, att_ref, att_Translate, att_IsEmpty, IsDRAM.
Ltac ledger_steps := repeat first [drift_step | drift_branch 0]; drift_close.

Lemma Copy_ledgers a b (ck : bool) : ledgers (if ck then 0 else 2 ^ B) (CopyBlockIntra a b PfArg ck) ∧ ledgers (if ck then 0 else 2 ^ B) (CopyBlockInter a b PfArg ck).
Proof. unfold CopyBlockIntra, CopyBlockInter; open_ledgers. split; drift_steps; destruct ck; drift_close. Qed.

#[local] Hint Extern 1 (drift _ _ _ _ (CopyBlockIntra _ _ _ false)) => apply (Copy_ledgers _ _ false) : drift.
#[local] Hint Extern 1 (drift _ _ _ _ (CopyBlockInter _ _ _ false)) => apply (Copy_ledgers _ _ false) : drift.
#[local] Hint Extern 1 (drift _ _ _ _ (push_ckpt true _)) => apply (ledgers_push true) : drift.

(** A block that is moved home is put on the list. *)
Lemma DirtyStained_ledgers i : ledgers 0 (DirtyStained i true PfArg true).
Proof. unfold DirtyStained; open_ledgers. ledger_steps. Qed.
Lemma FreeLoan_ledgers i : ledgers 0 (FreeLoan i true PfArg true).
Proof. unfold FreeLoan; open_ledgers. ledger_steps. Qed.
Lemma HideTemp_ledgers i : ledgers 0 (HideTemp i true PfArg true).
Proof. unfold HideTemp; open_ledgers. ledger_steps. Qed.
Lemma Discard_ledgers i nvm : ledgers 0 (Discard i nvm PfArg).
Proof. unfold Discard; open_ledgers. ledger_steps. Qed.
#[local] Hint Resolve DirtyStained_ledgers FreeLoan_ledgers HideTemp_ledgers Discard_ledgers : drift.

Lemma DirtyCleaner_ledgers i : ledgers 0 (DirtyCleaner_Visit PfArg i).
Proof. unfold DirtyCleaner_Visit; open_ledgers. ledger_steps. Qed.
Lemma LoanRevoker_ledgers i : ledgers 0 (LoanRevoker_Visit PfArg i).
Proof. unfold LoanRevoker_Visit; open_ledgers. ledger_steps. Qed.

(** A block of a page that goes to DRAM is charged once more than it is listed. *)
Lemma migrate_block_ledgers tag : ledgers (2 ^ B) (migrate_block PfArg tag).
Proof. unfold migrate_block; open_ledgers. do 2 drift_step; [drift_steps|]. do 3 drift_step. drift_branch (2 ^ B). drift_steps. Qed.

(** The blocks of a page are listed. *)
Lemma add_page_ledgers page s a s' : fitted s → page_ok (migrator_ (ctl s)) page → add_page_blocks page s = Ok (a, s') →
  fitted s' ∧ bus s' = bus s - 2 ^ Pg ∧ ctl s' = ctl s.
Proof.
  intros Hf Hp E. pose proof (Hok _ (ft_mig _ Hf)) as [Hg [H1 H2] _]. unfold add_page_blocks in E.
  apply bind_Ok in E as (s1 & s2 & E1 & E). injection E1 as <- <-. apply bind_Ok in E as (l & s1 & E1 & E). injection E as _ <-.
  unfold on_mig, own, zoom in E1. cbn [fst snd] in E1.
  destruct (proj1 (wp_ok _ _ _) (wp_AddToBlockList (migrator_ (ctl s)) page (ckpt s) (λ l m, l = ckpt s ++ page_list (migrator_ (ctl s)) page ∧ m = migrator_ (ctl s)) Hg Hp (conj eq_refl eq_refl)))
    as (l' & m' & E2 & -> & ->).
  rewrite E2 in E1. injection E1 as <- <-. cbn.
  assert (set_migrator_ (migrator_ (ctl s)) (ctl s) = ctl s) as Ec by (by destruct (ctl s)). rewrite Ec. split; [by destruct Hf|]. split; [|done].
  unfold bus. cbn. rewrite length_app. unfold page_list. unfold zseq. rewrite length_fmap, length_seqZ.
  destruct (page_blocks_mul _ Hg) as [Hb Hmul]. rewrite H1, H2 in Hmul. nia.
Qed.

(** ** Migration *)

Section Migrate.
Context `{HO : HashOrder, HA : HeapAlgo} (Hch : ∀ m, ok m ↔ chooses B Pg m).

Lemma ok_choosing m m' : choosing B Pg m m' → ok m → ok m'.
Proof. rewrite !Hch. done. Qed.

Lemma ledgers_choosing {A} (m : PM Mig.MigrationController A) : transits (metered (choosing B Pg)) m → ledgers 0 (on_mig m).
Proof. intros Hm. apply ledgers_mig. intros s a s' E. destruct (Hm _ _ _ E) as [H1 H2]. split; [|done]. by apply ok_choosing. Qed.

Lemma Free_ledgers page : ledgers 0 (on_mig (Mig.Free page PfArg)).
Proof.
  apply ledgers_choosing. intros s a s' E. destruct (Free_fits B Pg _ _ _ _ _ E) as [H1 H2]. split; [|done]. by apply fits_choosing.
Qed.

(** Charging a page and listing its blocks. *)
Definition known (page : Z) s : Prop := fitted s ∧ page_ok (migrator_ (ctl s)) page.

Lemma pay_known page d op : ledgers d (on_pf PfArg op) → drift mod64 (known page) bus d (on_pf PfArg op : M (Sys St) unit).
Proof.
  intros Hop s a s' [Hf Hp] E. destruct (Hop _ _ _ Hf E) as [Hf' Hb]. split; [|done]. split; [done|]. unfold on_pf, zoom in E.
  destruct (op _) as [[b p]|]; [|done]. by injection E as _ <-.
Qed.

Lemma add_known page : drift mod64 (known page) bus (- 2 ^ Pg) (add_page_blocks page).
Proof.
  intros s a s' [Hf Hp] E. destruct (add_page_ledgers _ _ _ _ Hf Hp E) as (Hf' & Hb & Ec). split; [split; [done|by rewrite Ec]|].
  by rewrite Hb.
Qed.

#[local] Hint Extern 1 (drift _ (known _) _ _ (on_pf _ _)) => apply pay_known, ledgers_move : drift.
#[local] Hint Resolve add_known : drift.

Definition list_page (d : Mig.DRAMPageStats) : M (Sys St) unit :=
  match Mig.d_state d with
  | Mig.CLEAN_STATIC => on_pf PfArg (AddPageMoveIntra 1) ;; add_page_blocks (Mig.d_phy_addr d)
  | Mig.DIRTY_DIRECT => on_pf PfArg (AddPageMoveInter 1) ;; add_page_blocks (Mig.d_phy_addr d)
  | Mig.DIRTY_STATIC =>
      on_pf PfArg (AddPageMoveIntra 1) ;; on_pf PfArg (AddPageMoveInter 1) ;;
      add_page_blocks (Mig.d_phy_addr d) ;; add_page_blocks (Mig.d_phy_addr d)
  | Mig.CLEAN_DIRECT => mret tt
  end.

Lemma list_page_ledgers d : drift mod64 (known (Mig.d_phy_addr d)) bus 0 (list_page d).
Proof. unfold list_page. drift_steps. Qed.

Definition same_migrator s s' : Prop := migrator_ (ctl s') = migrator_ (ctl s).
#[local] Instance same_migrator_preorder : PreOrder same_migrator.
Proof. split; [done|]. intros x y z H1 H2. unfold same_migrator in *. congruence. Qed.

Lemma list_page_migrator d : transits same_migrator (list_page d).
Proof.
  assert (∀ op : M Profiler unit, transits same_migrator (on_pf PfArg op)) as Hop by (intros op; by apply transits_zoom).
  assert (∀ page, transits same_migrator (add_page_blocks page)) as Hadd.
  { intros page. unfold add_page_blocks. transits_steps; [|done]. intros s l s' E. unfold on_mig, own, zoom in E. cbn [fst snd] in E.
    assert (transits eq (Mig.AddToBlockList page (ckpt a))) as Ht by (unfold Mig.AddToBlockList; transits_steps).
    destruct (Mig.AddToBlockList _ _ _) as [[l' m']|] eqn:Em; [|done]. apply Ht in Em as <-. by injection E as _ <-. }
  unfold list_page. transits_steps; auto.
Qed.

Lemma MigrateDRAM_ledgers d : ledgers 0 (MigrateDRAM d PfArg).
Proof.
  intros s a s' Hf E. change (MigrateDRAM d PfArg) with (list_page d ;; on_mig (Mig.Free (Mig.d_phy_addr d) PfArg)) in E.
  apply bind_Ok in E as ([] & s1 & E1 & E).
  assert (is_Some (Mig.entries_ (migrator_ (ctl s1)) !! Mig.d_phy_addr d)) as [e He].
  { unfold on_mig, zoom in E. destruct (Mig.Free _ _ _) as [[u t]|] eqn:Em; [|done]. by apply Free_known in Em. }
  rewrite (list_page_migrator _ _ _ _ E1) in He.
  destruct (list_page_ledgers d s tt s1) as [[Hf1 _] Hb1]; [split; [done|]|done|].
  - by eapply (mf_entries _ _ _ (Hok _ (ft_mig _ Hf))).
  - destruct (Free_ledgers _ _ _ _ Hf1 E) as [Hf2 Hb2]. split; [done|]. rewrite Z.add_0_r in *. by etrans.
Qed.

(** A page whose tags are as many as its blocks does not wrap around. *)
Lemma tags_apart t a n : 0 ≤ a < 2 ^ 64 → ATT.block_bits_ t = B → ATT.ToTag t (u64 (a + 2 ^ Pg)) - ATT.ToTag t a = n → 0 < n → a + 2 ^ Pg < 2 ^ 64.
Proof.
  intros Ha HB' E Hn. destruct (Z.lt_ge_cases (a + 2 ^ Pg) (2 ^ 64)) as [|Hge]; [done|exfalso].
  assert (2 ^ Pg < 2 ^ 31) as HP by (apply Z.pow_lt_mono_r; lia).
  assert (u64 (a + 2 ^ Pg) = a + 2 ^ Pg - 2 ^ 64) as Eu.
  { unfold u64. rewrite <- (Z.mod_small (a + 2 ^ Pg - 2 ^ 64) (2 ^ 64)) by lia. rewrite <- (Z_mod_plus_full _ (-1)). f_equal; lia. }
  assert (∀ x, 0 ≤ x < 2 ^ 64 → ATT.ToTag t x = x / 2 ^ B) as Htag.
  { intros x Hx. unfold ATT.ToTag. rewrite HB', Z.shiftr_div_pow2 by lia. apply i64_small.
    assert (2 ^ 1 ≤ 2 ^ B) by (apply Z.pow_le_mono_r; lia). split; [pose proof (Z.div_pos x (2 ^ B)); lia|].
    apply Z.div_lt_upper_bound; [lia|]. nia. }
  rewrite Eu, !Htag in E by lia. pose proof (Z.div_le_mono (a + 2 ^ Pg - 2 ^ 64) a (2 ^ B) ltac:(pose proof (pow2_pos B); lia) ltac:(lia)). lia.
Qed.

Lemma Setup_ledgers page st s a s' : on_mig (Mig.Setup page st PfArg) s = Ok (a, s') → 0 ≤ page → page + 2 ^ Pg < 2 ^ 64 → fitted s →
  fitted s' ∧ bus s' = bus s ∧ page_ok (migrator_ (ctl s')) page.
Proof.
  intros E H0 Htop [Hpf Hat Hmg]. unfold on_mig, zoom in E. destruct (Mig.Setup _ _ _ _) as [[u [m' ps']]|] eqn:Em; [|done]. injection E as _ <-.
  apply Hch in Hmg as [Hf Hh]. apply (Setup_fits B Pg) in Em as (Ha & Hf' & Eh & Hps); [|done..]. cbn in *.
  split; [|split; [by apply meters_bus|]].
  - split; [by eapply meters_bits|done|]. cbn. apply Hch. split; [done|]. unfold heap_fits. by rewrite Eh.
  - unfold page_ok. destruct (mf_bits _ _ _ Hf') as [_ ->]. lia.
Qed.

Lemma MigrateNVM_ledgers n s a s' : MigrateNVM n PfArg s = Ok (a, s') → 0 ≤ Mig.n_phy_addr n < 2 ^ 64 → fitted s → fitted s' ∧ mod64 (bus s) (bus s').
Proof.
  intros E Hn Hf. unfold MigrateNVM in E. apply bind_Ok in E as (s1 & s2 & E1 & E). injection E1 as <- <-. cbv zeta in E.
  apply bind_Ok in E as (tag & s1 & E1 & E). injection E1 as <- <-. apply bind_Ok in E as (next & s1 & E1 & E). injection E1 as <- <-.
  apply bind_Ok in E as ([] & s1 & E1 & E). unfold assert_ in E1. destruct (Z.eqb_spec (ATT.ToTag (att_ (ctl s)) (u64 (Mig.n_phy_addr n + Mig.page_size (migrator_ (ctl s)))) - ATT.ToTag (att_ (ctl s)) (Mig.n_phy_addr n)) (Mig.page_blocks_ (migrator_ (ctl s)))) as [Et|]; [|done].
  injection E1 as <-. pose proof (Hok _ (ft_mig _ Hf)) as [Hg [H1 H2] _]. rewrite page_size_eq, H2 in Et by done.
  destruct (page_blocks_mul _ Hg) as [Hb Hmul]. rewrite H1, H2 in Hmul.
  pose proof (tags_apart _ _ _ Hn (ft_att _ Hf) Et Hb) as Htop. rewrite page_size_eq, H2, Et in E by done.
  apply bind_Ok in E as ([] & s1 & E1 & E).
  apply (drift_for_each mod64 fitted bus (λ _, 2 ^ B)) in E1 as [Hf1 Hb1]; [|intros; apply migrate_block_ledgers|done].
  apply bind_Ok in E as ([] & s2 & E2 & E).
  assert (fitted s2 ∧ bus s2 = bus s1 ∧ page_ok (migrator_ (ctl s2)) (Mig.n_phy_addr n)) as (Hf2 & Hb2 & Hp)
    by (destruct (Mig.Qlt_bool _ _); apply Setup_ledgers in E2; done || lia).
  apply bind_Ok in E as ([] & s3 & E3 & E). apply add_page_ledgers in E3 as (Hf3 & Hb3 & _); [|done..]. injection E as _ <-.
  split; [by destruct Hf3|]. change (mod64 (bus s) (bus s3)). rewrite Hb3, Hb2.
  rewrite zsum_const, length_fmap in Hb1. unfold zseq in Hb1. rewrite length_seqZ, Z2Nat.id, Z.mul_comm, Hmul in Hb1 by lia.
  replace (bus s) with (bus s + 2 ^ Pg + - 2 ^ Pg) by lia. by apply slack_add.
Qed.

Lemma Extract_ledgers (pf : pfref) : ledgers 0 (on_mig (Mig.ExtractDRAMPage pf)).
Proof. apply ledgers_choosing, ExtractDRAM_chooses. Qed.

Lemma ExtractNVM_ledgers s r s' : on_mig (Mig.ExtractNVMPage PfArg) s = Ok (r, s') → fitted s →
  fitted s' ∧ bus s' = bus s ∧ ∀ n, r = Some n → 0 ≤ Mig.n_phy_addr n < 2 ^ 64.
Proof.
  intros E [Hpf Hat Hmg]. unfold on_mig, zoom in E. destruct (Mig.ExtractNVMPage _ _) as [[u [m' ps']]|] eqn:Em; [|done]. injection E as <- <-.
  apply Hch in Hmg. apply (ExtractNVM_chooses B Pg) in Em as (Hc & Hps & Hn); [|done]. cbn in *.
  split; [|split; [by apply meters_bus|done]]. split; [by eapply meters_bits|done|by apply Hch].
Qed.

#[local] Hint Resolve MigrateDRAM_ledgers Extract_ledgers : drift.

Lemma migrate_page_ledgers n {A} (k : M (Sys St) A) : 0 ≤ Mig.n_phy_addr n < 2 ^ 64 → ledgers 0 k → ledgers 0 (MigrateNVM n PfArg ;; k).
Proof.
  intros Hn Hk s a s' Hf E. apply bind_Ok in E as ([] & s1 & E1 & E). apply MigrateNVM_ledgers in E1 as [Hf1 Hb1]; [|done..].
  destruct (Hk _ _ _ Hf1 E) as [Hf2 Hb2]. split; [done|]. rewrite Z.add_0_r in *. by etrans.
Qed.

Lemma migrate_nvm_loop_ledgers fuel dr : ledgers 0 (migrate_nvm_loop fuel PfArg dr).
Proof.
  induction fuel as [|fuel IH]; [apply drift_err|]. cbn [migrate_nvm_loop].
  eapply (drift_bind_when _ _ _ (λ r, ∀ n, r = Some n → 0 ≤ Mig.n_phy_addr n < 2 ^ 64)); [intros; by eapply ExtractNVM_ledgers|].
  intros [n|] Hn; [|drift_steps]. pose proof (migrate_page_ledgers n (migrate_nvm_loop fuel PfArg dr) (Hn n eq_refl) IH) as Hk.
  drift_step; [drift_steps|]. drift_step. drift_step; [|done]. drift_step. drift_step; [|drift_steps]. drift_step; [drift_steps|].
  do 3 drift_step. exact Hk.
Qed.

Lemma migrate_dram_loop_ledgers fuel wr d limit : ledgers 0 (migrate_dram_loop fuel PfArg wr d limit).
Proof. revert d limit. induction fuel as [|fuel IH]; intros d limit; [apply drift_err|]. cbn [migrate_dram_loop]. drift_steps. Qed.

#[local] Hint Resolve migrate_nvm_loop_ledgers migrate_dram_loop_ledgers : drift.

Lemma MigratePages_ledgers dr wr : ledgers 0 (MigratePages PfArg dr wr).
Proof.
  unfold MigratePages; open_ledgers. do 2 drift_step.
  eapply (drift_bind _ _ _ 0); [apply drift_VisitQueue; [apply _|]; intros i; apply LoanRevoker_ledgers|intros ?]. do 3 drift_step.
  eapply (drift_bind _ _ _ 0); [|intros ?; drift_steps].
  apply ledgers_choosing, own_metered. intros m u m' E Hc. by eapply InputBlocks_chooses.
Qed.

End Migrate.

(** ** The start of a checkpoint *)

Section Begin.
Context `{HO : HashOrder} (Hcg : ∀ m, ok m ↔ chargeable B Pg m).

Lemma begin_first_ledgers : ledgers 0 (begin_first PfArg).
Proof.
  unfold begin_first; open_ledgers. do 2 drift_step.
  eapply (drift_bind _ _ _ 0); [apply drift_VisitQueue; [apply _|]; intros i; apply DirtyCleaner_ledgers|intros ?]. drift_steps.
Qed.

Lemma begin_last_ledgers s a s' : begin_last PfArg s = Ok (a, s') → fitted s → mod64 (bus s) (bus s').
Proof.
  intros E Hf. unfold begin_last in E. apply bind_Ok in E as ([] & s1 & E1 & E).
  apply (ledgers_att _ (ClearStats_meters PfArg)) in E1 as [Hf1 Hb1]; [|done]. rewrite Z.add_0_r in Hb1. etrans; [exact Hb1|]. clear Hf Hb1 s.
  apply bind_Ok in E as (s2 & s3 & E1 & E). injection E1 as <- <-. apply bind_Ok in E as (l & s2 & E1 & E). injection E as _ <-.
  unfold on_mig, zoom in E1. destruct (Mig.Clear _ _ _) as [[l' [m' ps']]|] eqn:Em; [|done]. injection E1 as <- <-.
  destruct Hf1 as [[Hpb Hpg] Hat Hmg]. apply Hcg in Hmg. apply (Clear_lists B Pg) in Em as [Hl Hm]; [|done..]. cbn in Hl, Hm.
  injection Hm as _ _ Hm1 Hm2. unfold bus. cbn. rewrite Hm1, Hm2, Hl.
  match goal with |- mod64 _ (?c + u64 (?x + ?y) - (?n + ?y)) => apply (word_moved x y (c - n - y)) end; lia.
Qed.

Lemma BeginCheckpointing_ledgers s a s' : BeginCheckpointing PfArg s = Ok (a, s') → fitted s → mod64 (bus s) (bus s').
Proof.
  intros E Hf. rewrite BeginCheckpointing_split in E. apply bind_Ok in E as ([] & s1 & E1 & E).
  apply begin_first_ledgers in E1 as [Hf1 Hb1]; [|done]. rewrite Z.add_0_r in Hb1. etrans; [exact Hb1|]. by eapply begin_last_ledgers.
Qed.

End Begin.

End Bus.
