(* ===== verification/CacheController.v ===== *)
(** CacheController (src/gem5-stable/src/mem/cache/cache_controller.h,
    cache_controller.cc): it counts the blocks a cache has dirtied and has the cache
    write them back before there are more of them than the address translation table
    can hold. The cache is not modelled: a call of its [writebackAllTiming] is logged
    in [written_back] with the blocks that were tracked when it was made. *)

From S2P Require Import Prelude AbstractMem.
#[global] Open Scope Z_scope.

Record CacheController := MkCacheController {
  cache_ : bool;                       (* a cache is registered *)
  blocks_ : gmap Z Z;
  block_bits_ : Z;
  att_length_ : Z;
  block_size_ : Z;
  block_mask_ : Z;
  written_back : list (gset Z);
}.

Definition set_cache_ (v : bool) (k : CacheController) : CacheController :=
  MkCacheController v (blocks_ k) (block_bits_ k) (att_length_ k) (block_size_ k) (block_mask_ k) (written_back k).
Definition set_blocks_ (v : gmap Z Z) (k : CacheController) : CacheController :=
  MkCacheController (cache_ k) v (block_bits_ k) (att_length_ k) (block_size_ k) (block_mask_ k) (written_back k).
Definition set_written_back (v : list (gset Z)) (k : CacheController) : CacheController :=
  MkCacheController (cache_ k) (blocks_ k) (block_bits_ k) (att_length_ k) (block_size_ k) (block_mask_ k) v.

Definition new_CacheController (block_bits att_length : Z) : M unit CacheController :=
  assert_ "CacheController::CacheController" ((0 <? block_bits) && (0 <? att_length)) ;;
  let size := i32 (Z.shiftl 1 block_bits) in
  mret (MkCacheController false ∅ block_bits att_length size (u64 (size - 1)) []).

(** [memory_] is the second component. *)
Definition RegisterCache : M (CacheController * MemSt) unit :=
  s ← get;
  assert_ "CacheController::RegisterCache" (negb (cache_ s.1)) ;;
  modify (λ s, (set_cache_ true s.1, s.2)) ;;
  zoom snd (λ m s, (s.1, m)) OnCacheRegister.

Definition Flush : M CacheController unit :=
  k ← get;
  (if cache_ k then mret tt else err (EUndef "null cache")) ;;
  modify (λ k, set_written_back (written_back k ++ [dom (blocks_ k)]) k) ;;
  modify (set_blocks_ ∅).

(** The body of the loop of [DirtyBlock]. *)
Definition dirty_block (a : Z) : M CacheController unit :=
  k ← get;
  (if (Z.of_nat (size (blocks_ k)) =? att_length_ k) && bool_decide (blocks_ k !! a = None) then Flush else mret tt) ;;
  modify (λ k, set_blocks_ (<[a := i32 (default 0 (blocks_ k !! a) + 1)]> (blocks_ k)) k).

Fixpoint dirty_loop (fuel : nat) (a end_ : Z) : M CacheController unit :=
  if a <=? end_ then
    match fuel with
    | O => err EFuel
    | S fuel' => dirty_block a ;; k ← get; dirty_loop fuel' (u64 (a + block_size_ k)) end_
    end
  else mret tt.

(** [fuel] bounds the iterations; there is one for each block. *)
Definition DirtyBlock (fuel : nat) (addr size : Z) : M CacheController unit :=
  k ← get;
  assert_ "CacheController::DirtyBlock" (Z.of_nat (base.size (blocks_ k)) <=? att_length_ k) ;;
  let begin := Z.ldiff addr (block_mask_ k) in
  let end_ := Z.ldiff (u64 (addr + size - 1)) (block_mask_ k) in
  dirty_loop fuel begin end_.

(** ** Invariant *)

Record cc_ok (k : CacheController) : Prop := {
  cc_bits : 0 < block_bits_ k < 31;
  cc_size : block_size_ k = 2 ^ block_bits_ k;
  cc_mask : block_mask_ k = 2 ^ block_bits_ k - 1;
  cc_att : 0 < att_length_ k;
  cc_room : Z.of_nat (size (blocks_ k)) ≤ att_length_ k;
  cc_log : Forall (λ B, Z.of_nat (size B) ≤ att_length_ k) (written_back k);
}.

(** Every block that was marked, tracked or written back. *)
Definition marked (k : CacheController) : gset Z := dom (blocks_ k) ∪ ⋃ (written_back k).

(** The blocks [first], [first + bs], ... *)
Definition block_range (first bs : Z) (n : nat) : gset Z := list_to_set ((λ i, first + Z.of_nat i * bs) <$> seq 0 n).

Definition same_params (k k' : CacheController) : Prop :=
  block_bits_ k' = block_bits_ k ∧ block_size_ k' = block_size_ k ∧ block_mask_ k' = block_mask_ k ∧
  att_length_ k' = att_length_ k ∧ cache_ k' = cache_ k.

Lemma block_range_S first bs n : block_range first bs (S n) = {[first]} ∪ block_range (first + bs) bs n.
Proof.
  unfold block_range. cbn [seq fmap list_fmap list_to_set]. f_equal; [f_equal; lia|].
  rewrite <- fmap_S_seq, <- list_fmap_compose. f_equal. apply list_fmap_ext. intros i x _. unfold compose. lia.
Qed.

Lemma union_list_snoc (l : list (gset Z)) x : ⋃ (l ++ [x]) = ⋃ l ∪ x.
Proof. rewrite union_list_app_L. f_equal. apply union_list_singleton_L. Qed.

Lemma wp_dirty_block a (Q : unit → CacheController → Prop) k : cc_ok k → cache_ k = true →
  (∀ k', cc_ok k' → same_params k k' → a ∈ dom (blocks_ k') → marked k' = {[a]} ∪ marked k → Q tt k') →
  wp (dirty_block a) Q k.
Proof.
  intros Hk Hc HQ. pose proof Hk as []. unfold dirty_block. wp_steps.
  destruct (blocks_ k !! a) as [n|] eqn:Ha.
  - rewrite (bool_decide_eq_false_2 (Some n = None)), andb_false_r by done. wp_steps.
    assert (dom (<[a := i32 (default 0 (blocks_ k !! a) + 1)]> (blocks_ k)) = dom (blocks_ k)) as Ed.
    { rewrite dom_insert_L. assert (a ∈ dom (blocks_ k)) by (apply elem_of_dom; eauto). set_solver. }
    assert (a ∈ dom (blocks_ k)) by (apply elem_of_dom; eauto).
    apply HQ; [|done|cbn; rewrite Ed; done|unfold marked; cbn; rewrite Ed; set_solver].
    constructor; try done. cbn. rewrite <- size_dom, Ed, size_dom. done.
  - rewrite (bool_decide_eq_true_2 (None = None)), andb_true_r by done.
    destruct (Z.eqb_spec (Z.of_nat (size (blocks_ k))) (att_length_ k)) as [Ef|Ef].
    + unfold Flush. wp_steps. rewrite Hc. wp_steps.
      apply HQ; [|done|cbn; set_solver|].
      * constructor; try done; cbn; [rewrite map_size_insert_None, map_size_empty by apply lookup_empty; lia|].
        apply Forall_app. split; [done|]. constructor; [|constructor]. rewrite size_dom. lia.
      * unfold marked. cbn. rewrite dom_insert_L, dom_empty_L, union_list_snoc. set_solver.
    + wp_steps. apply HQ; [|done|cbn; set_solver|].
      * constructor; try done. cbn. rewrite map_size_insert_None by done. lia.
      * unfold marked. cbn. rewrite dom_insert_L. set_solver.
Qed.

Lemma wp_dirty_loop n fuel a e k (Q : unit → CacheController → Prop) : cc_ok k → cache_ k = true → 0 ≤ a →
  a + Z.of_nat n * block_size_ k < 2 ^ 64 → (n ≤ fuel)%nat →
  a + Z.of_nat n * block_size_ k - block_size_ k ≤ e < a + Z.of_nat n * block_size_ k →
  (∀ k', cc_ok k' → same_params k k' → marked k' = block_range a (block_size_ k) n ∪ marked k → Q tt k') →
  wp (dirty_loop fuel a e) Q k.
Proof.
  revert fuel a k. induction n as [|n IH]; intros fuel a k Hk Hc Ha Hmax Hf He HQ.
  - destruct fuel; cbn [dirty_loop]; (destruct (Z.leb_spec a e); [lia|]); wp_step; (apply HQ; [done|done|]);
      unfold block_range; cbn; set_solver.
  - pose proof Hk as []. pose proof (pow2_pos (block_bits_ k) ltac:(lia)) as Hp. rewrite <- cc_size0 in Hp.
    destruct fuel as [|fuel]; [lia|]. cbn [dirty_loop]. destruct (Z.leb_spec a e); [|nia]. wp_step.
    apply wp_dirty_block; [done|done|]. intros k1 Hk1 Hs1 _ Em. wp_steps.
    pose proof Hs1 as (_ & Es & _ & _ & Ec). rewrite Es, u64_small by nia.
    apply IH; rewrite ?Es; [done|congruence|lia|lia|lia|lia|].
    intros k2 Hk2 Hs2 Em2. apply HQ; [done| |].
    + destruct Hs1 as (?&?&?&?&?), Hs2 as (?&?&?&?&?). split_and!; congruence.
    + rewrite Em2, Em, block_range_S. set_solver.
Qed.

(** The number of blocks that [size] bytes at [addr] overlap. *)
Definition span (k : CacheController) (addr size : Z) : nat :=
  Z.to_nat ((addr + size - 1) / block_size_ k - addr / block_size_ k + 1).

(** C30: No dirty block is forgotten and the table cannot overflow: [DirtyBlock] marks
    exactly the blocks that the access overlaps, every block ever marked is still tracked
    or was part of a write-back, and neither the tracked blocks nor those of any
    write-back are more than the table has entries. *)
Theorem DirtyBlock_conserves fuel addr size k : cc_ok k → cache_ k = true → 0 ≤ addr → 0 < size →
  addr + size + block_size_ k ≤ 2 ^ 64 → (span k addr size ≤ fuel)%nat →
  ∃ k', DirtyBlock fuel addr size k = Ok (tt, k') ∧ cc_ok k' ∧ same_params k k' ∧
    marked k' = block_range (addr - addr mod block_size_ k) (block_size_ k) (span k addr size) ∪ marked k.
Proof.
  intros Hk Hc Ha Hs Hmax Hf.
  assert (wp (DirtyBlock fuel addr size) (λ _ k', cc_ok k' ∧ same_params k k' ∧
    marked k' = block_range (addr - addr mod block_size_ k) (block_size_ k) (span k addr size) ∪ marked k) k)
    as ([] & k' & E & H)%wp_ok; [|by exists k'].
  pose proof Hk as []. pose proof (pow2_pos (block_bits_ k) ltac:(lia)) as Hp. rewrite <- cc_size0 in Hp.
  unfold DirtyBlock. wp_steps. apply wp_assert; [by apply Z.leb_le|].
  rewrite cc_mask0, u64_small, !ldiff_mask by lia. rewrite <- cc_size0.
  pose proof (Z.div_mod addr (block_size_ k) ltac:(lia)) as E1.
  pose proof (Z.div_mod (addr + size - 1) (block_size_ k) ltac:(lia)) as E2.
  pose proof (Z.mod_pos_bound addr (block_size_ k) Hp). pose proof (Z.mod_pos_bound (addr + size - 1) (block_size_ k) Hp).
  pose proof (Z.mod_le addr (block_size_ k) Ha Hp).
  assert (addr / block_size_ k ≤ (addr + size - 1) / block_size_ k) by (apply Z.div_le_mono; lia).
  assert (Z.of_nat (span k addr size) = (addr + size - 1) / block_size_ k - addr / block_size_ k + 1) as En
    by (unfold span; lia).
  eapply (wp_dirty_loop (span k addr size)); [done|done|lia|rewrite En; nia|done|rewrite En; nia|].
  intros k' Hk' Hs' Em. done.
Qed.

Definition cc0 : CacheController := MkCacheController true {[0 := 1; 64 := 2]} 6 2 64 63 [].

Lemma DirtyBlock_conserves_witness :
  ∃ k', DirtyBlock 3 100 70 cc0 = Ok (tt, k') ∧ cc_ok k' ∧ same_params cc0 k' ∧
    marked k' = block_range (100 - 100 mod 64) 64 (span cc0 100 70) ∪ marked cc0.
Proof.
  apply (DirtyBlock_conserves 3 100 70 cc0); [|done|done|done|done|by apply (bool_decide_unpack _)].
  by constructor.
Defined.
