(* ===== verification/MemLaws.v ===== *)
(** The memory of [AbstractMem] keeps the promises of [MemStoreLaws] and
    [MemDeviceLaws]: copies and swaps move exactly the bytes they should, and the latency
    queries the controller makes pass the assertions of [GetVirtMachAddr]. *)

From S2P Require Import Prelude MemStore AddrTransController AbstractMem.
From S2P Require DRAMBanks.
#[global] Open Scope Z_scope.

(** ** Bytes *)

Lemma mem_write_byte a l m x : mem_byte (mem_write a l m) x =
  if (a <=? x) && (x <? a + Z.of_nat (length l)) then l !!! Z.to_nat (x - a) else mem_byte m x.
Proof.
  revert a. induction l as [|y l IH]; intros a; cbn [mem_write length].
  - destruct (Z.leb_spec a x); [|done]. destruct (Z.ltb_spec x (a + Z.of_nat 0)); [lia|done].
  - unfold mem_byte at 1. destruct (decide (a = x)) as [->|Hne].
    + rewrite lookup_insert_eq. destruct (Z.leb_spec x x); [|lia].
      destruct (Z.ltb_spec x (x + Z.of_nat (S (length l)))); [|lia]. cbn [andb]. by rewrite Z.sub_diag.
    + rewrite lookup_insert_ne by done. fold (mem_byte (mem_write (a + 1) l m) x). rewrite IH.
      destruct (Z.leb_spec a x), (Z.leb_spec (a + 1) x); cbn [andb]; try lia.
      destruct (Z.ltb_spec x (a + 1 + Z.of_nat (length l))), (Z.ltb_spec x (a + Z.of_nat (S (length l))));
        try lia. replace (Z.to_nat (x - a)) with (S (Z.to_nat (x - (a + 1)))) by lia. done.
Qed.

Lemma mem_read_length m a n : 0 ≤ n → Z.of_nat (length (mem_read m a n)) = n.
Proof. intros. unfold mem_read, zseq. rewrite length_fmap, length_seqZ. lia. Qed.

Lemma mem_read_byte m a n i : 0 ≤ i < n → mem_read m a n !!! Z.to_nat i = mem_byte m (a + i).
Proof.
  intros Hi. unfold mem_read, zseq. apply list_lookup_total_correct. rewrite list_lookup_fmap, lookup_seqZ_lt by lia.
  simpl. repeat f_equal. lia.
Qed.

Section Laws.
Context (c : Config) (Hc : wf_config c).

Definition geo_c : MemGeo :=
  {| g_phy_range := c_phy_range c; g_nvm_size := 2 * c_att_len c * c_bsize c; g_dram_base := c_dram_base c;
     g_dram_size := c_att_len c * c_bsize c; g_size := c_top c;
     g_dram_capacity := c_ptt_capacity c * 2 ^ c_page_bits c;
     g_page_size := 2 ^ c_page_bits c; g_page_mask := 2 ^ c_page_bits c - 1 |}.

(** The virtual addresses of the page cache fit, and pages are no larger than a row
    buffer, to which the cache is aligned. *)
Record wf_mem : Prop := {
  wm_cap : c_ptt_capacity c * 2 ^ c_page_bits c < 2 ^ 31;
  wm_page : c_page_bits c ≤ 13;
}.

Definition mem_content (st : MemSt) (a : Z) : Z := match pmemAddr st with Some m => mem_byte m a | None => 0 end.

Record mem_ok (st : MemSt) : Prop := {
  mo_geo : geo st = geo_c;
  mo_pmem : is_Some (pmemAddr st);
  mo_banks : Banks.banks_ok (banks st);
  mo_row : Banks.row_buffer_size (banks st) = 8192;
  mo_lat : 0 < latency st < 2 ^ 31;
  mo_miss : 0 < latency_miss st < 2 ^ 31;
  mo_nvm_read : 0 < tNVMRead st < 2 ^ 31;
  mo_nvm_write : 0 < tNVMWrite st < 2 ^ 31;
}.

Definition mem_lat_ok (a : Z) (is_dram : bool) (page : option Mig.PTTEntry) : Prop :=
  match page with
  | None => if is_dram then c_dram_base c ≤ a < c_top c else 0 ≤ a < c_dram_base c
  | Some e => 0 ≤ a < c_phy_range c ∧ is_dram = true ∧ 0 ≤ Mig.index e < c_ptt_capacity c
  end.

Lemma top_pos : 0 < c_top c ∧ c_phy_range c ≤ c_dram_base c ≤ c_top c ∧ c_top c < 2 ^ 63.
Proof.
  pose proof (wf_att _ Hc). pose proof (wf_dram _ Hc). pose proof (wf_top _ Hc).
  assert (0 < c_bsize c) by (apply pow2_pos, (wf_bits _ Hc)). pose proof (pow2_pos (c_page_bits c)).
  pose proof (wf_bits _ Hc). unfold c_top, c_dram_base in *. nia.
Qed.

(** ** Copies *)

Lemma wp_hostAddr a (Q : Z → MemSt → Prop) st : mem_ok st → a < c_top c → Q a st → wp (hostAddr a) Q st.
Proof.
  intros Hst Ha HQ. unfold hostAddr. wp_steps. apply wp_assert; [|by wp_steps].
  apply Z.ltb_lt. unfold hostSize. rewrite (mo_geo _ Hst). done.
Qed.

Lemma wp_host_mem a n (Q : gmap Z Z → MemSt → Prop) st m : mem_ok st → pmemAddr st = Some m →
  0 ≤ a → 0 ≤ n → a + n ≤ c_top c → Q m st → wp (host_mem a n) Q st.
Proof.
  intros Hst Hm Ha Hn Ht HQ. unfold host_mem. wp_steps. eapply wp_of_option; [done|]. unfold hostSize.
  rewrite (mo_geo _ Hst). cbn [g_size geo_c]. rewrite !(proj2 (Z.leb_le _ _)) by done. cbn [andb]. by wp_steps.
Qed.

Lemma pmem_ok st m : mem_ok st → mem_ok (set_pmemAddr (Some m) st).
Proof. intros []. by constructor. Qed.

Lemma wp_host_load a n (Q : list Z → MemSt → Prop) st m : mem_ok st → pmemAddr st = Some m →
  0 ≤ a → 0 ≤ n → a + n ≤ c_top c → Q (mem_read m a n) st → wp (host_load a n) Q st.
Proof. intros. unfold host_load. wp_step. eapply wp_host_mem; [done..|]. by wp_steps. Qed.

Lemma wp_host_store a l (Q : unit → MemSt → Prop) st m : mem_ok st → pmemAddr st = Some m →
  0 ≤ a → a + Z.of_nat (length l) ≤ c_top c → Q tt (set_pmemAddr (Some (mem_write a l m)) st) → wp (host_store a l) Q st.
Proof. intros. unfold host_store. wp_step. eapply wp_host_mem; [done..|lia|done|]. by wp_steps. Qed.

Lemma wp_host_memcpy dest src n (Q : unit → MemSt → Prop) st m : mem_ok st → pmemAddr st = Some m →
  0 ≤ dest → 0 ≤ src → 0 ≤ n → dest + n ≤ c_top c → src + n ≤ c_top c → dest + n ≤ src ∨ src + n ≤ dest →
  Q tt (set_pmemAddr (Some (mem_write dest (mem_read m src n) m)) st) → wp (host_memcpy dest src n) Q st.
Proof.
  intros Hst Hm ????? Hdis HQ. unfold host_memcpy. wp_step. eapply wp_host_load; [done..|]. wp_step.
  rewrite (proj2 (orb_true_iff _ _)) by (rewrite !Z.leb_le; done). wp_steps.
  eapply wp_host_store; [done..|by rewrite mem_read_length|done].
Qed.

Lemma copy_byte dest src n m a : 0 ≤ n →
  mem_byte (mem_write dest (mem_read m src n) m) a =
  if bool_decide (dest ≤ a < dest + n) then mem_byte m (src + (a - dest)) else mem_byte m a.
Proof.
  intros Hn. rewrite mem_write_byte, mem_read_length by done. case_bool_decide as Hr.
  - rewrite (proj2 (Z.leb_le _ _)), (proj2 (Z.ltb_lt _ _)) by lia. cbn [andb]. by rewrite mem_read_byte by lia.
  - destruct (Z.leb_spec dest a), (Z.ltb_spec a (dest + n)); cbn [andb]; (lia || done).
Qed.

Lemma mem_law_copy dest src size st :
  mem_ok st → dest ≠ src → 0 ≤ dest → 0 ≤ src → 0 ≤ size →
  dest + size ≤ c_top c → src + size ≤ c_top c → 0 < size →
  dest + size ≤ src ∨ src + size ≤ dest →
  wp (mem_MemCopy dest src size) (λ _ st', mem_ok st' ∧ ∀ a, mem_content st' a =
    if bool_decide (dest ≤ a < dest + size) then mem_content st (src + (a - dest)) else mem_content st a) st.
Proof.
  intros Hst Hne ???????. destruct (mo_pmem _ Hst) as [m Hm]. unfold mem_MemCopy. wp_step.
  apply wp_assert; [by rewrite (proj2 (Z.eqb_neq _ _))|]. wp_step. apply wp_hostAddr; [done|lia|]. wp_step.
  apply wp_hostAddr; [done|lia|]. eapply wp_host_memcpy; [done..|]. split; [by apply pmem_ok|].
  intros a. unfold mem_content. cbn [pmemAddr set_pmemAddr]. rewrite Hm. by apply copy_byte.
Qed.

Lemma mem_law_swap x y size st :
  mem_ok st → x ≠ y → 0 ≤ x → 0 ≤ y → 0 < size → x + size ≤ c_top c → y + size ≤ c_top c →
  x + size ≤ y ∨ y + size ≤ x →
  wp (mem_MemSwap x y size) (λ _ st', mem_ok st' ∧ ∀ a, mem_content st' a =
    if bool_decide (x ≤ a < x + size) then mem_content st (y + (a - x))
    else if bool_decide (y ≤ a < y + size) then mem_content st (x + (a - y))
    else mem_content st a) st.
Proof.
  intros Hst Hne ?????? . destruct (mo_pmem _ Hst) as [m Hm]. unfold mem_MemSwap. wp_step.
  apply wp_assert; [by rewrite (proj2 (Z.eqb_neq _ _))|]. wp_step. apply wp_hostAddr; [done|lia|]. wp_step.
  eapply wp_host_load; [done|done|lia..|]. wp_step. apply wp_hostAddr; [done|lia|]. wp_step.
  eapply wp_host_memcpy; [done|done|lia..|]. set (m1 := mem_write x (mem_read m y size) m).
  eapply (wp_host_store _ _ _ _ m1); [by apply pmem_ok|done|done|by rewrite mem_read_length by lia|].
  split; [by do 2 apply pmem_ok|]. intros a. unfold mem_content. cbn [pmemAddr set_pmemAddr]. rewrite Hm.
  rewrite mem_write_byte, mem_read_length by lia. unfold m1. rewrite copy_byte by lia.
  repeat case_bool_decide; destruct (Z.leb_spec y a), (Z.ltb_spec a (y + size)); cbn [andb];
    rewrite ?mem_read_byte by lia; try lia; try done.
Qed.

(** ** Latencies *)

Context (Hm : wf_mem).

(** The virtual region starts at the first row buffer after the memory. *)
Lemma virt_base st : mem_ok st →
  let v := GetVirtRegionBase st in c_top c ≤ v ≤ c_top c + 8192 ∧ v mod 2 ^ c_page_bits c = 0.
Proof.
  intros Hst. destruct top_pos as (H0 & _ & H63). unfold GetVirtRegionBase. rewrite (mo_row _ Hst), (mo_geo _ Hst).
  cbn [g_size geo_c]. rewrite (u64_small (c_top c - 1)) by lia. change (8192 - 1) with (2 ^ 13 - 1).
  rewrite (ldiff_mask (c_top c - 1) 13) by lia. change (2 ^ 13) with 8192.
  pose proof (Z.mod_pos_bound (c_top c - 1) 8192 ltac:(lia)). pose proof (Z.div_mod (c_top c - 1) 8192 ltac:(lia)) as E.
  rewrite u64_small by lia. split; [lia|].
  replace (c_top c - 1 - (c_top c - 1) mod 8192 + 8192) with (8192 * ((c_top c - 1) / 8192 + 1)) by lia.
  pose proof (wf_bits _ Hc). pose proof (wm_page Hm).
  change 8192 with (2 ^ 13). replace 13 with (13 - c_page_bits c + c_page_bits c) at 1 by lia. rewrite Z.pow_add_r by lia.
  replace (_ * _ * _) with (2 ^ (13 - c_page_bits c) * ((c_top c - 1) / 2 ^ 13 + 1) * 2 ^ c_page_bits c) by ring.
  apply Z.mod_mul. pose proof (pow2_pos (c_page_bits c)). lia.
Qed.

(** Within a page of an aligned region. *)
Lemma page_address base pages i x : 0 ≤ base → base mod 2 ^ c_page_bits c = 0 → 0 ≤ i < pages →
  pages * 2 ^ c_page_bits c < 2 ^ 31 → base < 2 ^ 63 + 2 ^ 32 →
  u64 (base + u64 (i32 (i * 2 ^ c_page_bits c))) = base + i * 2 ^ c_page_bits c ∧
  Z.land (base + i * 2 ^ c_page_bits c) (2 ^ c_page_bits c - 1) = 0 ∧
  base ≤ u64 (base + i * 2 ^ c_page_bits c + Z.land x (2 ^ c_page_bits c - 1)) < base + pages * 2 ^ c_page_bits c.
Proof.
  intros Hb Hal Hi Hp Ht. pose proof (wf_bits _ Hc). pose proof (pow2_pos (c_page_bits c) ltac:(lia)) as Hpow.
  rewrite !land_mask by lia. set (P := 2 ^ c_page_bits c) in *. pose proof (Z.mod_pos_bound x P Hpow).
  rewrite (i32_small (i * P)), (u64_small (i * P)), (u64_small (base + i * P)) by nia.
  split_and!; [done|rewrite Z.mod_add by lia; done|..]; rewrite u64_small by nia; nia.
Qed.

Lemma wp_GetVirtMachAddr a d p (Q : Z → MemSt → Prop) st : mem_ok st → mem_lat_ok a d p →
  (∀ v, Q v st) → wp (GetVirtMachAddr a d p) Q st.
Proof.
  intros Hst Hl HQ. pose proof (virt_base _ Hst) as [Hv Hal]. destruct top_pos as (H0 & Hr & H63).
  pose proof (wf_bits _ Hc). pose proof (pow2_pos (c_page_bits c) ltac:(lia)) as Hpow. pose proof (wm_cap Hm).
  assert (c_phy_range c + 2 * c_att_len c * c_bsize c = c_dram_base c) as Enb by done.
  assert (c_top c = c_dram_base c + c_att_len c * c_bsize c) as Etop by (unfold c_top, c_dram_base; ring).
  pose proof (wf_dram _ Hc). unfold GetVirtMachAddr. wp_steps. rewrite (mo_geo _ Hst).
  cbn [geo_c g_phy_range g_nvm_size g_size g_dram_capacity g_page_size]. rewrite Enb. cbv zeta.
  set (v := GetVirtRegionBase st) in *.
  assert (Hcap : 0 ≤ c_ptt_capacity c * 2 ^ c_page_bits c ∨ p = None).
  { destruct p as [e|]; [|by right]. destruct Hl as (_ & _ & ?). left. nia. }
  apply wp_assert.
  { destruct p, d; [done..|done|]. cbn in Hl |- *. rewrite u64_small by lia. apply Z.ltb_lt. lia. }
  wp_steps. apply wp_assert.
  { destruct p, d; [done..| |done]. cbn in Hl |- *. unfold dram_Contains. cbn [g_dram_base g_dram_size geo_c].
    rewrite u64_small by lia. apply andb_true_iff. rewrite Z.leb_le, Z.ltb_lt. lia. }
  wp_steps. apply wp_assert; [apply Z.leb_le; lia|]. destruct p as [e|]; [|by wp_steps].
  destruct Hl as (Ha & -> & Hi). destruct Hcap as [Hcap|]; [|done]. rewrite !(u64_small (v + _)) by lia. wp_step.
  apply wp_assert; [apply Z.ltb_lt; lia|]. wp_step.
  destruct (page_address (v + c_ptt_capacity c * 2 ^ c_page_bits c) (c_ptt_capacity c) (Mig.index e) a) as (E1 & E2 & E3);
    [lia|by rewrite Z.mod_add by lia|done|done|lia|].
  rewrite E1. unfold page_Translate. cbn [g_page_mask geo_c]. wp_step. apply wp_assert; [by rewrite E2|]. wp_steps.
  apply wp_assert; [|by wp_steps]. rewrite (u64_small (_ + c_ptt_capacity c * _)) by lia. apply andb_true_iff. rewrite Z.leb_le, Z.ltb_lt. done.
Qed.

Lemma banks_mem_ok st d : mem_ok st → Banks.banks_ok d → Banks.row_buffer_size d = 8192 → mem_ok (set_banks d st).
Proof. intros [] ??. by constructor. Qed.

Lemma wp_row_Access a (Q : bool → MemSt → Prop) st : mem_ok st →
  (∀ hit d, mem_ok (set_banks d st) → Q hit (set_banks d st)) → wp (row_Access a) Q st.
Proof.
  intros Hst HQ. unfold row_Access. wp_step. apply wp_zoom. apply Banks.wp_Access; [apply (mo_banks _ Hst)|].
  intros b a' Hb d' Hok. wp_steps. apply HQ. apply banks_mem_ok; [done|done|].
  pose proof (mo_row _ Hst). pose proof (Banks.put_shape (banks st) (Banks.rank_ID a') (Banks.bank_ID a')
    (Banks.Bank_Access (Banks.row_ID a') b).2) as E. fold d' in E.
  unfold Banks.same_shape, Banks.set_banks_ in E. unfold Banks.row_buffer_size in *. injection E as _ E. congruence.
Qed.

Lemma lat_range x : 0 < x < 2 ^ 31 → 0 < i64 x < 2 ^ 31.
Proof. intros. rewrite i64_small by lia. done. Qed.

Lemma mem_law_read_latency a d p st : mem_ok st → mem_lat_ok a d p →
  wp (mem_GetReadLatency a d p) (λ lat st', 0 < lat < 2 ^ 31 ∧ mem_ok st' ∧
    ∀ x, mem_content st' x = mem_content st x) st.
Proof.
  intros Hst Hl. unfold mem_GetReadLatency. wp_step. apply wp_GetVirtMachAddr; [done|done|]. intros v. wp_step.
  apply wp_row_Access; [done|]. intros hit b Hst'. wp_steps. destruct Hst as [_ _ _ _ ????].
  destruct hit; wp_steps; (split; [apply lat_range; by destruct d|]); (split; [|done]); destruct Hst'; by constructor.
Qed.

Lemma mem_law_write_latency a d p st : mem_ok st → mem_lat_ok a d p →
  wp (mem_GetWriteLatency a d p) (λ lat st', 0 < lat < 2 ^ 31 ∧ mem_ok st' ∧
    ∀ x, mem_content st' x = mem_content st x) st.
Proof.
  intros Hst Hl. unfold mem_GetWriteLatency. wp_step. apply wp_GetVirtMachAddr; [done|done|]. intros v. wp_step.
  apply wp_row_Access; [done|]. intros hit b Hst'. wp_steps. destruct Hst as [_ _ _ _ ????].
  destruct hit; wp_steps; (split; [apply lat_range; by destruct d|]); (split; [|done]); destruct Hst'; by constructor.
Qed.

Lemma mem_law_hook op st : mem_ok st →
  (op = mem_OnEpochEnd ∨ op = mem_statsNVMWrites ∨ op = mem_statsDRAMWrites ∨ op = mem_ckDRAMWriteHit ∨
   (∃ s, op = mem_OnATTWriteHit s) ∨ (∃ s, op = mem_OnATTWriteMiss s)) →
  wp op (λ _ st', mem_ok st' ∧ ∀ x, mem_content st' x = mem_content st x) st.
Proof.
  intros [] Hop. destruct Hop as [->|[->|[->|[->|[[s ->]|[s ->]]]]]]; apply wp_modify; (split; [by constructor|done]).
Qed.

#[global] Instance mem_laws : MemStoreLaws MemSt c.
Proof.
  refine {| content := mem_content; st_ok := mem_ok; lat_ok := mem_lat_ok |}.
  - exact mem_law_copy.
  - exact mem_law_swap.
  - exact mem_law_read_latency.
  - exact mem_law_write_latency.
  - exact mem_law_hook.
  - done.
  - done.
  - intros a p Ha Hi. exact (conj Ha (conj eq_refl Hi)).
Defined.

#[global] Instance mem_device_laws : MemDeviceLaws MemSt c.
Proof.
  split.
  - intros a st Hst Ha. destruct (mo_pmem _ Hst) as [m E]. cbn. wp_step. apply wp_hostAddr; [done|lia|]. wp_step.
    eapply wp_host_load; [done|done|lia..|]. wp_steps. split; [|done]. change 0%nat with (Z.to_nat 0).
    rewrite mem_read_byte by lia. unfold content, mem_laws, mem_content. rewrite E. f_equal. lia.
  - intros a data st Hst Ha Ht. destruct (mo_pmem _ Hst) as [m E]. cbn.
    wp_step. apply wp_hostAddr; [done|lia|]. eapply wp_host_store; [done|done|lia|done|].
    split; [by apply pmem_ok|]. intros x. unfold content, mem_laws, mem_content. cbn [pmemAddr set_pmemAddr]. rewrite E.
    apply mem_write_byte.
Qed.

End Laws.
