(* ===== verification/MemFrame.v ===== *)
(** Frame of the memory: the operations the controller calls through [MemStore] leave the
    write queues and busy times of the banks, the latency and the geometry of the host
    memory alone. So the laws of [MemLaws] hold also with these fixed, and what is proved
    of the controller against them says in addition that it does not touch them. *)

From S2P Require Import Prelude MemStore AddrTransController AbstractMem MemLaws.
From S2P Require DRAMBanks.
#[global] Open Scope Z_scope.

(** When each bank is busy and what it has to write. *)
Definition bank_work (b : Banks.Bank) : Z * list Banks.Address := (Banks.busy_time_ b, Banks.write_queue_ b).
Definition works (d : Banks.DRAMBanks) : list (list (Z * list Banks.Address)) :=
  (λ l : list Banks.Bank, bank_work <$> l) <$> Banks.banks_ d.

Record Frame := MkFrame { f_works : list (list (Z * list Banks.Address)); f_latency : Z }.
Definition frame (st : MemSt) : Frame := MkFrame (works (banks st)) (latency st).
Definition same_frame (st st' : MemSt) : Prop := frame st' = frame st.

#[global] Instance same_frame_preorder : PreOrder same_frame.
Proof. split; unfold same_frame; [done|]. intros ??? E1 E2. congruence. Qed.

(** ** The operations keep the frame *)

Lemma put_works i j b b' d : Banks.bank_at d i j = Some b → bank_work b' = bank_work b →
  works (Banks.put_bank i j b' d) = works d.
Proof.
  unfold Banks.bank_at, Banks.put_bank, works. intros Hb E. destruct (zlookup (Banks.banks_ d) i) as [l|] eqn:Hl; [|done].
  simpl in Hb. cbn [Banks.banks_ Banks.set_banks_]. rewrite zinsert_fmap, (zinsert_fmap bank_work), E.
  rewrite (zinsert_id (bank_work <$> l)) by (by rewrite zlookup_fmap, Hb).
  apply zinsert_id. by rewrite zlookup_fmap, Hl.
Qed.

Lemma hostAddr_frame a : transits same_frame (hostAddr a).
Proof. unfold hostAddr. transits_steps. Qed.

Lemma host_load_frame a n : transits same_frame (host_load a n).
Proof. unfold host_load, host_mem. transits_steps. Qed.

Lemma host_store_frame a l : transits same_frame (host_store a l).
Proof. unfold host_store, host_mem. transits_steps. done. Qed.

Lemma host_memcpy_frame dest src n : transits same_frame (host_memcpy dest src n).
Proof. unfold host_memcpy. transits_steps; auto using host_load_frame, host_store_frame. Qed.

Lemma virt_frame a d p : transits same_frame (GetVirtMachAddr a d p).
Proof. unfold GetVirtMachAddr, page_Translate. transits_steps. Qed.

Lemma Access_works a : transits (λ d d', works d' = works d) (Banks.Access a).
Proof.
  assert (PreOrder (λ d d', works d' = works d)) by (split; [done|intros ??? E1 E2; congruence]).
  unfold Banks.Access. apply transits_bind; [done| |].
  - unfold Banks.ParseAddr, Banks.udiv, Banks.umod. transits_steps.
  - intros x. unfold Banks.Access_Address. transits_step; [|transits_steps]. unfold Banks.on_bank.
    intros d h d'. cbv [mbind M_bind get]. destruct (Banks.bank_at d _ _) as [b|] eqn:Hb; [|done].
    simpl. destruct (Banks.Bank_Access (Banks.row_ID x) b) as [hit b'] eqn:E. intros [= _ <-].
    eapply put_works; [done|]. unfold Banks.Bank_Access in E. by destruct (_ =? _); simplify_eq.
Qed.

Lemma row_Access_frame a : transits same_frame (row_Access a).
Proof.
  unfold row_Access. transits_steps. apply transits_zoom. intros st d r E. unfold same_frame, frame. cbn.
  by rewrite (Access_works _ _ _ _ E).
Qed.

#[export] Hint Resolve hostAddr_frame host_load_frame host_store_frame host_memcpy_frame virt_frame row_Access_frame : frame.

Lemma MemCopy_frame dest src n : transits same_frame (mem_MemCopy dest src n).
Proof. unfold mem_MemCopy. transits_steps; auto with frame. Qed.

Lemma MemSwap_frame x y n : transits same_frame (mem_MemSwap x y n).
Proof. unfold mem_MemSwap. transits_steps; auto with frame. Qed.

Lemma GetReadLatency_frame a d p : transits same_frame (mem_GetReadLatency a d p).
Proof. unfold mem_GetReadLatency. transits_steps; auto with frame; done. Qed.

Lemma GetWriteLatency_frame a d p : transits same_frame (mem_GetWriteLatency a d p).
Proof. unfold mem_GetWriteLatency. transits_steps; auto with frame; done. Qed.

(** ** The laws with the frame fixed *)

Section Framed.
Context (c : Config) (Hc : wf_config c) (Hm : wf_mem c) (w : Frame).

Definition framed (st : MemSt) : Prop := mem_ok c st ∧ frame st = w.

Lemma wp_framed {A} (m : M MemSt A) (Q : A → MemSt → Prop) st : frame st = w → transits same_frame m →
  wp m (λ a st', mem_ok c st' ∧ Q a st') st → wp m (λ a st', framed st' ∧ Q a st') st.
Proof.
  intros Ew Hf H. eapply wp_mono; [eapply (wp_transits same_frame); [exact H|exact Hf]|].
  intros a st' [[Hok HQ] E]. split; [|done]. split; [done|]. by rewrite E.
Qed.

#[local] Instance framed_laws : MemStoreLaws MemSt c.
Proof.
  refine {| content := mem_content; st_ok := framed; lat_ok := mem_lat_ok c |}.
  - intros dest src size st [Hst Ew] ????????. eapply wp_framed; [done|apply MemCopy_frame|by apply mem_law_copy].
  - intros x y size st [Hst Ew] ???????. eapply wp_framed; [done|apply MemSwap_frame|by apply mem_law_swap].
  - intros a d p st [Hst Ew] Hl. eapply wp_mono; [eapply wp_framed; [done|apply GetReadLatency_frame|]|].
    + eapply wp_mono; [by apply (mem_law_read_latency c Hc Hm)|]. intros lat st' (H1 & H2 & H3).
      split; [exact H2|exact (conj H1 H3)].
    + intros lat st' (H1 & H2 & H3). done.
  - intros a d p st [Hst Ew] Hl. eapply wp_mono; [eapply wp_framed; [done|apply GetWriteLatency_frame|]|].
    + eapply wp_mono; [by apply (mem_law_write_latency c Hc Hm)|]. intros lat st' (H1 & H2 & H3).
      split; [exact H2|exact (conj H1 H3)].
    + intros lat st' (H1 & H2 & H3). done.
  - intros op st [Hst Ew] Hop. eapply wp_framed; [done| |by apply mem_law_hook].
    destruct Hop as [->|[->|[->|[->|[[s ->]|[s ->]]]]]]; apply transits_modify; done.
  - done.
  - done.
  - intros a p Ha Hi. exact (conj Ha (conj eq_refl Hi)).
Defined.

#[local] Instance framed_device : MemDeviceLaws MemSt c.
Proof.
  split.
  - intros a st [Hst Ew] Ha. eapply wp_mono; [eapply (wp_transits same_frame); [by apply (@law_dev_read _ _ _ _ _ (mem_device_laws c Hc Hm))|]|].
    + cbn. transits_steps; auto with frame.
    + intros v st' [(-> & Hok & Hcont) E]. split_and!; [done| |done]. split; [done|]. by rewrite E.
  - intros a data st [Hst Ew] Ha Ht.
    eapply wp_mono; [eapply (wp_transits same_frame); [by apply (@law_dev_write _ _ _ _ _ (mem_device_laws c Hc Hm))|]|].
    + cbn. transits_steps; auto with frame.
    + intros v st' [[Hok Hcont] E]. split; [|done]. split; [done|]. by rewrite E.
Qed.

End Framed.
