(* ===== verification/SimpleMem.v ===== *)
(** SimpleMemory with its base AbstractMemory (src/gem5-stable/src/mem/simple_mem.hh,
    simple_mem.cc, abstract_mem.hh, abstract_mem.cc): the memory that receives packets,
    runs the controller and drives the epochs by events. Each event handler is an
    operation on [SimpleMemory]; a scheduled event is its tick, and what is sent through
    the port is logged in [sent]. [port.sendRetry()] is the last action of each handler
    that calls it, so a request that the peer sends from there is the next operation. What
    the peer does with a response and the random part of a latency are arguments.
    Floating-point amounts are rationals, truncated where the code stores them as ticks. *)

From Stdlib Require Import QArith Qround.
From S2P Require Import Prelude Profiler StdAlgo MemStore AddrTransController AbstractMem.
From S2P Require AddrRange Request Packet LockedAddr.
#[global] Open Scope Z_scope.

Module Pkt := Packet.
Module Req := Request.
Module Lock := LockedAddr.

Inductive DrainState := Running | Draining | Drained.

(** What the memory sends through its port, and to the drain manager. *)
Inductive output := SentRetry | SentResp (pkt : Pkt.Packet) | SentDrainDone.

Record SimpleMemory := MkSimpleMemory {
  sys : Sys MemSt;
  profBase : Profiler;
  range : AddrRange.AddrRange;
  lockedAddrList : list Lock.LockedAddr;
  bytesRead : gmap Z Z;
  bytesInstRead : gmap Z Z;
  bytesWritten : gmap Z Z;
  numReads : gmap Z Z;
  numWrites : gmap Z Z;
  numOther : gmap Z Z;
  numDirtyNVMBlocks : Z;
  numDirtyNVMPages : Z;
  numDirtyDRAMPages : Z;
  numPagesToDRAM : Z;
  numPagesToNVM : Z;
  bytesChannel : Z;
  bytesInterChannel : Z;
  ckBusUtil : Z;
  latency_var : Z;
  bandwidth : Q;
  wbBandwidth : Q;
  isBusy : bool;
  waitStart : Z;
  ckptStart : Z;
  retryReq : bool;
  retryResp : bool;
  releaseEvent : option Z;
  freezeEvent : option Z;
  unfreezeEvent : option Z;
  dequeueEvent : option Z;
  packetQueue : list (Z * Pkt.Packet);
  pendingDelete : list Pkt.Packet;
  drainManager : bool;
  drainState : DrainState;
  extraRespLatency : Z;
  totalCkptTime : Z;
  totalWaitTime : Z;
  curTick : Z;
  sent : list output;
}.

Definition set_sys (v : Sys MemSt) (r : SimpleMemory) : SimpleMemory :=
  {| sys := v; profBase := profBase r; range := range r; lockedAddrList :=
     lockedAddrList r; bytesRead := bytesRead r; bytesInstRead :=
     bytesInstRead r; bytesWritten := bytesWritten r; numReads := numReads r;
     numWrites := numWrites r; numOther := numOther r; numDirtyNVMBlocks :=
     numDirtyNVMBlocks r; numDirtyNVMPages := numDirtyNVMPages r;
     numDirtyDRAMPages := numDirtyDRAMPages r; numPagesToDRAM :=
     numPagesToDRAM r; numPagesToNVM := numPagesToNVM r; bytesChannel :=
     bytesChannel r; bytesInterChannel := bytesInterChannel r; ckBusUtil :=
     ckBusUtil r; latency_var := latency_var r; bandwidth := bandwidth r;
     wbBandwidth := wbBandwidth r; isBusy := isBusy r; waitStart := waitStart
     r; ckptStart := ckptStart r; retryReq := retryReq r; retryResp :=
     retryResp r; releaseEvent := releaseEvent r; freezeEvent := freezeEvent
     r; unfreezeEvent := unfreezeEvent r; dequeueEvent := dequeueEvent r;
     packetQueue := packetQueue r; pendingDelete := pendingDelete r;
     drainManager := drainManager r; drainState := drainState r;
     extraRespLatency := extraRespLatency r; totalCkptTime := totalCkptTime r;
     totalWaitTime := totalWaitTime r; curTick := curTick r; sent := sent r
     |}.
Definition set_profBase (v : Profiler) (r : SimpleMemory) : SimpleMemory :=
  {| sys := sys r; profBase := v; range := range r; lockedAddrList :=
     lockedAddrList r; bytesRead := bytesRead r; bytesInstRead :=
     bytesInstRead r; bytesWritten := bytesWritten r; numReads := numReads r;
     numWrites := numWrites r; numOther := numOther r; numDirtyNVMBlocks :=
     numDirtyNVMBlocks r; numDirtyNVMPages := numDirtyNVMPages r;
     numDirtyDRAMPages := numDirtyDRAMPages r; numPagesToDRAM :=
     numPagesToDRAM r; numPagesToNVM := numPagesToNVM r; bytesChannel :=
     bytesChannel r; bytesInterChannel := bytesInterChannel r; ckBusUtil :=
     ckBusUtil r; latency_var := latency_var r; bandwidth := bandwidth r;
     wbBandwidth := wbBandwidth r; isBusy := isBusy r; waitStart := waitStart
     r; ckptStart := ckptStart r; retryReq := retryReq r; retryResp :=
     retryResp r; releaseEvent := releaseEvent r; freezeEvent := freezeEvent
     r; unfreezeEvent := unfreezeEvent r; dequeueEvent := dequeueEvent r;
     packetQueue := packetQueue r; pendingDelete := pendingDelete r;
     drainManager := drainManager r; drainState := drainState r;
     extraRespLatency := extraRespLatency r; totalCkptTime := totalCkptTime r;
     totalWaitTime := totalWaitTime r; curTick := curTick r; sent := sent r
     |}.
Definition set_range (v : AddrRange.AddrRange) (r : SimpleMemory) : SimpleMemory :=
  {| sys := sys r; profBase := profBase r; range := v; lockedAddrList :=
     lockedAddrList r; bytesRead := bytesRead r; bytesInstRead :=
     bytesInstRead r; bytesWritten := bytesWritten r; numReads := numReads r;
     numWrites := numWrites r; numOther := numOther r; numDirtyNVMBlocks :=
     numDirtyNVMBlocks r; numDirtyNVMPages := numDirtyNVMPages r;
     numDirtyDRAMPages := numDirtyDRAMPages r; numPagesToDRAM :=
     numPagesToDRAM r; numPagesToNVM := numPagesToNVM r; bytesChannel :=
     bytesChannel r; bytesInterChannel := bytesInterChannel r; ckBusUtil :=
     ckBusUtil r; latency_var := latency_var r; bandwidth := bandwidth r;
     wbBandwidth := wbBandwidth r; isBusy := isBusy r; waitStart := waitStart
     r; ckptStart := ckptStart r; retryReq := retryReq r; retryResp :=
     retryResp r; releaseEvent := releaseEvent r; freezeEvent := freezeEvent
     r; unfreezeEvent := unfreezeEvent r; dequeueEvent := dequeueEvent r;
     packetQueue := packetQueue r; pendingDelete := pendingDelete r;
     drainManager := drainManager r; drainState := drainState r;
     extraRespLatency := extraRespLatency r; totalCkptTime := totalCkptTime r;
     totalWaitTime := totalWaitTime r; curTick := curTick r; sent := sent r
     |}.
Definition set_lockedAddrList (v : list Lock.LockedAddr) (r : SimpleMemory) : SimpleMemory :=
  {| sys := sys r; profBase := profBase r; range := range r; lockedAddrList :=
     v; bytesRead := bytesRead r; bytesInstRead := bytesInstRead r;
     bytesWritten := bytesWritten r; numReads := numReads r; numWrites :=
     numWrites r; numOther := numOther r; numDirtyNVMBlocks :=
     numDirtyNVMBlocks r; numDirtyNVMPages := numDirtyNVMPages r;
     numDirtyDRAMPages := numDirtyDRAMPages r; numPagesToDRAM :=
     numPagesToDRAM r; numPagesToNVM := numPagesToNVM r; bytesChannel :=
     bytesChannel r; bytesInterChannel := bytesInterChannel r; ckBusUtil :=
     ckBusUtil r; latency_var := latency_var r; bandwidth := bandwidth r;
     wbBandwidth := wbBandwidth r; isBusy := isBusy r; waitStart := waitStart
     r; ckptStart := ckptStart r; retryReq := retryReq r; retryResp :=
     retryResp r; releaseEvent := releaseEvent r; freezeEvent := freezeEvent
     r; unfreezeEvent := unfreezeEvent r; dequeueEvent := dequeueEvent r;
     packetQueue := packetQueue r; pendingDelete := pendingDelete r;
     drainManager := drainManager r; drainState := drainState r;
     extraRespLatency := extraRespLatency r; totalCkptTime := totalCkptTime r;
     totalWaitTime := totalWaitTime r; curTick := curTick r; sent := sent r
     |}.
Definition set_bytesRead (v : gmap Z Z) (r : SimpleMemory) : SimpleMemory :=
  {| sys := sys r; profBase := profBase r; range := range r; lockedAddrList :=
     lockedAddrList r; bytesRead := v; bytesInstRead := bytesInstRead r;
     bytesWritten := bytesWritten r; numReads := numReads r; numWrites :=
     numWrites r; numOther := numOther r; numDirtyNVMBlocks :=
     numDirtyNVMBlocks r; numDirtyNVMPages := numDirtyNVMPages r;
     numDirtyDRAMPages := numDirtyDRAMPages r; numPagesToDRAM :=
     numPagesToDRAM r; numPagesToNVM := numPagesToNVM r; bytesChannel :=
     bytesChannel r; bytesInterChannel := bytesInterChannel r; ckBusUtil :=
     ckBusUtil r; latency_var := latency_var r; bandwidth := bandwidth r;
     wbBandwidth := wbBandwidth r; isBusy := isBusy r; waitStart := waitStart
     r; ckptStart := ckptStart r; retryReq := retryReq r; retryResp :=
     retryResp r; releaseEvent := releaseEvent r; freezeEvent := freezeEvent
     r; unfreezeEvent := unfreezeEvent r; dequeueEvent := dequeueEvent r;
     packetQueue := packetQueue r; pendingDelete := pendingDelete r;
     drainManager := drainManager r; drainState := drainState r;
     extraRespLatency := extraRespLatency r; totalCkptTime := totalCkptTime r;
     totalWaitTime := totalWaitTime r; curTick := curTick r; sent := sent r
     |}.
Definition set_bytesInstRead (v : gmap Z Z) (r : SimpleMemory) : SimpleMemory :=
  {| sys := sys r; profBase := profBase r; range := range r; lockedAddrList :=
     lockedAddrList r; bytesRead := bytesRead r; bytesInstRead := v;
     bytesWritten := bytesWritten r; numReads := numReads r; numWrites :=
     numWrites r; numOther := numOther r; numDirtyNVMBlocks :=
     numDirtyNVMBlocks r; numDirtyNVMPages := numDirtyNVMPages r;
     numDirtyDRAMPages := numDirtyDRAMPages r; numPagesToDRAM :=
     numPagesToDRAM r; numPagesToNVM := numPagesToNVM r; bytesChannel :=
     bytesChannel r; bytesInterChannel := bytesInterChannel r; ckBusUtil :=
     ckBusUtil r; latency_var := latency_var r; bandwidth := bandwidth r;
     wbBandwidth := wbBandwidth r; isBusy := isBusy r; waitStart := waitStart
     r; ckptStart := ckptStart r; retryReq := retryReq r; retryResp :=
     retryResp r; releaseEvent := releaseEvent r; freezeEvent := freezeEvent
     r; unfreezeEvent := unfreezeEvent r; dequeueEvent := dequeueEvent r;
     packetQueue := packetQueue r; pendingDelete := pendingDelete r;
     drainManager := drainManager r; drainState := drainState r;
     extraRespLatency := extraRespLatency r; totalCkptTime := totalCkptTime r;
     totalWaitTime := totalWaitTime r; curTick := curTick r; sent := sent r
     |}.
Definition set_bytesWritten (v : gmap Z Z) (r : SimpleMemory) : SimpleMemory :=
  {| sys := sys r; profBase := profBase r; range := range r; lockedAddrList :=
     lockedAddrList r; bytesRead := bytesRead r; bytesInstRead :=
     bytesInstRead r; bytesWritten := v; numReads := numReads r; numWrites :=
     numWrites r; numOther := numOther r; numDirtyNVMBlocks :=
     numDirtyNVMBlocks r; numDirtyNVMPages := numDirtyNVMPages r;
     numDirtyDRAMPages := numDirtyDRAMPages r; numPagesToDRAM :=
     numPagesToDRAM r; numPagesToNVM := numPagesToNVM r; bytesChannel :=
     bytesChannel r; bytesInterChannel := bytesInterChannel r; ckBusUtil :=
     ckBusUtil r; latency_var := latency_var r; bandwidth := bandwidth r;
     wbBandwidth := wbBandwidth r; isBusy := isBusy r; waitStart := waitStart
     r; ckptStart := ckptStart r; retryReq := retryReq r; retryResp :=
     retryResp r; releaseEvent := releaseEvent r; freezeEvent := freezeEvent
     r; unfreezeEvent := unfreezeEvent r; dequeueEvent := dequeueEvent r;
     packetQueue := packetQueue r; pendingDelete := pendingDelete r;
     drainManager := drainManager r; drainState := drainState r;
     extraRespLatency := extraRespLatency r; totalCkptTime := totalCkptTime r;
     totalWaitTime := totalWaitTime r; curTick := curTick r; sent := sent r
     |}.
Definition set_numReads (v : gmap Z Z) (r : SimpleMemory) : SimpleMemory :=
  {| sys := sys r; profBase := profBase r; range := range r; lockedAddrList :=
     lockedAddrList r; bytesRead := bytesRead r; bytesInstRead :=
     bytesInstRead r; bytesWritten := bytesWritten r; numReads := v; numWrites
     := numWrites r; numOther := numOther r; numDirtyNVMBlocks :=
     numDirtyNVMBlocks r; numDirtyNVMPages := numDirtyNVMPages r;
     numDirtyDRAMPages := numDirtyDRAMPages r; numPagesToDRAM :=
     numPagesToDRAM r; numPagesToNVM := numPagesToNVM r; bytesChannel :=
     bytesChannel r; bytesInterChannel := bytesInterChannel r; ckBusUtil :=
     ckBusUtil r; latency_var := latency_var r; bandwidth := bandwidth r;
     wbBandwidth := wbBandwidth r; isBusy := isBusy r; waitStart := waitStart
     r; ckptStart := ckptStart r; retryReq := retryReq r; retryResp :=
     retryResp r; releaseEvent := releaseEvent r; freezeEvent := freezeEvent
     r; unfreezeEvent := unfreezeEvent r; dequeueEvent := dequeueEvent r;
     packetQueue := packetQueue r; pendingDelete := pendingDelete r;
     drainManager := drainManager r; drainState := drainState r;
     extraRespLatency := extraRespLatency r; totalCkptTime := totalCkptTime r;
     totalWaitTime := totalWaitTime r; curTick := curTick r; sent := sent r
     |}.
Definition set_numWrites (v : gmap Z Z) (r : SimpleMemory) : SimpleMemory :=
  {| sys := sys r; profBase := profBase r; range := range r; lockedAddrList :=
     lockedAddrList r; bytesRead := bytesRead r; bytesInstRead :=
     bytesInstRead r; bytesWritten := bytesWritten r; numReads := numReads r;
     numWrites := v; numOther := numOther r; numDirtyNVMBlocks :=
     numDirtyNVMBlocks r; numDirtyNVMPages := numDirtyNVMPages r;
     numDirtyDRAMPages := numDirtyDRAMPages r; numPagesToDRAM :=
     numPagesToDRAM r; numPagesToNVM := numPagesToNVM r; bytesChannel :=
     bytesChannel r; bytesInterChannel := bytesInterChannel r; ckBusUtil :=
     ckBusUtil r; latency_var := latency_var r; bandwidth := bandwidth r;
     wbBandwidth := wbBandwidth r; isBusy := isBusy r; waitStart := waitStart
     r; ckptStart := ckptStart r; retryReq := retryReq r; retryResp :=
     retryResp r; releaseEvent := releaseEvent r; freezeEvent := freezeEvent
     r; unfreezeEvent := unfreezeEvent r; dequeueEvent := dequeueEvent r;
     packetQueue := packetQueue r; pendingDelete := pendingDelete r;
     drainManager := drainManager r; drainState := drainState r;
     extraRespLatency := extraRespLatency r; totalCkptTime := totalCkptTime r;
     totalWaitTime := totalWaitTime r; curTick := curTick r; sent := sent r
     |}.
Definition set_numOther (v : gmap Z Z) (r : SimpleMemory) : SimpleMemory :=
  {| sys := sys r; profBase := profBase r; range := range r; lockedAddrList :=
     lockedAddrList r; bytesRead := bytesRead r; bytesInstRead :=
     bytesInstRead r; bytesWritten := bytesWritten r; numReads := numReads r;
     numWrites := numWrites r; numOther := v; numDirtyNVMBlocks :=
     numDirtyNVMBlocks r; numDirtyNVMPages := numDirtyNVMPages r;
     numDirtyDRAMPages := numDirtyDRAMPages r; numPagesToDRAM :=
     numPagesToDRAM r; numPagesToNVM := numPagesToNVM r; bytesChannel :=
     bytesChannel r; bytesInterChannel := bytesInterChannel r; ckBusUtil :=
     ckBusUtil r; latency_var := latency_var r; bandwidth := bandwidth r;
     wbBandwidth := wbBandwidth r; isBusy := isBusy r; waitStart := waitStart
     r; ckptStart := ckptStart r; retryReq := retryReq r; retryResp :=
     retryResp r; releaseEvent := releaseEvent r; freezeEvent := freezeEvent
     r; unfreezeEvent := unfreezeEvent r; dequeueEvent := dequeueEvent r;
     packetQueue := packetQueue r; pendingDelete := pendingDelete r;
     drainManager := drainManager r; drainState := drainState r;
     extraRespLatency := extraRespLatency r; totalCkptTime := totalCkptTime r;
     totalWaitTime := totalWaitTime r; curTick := curTick r; sent := sent r
     |}.
Definition set_numDirtyNVMBlocks (v : Z) (r : SimpleMemory) : SimpleMemory :=
  {| sys := sys r; profBase := profBase r; range := range r; lockedAddrList :=
     lockedAddrList r; bytesRead := bytesRead r; bytesInstRead :=
     bytesInstRead r; bytesWritten := bytesWritten r; numReads := numReads r;
     numWrites := numWrites r; numOther := numOther r; numDirtyNVMBlocks := v;
     numDirtyNVMPages := numDirtyNVMPages r; numDirtyDRAMPages :=
     numDirtyDRAMPages r; numPagesToDRAM := numPagesToDRAM r; numPagesToNVM :=
     numPagesToNVM r; bytesChannel := bytesChannel r; bytesInterChannel :=
     bytesInterChannel r; ckBusUtil := ckBusUtil r; latency_var := latency_var
     r; bandwidth := bandwidth r; wbBandwidth := wbBandwidth r; isBusy :=
     isBusy r; waitStart := waitStart r; ckptStart := ckptStart r; retryReq :=
     retryReq r; retryResp := retryResp r; releaseEvent := releaseEvent r;
     freezeEvent := freezeEvent r; unfreezeEvent := unfreezeEvent r;
     dequeueEvent := dequeueEvent r; packetQueue := packetQueue r;
     pendingDelete := pendingDelete r; drainManager := drainManager r;
     drainState := drainState r; extraRespLatency := extraRespLatency r;
     totalCkptTime := totalCkptTime r; totalWaitTime := totalWaitTime r;
     curTick := curTick r; sent := sent r |}.
Definition set_numDirtyNVMPages (v : Z) (r : SimpleMemory) : SimpleMemory :=
  {| sys := sys r; profBase := profBase r; range := range r; lockedAddrList :=
     lockedAddrList r; bytesRead := bytesRead r; bytesInstRead :=
     bytesInstRead r; bytesWritten := bytesWritten r; numReads := numReads r;
     numWrites := numWrites r; numOther := numOther r; numDirtyNVMBlocks :=
     numDirtyNVMBlocks r; numDirtyNVMPages := v; numDirtyDRAMPages :=
     numDirtyDRAMPages r; numPagesToDRAM := numPagesToDRAM r; numPagesToNVM :=
     numPagesToNVM r; bytesChannel := bytesChannel r; bytesInterChannel :=
     bytesInterChannel r; ckBusUtil := ckBusUtil r; latency_var := latency_var
     r; bandwidth := bandwidth r; wbBandwidth := wbBandwidth r; isBusy :=
     isBusy r; waitStart := waitStart r; ckptStart := ckptStart r; retryReq :=
     retryReq r; retryResp := retryResp r; releaseEvent := releaseEvent r;
     freezeEvent := freezeEvent r; unfreezeEvent := unfreezeEvent r;
     dequeueEvent := dequeueEvent r; packetQueue := packetQueue r;
     pendingDelete := pendingDelete r; drainManager := drainManager r;
     drainState := drainState r; extraRespLatency := extraRespLatency r;
     totalCkptTime := totalCkptTime r; totalWaitTime := totalWaitTime r;
     curTick := curTick r; sent := sent r |}.
Definition set_numDirtyDRAMPages (v : Z) (r : SimpleMemory) : SimpleMemory :=
  {| sys := sys r; profBase := profBase r; range := range r; lockedAddrList :=
     lockedAddrList r; bytesRead := bytesRead r; bytesInstRead :=
     bytesInstRead r; bytesWritten := bytesWritten r; numReads := numReads r;
     numWrites := numWrites r; numOther := numOther r; numDirtyNVMBlocks :=
     numDirtyNVMBlocks r; numDirtyNVMPages := numDirtyNVMPages r;
     numDirtyDRAMPages := v; numPagesToDRAM := numPagesToDRAM r; numPagesToNVM
     := numPagesToNVM r; bytesChannel := bytesChannel r; bytesInterChannel :=
     bytesInterChannel r; ckBusUtil := ckBusUtil r; latency_var := latency_var
     r; bandwidth := bandwidth r; wbBandwidth := wbBandwidth r; isBusy :=
     isBusy r; waitStart := waitStart r; ckptStart := ckptStart r; retryReq :=
     retryReq r; retryResp := retryResp r; releaseEvent := releaseEvent r;
     freezeEvent := freezeEvent r; unfreezeEvent := unfreezeEvent r;
     dequeueEvent := dequeueEvent r; packetQueue := packetQueue r;
     pendingDelete := pendingDelete r; drainManager := drainManager r;
     drainState := drainState r; extraRespLatency := extraRespLatency r;
     totalCkptTime := totalCkptTime r; totalWaitTime := totalWaitTime r;
     curTick := curTick r; sent := sent r |}.
Definition set_numPagesToDRAM (v : Z) (r : SimpleMemory) : SimpleMemory :=
  {| sys := sys r; profBase := profBase r; range := range r; lockedAddrList :=
     lockedAddrList r; bytesRead := bytesRead r; bytesInstRead :=
     bytesInstRead r; bytesWritten := bytesWritten r; numReads := numReads r;
     numWrites := numWrites r; numOther := numOther r; numDirtyNVMBlocks :=
     numDirtyNVMBlocks r; numDirtyNVMPages := numDirtyNVMPages r;
     numDirtyDRAMPages := numDirtyDRAMPages r; numPagesToDRAM := v;
     numPagesToNVM := numPagesToNVM r; bytesChannel := bytesChannel r;
     bytesInterChannel := bytesInterChannel r; ckBusUtil := ckBusUtil r;
     latency_var := latency_var r; bandwidth := bandwidth r; wbBandwidth :=
     wbBandwidth r; isBusy := isBusy r; waitStart := waitStart r; ckptStart :=
     ckptStart r; retryReq := retryReq r; retryResp := retryResp r;
     releaseEvent := releaseEvent r; freezeEvent := freezeEvent r;
     unfreezeEvent := unfreezeEvent r; dequeueEvent := dequeueEvent r;
     packetQueue := packetQueue r; pendingDelete := pendingDelete r;
     drainManager := drainManager r; drainState := drainState r;
     extraRespLatency := extraRespLatency r; totalCkptTime := totalCkptTime r;
     totalWaitTime := totalWaitTime r; curTick := curTick r; sent := sent r
     |}.
Definition set_numPagesToNVM (v : Z) (r : SimpleMemory) : SimpleMemory :=
  {| sys := sys r; profBase := profBase r; range := range r; lockedAddrList :=
     lockedAddrList r; bytesRead := bytesRead r; bytesInstRead :=
     bytesInstRead r; bytesWritten := bytesWritten r; numReads := numReads r;
     numWrites := numWrites r; numOther := numOther r; numDirtyNVMBlocks :=
     numDirtyNVMBlocks r; numDirtyNVMPages := numDirtyNVMPages r;
     numDirtyDRAMPages := numDirtyDRAMPages r; numPagesToDRAM :=
     numPagesToDRAM r; numPagesToNVM := v; bytesChannel := bytesChannel r;
     bytesInterChannel := bytesInterChannel r; ckBusUtil := ckBusUtil r;
     latency_var := latency_var r; bandwidth := bandwidth r; wbBandwidth :=
     wbBandwidth r; isBusy := isBusy r; waitStart := waitStart r; ckptStart :=
     ckptStart r; retryReq := retryReq r; retryResp := retryResp r;
     releaseEvent := releaseEvent r; freezeEvent := freezeEvent r;
     unfreezeEvent := unfreezeEvent r; dequeueEvent := dequeueEvent r;
     packetQueue := packetQueue r; pendingDelete := pendingDelete r;
     drainManager := drainManager r; drainState := drainState r;
     extraRespLatency := extraRespLatency r; totalCkptTime := totalCkptTime r;
     totalWaitTime := totalWaitTime r; curTick := curTick r; sent := sent r
     |}.
Definition set_bytesChannel (v : Z) (r : SimpleMemory) : SimpleMemory :=
  {| sys := sys r; profBase := profBase r; range := range r; lockedAddrList :=
     lockedAddrList r; bytesRead := bytesRead r; bytesInstRead :=
     bytesInstRead r; bytesWritten := bytesWritten r; numReads := numReads r;
     numWrites := numWrites r; numOther := numOther r; numDirtyNVMBlocks :=
     numDirtyNVMBlocks r; numDirtyNVMPages := numDirtyNVMPages r;
     numDirtyDRAMPages := numDirtyDRAMPages r; numPagesToDRAM :=
     numPagesToDRAM r; numPagesToNVM := numPagesToNVM r; bytesChannel := v;
     bytesInterChannel := bytesInterChannel r; ckBusUtil := ckBusUtil r;
     latency_var := latency_var r; bandwidth := bandwidth r; wbBandwidth :=
     wbBandwidth r; isBusy := isBusy r; waitStart := waitStart r; ckptStart :=
     ckptStart r; retryReq := retryReq r; retryResp := retryResp r;
     releaseEvent := releaseEvent r; freezeEvent := freezeEvent r;
     unfreezeEvent := unfreezeEvent r; dequeueEvent := dequeueEvent r;
     packetQueue := packetQueue r; pendingDelete := pendingDelete r;
     drainManager := drainManager r; drainState := drainState r;
     extraRespLatency := extraRespLatency r; totalCkptTime := totalCkptTime r;
     totalWaitTime := totalWaitTime r; curTick := curTick r; sent := sent r
     |}.
Definition set_bytesInterChannel (v : Z) (r : SimpleMemory) : SimpleMemory :=
  {| sys := sys r; profBase := profBase r; range := range r; lockedAddrList :=
     lockedAddrList r; bytesRead := bytesRead r; bytesInstRead :=
     bytesInstRead r; bytesWritten := bytesWritten r; numReads := numReads r;
     numWrites := numWrites r; numOther := numOther r; numDirtyNVMBlocks :=
     numDirtyNVMBlocks r; numDirtyNVMPages := numDirtyNVMPages r;
     numDirtyDRAMPages := numDirtyDRAMPages r; numPagesToDRAM :=
     numPagesToDRAM r; numPagesToNVM := numPagesToNVM r; bytesChannel :=
     bytesChannel r; bytesInterChannel := v; ckBusUtil := ckBusUtil r;
     latency_var := latency_var r; bandwidth := bandwidth r; wbBandwidth :=
     wbBandwidth r; isBusy := isBusy r; waitStart := waitStart r; ckptStart :=
     ckptStart r; retryReq := retryReq r; retryResp := retryResp r;
     releaseEvent := releaseEvent r; freezeEvent := freezeEvent r;
     unfreezeEvent := unfreezeEvent r; dequeueEvent := dequeueEvent r;
     packetQueue := packetQueue r; pendingDelete := pendingDelete r;
     drainManager := drainManager r; drainState := drainState r;
     extraRespLatency := extraRespLatency r; totalCkptTime := totalCkptTime r;
     totalWaitTime := totalWaitTime r; curTick := curTick r; sent := sent r
     |}.
Definition set_ckBusUtil (v : Z) (r : SimpleMemory) : SimpleMemory :=
  {| sys := sys r; profBase := profBase r; range := range r; lockedAddrList :=
     lockedAddrList r; bytesRead := bytesRead r; bytesInstRead :=
     bytesInstRead r; bytesWritten := bytesWritten r; numReads := numReads r;
     numWrites := numWrites r; numOther := numOther r; numDirtyNVMBlocks :=
     numDirtyNVMBlocks r; numDirtyNVMPages := numDirtyNVMPages r;
     numDirtyDRAMPages := numDirtyDRAMPages r; numPagesToDRAM :=
     numPagesToDRAM r; numPagesToNVM := numPagesToNVM r; bytesChannel :=
     bytesChannel r; bytesInterChannel := bytesInterChannel r; ckBusUtil := v;
     latency_var := latency_var r; bandwidth := bandwidth r; wbBandwidth :=
     wbBandwidth r; isBusy := isBusy r; waitStart := waitStart r; ckptStart :=
     ckptStart r; retryReq := retryReq r; retryResp := retryResp r;
     releaseEvent := releaseEvent r; freezeEvent := freezeEvent r;
     unfreezeEvent := unfreezeEvent r; dequeueEvent := dequeueEvent r;
     packetQueue := packetQueue r; pendingDelete := pendingDelete r;
     drainManager := drainManager r; drainState := drainState r;
     extraRespLatency := extraRespLatency r; totalCkptTime := totalCkptTime r;
     totalWaitTime := totalWaitTime r; curTick := curTick r; sent := sent r
     |}.
Definition set_latency_var (v : Z) (r : SimpleMemory) : SimpleMemory :=
  {| sys := sys r; profBase := profBase r; range := range r; lockedAddrList :=
     lockedAddrList r; bytesRead := bytesRead r; bytesInstRead :=
     bytesInstRead r; bytesWritten := bytesWritten r; numReads := numReads r;
     numWrites := numWrites r; numOther := numOther r; numDirtyNVMBlocks :=
     numDirtyNVMBlocks r; numDirtyNVMPages := numDirtyNVMPages r;
     numDirtyDRAMPages := numDirtyDRAMPages r; numPagesToDRAM :=
     numPagesToDRAM r; numPagesToNVM := numPagesToNVM r; bytesChannel :=
     bytesChannel r; bytesInterChannel := bytesInterChannel r; ckBusUtil :=
     ckBusUtil r; latency_var := v; bandwidth := bandwidth r; wbBandwidth :=
     wbBandwidth r; isBusy := isBusy r; waitStart := waitStart r; ckptStart :=
     ckptStart r; retryReq := retryReq r; retryResp := retryResp r;
     releaseEvent := releaseEvent r; freezeEvent := freezeEvent r;
     unfreezeEvent := unfreezeEvent r; dequeueEvent := dequeueEvent r;
     packetQueue := packetQueue r; pendingDelete := pendingDelete r;
     drainManager := drainManager r; drainState := drainState r;
     extraRespLatency := extraRespLatency r; totalCkptTime := totalCkptTime r;
     totalWaitTime := totalWaitTime r; curTick := curTick r; sent := sent r
     |}.
Definition set_bandwidth (v : Q) (r : SimpleMemory) : SimpleMemory :=
  {| sys := sys r; profBase := profBase r; range := range r; lockedAddrList :=
     lockedAddrList r; bytesRead := bytesRead r; bytesInstRead :=
     bytesInstRead r; bytesWritten := bytesWritten r; numReads := numReads r;
     numWrites := numWrites r; numOther := numOther r; numDirtyNVMBlocks :=
     numDirtyNVMBlocks r; numDirtyNVMPages := numDirtyNVMPages r;
     numDirtyDRAMPages := numDirtyDRAMPages r; numPagesToDRAM :=
     numPagesToDRAM r; numPagesToNVM := numPagesToNVM r; bytesChannel :=
     bytesChannel r; bytesInterChannel := bytesInterChannel r; ckBusUtil :=
     ckBusUtil r; latency_var := latency_var r; bandwidth := v; wbBandwidth :=
     wbBandwidth r; isBusy := isBusy r; waitStart := waitStart r; ckptStart :=
     ckptStart r; retryReq := retryReq r; retryResp := retryResp r;
     releaseEvent := releaseEvent r; freezeEvent := freezeEvent r;
     unfreezeEvent := unfreezeEvent r; dequeueEvent := dequeueEvent r;
     packetQueue := packetQueue r; pendingDelete := pendingDelete r;
     drainManager := drainManager r; drainState := drainState r;
     extraRespLatency := extraRespLatency r; totalCkptTime := totalCkptTime r;
     totalWaitTime := totalWaitTime r; curTick := curTick r; sent := sent r
     |}.
Definition set_wbBandwidth (v : Q) (r : SimpleMemory) : SimpleMemory :=
  {| sys := sys r; profBase := profBase r; range := range r; lockedAddrList :=
     lockedAddrList r; bytesRead := bytesRead r; bytesInstRead :=
     bytesInstRead r; bytesWritten := bytesWritten r; numReads := numReads r;
     numWrites := numWrites r; numOther := numOther r; numDirtyNVMBlocks :=
     numDirtyNVMBlocks r; numDirtyNVMPages := numDirtyNVMPages r;
     numDirtyDRAMPages := numDirtyDRAMPages r; numPagesToDRAM :=
     numPagesToDRAM r; numPagesToNVM := numPagesToNVM r; bytesChannel :=
     bytesChannel r; bytesInterChannel := bytesInterChannel r; ckBusUtil :=
     ckBusUtil r; latency_var := latency_var r; bandwidth := bandwidth r;
     wbBandwidth := v; isBusy := isBusy r; waitStart := waitStart r; ckptStart
     := ckptStart r; retryReq := retryReq r; retryResp := retryResp r;
     releaseEvent := releaseEvent r; freezeEvent := freezeEvent r;
     unfreezeEvent := unfreezeEvent r; dequeueEvent := dequeueEvent r;
     packetQueue := packetQueue r; pendingDelete := pendingDelete r;
     drainManager := drainManager r; drainState := drainState r;
     extraRespLatency := extraRespLatency r; totalCkptTime := totalCkptTime r;
     totalWaitTime := totalWaitTime r; curTick := curTick r; sent := sent r
     |}.
Definition set_isBusy (v : bool) (r : SimpleMemory) : SimpleMemory :=
  {| sys := sys r; profBase := profBase r; range := range r; lockedAddrList :=
     lockedAddrList r; bytesRead := bytesRead r; bytesInstRead :=
     bytesInstRead r; bytesWritten := bytesWritten r; numReads := numReads r;
     numWrites := numWrites r; numOther := numOther r; numDirtyNVMBlocks :=
     numDirtyNVMBlocks r; numDirtyNVMPages := numDirtyNVMPages r;
     numDirtyDRAMPages := numDirtyDRAMPages r; numPagesToDRAM :=
     numPagesToDRAM r; numPagesToNVM := numPagesToNVM r; bytesChannel :=
     bytesChannel r; bytesInterChannel := bytesInterChannel r; ckBusUtil :=
     ckBusUtil r; latency_var := latency_var r; bandwidth := bandwidth r;
     wbBandwidth := wbBandwidth r; isBusy := v; waitStart := waitStart r;
     ckptStart := ckptStart r; retryReq := retryReq r; retryResp := retryResp
     r; releaseEvent := releaseEvent r; freezeEvent := freezeEvent r;
     unfreezeEvent := unfreezeEvent r; dequeueEvent := dequeueEvent r;
     packetQueue := packetQueue r; pendingDelete := pendingDelete r;
     drainManager := drainManager r; drainState := drainState r;
     extraRespLatency := extraRespLatency r; totalCkptTime := totalCkptTime r;
     totalWaitTime := totalWaitTime r; curTick := curTick r; sent := sent r
     |}.
Definition set_waitStart (v : Z) (r : SimpleMemory) : SimpleMemory :=
  {| sys := sys r; profBase := profBase r; range := range r; lockedAddrList :=
     lockedAddrList r; bytesRead := bytesRead r; bytesInstRead :=
     bytesInstRead r; bytesWritten := bytesWritten r; numReads := numReads r;
     numWrites := numWrites r; numOther := numOther r; numDirtyNVMBlocks :=
     numDirtyNVMBlocks r; numDirtyNVMPages := numDirtyNVMPages r;
     numDirtyDRAMPages := numDirtyDRAMPages r; numPagesToDRAM :=
     numPagesToDRAM r; numPagesToNVM := numPagesToNVM r; bytesChannel :=
     bytesChannel r; bytesInterChannel := bytesInterChannel r; ckBusUtil :=
     ckBusUtil r; latency_var := latency_var r; bandwidth := bandwidth r;
     wbBandwidth := wbBandwidth r; isBusy := isBusy r; waitStart := v;
     ckptStart := ckptStart r; retryReq := retryReq r; retryResp := retryResp
     r; releaseEvent := releaseEvent r; freezeEvent := freezeEvent r;
     unfreezeEvent := unfreezeEvent r; dequeueEvent := dequeueEvent r;
     packetQueue := packetQueue r; pendingDelete := pendingDelete r;
     drainManager := drainManager r; drainState := drainState r;
     extraRespLatency := extraRespLatency r; totalCkptTime := totalCkptTime r;
     totalWaitTime := totalWaitTime r; curTick := curTick r; sent := sent r
     |}.
Definition set_ckptStart (v : Z) (r : SimpleMemory) : SimpleMemory :=
  {| sys := sys r; profBase := profBase r; range := range r; lockedAddrList :=
     lockedAddrList r; bytesRead := bytesRead r; bytesInstRead :=
     bytesInstRead r; bytesWritten := bytesWritten r; numReads := numReads r;
     numWrites := numWrites r; numOther := numOther r; numDirtyNVMBlocks :=
     numDirtyNVMBlocks r; numDirtyNVMPages := numDirtyNVMPages r;
     numDirtyDRAMPages := numDirtyDRAMPages r; numPagesToDRAM :=
     numPagesToDRAM r; numPagesToNVM := numPagesToNVM r; bytesChannel :=
     bytesChannel r; bytesInterChannel := bytesInterChannel r; ckBusUtil :=
     ckBusUtil r; latency_var := latency_var r; bandwidth := bandwidth r;
     wbBandwidth := wbBandwidth r; isBusy := isBusy r; waitStart := waitStart
     r; ckptStart := v; retryReq := retryReq r; retryResp := retryResp r;
     releaseEvent := releaseEvent r; freezeEvent := freezeEvent r;
     unfreezeEvent := unfreezeEvent r; dequeueEvent := dequeueEvent r;
     packetQueue := packetQueue r; pendingDelete := pendingDelete r;
     drainManager := drainManager r; drainState := drainState r;
     extraRespLatency := extraRespLatency r; totalCkptTime := totalCkptTime r;
     totalWaitTime := totalWaitTime r; curTick := curTick r; sent := sent r
     |}.
Definition set_retryReq (v : bool) (r : SimpleMemory) : SimpleMemory :=
  {| sys := sys r; profBase := profBase r; range := range r; lockedAddrList :=
     lockedAddrList r; bytesRead := bytesRead r; bytesInstRead :=
     bytesInstRead r; bytesWritten := bytesWritten r; numReads := numReads r;
     numWrites := numWrites r; numOther := numOther r; numDirtyNVMBlocks :=
     numDirtyNVMBlocks r; numDirtyNVMPages := numDirtyNVMPages r;
     numDirtyDRAMPages := numDirtyDRAMPages r; numPagesToDRAM :=
     numPagesToDRAM r; numPagesToNVM := numPagesToNVM r; bytesChannel :=
     bytesChannel r; bytesInterChannel := bytesInterChannel r; ckBusUtil :=
     ckBusUtil r; latency_var := latency_var r; bandwidth := bandwidth r;
     wbBandwidth := wbBandwidth r; isBusy := isBusy r; waitStart := waitStart
     r; ckptStart := ckptStart r; retryReq := v; retryResp := retryResp r;
     releaseEvent := releaseEvent r; freezeEvent := freezeEvent r;
     unfreezeEvent := unfreezeEvent r; dequeueEvent := dequeueEvent r;
     packetQueue := packetQueue r; pendingDelete := pendingDelete r;
     drainManager := drainManager r; drainState := drainState r;
     extraRespLatency := extraRespLatency r; totalCkptTime := totalCkptTime r;
     totalWaitTime := totalWaitTime r; curTick := curTick r; sent := sent r
     |}.
Definition set_retryResp (v : bool) (r : SimpleMemory) : SimpleMemory :=
  {| sys := sys r; profBase := profBase r; range := range r; lockedAddrList :=
     lockedAddrList r; bytesRead := bytesRead r; bytesInstRead :=
     bytesInstRead r; bytesWritten := bytesWritten r; numReads := numReads r;
     numWrites := numWrites r; numOther := numOther r; numDirtyNVMBlocks :=
     numDirtyNVMBlocks r; numDirtyNVMPages := numDirtyNVMPages r;
     numDirtyDRAMPages := numDirtyDRAMPages r; numPagesToDRAM :=
     numPagesToDRAM r; numPagesToNVM := numPagesToNVM r; bytesChannel :=
     bytesChannel r; bytesInterChannel := bytesInterChannel r; ckBusUtil :=
     ckBusUtil r; latency_var := latency_var r; bandwidth := bandwidth r;
     wbBandwidth := wbBandwidth r; isBusy := isBusy r; waitStart := waitStart
     r; ckptStart := ckptStart r; retryReq := retryReq r; retryResp := v;
     releaseEvent := releaseEvent r; freezeEvent := freezeEvent r;
     unfreezeEvent := unfreezeEvent r; dequeueEvent := dequeueEvent r;
     packetQueue := packetQueue r; pendingDelete := pendingDelete r;
     drainManager := drainManager r; drainState := drainState r;
     extraRespLatency := extraRespLatency r; totalCkptTime := totalCkptTime r;
     totalWaitTime := totalWaitTime r; curTick := curTick r; sent := sent r
     |}.
Definition set_releaseEvent (v : option Z) (r : SimpleMemory) : SimpleMemory :=
  {| sys := sys r; profBase := profBase r; range := range r; lockedAddrList :=
     lockedAddrList r; bytesRead := bytesRead r; bytesInstRead :=
     bytesInstRead r; bytesWritten := bytesWritten r; numReads := numReads r;
     numWrites := numWrites r; numOther := numOther r; numDirtyNVMBlocks :=
     numDirtyNVMBlocks r; numDirtyNVMPages := numDirtyNVMPages r;
     numDirtyDRAMPages := numDirtyDRAMPages r; numPagesToDRAM :=
     numPagesToDRAM r; numPagesToNVM := numPagesToNVM r; bytesChannel :=
     bytesChannel r; bytesInterChannel := bytesInterChannel r; ckBusUtil :=
     ckBusUtil r; latency_var := latency_var r; bandwidth := bandwidth r;
     wbBandwidth := wbBandwidth r; isBusy := isBusy r; waitStart := waitStart
     r; ckptStart := ckptStart r; retryReq := retryReq r; retryResp :=
     retryResp r; releaseEvent := v; freezeEvent := freezeEvent r;
     unfreezeEvent := unfreezeEvent r; dequeueEvent := dequeueEvent r;
     packetQueue := packetQueue r; pendingDelete := pendingDelete r;
     drainManager := drainManager r; drainState := drainState r;
     extraRespLatency := extraRespLatency r; totalCkptTime := totalCkptTime r;
     totalWaitTime := totalWaitTime r; curTick := curTick r; sent := sent r
     |}.
Definition set_freezeEvent (v : option Z) (r : SimpleMemory) : SimpleMemory :=
  {| sys := sys r; profBase := profBase r; range := range r; lockedAddrList :=
     lockedAddrList r; bytesRead := bytesRead r; bytesInstRead :=
     bytesInstRead r; bytesWritten := bytesWritten r; numReads := numReads r;
     numWrites := numWrites r; numOther := numOther r; numDirtyNVMBlocks :=
     numDirtyNVMBlocks r; numDirtyNVMPages := numDirtyNVMPages r;
     numDirtyDRAMPages := numDirtyDRAMPages r; numPagesToDRAM :=
     numPagesToDRAM r; numPagesToNVM := numPagesToNVM r; bytesChannel :=
     bytesChannel r; bytesInterChannel := bytesInterChannel r; ckBusUtil :=
     ckBusUtil r; latency_var := latency_var r; bandwidth := bandwidth r;
     wbBandwidth := wbBandwidth r; isBusy := isBusy r; waitStart := waitStart
     r; ckptStart := ckptStart r; retryReq := retryReq r; retryResp :=
     retryResp r; releaseEvent := releaseEvent r; freezeEvent := v;
     unfreezeEvent := unfreezeEvent r; dequeueEvent := dequeueEvent r;
     packetQueue := packetQueue r; pendingDelete := pendingDelete r;
     drainManager := drainManager r; drainState := drainState r;
     extraRespLatency := extraRespLatency r; totalCkptTime := totalCkptTime r;
     totalWaitTime := totalWaitTime r; curTick := curTick r; sent := sent r
     |}.
Definition set_unfreezeEvent (v : option Z) (r : SimpleMemory) : SimpleMemory :=
  {| sys := sys r; profBase := profBase r; range := range r; lockedAddrList :=
     lockedAddrList r; bytesRead := bytesRead r; bytesInstRead :=
     bytesInstRead r; bytesWritten := bytesWritten r; numReads := numReads r;
     numWrites := numWrites r; numOther := numOther r; numDirtyNVMBlocks :=
     numDirtyNVMBlocks r; numDirtyNVMPages := numDirtyNVMPages r;
     numDirtyDRAMPages := numDirtyDRAMPages r; numPagesToDRAM :=
     numPagesToDRAM r; numPagesToNVM := numPagesToNVM r; bytesChannel :=
     bytesChannel r; bytesInterChannel := bytesInterChannel r; ckBusUtil :=
     ckBusUtil r; latency_var := latency_var r; bandwidth := bandwidth r;
     wbBandwidth := wbBandwidth r; isBusy := isBusy r; waitStart := waitStart
     r; ckptStart := ckptStart r; retryReq := retryReq r; retryResp :=
     retryResp r; releaseEvent := releaseEvent r; freezeEvent := freezeEvent
     r; unfreezeEvent := v; dequeueEvent := dequeueEvent r; packetQueue :=
     packetQueue r; pendingDelete := pendingDelete r; drainManager :=
     drainManager r; drainState := drainState r; extraRespLatency :=
     extraRespLatency r; totalCkptTime := totalCkptTime r; totalWaitTime :=
     totalWaitTime r; curTick := curTick r; sent := sent r |}.
Definition set_dequeueEvent (v : option Z) (r : SimpleMemory) : SimpleMemory :=
  {| sys := sys r; profBase := profBase r; range := range r; lockedAddrList :=
     lockedAddrList r; bytesRead := bytesRead r; bytesInstRead :=
     bytesInstRead r; bytesWritten := bytesWritten r; numReads := numReads r;
     numWrites := numWrites r; numOther := numOther r; numDirtyNVMBlocks :=
     numDirtyNVMBlocks r; numDirtyNVMPages := numDirtyNVMPages r;
     numDirtyDRAMPages := numDirtyDRAMPages r; numPagesToDRAM :=
     numPagesToDRAM r; numPagesToNVM := numPagesToNVM r; bytesChannel :=
     bytesChannel r; bytesInterChannel := bytesInterChannel r; ckBusUtil :=
     ckBusUtil r; latency_var := latency_var r; bandwidth := bandwidth r;
     wbBandwidth := wbBandwidth r; isBusy := isBusy r; waitStart := waitStart
     r; ckptStart := ckptStart r; retryReq := retryReq r; retryResp :=
     retryResp r; releaseEvent := releaseEvent r; freezeEvent := freezeEvent
     r; unfreezeEvent := unfreezeEvent r; dequeueEvent := v; packetQueue :=
     packetQueue r; pendingDelete := pendingDelete r; drainManager :=
     drainManager r; drainState := drainState r; extraRespLatency :=
     extraRespLatency r; totalCkptTime := totalCkptTime r; totalWaitTime :=
     totalWaitTime r; curTick := curTick r; sent := sent r |}.
Definition set_packetQueue (v : list (Z * Pkt.Packet)) (r : SimpleMemory) : SimpleMemory :=
  {| sys := sys r; profBase := profBase r; range := range r; lockedAddrList :=
     lockedAddrList r; bytesRead := bytesRead r; bytesInstRead :=
     bytesInstRead r; bytesWritten := bytesWritten r; numReads := numReads r;
     numWrites := numWrites r; numOther := numOther r; numDirtyNVMBlocks :=
     numDirtyNVMBlocks r; numDirtyNVMPages := numDirtyNVMPages r;
     numDirtyDRAMPages := numDirtyDRAMPages r; numPagesToDRAM :=
     numPagesToDRAM r; numPagesToNVM := numPagesToNVM r; bytesChannel :=
     bytesChannel r; bytesInterChannel := bytesInterChannel r; ckBusUtil :=
     ckBusUtil r; latency_var := latency_var r; bandwidth := bandwidth r;
     wbBandwidth := wbBandwidth r; isBusy := isBusy r; waitStart := waitStart
     r; ckptStart := ckptStart r; retryReq := retryReq r; retryResp :=
     retryResp r; releaseEvent := releaseEvent r; freezeEvent := freezeEvent
     r; unfreezeEvent := unfreezeEvent r; dequeueEvent := dequeueEvent r;
     packetQueue := v; pendingDelete := pendingDelete r; drainManager :=
     drainManager r; drainState := drainState r; extraRespLatency :=
     extraRespLatency r; totalCkptTime := totalCkptTime r; totalWaitTime :=
     totalWaitTime r; curTick := curTick r; sent := sent r |}.
Definition set_pendingDelete (v : list Pkt.Packet) (r : SimpleMemory) : SimpleMemory :=
  {| sys := sys r; profBase := profBase r; range := range r; lockedAddrList :=
     lockedAddrList r; bytesRead := bytesRead r; bytesInstRead :=
     bytesInstRead r; bytesWritten := bytesWritten r; numReads := numReads r;
     numWrites := numWrites r; numOther := numOther r; numDirtyNVMBlocks :=
     numDirtyNVMBlocks r; numDirtyNVMPages := numDirtyNVMPages r;
     numDirtyDRAMPages := numDirtyDRAMPages r; numPagesToDRAM :=
     numPagesToDRAM r; numPagesToNVM := numPagesToNVM r; bytesChannel :=
     bytesChannel r; bytesInterChannel := bytesInterChannel r; ckBusUtil :=
     ckBusUtil r; latency_var := latency_var r; bandwidth := bandwidth r;
     wbBandwidth := wbBandwidth r; isBusy := isBusy r; waitStart := waitStart
     r; ckptStart := ckptStart r; retryReq := retryReq r; retryResp :=
     retryResp r; releaseEvent := releaseEvent r; freezeEvent := freezeEvent
     r; unfreezeEvent := unfreezeEvent r; dequeueEvent := dequeueEvent r;
     packetQueue := packetQueue r; pendingDelete := v; drainManager :=
     drainManager r; drainState := drainState r; extraRespLatency :=
     extraRespLatency r; totalCkptTime := totalCkptTime r; totalWaitTime :=
     totalWaitTime r; curTick := curTick r; sent := sent r |}.
Definition set_drainManager (v : bool) (r : SimpleMemory) : SimpleMemory :=
  {| sys := sys r; profBase := profBase r; range := range r; lockedAddrList :=
     lockedAddrList r; bytesRead := bytesRead r; bytesInstRead :=
     bytesInstRead r; bytesWritten := bytesWritten r; numReads := numReads r;
     numWrites := numWrites r; numOther := numOther r; numDirtyNVMBlocks :=
     numDirtyNVMBlocks r; numDirtyNVMPages := numDirtyNVMPages r;
     numDirtyDRAMPages := numDirtyDRAMPages r; numPagesToDRAM :=
     numPagesToDRAM r; numPagesToNVM := numPagesToNVM r; bytesChannel :=
     bytesChannel r; bytesInterChannel := bytesInterChannel r; ckBusUtil :=
     ckBusUtil r; latency_var := latency_var r; bandwidth := bandwidth r;
     wbBandwidth := wbBandwidth r; isBusy := isBusy r; waitStart := waitStart
     r; ckptStart := ckptStart r; retryReq := retryReq r; retryResp :=
     retryResp r; releaseEvent := releaseEvent r; freezeEvent := freezeEvent
     r; unfreezeEvent := unfreezeEvent r; dequeueEvent := dequeueEvent r;
     packetQueue := packetQueue r; pendingDelete := pendingDelete r;
     drainManager := v; drainState := drainState r; extraRespLatency :=
     extraRespLatency r; totalCkptTime := totalCkptTime r; totalWaitTime :=
     totalWaitTime r; curTick := curTick r; sent := sent r |}.
Definition set_drainState (v : DrainState) (r : SimpleMemory) : SimpleMemory :=
  {| sys := sys r; profBase := profBase r; range := range r; lockedAddrList :=
     lockedAddrList r; bytesRead := bytesRead r; bytesInstRead :=
     bytesInstRead r; bytesWritten := bytesWritten r; numReads := numReads r;
     numWrites := numWrites r; numOther := numOther r; numDirtyNVMBlocks :=
     numDirtyNVMBlocks r; numDirtyNVMPages := numDirtyNVMPages r;
     numDirtyDRAMPages := numDirtyDRAMPages r; numPagesToDRAM :=
     numPagesToDRAM r; numPagesToNVM := numPagesToNVM r; bytesChannel :=
     bytesChannel r; bytesInterChannel := bytesInterChannel r; ckBusUtil :=
     ckBusUtil r; latency_var := latency_var r; bandwidth := bandwidth r;
     wbBandwidth := wbBandwidth r; isBusy := isBusy r; waitStart := waitStart
     r; ckptStart := ckptStart r; retryReq := retryReq r; retryResp :=
     retryResp r; releaseEvent := releaseEvent r; freezeEvent := freezeEvent
     r; unfreezeEvent := unfreezeEvent r; dequeueEvent := dequeueEvent r;
     packetQueue := packetQueue r; pendingDelete := pendingDelete r;
     drainManager := drainManager r; drainState := v; extraRespLatency :=
     extraRespLatency r; totalCkptTime := totalCkptTime r; totalWaitTime :=
     totalWaitTime r; curTick := curTick r; sent := sent r |}.
Definition set_extraRespLatency (v : Z) (r : SimpleMemory) : SimpleMemory :=
  {| sys := sys r; profBase := profBase r; range := range r; lockedAddrList :=
     lockedAddrList r; bytesRead := bytesRead r; bytesInstRead :=
     bytesInstRead r; bytesWritten := bytesWritten r; numReads := numReads r;
     numWrites := numWrites r; numOther := numOther r; numDirtyNVMBlocks :=
     numDirtyNVMBlocks r; numDirtyNVMPages := numDirtyNVMPages r;
     numDirtyDRAMPages := numDirtyDRAMPages r; numPagesToDRAM :=
     numPagesToDRAM r; numPagesToNVM := numPagesToNVM r; bytesChannel :=
     bytesChannel r; bytesInterChannel := bytesInterChannel r; ckBusUtil :=
     ckBusUtil r; latency_var := latency_var r; bandwidth := bandwidth r;
     wbBandwidth := wbBandwidth r; isBusy := isBusy r; waitStart := waitStart
     r; ckptStart := ckptStart r; retryReq := retryReq r; retryResp :=
     retryResp r; releaseEvent := releaseEvent r; freezeEvent := freezeEvent
     r; unfreezeEvent := unfreezeEvent r; dequeueEvent := dequeueEvent r;
     packetQueue := packetQueue r; pendingDelete := pendingDelete r;
     drainManager := drainManager r; drainState := drainState r;
     extraRespLatency := v; totalCkptTime := totalCkptTime r; totalWaitTime :=
     totalWaitTime r; curTick := curTick r; sent := sent r |}.
Definition set_totalCkptTime (v : Z) (r : SimpleMemory) : SimpleMemory :=
  {| sys := sys r; profBase := profBase r; range := range r; lockedAddrList :=
     lockedAddrList r; bytesRead := bytesRead r; bytesInstRead :=
     bytesInstRead r; bytesWritten := bytesWritten r; numReads := numReads r;
     numWrites := numWrites r; numOther := numOther r; numDirtyNVMBlocks :=
     numDirtyNVMBlocks r; numDirtyNVMPages := numDirtyNVMPages r;
     numDirtyDRAMPages := numDirtyDRAMPages r; numPagesToDRAM :=
     numPagesToDRAM r; numPagesToNVM := numPagesToNVM r; bytesChannel :=
     bytesChannel r; bytesInterChannel := bytesInterChannel r; ckBusUtil :=
     ckBusUtil r; latency_var := latency_var r; bandwidth := bandwidth r;
     wbBandwidth := wbBandwidth r; isBusy := isBusy r; waitStart := waitStart
     r; ckptStart := ckptStart r; retryReq := retryReq r; retryResp :=
     retryResp r; releaseEvent := releaseEvent r; freezeEvent := freezeEvent
     r; unfreezeEvent := unfreezeEvent r; dequeueEvent := dequeueEvent r;
     packetQueue := packetQueue r; pendingDelete := pendingDelete r;
     drainManager := drainManager r; drainState := drainState r;
     extraRespLatency := extraRespLatency r; totalCkptTime := v; totalWaitTime
     := totalWaitTime r; curTick := curTick r; sent := sent r |}.
Definition set_totalWaitTime (v : Z) (r : SimpleMemory) : SimpleMemory :=
  {| sys := sys r; profBase := profBase r; range := range r; lockedAddrList :=
     lockedAddrList r; bytesRead := bytesRead r; bytesInstRead :=
     bytesInstRead r; bytesWritten := bytesWritten r; numReads := numReads r;
     numWrites := numWrites r; numOther := numOther r; numDirtyNVMBlocks :=
     numDirtyNVMBlocks r; numDirtyNVMPages := numDirtyNVMPages r;
     numDirtyDRAMPages := numDirtyDRAMPages r; numPagesToDRAM :=
     numPagesToDRAM r; numPagesToNVM := numPagesToNVM r; bytesChannel :=
     bytesChannel r; bytesInterChannel := bytesInterChannel r; ckBusUtil :=
     ckBusUtil r; latency_var := latency_var r; bandwidth := bandwidth r;
     wbBandwidth := wbBandwidth r; isBusy := isBusy r; waitStart := waitStart
     r; ckptStart := ckptStart r; retryReq := retryReq r; retryResp :=
     retryResp r; releaseEvent := releaseEvent r; freezeEvent := freezeEvent
     r; unfreezeEvent := unfreezeEvent r; dequeueEvent := dequeueEvent r;
     packetQueue := packetQueue r; pendingDelete := pendingDelete r;
     drainManager := drainManager r; drainState := drainState r;
     extraRespLatency := extraRespLatency r; totalCkptTime := totalCkptTime r;
     totalWaitTime := v; curTick := curTick r; sent := sent r |}.
Definition set_curTick (v : Z) (r : SimpleMemory) : SimpleMemory :=
  {| sys := sys r; profBase := profBase r; range := range r; lockedAddrList :=
     lockedAddrList r; bytesRead := bytesRead r; bytesInstRead :=
     bytesInstRead r; bytesWritten := bytesWritten r; numReads := numReads r;
     numWrites := numWrites r; numOther := numOther r; numDirtyNVMBlocks :=
     numDirtyNVMBlocks r; numDirtyNVMPages := numDirtyNVMPages r;
     numDirtyDRAMPages := numDirtyDRAMPages r; numPagesToDRAM :=
     numPagesToDRAM r; numPagesToNVM := numPagesToNVM r; bytesChannel :=
     bytesChannel r; bytesInterChannel := bytesInterChannel r; ckBusUtil :=
     ckBusUtil r; latency_var := latency_var r; bandwidth := bandwidth r;
     wbBandwidth := wbBandwidth r; isBusy := isBusy r; waitStart := waitStart
     r; ckptStart := ckptStart r; retryReq := retryReq r; retryResp :=
     retryResp r; releaseEvent := releaseEvent r; freezeEvent := freezeEvent
     r; unfreezeEvent := unfreezeEvent r; dequeueEvent := dequeueEvent r;
     packetQueue := packetQueue r; pendingDelete := pendingDelete r;
     drainManager := drainManager r; drainState := drainState r;
     extraRespLatency := extraRespLatency r; totalCkptTime := totalCkptTime r;
     totalWaitTime := totalWaitTime r; curTick := v; sent := sent r |}.
Definition set_sent (v : list output) (r : SimpleMemory) : SimpleMemory :=
  {| sys := sys r; profBase := profBase r; range := range r; lockedAddrList :=
     lockedAddrList r; bytesRead := bytesRead r; bytesInstRead :=
     bytesInstRead r; bytesWritten := bytesWritten r; numReads := numReads r;
     numWrites := numWrites r; numOther := numOther r; numDirtyNVMBlocks :=
     numDirtyNVMBlocks r; numDirtyNVMPages := numDirtyNVMPages r;
     numDirtyDRAMPages := numDirtyDRAMPages r; numPagesToDRAM :=
     numPagesToDRAM r; numPagesToNVM := numPagesToNVM r; bytesChannel :=
     bytesChannel r; bytesInterChannel := bytesInterChannel r; ckBusUtil :=
     ckBusUtil r; latency_var := latency_var r; bandwidth := bandwidth r;
     wbBandwidth := wbBandwidth r; isBusy := isBusy r; waitStart := waitStart
     r; ckptStart := ckptStart r; retryReq := retryReq r; retryResp :=
     retryResp r; releaseEvent := releaseEvent r; freezeEvent := freezeEvent
     r; unfreezeEvent := unfreezeEvent r; dequeueEvent := dequeueEvent r;
     packetQueue := packetQueue r; pendingDelete := pendingDelete r;
     drainManager := drainManager r; drainState := drainState r;
     extraRespLatency := extraRespLatency r; totalCkptTime := totalCkptTime r;
     totalWaitTime := totalWaitTime r; curTick := curTick r; sent := v |}.

Definition ctl_of (m : SimpleMemory) : AddrTransController := ctl (sys m).
Definition mem_of (m : SimpleMemory) : MemSt := store (sys m).

(** [v[i] += n] on a statistics vector. *)
Definition stat_add (i n : Z) (v : gmap Z Z) : gmap Z Z := <[i := default 0 (v !! i) + n]> v.

Section SimpleMem.
Context `{!HashOrder, !HeapAlgo}.

(** An operation of the controller, with [pf] the profiler of the call. *)
Definition on_sys {A} (op : M (Sys MemSt) A) : M SimpleMemory A := zoom sys set_sys op.

(** [Profiler pf(profBase)] *)
Definition new_pf : M SimpleMemory unit :=
  modify (λ m, set_sys (MkSys (ctl (sys m)) (store (sys m)) (upd PfArg (copy_Profiler (profBase m)) (profs (sys m)))
                          (ckpt (sys m))) m).
Definition pf_bus (exc_intra : bool) (m : SimpleMemory) : Z := SumBusUtil exc_intra (sel PfArg (profs (sys m))).

(** [bytesChannel += pf.SumBusUtil(); bytesInterChannel += pf.SumBusUtil(true);] *)
Definition count_bytes : M SimpleMemory unit :=
  modify (λ m, set_bytesInterChannel (bytesInterChannel m + pf_bus true m)
                 (set_bytesChannel (bytesChannel m + pf_bus false m) m)).

(** [schedule(event, when)]: the event must not be in the past nor be scheduled. *)
Definition schedule (ev : SimpleMemory → option Z) (set_ev : option Z → SimpleMemory → SimpleMemory) (when_ : Z) :
    M SimpleMemory unit :=
  m ← get;
  assert_ "EventQueue::schedule: when >= getCurTick()" (curTick m <=? when_) ;;
  assert_ "EventQueue::schedule: !event->scheduled()" (match ev m with None => true | Some _ => false end) ;;
  modify (set_ev (Some when_)).

Definition sendRetry : M SimpleMemory unit := modify (λ m, set_sent (sent m ++ [SentRetry]) m).

(** ** AbstractMemory *)

Definition localAddr (pkt : Pkt.Packet) (m : SimpleMemory) : Z := u64 (Pkt.addr pkt - AddrRange.start (range m)).

(** The memory and the packet it works on. *)
Definition on_mem {A} (op : M SimpleMemory A) : M (SimpleMemory * Pkt.Packet) A := zoom fst (λ m s, (m, s.2)) op.
Definition on_pkt {A} (op : M Pkt.Packet A) : M (SimpleMemory * Pkt.Packet) A := zoom snd (λ p s, (s.1, p)) op.

(** [assert(AddrRange(pkt->getAddr(), pkt->getAddr() + pkt->getSize() - 1).isSubset(range))] *)
Definition check_range : M (SimpleMemory * Pkt.Packet) unit :=
  a ← on_pkt Pkt.getAddr;
  n ← on_pkt Pkt.getSize;
  s ← get;
  match AddrRange.isSubset (AddrRange.AddrRange_of a (u64 (a + n - 1))) (range s.1) with
  | Ok b => assert_ "AbstractMemory::access" b
  | Err e => err e
  end.

(** [hostAddr(addrController.LoadAddr(localAddr(pkt), pf))] *)
Definition load_host (pf : pfref) : M (SimpleMemory * Pkt.Packet) Z :=
  s ← get;
  on_mem (on_sys (a ← LoadAddr (localAddr s.2 s.1) pf; on_store (hostAddr a))).

(** [memcpy(pkt->getPtr<uint8_t>(), host_addr, pkt->getSize())] *)
Definition copy_to_pkt (host_addr : Z) : M (SimpleMemory * Pkt.Packet) unit :=
  n ← on_pkt Pkt.getSize;
  l ← on_mem (on_sys (on_store (host_load host_addr n)));
  on_pkt (Pkt.setData l).

(** The bytes of the packet that are copied to host memory. *)
Definition pkt_bytes : M (SimpleMemory * Pkt.Packet) (list Z) :=
  d ← on_pkt Pkt.getBytes;
  n ← on_pkt Pkt.getSize;
  if n <=? Z.of_nat (length d) then mret (take (Z.to_nat n) d) else err (EUndef "memcpy").

(** Little-endian bytes of a machine word. *)
Definition le_bytes (n : nat) (x : Z) : list Z := (λ i, Z.land (Z.shiftr x (8 * Z.of_nat i)) 255) <$> seq 0 n.

(** The condition of a conditional swap. *)
Definition swap_condition (host_addr n : Z) : M (SimpleMemory * Pkt.Packet) bool :=
  s ← get;
  if Req.isCondSwap (Pkt.req s.2) then
    if (n =? 8) || (n =? 4) then
      x ← on_pkt (zoom Pkt.req Pkt.set_req Req.getExtraData);
      l ← on_mem (on_sys (on_store (host_load host_addr n)));
      mret (bool_decide (le_bytes (Z.to_nat n) x = l))
    else err (EPanic "Invalid size for conditional read/write")
  else mret true.

Definition access_swap (pf : pfref) : M (SimpleMemory * Pkt.Packet) unit :=
  s ← get;
  (match pmemAddr (mem_of s.1) with
   | Some _ => mret tt
   | None => err (EPanic "Swap only works if there is real memory")
   end) ;;
  n ← on_pkt Pkt.getSize;
  assert_ "AbstractMemory::access" (n <=? 8) ;;
  overwrite_val ← pkt_bytes;
  host_addr ← load_host pf;
  copy_to_pkt host_addr ;;
  overwrite_mem ← swap_condition host_addr n;
  (if (overwrite_mem : bool) then
     local_addr ← load_host pf;
     on_mem (on_sys (on_store (host_store local_addr overwrite_val)))
   else mret tt) ;;
  s ← get;
  assert_ "AbstractMemory::access" (negb (Req.isInstFetch (Pkt.req s.2))) ;;
  on_mem (modify (λ m, set_numOther (stat_add (Req.masterId (Pkt.req s.2)) 1 (numOther m)) m)).

Definition access_read (pf : pfref) : M (SimpleMemory * Pkt.Packet) unit :=
  s ← get;
  assert_ "AbstractMemory::access" (negb (Pkt.pkt_isWrite s.2)) ;;
  (if Pkt.pkt_isLLSC s.2 then
     l ← on_pkt (zoom Pkt.req Pkt.set_req (Lock.trackLoadLocked (lockedAddrList s.1)));
     on_mem (modify (set_lockedAddrList l))
   else mret tt) ;;
  n ← on_pkt Pkt.getSize;
  (match pmemAddr (mem_of s.1) with
   | Some _ =>
       assert_ "AbstractMemory::access" (n =? u32 (ATT.block_size (att_ (ctl_of s.1)))) ;;
       host_addr ← load_host pf;
       copy_to_pkt host_addr
   | None => mret tt
   end) ;;
  s ← get;
  let id := Req.masterId (Pkt.req s.2) in
  on_mem (modify (λ m, set_bytesRead (stat_add id n (bytesRead m))
                         (set_numReads (stat_add id 1 (numReads m)) m))) ;;
  if Req.isInstFetch (Pkt.req s.2) then
    on_mem (modify (λ m, set_bytesInstRead (stat_add id n (bytesInstRead m)) m))
  else mret tt.

Definition access_write (pf : pfref) : M (SimpleMemory * Pkt.Packet) unit :=
  s ← get;
  r ← on_pkt (zoom Pkt.req Pkt.set_req (Lock.writeOK (Pkt.pkt_isLLSC s.2) (lockedAddrList s.1)));
  on_mem (modify (set_lockedAddrList r.2)) ;;
  if (r.1 : bool) then
    n ← on_pkt Pkt.getSize;
    (match pmemAddr (mem_of s.1) with
     | Some _ =>
         assert_ "AbstractMemory::access" (n =? u32 (ATT.block_size (att_ (ctl_of s.1)))) ;;
         local_addr ← on_mem (on_sys (StoreAddr (localAddr s.2 s.1) n pf));
         d ← pkt_bytes;
         on_mem (on_sys (on_store (p ← hostAddr local_addr; host_store p d))) ;;
         on_mem (on_sys (on_pf pf (AddBlockMoveInter 1)))
     | None => mret tt
     end) ;;
    s ← get;
    assert_ "AbstractMemory::access" (negb (Req.isInstFetch (Pkt.req s.2))) ;;
    let id := Req.masterId (Pkt.req s.2) in
    on_mem (modify (λ m, set_bytesWritten (stat_add id n (bytesWritten m))
                           (set_numWrites (stat_add id 1 (numWrites m)) m)))
  else mret tt.

Definition access (pf : pfref) : M (SimpleMemory * Pkt.Packet) unit :=
  check_range ;;
  s ← get;
  let pkt := s.2 in
  if Pkt.memInhibitAsserted pkt then mret tt else
  (if bool_decide (Pkt.cmd pkt = Pkt.MemCmd.SwapReq) then access_swap pf
   else if Pkt.pkt_isRead pkt then access_read pf
   else if Pkt.pkt_isWrite pkt then access_write pf
   else if Pkt.pkt_isInvalidate pkt then mret tt
   else err (EPanic "unimplemented")) ;;
  s ← get;
  if Pkt.pkt_needsResponse s.2 then on_pkt Pkt.makeResponse else mret tt.

(** [functionalAccess]; for a print request the labels are printed, then the byte. *)
Definition functionalAccess : M (SimpleMemory * Pkt.Packet) unit :=
  check_range ;;
  host_addr ← load_host PfNull;
  s ← get;
  let pkt := s.2 in
  if Pkt.pkt_isRead pkt then
    (match pmemAddr (mem_of s.1) with Some _ => copy_to_pkt host_addr | None => mret tt end) ;;
    on_pkt Pkt.makeResponse
  else if Pkt.pkt_isWrite pkt then
    (match pmemAddr (mem_of s.1) with
     | Some _ => d ← pkt_bytes; on_mem (on_sys (on_store (host_store host_addr d)))
     | None => mret tt
     end) ;;
    on_pkt Pkt.makeResponse
  else if Pkt.pkt_isPrint pkt then
    l ← on_mem (on_sys (on_store (host_load host_addr 1)));
    on_pkt (Pkt.on_print (Pkt.printLabels ;;
      modify (λ ps, Pkt.MkPrint (Pkt.labelStack ps) (Pkt.curPrefix ps)
        (Pkt.os ps +:+ Pkt.curPrefix ps +:+ "0x" +:+ Pkt.hex (l !!! 0%nat) +:+ Pkt.newline) (Pkt.verbosity ps))))
  else err (EPanic "AbstractMemory: unimplemented functional command").

(** ** SimpleMemory *)

(** [getLatency()]; [rnd] is the random number in [0, latency_var]. *)
Definition getLatency (rnd : Z) (m : SimpleMemory) : Z :=
  u64 (latency (mem_of m) + (if latency_var m =? 0 then 0 else rnd)).

Definition recvAtomic (rnd : Z) : M (SimpleMemory * Pkt.Packet) Z :=
  access PfNull ;;
  s ← get;
  mret (if Pkt.memInhibitAsserted s.2 then 0 else getLatency rnd s.1).

(** The loop of [recvFunctional] over the queue of responses. *)
Fixpoint check_queue (junk : list Z) (q : list (Z * Pkt.Packet)) : M Pkt.Packet (list (Z * Pkt.Packet)) :=
  match q with
  | [] => mret []
  | (t, other) :: q' =>
      other' ← (λ pkt, match Pkt.checkFunctional_pkt junk (pkt, other) with
                       | Ok (_, (pkt', other')) => Ok (other', pkt')
                       | Err e => Err e
                       end);
      r ← check_queue junk q';
      mret ((t, other') :: r)
  end.

Definition recvFunctional (name : string) (junk : list Z) : M (SimpleMemory * Pkt.Packet) unit :=
  on_pkt (Pkt.pushLabel name) ;;
  functionalAccess ;;
  s ← get;
  q ← on_pkt (check_queue junk (packetQueue s.1));
  on_mem (modify (set_packetQueue q)) ;;
  on_pkt Pkt.popLabel.

Definition isWait (m : SimpleMemory) : bool := negb (waitStart m =? 0).
Definition setWait : M SimpleMemory unit := modify (λ m, if waitStart m =? 0 then set_waitStart (curTick m) m else m).
Definition clearWait : M SimpleMemory unit :=
  m ← get;
  assert_ "SimpleMemory::clearWait" (isWait m) ;;
  modify (λ m, set_totalWaitTime (totalWaitTime m + u64 (curTick m - waitStart m)) m) ;;
  modify (set_waitStart 0).

Definition setCkptStart (time : Z) : M SimpleMemory unit :=
  m ← get; assert_ "SimpleMemory::setCkptStart" (ckptStart m =? 0) ;; modify (set_ckptStart time).
Definition getCkptTime : M SimpleMemory Z :=
  m ← get;
  assert_ "SimpleMemory::getCkptTime" (0 <? ckptStart m) ;;
  modify (set_ckptStart 0) ;;
  mret (u64 (curTick m - ckptStart m)).

(** The defaults of [MigratePages]. *)
Definition default_dr : Q := 33 # 100.
Definition default_wr : Q := 67 # 100.

(** The branch NEW_EPOCH of [recvTimingReq]. *)
Definition new_epoch : M SimpleMemory unit :=
  m ← get;
  assert_ "SimpleMemory::recvTimingReq" (match ckpt (sys m) with [] => true | _ => false end) ;;
  new_pf ;;
  on_sys (MigratePages PfArg default_dr default_wr) ;;
  count_bytes ;;
  m ← get;
  let area := u64 (i32 (ATT.length_ (att_ (ctl_of m)) * 8)) in
  let area := u64 (area + u64 (i32 (Mig.ptt_length_ (migrator_ (ctl_of m)) * 8))) in
  let duration := u64 (Qfloor (inject_Z area * wbBandwidth m)) in
  lat ← on_sys (on_pf PfArg SumLatency);
  let duration := u64 (duration + lat) in
  modify (λ m, set_totalWaitTime (totalWaitTime m + duration) m) ;;
  setCkptStart (curTick m) ;;
  schedule freezeEvent set_freezeEvent (u64 (curTick m + duration)) ;;
  modify (set_isBusy true) ;;
  modify (set_retryReq true).

(** The rest of [recvTimingReq]: the packet is accepted. *)
Definition accept (rnd : Z) : M (SimpleMemory * Pkt.Packet) unit :=
  on_pkt (modify (λ p, Pkt.set_busFirstWordDelay 0 (Pkt.set_busLastWordDelay 0 p))) ;;
  s ← get;
  (if Pkt.pkt_isRead s.2 || Pkt.pkt_isWrite s.2 then
     n ← on_pkt Pkt.getSize;
     let duration := u64 (Qfloor (inject_Z n * bandwidth s.1)) in
     if negb (duration =? 0) then
       on_mem (schedule releaseEvent set_releaseEvent (u64 (curTick s.1 + duration))) ;;
       on_mem (modify (set_isBusy true))
     else mret tt
   else mret tt) ;;
  let needsResponse := Pkt.pkt_needsResponse s.2 in
  on_mem new_pf ;;
  access PfArg ;;
  on_mem count_bytes ;;
  on_mem (modify (λ m, set_ckBusUtil (u64 (ckBusUtil m + pf_bus false m)) m)) ;;
  s ← get;
  if needsResponse then
    assert_ "SimpleMemory::recvTimingReq" (Pkt.pkt_isResponse s.2) ;;
    lat ← on_mem (on_sys (on_pf PfArg SumLatency));
    on_mem (modify (λ m, set_extraRespLatency (extraRespLatency m + (lat - getLatency rnd m)) m)) ;;
    let tick := u64 (curTick s.1 + lat) in
    on_mem (modify (λ m, set_packetQueue (packetQueue m ++ [(tick, s.2)]) m)) ;;
    if negb (retryResp s.1) && (match dequeueEvent s.1 with None => true | Some _ => false end) then
      on_mem (schedule dequeueEvent set_dequeueEvent tick)
    else mret tt
  else on_mem (modify (λ m, set_pendingDelete (pendingDelete m ++ [s.2]) m)).

Definition run_accept (rnd : Z) (pkt : Pkt.Packet) : M SimpleMemory unit :=
  λ m, match accept rnd (m, pkt) with Ok (_, (m', _)) => Ok (tt, m') | Err e => Err e end.

Definition recvTimingReq (rnd : Z) (pkt : Pkt.Packet) : M SimpleMemory bool :=
  modify (set_pendingDelete []) ;;
  m ← get;
  if Pkt.memInhibitAsserted pkt then modify (set_pendingDelete [pkt]) ;; mret true else
  if retryReq m then mret false else
  if isBusy m then modify (set_retryReq true) ;; mret false else
  if negb (bool_decide (Pkt.cmd pkt = Pkt.MemCmd.SwapReq)) && Pkt.pkt_isWrite pkt then
    assert_ "Packet::getAddr" (Req.isSet (Pkt.flags pkt) Pkt.PVALID_ADDR) ;;
    ctrl ← on_sys (Probe (Pkt.addr pkt));
    match ctrl with
    | NEW_EPOCH => new_epoch ;; mret false
    | WAIT_CKPT => setWait ;; mret false
    | REG_WRITE => run_accept rnd pkt ;; mret true
    end
  else run_accept rnd pkt ;; mret true.

Definition release : M SimpleMemory unit :=
  m ← get;
  assert_ "SimpleMemory::release" (isBusy m) ;;
  modify (set_isBusy false) ;;
  if retryReq m then modify (set_retryReq false) ;; sendRetry else mret tt.

(** [while(!ckptBlocks.empty()) { banks.PushWrite(ckptBlocks.back()); ckptBlocks.pop_back(); }] *)
Definition push_blocks : M (Sys MemSt) unit :=
  s ← get;
  for_each (rev (ckpt s)) (λ a,
    on_store (zoom banks set_banks (Banks.PushWrite a)) ;;
    modify (λ s, set_ckpt (removelast (ckpt s)) s)).

(** The code shared by [freeze] and [unfreeze]: the next writes are issued; the result is
    the time at which they end. *)
Definition issue_writes (site : string) : M SimpleMemory Z :=
  m ← get;
  let now := curTick m in
  r ← on_sys (on_store (zoom banks set_banks (Banks.drain_round now (latency (mem_of m)))));
  modify (λ m, set_ckBusUtil (u64 (ckBusUtil m + u64 (i32 (ATT.block_size (att_ (ctl_of m)) * r.1)))) m) ;;
  m ← get;
  assert_ site ((r.2 =? 0) || (u64 (r.2 - now) =? latency (mem_of m))) ;;
  mret r.2.

(** The statistics that [freeze] checks and copies. *)
Definition freeze_stats : M SimpleMemory unit :=
  m ← get;
  let st := mem_of m in
  let mig := migrator_ (ctl_of m) in
  assert_ "SimpleMemory::freeze" (numNVMWrites st =? Mig.total_nvm_writes_ mig) ;;
  assert_ "SimpleMemory::freeze" (numDRAMWrites st =? Mig.total_dram_writes_ mig) ;;
  assert_ "SimpleMemory::freeze"
    (numNVMWrites st + numDRAMWrites st =? numATTWriteHits st + numATTWriteMisses st + ckDRAMWriteHits st) ;;
  modify (set_numDirtyNVMBlocks (Mig.dirty_nvm_blocks_ mig)) ;;
  modify (set_numDirtyNVMPages (Mig.dirty_nvm_pages_ mig)) ;;
  modify (set_numDirtyDRAMPages (Mig.dirty_dram_pages_ mig)) ;;
  modify (set_numPagesToDRAM (pages_to_dram_ (ctl_of m))) ;;
  modify (set_numPagesToNVM (pages_to_nvm_ (ctl_of m))).

Definition freeze : M SimpleMemory unit :=
  m ← get;
  assert_ "SimpleMemory::freeze" (isBusy m) ;;
  modify (set_isBusy false) ;;
  freeze_stats ;;
  new_pf ;;
  on_sys (BeginCheckpointing PfArg) ;;
  count_bytes ;;
  on_sys push_blocks ;;
  next ← issue_writes "SimpleMemory::freeze";
  (if negb (next =? 0) then schedule unfreezeEvent set_unfreezeEvent next
   else on_sys FinishCheckpointing) ;;
  m ← get;
  if retryReq m then modify (set_retryReq false) ;; sendRetry else mret tt.

Definition unfreeze : M SimpleMemory unit :=
  next ← issue_writes "SimpleMemory::unfreeze";
  if negb (next =? 0) then schedule unfreezeEvent set_unfreezeEvent next
  else
    on_sys FinishCheckpointing ;;
    m ← get;
    assert_ "SimpleMemory::unfreeze" (ckBusUtil m =? bytesChannel m) ;;
    t ← getCkptTime;
    modify (λ m, set_totalCkptTime (totalCkptTime m + t) m) ;;
    m ← get;
    if isWait m then clearWait ;; sendRetry else mret tt.

(** The requests, each with its random latency, that the peer sends while it handles a
    response. *)
Fixpoint recv_all (reqs : list (Z * Pkt.Packet)) : M SimpleMemory unit :=
  match reqs with [] => mret tt | (rnd, pkt) :: reqs' => recvTimingReq rnd pkt ;; recv_all reqs' end.

(** [dequeue()]; the peer sends [reqs] from within [sendTimingResp], which returns
    [accepted]. *)
Definition dequeue (reqs : list (Z * Pkt.Packet)) (accepted : bool) : M SimpleMemory unit :=
  m ← get;
  match packetQueue m with
  | [] => err (EAssert "SimpleMemory::dequeue")
  | (_, pkt) :: _ =>
      modify (λ m, set_sent (sent m ++ [SentResp pkt]) m) ;;
      recv_all reqs ;;
      modify (set_retryResp (negb accepted)) ;;
      if accepted then
        modify (λ m, set_packetQueue (tail (packetQueue m)) m) ;;
        m ← get;
        match packetQueue m with
        | (tick, _) :: _ => modify (λ m, set_dequeueEvent (Some (Z.max tick (curTick m))) m)
        | [] =>
            if drainManager m then
              modify (λ m, set_drainManager false (set_sent (sent m ++ [SentDrainDone]) m))
            else mret tt
        end
      else mret tt
  end.

Definition recvRetry (reqs : list (Z * Pkt.Packet)) (accepted : bool) : M SimpleMemory unit :=
  m ← get; assert_ "SimpleMemory::recvRetry" (retryResp m) ;; dequeue reqs accepted.

(** [drain(dm)] *)
Definition drain : M SimpleMemory Z :=
  m ← get;
  match packetQueue m with
  | [] => modify (set_drainState Drained) ;; mret 0
  | _ => modify (set_drainManager true) ;; modify (set_drainState Draining) ;; mret 1
  end.

(** ** Events *)

(** The event queue runs a handler at its tick and unschedules the event first. *)
Inductive sm_event := EvRelease | EvFreeze | EvUnfreeze | EvDequeue (reqs : list (Z * Pkt.Packet)) (accepted : bool).

Definition fire (e : sm_event) : M SimpleMemory unit :=
  m ← get;
  match e with
  | EvRelease =>
      t ← of_option (EUndef "not scheduled") (releaseEvent m);
      modify (λ m, set_releaseEvent None (set_curTick t m)) ;; release
  | EvFreeze =>
      t ← of_option (EUndef "not scheduled") (freezeEvent m);
      modify (λ m, set_freezeEvent None (set_curTick t m)) ;; freeze
  | EvUnfreeze =>
      t ← of_option (EUndef "not scheduled") (unfreezeEvent m);
      modify (λ m, set_unfreezeEvent None (set_curTick t m)) ;; unfreeze
  | EvDequeue reqs b =>
      t ← of_option (EUndef "not scheduled") (dequeueEvent m);
      modify (λ m, set_dequeueEvent None (set_curTick t m)) ;; dequeue reqs b
  end.

End SimpleMem.

(** ** Construction *)

(** The parameters of SimpleMemoryParams that the model reads. *)
Record SimpleMemoryParams := MkParams {
  p_range : AddrRange.AddrRange;
  p_dram_size : Z;
  p_att_length : Z;
  p_block_bits : Z;
  p_page_bits : Z;
  p_latency : Z;
  p_latency_miss : Z;
  p_lat_att_operate : Z;
  p_lat_nvm_read : Z;
  p_lat_nvm_write : Z;
  p_latency_var : Z;
  p_bandwidth : Q;
}.

(** The constructors of AbstractMemory and SimpleMemory; [PageBytes] is TheISA's, [junk]
    the table's memory before construction, and the backing store [pmem] is attached by
    [setBackingStore]. *)
Definition new_SimpleMemory (p : SimpleMemoryParams) (PageBytes : Z) (junk : Z → ATT.ATTEntry)
    (pmem : option (gmap Z Z)) : res SimpleMemory :=
  match new_AddrTransController (AddrRange.size (p_range p)) (p_dram_size p) (p_att_length p)
          (p_block_bits p) (p_page_bits p) junk tt with
  | Err e => Err e
  | Ok (k, _) =>
      if negb (AddrRange.size (p_range p) mod PageBytes =? 0) then Err (EPanic "Memory Size not divisible by page size")
      else
        match IntMath.ceilLog2 (Size k) with
        | Err e => Err e
        | Ok n =>
            let st := MkMemSt (geo_of k) pmem (Banks.new_DDR3Banks (u64 (Z.shiftl 1 n))) (p_latency p)
                        (p_latency_miss p) (p_lat_nvm_read p) (p_lat_nvm_write p) 0 0 0 0 0 0 0 0 0 0 0 in
            let base := set_op_latency_ (p_lat_att_operate p) (new_Profiler (p_block_bits p) (p_page_bits p)) in
            Ok (MkSimpleMemory (MkSys k st (init_Profs base) []) base (p_range p) [] ∅ ∅ ∅ ∅ ∅ ∅
                  0 0 0 0 0 0 0 0 (p_latency_var p) (p_bandwidth p) (p_latency p # 64) false 0 0 false false
                  None None None None [] [] false Running 0 0 0 0 [])
        end
  end.
