(* ===== verification/PersistSpec.v ===== *)
(** The abstract memory that the controller promises. A configuration [Conf] keeps,
    for every block with a table entry, its state and where its current data are,
    the backup slots, the pages held in DRAM and the bytes of the memory. [cstep]
    are the steps the controller is made of: each one moves at most one block or
    one page. [PersistFacts] proves two facts of the steps: what the processor reads
    does not change except for the bytes it stores, and the last complete checkpoint,
    and the one in progress, stay readable. *)

From S2P Require Import Prelude MemStore.
From S2P Require Import AddrTransTable.
#[global] Open Scope Z_scope.

Record Conf := MkConf {
  k_ck : bool;                          (* in_checkpointing_ *)
  k_blocks : gmap Z (ATTState * Z);     (* by tag: state and mach_base *)
  k_b0 : gset Z;                        (* NVM slots in BACKUP0 *)
  k_b1 : gset Z;                        (* NVM slots in BACKUP1 *)
  k_pages : gset Z;                     (* pages of the PTT *)
  k_mem : Z → Z;                        (* bytes by machine address *)
}.

(** What a step does, with the block or page it is about; [mv] tells whether the
    data of the block are moved or left for the caller to write. *)
Inductive label :=
  | LHideClean (t : Z) (mv : bool)
  | LResetClean (t : Z) (mv : bool)
  | LFreeClean (t : Z)
  | LDirtyStained (t : Z) (mv : bool)
  | LFreeLoan (t : Z) (mv : bool)
  | LHideTemp (t : Z) (mv : bool)
  | LSetup (t : Z) (mv : bool)
  | LMigrateNVM (p : Z)
  | LMigrateDRAM (p : Z)
  | LCleanDirty (t : Z)
  | LDropHidden (t : Z)
  | LBegin
  | LFinish
  | LWrite (a n : Z)
  | LTau.

#[global] Instance label_eq_dec : EqDecision label.
Proof. solve_decision. Defined.

Section Persist.
Context (c : Config).

Abbreviation bs := (c_bsize c).

Definition home (t : Z) : Z := t * bs.
Definition nslot (k : Z) : Z := c_nvm_base c + k * bs.
Definition dslot (k : Z) : Z := c_dram_base c + k * bs.
Definition page_of (t : Z) : Z := home t - home t mod 2 ^ c_page_bits c.
Definition tag_ok (t : Z) : Prop := 0 ≤ t ∧ home t < c_phy_range c.

(** Where the current data of a block are, and what the processor reads. *)
Definition base (κ : Conf) (t : Z) : Z :=
  match k_blocks κ !! t with Some (_, b) => b | None => home t end.
Definition view (κ : Conf) (x : Z) : Z := k_mem κ (base κ (x / bs) + x mod bs).

(** The effect of [MemCopy] and [MemSwap] on a block. *)
Definition copied (dst src : Z) (m m' : Z → Z) : Prop :=
  ∀ x, m' x = if bool_decide (dst ≤ x < dst + bs) then m (src + (x - dst)) else m x.
Definition swapped (x y : Z) (m m' : Z → Z) : Prop :=
  ∀ a, m' a = if bool_decide (x ≤ a < x + bs) then m (y + (a - x))
              else if bool_decide (y ≤ a < y + bs) then m (x + (a - y)) else m a.
Definition moved (mv : bool) (dst src : Z) (m m' : Z → Z) : Prop :=
  if mv then copied dst src m m' else ∀ x, m' x = m x.

(** A slot that holds nothing. *)
Definition nfresh (κ : Conf) (n : Z) : Prop :=
  0 ≤ n < 2 * c_att_len c ∧ n ∉ k_b0 κ ∧ n ∉ k_b1 κ ∧
  ∀ t s, k_blocks κ !! t ≠ Some (s, nslot n).
Definition dfresh (κ : Conf) (d : Z) : Prop :=
  0 ≤ d < c_att_len c ∧ ∀ t s, k_blocks κ !! t ≠ Some (s, dslot d).

(** The processor may write the current data of the block in place. *)
Definition writable (κ : Conf) (t : Z) : Prop :=
  match k_blocks κ !! t with
  | Some (s, _) => s ≠ CLEAN
  | None => page_of t ∈ k_pages κ
  end.

Definition in_page (p t : Z) : bool := bool_decide (page_of t = p).

Inductive cstep : Conf → label → Conf → Prop :=
  | S_hide_clean κ t k mv m' :
      k_ck κ = false → k_blocks κ !! t = Some (CLEAN, nslot k) →
      moved mv (home t) (nslot k) (k_mem κ) m' →
      cstep κ (LHideClean t mv)
        (MkConf false (<[t := (HIDDEN, home t)]> (k_blocks κ)) ({[k]} ∪ k_b0 κ) (k_b1 κ)
           (k_pages κ) m')
  | S_reset_clean κ t k d mv m' :
      k_ck κ = true → k_blocks κ !! t = Some (CLEAN, nslot k) → dfresh κ d →
      moved mv (dslot d) (nslot k) (k_mem κ) m' →
      cstep κ (LResetClean t mv)
        (MkConf true (<[t := (TEMP, dslot d)]> (k_blocks κ)) (k_b0 κ) ({[k]} ∪ k_b1 κ)
           (k_pages κ) m')
  | S_free_clean_run κ t k m' :
      k_ck κ = false → k_blocks κ !! t = Some (CLEAN, nslot k) →
      copied (home t) (nslot k) (k_mem κ) m' →
      cstep κ (LFreeClean t)
        (MkConf false (delete t (k_blocks κ)) ({[k]} ∪ k_b0 κ) (k_b1 κ) (k_pages κ) m')
  | S_free_clean_ck κ t k m' :
      k_ck κ = true → k_blocks κ !! t = Some (CLEAN, nslot k) →
      swapped (home t) (nslot k) (k_mem κ) m' →
      cstep κ (LFreeClean t)
        (MkConf true (delete t (k_blocks κ)) (k_b0 κ) ({[k]} ∪ k_b1 κ) (k_pages κ) m')
  | S_dirty_stained κ t d n mv m' :
      k_ck κ = false → k_blocks κ !! t = Some (STAINED, dslot d) → nfresh κ n →
      moved mv (nslot n) (dslot d) (k_mem κ) m' →
      cstep κ (LDirtyStained t mv)
        (MkConf false (<[t := (DIRTY, nslot n)]> (k_blocks κ)) (k_b0 κ) (k_b1 κ) (k_pages κ) m')
  | S_free_loan κ t d mv m' :
      k_ck κ = false → k_blocks κ !! t = Some (LOAN, dslot d) →
      moved mv (home t) (dslot d) (k_mem κ) m' →
      cstep κ (LFreeLoan t mv)
        (MkConf false (delete t (k_blocks κ)) (k_b0 κ) (k_b1 κ) (k_pages κ) m')
  | S_hide_temp κ t d mv m' :
      k_ck κ = false → k_blocks κ !! t = Some (TEMP, dslot d) →
      moved mv (home t) (dslot d) (k_mem κ) m' →
      cstep κ (LHideTemp t mv)
        (MkConf false (<[t := (HIDDEN, home t)]> (k_blocks κ)) (k_b0 κ) (k_b1 κ) (k_pages κ) m')
  | S_setup κ t s b mv m' :
      tag_ok t → k_blocks κ !! t = None → (s = LOAN ↔ page_of t ∈ k_pages κ) →
      (if k_ck κ then (s = STAINED ∨ s = LOAN) ∧ ∃ d, dfresh κ d ∧ b = dslot d
       else s = DIRTY ∧ ∃ n, nfresh κ n ∧ b = nslot n) →
      moved mv b (home t) (k_mem κ) m' →
      cstep κ (LSetup t mv)
        (MkConf (k_ck κ) (<[t := (s, b)]> (k_blocks κ)) (k_b0 κ) (k_b1 κ) (k_pages κ) m')
  | S_migrate_nvm κ p m' :
      k_ck κ = false → p ∉ k_pages κ → p mod 2 ^ c_page_bits c = 0 → 0 ≤ p →
      p + 2 ^ c_page_bits c ≤ c_phy_range c →
      (∀ t s b, k_blocks κ !! t = Some (s, b) → s ≠ LOAN) →
      (∀ t o, 0 ≤ o < bs → tag_ok t → page_of t = p → m' (home t + o) = k_mem κ (base κ t + o)) →
      (∀ x, (x < p ∨ p + 2 ^ c_page_bits c ≤ x) → m' x = k_mem κ x) →
      cstep κ (LMigrateNVM p)
        (MkConf false (filter (λ x, in_page p x.1 = false) (k_blocks κ)) (k_b0 κ) (k_b1 κ)
           ({[p]} ∪ k_pages κ) m')
  | S_migrate_dram κ p m' :
      k_ck κ = false → p ∈ k_pages κ →
      (∀ t s b, k_blocks κ !! t = Some (s, b) → s ≠ LOAN) →
      (∀ x, m' x = k_mem κ x) →
      cstep κ (LMigrateDRAM p)
        (MkConf false (k_blocks κ) (k_b0 κ) (k_b1 κ) (k_pages κ ∖ {[p]}) m')
  | S_clean_dirty κ t b m' :
      k_ck κ = false → k_blocks κ !! t = Some (DIRTY, b) → (∀ x, m' x = k_mem κ x) →
      cstep κ (LCleanDirty t)
        (MkConf false (<[t := (CLEAN, b)]> (k_blocks κ)) (k_b0 κ) (k_b1 κ) (k_pages κ) m')
  | S_drop_hidden κ t b m' :
      k_ck κ = false → k_blocks κ !! t = Some (HIDDEN, b) → (∀ x, m' x = k_mem κ x) →
      cstep κ (LDropHidden t)
        (MkConf false (delete t (k_blocks κ)) (k_b0 κ) (k_b1 κ) (k_pages κ) m')
  | S_begin κ m' :
      k_ck κ = false → (∀ t s b, k_blocks κ !! t = Some (s, b) → s = CLEAN) →
      (∀ x, m' x = k_mem κ x) →
      cstep κ LBegin (MkConf true (k_blocks κ) (k_b0 κ) (k_b1 κ) (k_pages κ) m')
  | S_finish κ m' :
      k_ck κ = true → (∀ x, m' x = k_mem κ x) →
      cstep κ LFinish (MkConf false (k_blocks κ) (k_b1 κ) ∅ (k_pages κ) m')
  | S_write κ a n m' :
      tag_ok (a / bs) → 0 ≤ n → a mod bs + n ≤ bs → writable κ (a / bs) →
      (∀ x, ¬ (base κ (a / bs) + a mod bs ≤ x < base κ (a / bs) + a mod bs + n) →
         m' x = k_mem κ x) →
      cstep κ (LWrite a n)
        (MkConf (k_ck κ) (k_blocks κ) (k_b0 κ) (k_b1 κ) (k_pages κ) m')
  | S_tau κ m' :
      (∀ x, m' x = k_mem κ x) →
      cstep κ LTau (MkConf (k_ck κ) (k_blocks κ) (k_b0 κ) (k_b1 κ) (k_pages κ) m').

(** The block whose data a step does not carry along, and the bytes of the physical
    space a step may change. *)
Definition lost (l : label) : option Z :=
  match l with
  | LHideClean t false | LResetClean t false | LDirtyStained t false
  | LFreeLoan t false | LHideTemp t false | LSetup t false => Some t
  | _ => None
  end.
Definition touches (l : label) (x : Z) : Prop :=
  match l with
  | LWrite a n => a ≤ x < a + n
  | _ => lost l = Some (x / bs)
  end.

(** Invariant of configurations: no two blocks share a place, and the place tells
    the state. *)
Record cinv (κ : Conf) : Prop := {
  ci_tag t x : k_blocks κ !! t = Some x → tag_ok t;
  ci_slot t s b : k_blocks κ !! t = Some (s, b) →
    match s with
    | CLEAN | DIRTY => ∃ k, b = nslot k ∧ 0 ≤ k < 2 * c_att_len c ∧ k ∉ k_b0 κ ∧ k ∉ k_b1 κ
    | LOAN | TEMP | STAINED => ∃ d, b = dslot d ∧ 0 ≤ d < c_att_len c
    | HIDDEN => b = home t
    | FREE => False
    end;
  ci_inj t u s s' b : k_blocks κ !! t = Some (s, b) → k_blocks κ !! u = Some (s', b) → t = u;
  ci_backup k : k ∈ k_b0 κ ∨ k ∈ k_b1 κ → 0 ≤ k < 2 * c_att_len c;
  ci_page t s b : k_blocks κ !! t = Some (s, b) → s = LOAN ↔ page_of t ∈ k_pages κ;
  ci_ck t s b : k_ck κ = true → k_blocks κ !! t = Some (s, b) →
    s = CLEAN ∨ s = LOAN ∨ s = TEMP ∨ s = STAINED;
  ci_run : k_ck κ = false → k_b1 κ = ∅;
  ci_aligned p : p ∈ k_pages κ → p mod 2 ^ c_page_bits c = 0;
}.

(** Runs, with the invariant at every step. *)
Inductive csteps : Conf → list label → Conf → Prop :=
  | csteps_nil κ : csteps κ [] κ
  | csteps_cons κ l κ1 ls κ' :
      cinv κ → cstep κ l κ1 → csteps κ1 ls κ' → csteps κ (l :: ls) κ'.

(** ** What survives a crash *)

(** The place [b] holds block [t] of the image. *)
Definition holds (m : Z → Z) (img : Z → Z) (b t : Z) : Prop :=
  ∀ o, 0 ≤ o < bs → m (b + o) = img (home t + o).
Definition backed (κ : Conf) (S : gset Z) (img : Z → Z) (t : Z) : Prop :=
  ∃ k, k ∈ S ∧ holds (k_mem κ) img (nslot k) t.

(** Where a checkpointed block is found: while the processor runs, ... *)
Definition last_run (κ : Conf) (img : Z → Z) (t : Z) : Prop :=
  match k_blocks κ !! t with
  | Some (CLEAN, b) => holds (k_mem κ) img b t
  | Some (HIDDEN, _) | Some (TEMP, _) => backed κ (k_b0 κ) img t
  | _ => holds (k_mem κ) img (home t) t
  end.
(** ... while the table is flushed, ... *)
Definition last_flush (κ : Conf) (img : Z → Z) (t : Z) : Prop :=
  match k_blocks κ !! t with
  | Some (CLEAN, b) => holds (k_mem κ) img b t ∨ holds (k_mem κ) img (home t) t
  | Some (HIDDEN, _) | Some (TEMP, _) => backed κ (k_b0 κ) img t
  | None => holds (k_mem κ) img (home t) t ∨ backed κ (k_b0 κ) img t
  | _ => holds (k_mem κ) img (home t) t
  end.
(** ... and while a checkpoint is written, for the last one ... *)
Definition last_ckpt (κ : Conf) (img : Z → Z) (t : Z) : Prop :=
  holds (k_mem κ) img (home t) t ∨ backed κ (k_b0 κ) img t ∨ backed κ (k_b1 κ) img t ∨
  ∃ b, k_blocks κ !! t = Some (CLEAN, b) ∧ holds (k_mem κ) img b t.
(** ... and the one being written. *)
Definition pend_ckpt (κ : Conf) (img : Z → Z) (t : Z) : Prop :=
  match k_blocks κ !! t with
  | Some (CLEAN, b) => holds (k_mem κ) img b t
  | Some (TEMP, _) => backed κ (k_b1 κ) img t
  | _ => holds (k_mem κ) img (home t) t
  end.

End Persist.
