(* ===== verification/PersistFacts.v ===== *)
(** Every step of [cstep] keeps what the processor reads and what a crash must
    leave readable. *)

From S2P Require Import Prelude MemStore AddrTransTable PersistSpec.
#[global] Open Scope Z_scope.

(** Case analysis on a step, with the same names in every proof. *)
Ltac cstep_cases Hs :=
  destruct Hs as
    [κ t j mv m' Hk Ht Hm|κ t j d mv m' Hk Ht Hd Hm|κ t j m' Hk Ht Hm|κ t j m' Hk Ht Hm
    |κ t d n mv m' Hk Ht Hn Hm|κ t d mv m' Hk Ht Hm|κ t d mv m' Hk Ht Hm
    |κ t s b mv m' Ht Hb Hlo Hfr Hm|κ p m' Hk Hp Hal H0 Htop Hnl Hin Hout|κ p m' Hk Hp Hnl Hm
    |κ t b m' Hk Ht Hm|κ t b m' Hk Ht Hm|κ m' Hk Hcl Hm|κ m' Hk Hm|κ a n m' Ht Hn Hr Hwr Hm
    |κ m' Hm].

Section Facts.
Context (c : Config) (Hc : wf_config c).

Abbreviation bs := (c_bsize c).
Abbreviation home := (home c).
Abbreviation nslot := (nslot c).
Abbreviation dslot := (dslot c).
Abbreviation base := (base c).

(** ** Places *)

Lemma bs_pos : 0 < bs.
Proof. apply pow2_pos. apply (wf_bits _ Hc). Qed.

Lemma bs_page : ∃ q, 0 < q ∧ 2 ^ c_page_bits c = q * bs.
Proof.
  exists (2 ^ (c_page_bits c - c_block_bits c)). destruct (wf_bits _ Hc).
  split; [apply pow2_pos; lia|]. unfold c_bsize. rewrite <- Z.pow_add_r by lia. f_equal. lia.
Qed.

Lemma phy_aligned : ∃ q, c_phy_range c = q * bs.
Proof.
  destruct bs_page as (q&Hq&E). pose proof (wf_align _ Hc) as Ha. rewrite E in Ha.
  apply Z.mod_divide in Ha as [r Hr]; [|pose proof bs_pos; nia]. exists (r * q). rewrite Hr. ring.
Qed.

(** Places of blocks are apart by at least a block. *)
Definition place (b : Z) : Prop := ∃ q, b = q * bs.

Lemma place_home t : place (home t).
Proof. by exists t. Qed.
Lemma place_nslot k : place (nslot k).
Proof. destruct phy_aligned as [q E]. exists (q + k). unfold PersistSpec.nslot, c_nvm_base. lia. Qed.
Lemma place_dslot k : place (dslot k).
Proof.
  destruct phy_aligned as [q E]. exists (q + 2 * c_att_len c + k).
  unfold PersistSpec.dslot, c_dram_base. lia.
Qed.

Lemma tag_top t : tag_ok c t → 0 ≤ home t ∧ home t + bs ≤ c_phy_range c.
Proof.
  intros [H0 Ht]. destruct phy_aligned as [q E]. pose proof bs_pos.
  unfold PersistSpec.home in *. rewrite E in *. assert (t < q) by nia. nia.
Qed.

Lemma home_inj t u : home t = home u → t = u.
Proof. pose proof bs_pos. unfold PersistSpec.home. nia. Qed.
Lemma nslot_inj k k' : nslot k = nslot k' → k = k'.
Proof. pose proof bs_pos. unfold PersistSpec.nslot. nia. Qed.
Lemma dslot_inj k k' : dslot k = dslot k' → k = k'.
Proof. pose proof bs_pos. unfold PersistSpec.dslot. nia. Qed.
Lemma home_nslot t k : tag_ok c t → 0 ≤ k → home t ≠ nslot k.
Proof. intros ?%tag_top ?. pose proof bs_pos. unfold PersistSpec.nslot, c_nvm_base. nia. Qed.
Lemma home_dslot t d : tag_ok c t → 0 ≤ d → home t ≠ dslot d.
Proof.
  intros ?%tag_top ?. pose proof bs_pos. pose proof (wf_att _ Hc).
  unfold PersistSpec.dslot, c_dram_base. nia.
Qed.
Lemma nslot_dslot k d : k < 2 * c_att_len c → 0 ≤ d → nslot k ≠ dslot d.
Proof.
  intros. pose proof bs_pos. unfold PersistSpec.dslot, PersistSpec.nslot, c_dram_base, c_nvm_base. nia.
Qed.

(** ** Memory effects *)

Definition same_at (m m' : Z → Z) (b : Z) : Prop := ∀ o, 0 ≤ o < bs → m' (b + o) = m (b + o).

Lemma place_apart b b' o o' : place b → place b' → b ≠ b' → 0 ≤ o < bs → 0 ≤ o' < bs →
  b + o ≠ b' + o'.
Proof.
  intros [q ->] [q' ->] Hne ? ? E. pose proof bs_pos. apply Hne. f_equal.
  assert (¬ q < q' ∧ ¬ q' < q) by nia. lia.
Qed.

Lemma copied_same dst src m m' b :
  copied c dst src m m' → place b → place dst → b ≠ dst → same_at m m' b.
Proof.
  intros Hm Hb Hd Hne o Ho. rewrite Hm, bool_decide_eq_false_2; [done|]. intros Hx.
  by apply (place_apart b dst o (b + o - dst)); [..|lia|lia].
Qed.

Lemma copied_to dst src m m' o : copied c dst src m m' → 0 ≤ o < bs → m' (dst + o) = m (src + o).
Proof. intros Hm Ho. rewrite Hm, bool_decide_eq_true_2 by lia. f_equal. lia. Qed.

Lemma moved_same mv dst src m m' b :
  moved c mv dst src m m' → place b → place dst → b ≠ dst → same_at m m' b.
Proof. destruct mv; [apply copied_same|]. intros Hm _ _ _ o _. apply Hm. Qed.

Lemma swapped_same x y m m' b : swapped c x y m m' → place b → place x → place y →
  b ≠ x → b ≠ y → same_at m m' b.
Proof.
  intros Hm Hb Hx Hy Hbx Hby o Ho. rewrite Hm, !bool_decide_eq_false_2; [done|..]; intros Hr.
  - by apply (place_apart b y o (b + o - y)); [..|lia|lia].
  - by apply (place_apart b x o (b + o - x)); [..|lia|lia].
Qed.

Lemma swapped_l x y m m' o : swapped c x y m m' → 0 ≤ o < bs → m' (x + o) = m (y + o).
Proof. intros Hm Ho. rewrite Hm, bool_decide_eq_true_2 by lia. f_equal. lia. Qed.

Lemma swapped_r x y m m' o : swapped c x y m m' → place x → place y → x ≠ y → 0 ≤ o < bs →
  m' (y + o) = m (x + o).
Proof.
  intros Hm Hx Hy Hne Ho. rewrite Hm, bool_decide_eq_false_2, bool_decide_eq_true_2 by
    (lia || (intros Hr; apply (place_apart x y (y + o - x) o); done || lia)).
  f_equal. lia.
Qed.

Lemma holds_same m m' img b t : same_at m m' b → holds c m img b t → holds c m' img b t.
Proof. intros Hs Hh o Ho. rewrite Hs by done. by apply Hh. Qed.

(** ** Current places *)

#[local] Hint Resolve place_home place_nslot place_dslot : core.

Lemma base_place κ t : cinv c κ → place (base κ t).
Proof.
  intros Hi. unfold PersistSpec.base. destruct (k_blocks κ !! t) as [[s b]|] eqn:E; [|done].
  pose proof (ci_slot _ _ Hi _ _ _ E). destruct s; naive_solver.
Qed.
#[local] Hint Resolve base_place : core.

Lemma base_home κ t u : cinv c κ → tag_ok c t → u ≠ t → base κ u ≠ home t.
Proof.
  intros Hi Ht Hne. unfold PersistSpec.base.
  destruct (k_blocks κ !! u) as [[s b]|] eqn:E; [|by intros ?%home_inj].
  pose proof (ci_slot _ _ Hi _ _ _ E) as Hs. intros ->.
  destruct s; try done; try (destruct Hs as (k&Hk&?); (by destruct (home_nslot t k); [..|lia|]) ||
    by destruct (home_dslot t k); [..|lia|]).
  by apply Hne, eq_sym, home_inj.
Qed.

Lemma base_nfresh κ n u : nfresh c κ n → tag_ok c u → base κ u ≠ nslot n.
Proof.
  intros (Hn&_&_&Hf) Hu. unfold PersistSpec.base.
  destruct (k_blocks κ !! u) as [[s b]|] eqn:E; [|by apply home_nslot; [|lia]].
  intros ->. by apply (Hf u s).
Qed.

Lemma base_dfresh κ d u : dfresh c κ d → tag_ok c u → base κ u ≠ dslot d.
Proof.
  intros (Hn&Hf) Hu. unfold PersistSpec.base.
  destruct (k_blocks κ !! u) as [[s b]|] eqn:E; [|by apply home_dslot; [|lia]].
  intros ->. by apply (Hf u s).
Qed.

(** Places of other blocks. *)
Lemma base_other κ t u s k : cinv c κ → k_blocks κ !! t = Some (s, nslot k) → 0 ≤ k →
  tag_ok c u → u ≠ t → base κ u ≠ nslot k.
Proof.
  intros Hi Ht Hk Hu Hne. unfold PersistSpec.base.
  destruct (k_blocks κ !! u) as [[s' b]|] eqn:E; [|by apply home_nslot].
  intros ->. by apply Hne, (ci_inj _ _ Hi _ _ _ _ _ E Ht).
Qed.

Lemma clean_slot κ t b : cinv c κ → k_blocks κ !! t = Some (CLEAN, b) →
  ∃ k, b = nslot k ∧ 0 ≤ k < 2 * c_att_len c ∧ k ∉ k_b0 κ ∧ k ∉ k_b1 κ.
Proof. intros Hi Ht. apply (ci_slot _ _ Hi _ _ _ Ht). Qed.

Lemma nslot_range κ t s k : cinv c κ → k_blocks κ !! t = Some (s, nslot k) → 0 ≤ k →
  k < 2 * c_att_len c → k ∉ k_b0 κ ∧ k ∉ k_b1 κ.
Proof.
  intros Hi Ht Hk Hk'. pose proof (ci_slot _ _ Hi _ _ _ Ht) as Hs.
  pose proof (ci_tag _ _ Hi _ _ Ht).
  destruct s; try done;
    try (destruct Hs as (k'&E&?); apply nslot_inj in E as ->; naive_solver);
    try (destruct Hs as (d&E&?); by destruct (nslot_dslot k d); [..|lia|]).
  by destruct (home_nslot t k).
Qed.

(** ** What the processor reads *)

(** The block [u] reads the same bytes after as before. *)
Definition reads_same (κ κ' : Conf) (u : Z) : Prop :=
  ∀ o, 0 ≤ o < bs → k_mem κ' (base κ' u + o) = k_mem κ (base κ u + o).

Lemma reads_other κ κ' u :
  base κ' u = base κ u → same_at (k_mem κ) (k_mem κ') (base κ u) → reads_same κ κ' u.
Proof. intros E Hs o Ho. rewrite E. by apply Hs. Qed.

Lemma reads_moved κ κ' u dst :
  base κ' u = dst → copied c dst (base κ u) (k_mem κ) (k_mem κ') → reads_same κ κ' u.
Proof. intros <- Hm o Ho. by apply copied_to. Qed.

Lemma base_insert κ κ' t s b u : k_blocks κ' = <[t := (s, b)]> (k_blocks κ) →
  base κ' u = if decide (u = t) then b else base κ u.
Proof.
  intros E. unfold PersistSpec.base. rewrite E. case_decide as Hd; [subst; by rewrite lookup_insert_eq|].
  by rewrite lookup_insert_ne.
Qed.

Lemma base_delete κ κ' t u : k_blocks κ' = delete t (k_blocks κ) →
  base κ' u = if decide (u = t) then home t else base κ u.
Proof.
  intros E. unfold PersistSpec.base. rewrite E. case_decide as Hd; [subst; by rewrite lookup_delete_eq|].
  by rewrite lookup_delete_ne.
Qed.

Lemma base_some κ t s b : k_blocks κ !! t = Some (s, b) → base κ t = b.
Proof. unfold PersistSpec.base. by intros ->. Qed.

(** A step that gives block [t] the place [dst], copying its data when [mv]. *)
Lemma reads_insert κ κ' t s dst mv src u :
  cinv c κ → k_blocks κ' = <[t := (s, dst)]> (k_blocks κ) →
  moved c mv dst src (k_mem κ) (k_mem κ') → base κ t = src → place dst →
  (u ≠ t → base κ u ≠ dst) → (mv = false → u ≠ t) → reads_same κ κ' u.
Proof.
  intros Hi E Hm Hsrc Hp Hne Hmv. pose proof (base_insert κ κ' t s dst u E) as Eb.
  case_decide as Hd.
  - subst u. destruct mv; [|by destruct Hmv]. apply (reads_moved _ _ _ dst); [done|].
    by rewrite Hsrc.
  - apply reads_other; [done|]. eapply moved_same; eauto.
Qed.

Lemma reads_delete κ κ' t mv src u :
  cinv c κ → k_blocks κ' = delete t (k_blocks κ) →
  moved c mv (home t) src (k_mem κ) (k_mem κ') → base κ t = src → tag_ok c t →
  (mv = false → u ≠ t) → reads_same κ κ' u.
Proof.
  intros Hi E Hm Hsrc Ht Hmv. pose proof (base_delete κ κ' t u E) as Eb.
  case_decide as Hd.
  - subst u. destruct mv; [|by destruct Hmv]. apply (reads_moved _ _ _ (home t)); [done|].
    by rewrite Hsrc.
  - apply reads_other; [done|]. eapply moved_same; eauto using base_home.
Qed.

Lemma lost_moved (mv : bool) (t u : Z) :
  (if mv then None else Some t) ≠ Some u → mv = false → u ≠ t.
Proof. intros Hl -> ->. by apply Hl. Qed.

Lemma reads_unmoved κ κ' u : k_blocks κ' = k_blocks κ → (∀ x, k_mem κ' x = k_mem κ x) →
  reads_same κ κ' u.
Proof. intros E Hm o _. rewrite Hm. unfold PersistSpec.base. by rewrite E. Qed.

(** The page that leaves the NVM is read at its home. *)
Lemma page_of_range t : tag_ok c t →
  page_of c t ≤ home t ∧ home t + bs ≤ page_of c t + 2 ^ c_page_bits c.
Proof.
  intros Ht. destruct bs_page as (q&Hq&E). pose proof bs_pos.
  unfold page_of. rewrite E. unfold PersistSpec.home.
  rewrite Z.mul_mod_distr_r by lia. pose proof (Z.mod_pos_bound t q). nia.
Qed.

Lemma page_range_home p t o : p mod 2 ^ c_page_bits c = 0 →
  p ≤ home t + o < p + 2 ^ c_page_bits c → 0 ≤ o < bs → page_of c t = p.
Proof.
  intros Hp Hr Ho. destruct bs_page as (q&Hq&E). pose proof bs_pos. rewrite E in *.
  apply Z.mod_divide in Hp as [r ->]; [|nia]. unfold page_of, PersistSpec.home in *.
  rewrite E, Z.mul_mod_distr_r by lia. rewrite Z.mul_assoc, <- Z.mul_sub_distr_r. f_equal.
  assert (r * q ≤ t < r * q + q) as Ht by (rewrite Z.mul_assoc in Hr; nia).
  rewrite <- (Z.mod_unique_pos t q r (t - r * q)) by lia. lia.
Qed.

Lemma reads_migrate κ κ' p u : cinv c κ → tag_ok c u → p mod 2 ^ c_page_bits c = 0 →
  0 ≤ p → p + 2 ^ c_page_bits c ≤ c_phy_range c →
  k_blocks κ' = filter (λ x, in_page c p x.1 = false) (k_blocks κ) →
  (∀ t o, 0 ≤ o < bs → tag_ok c t → page_of c t = p →
     k_mem κ' (home t + o) = k_mem κ (base κ t + o)) →
  (∀ x, (x < p ∨ p + 2 ^ c_page_bits c ≤ x) → k_mem κ' x = k_mem κ x) →
  reads_same κ κ' u.
Proof.
  intros Hi Hu Hp H0 Htop E Hin Hout o Ho. pose proof (page_range_home p u o Hp) as Hr.
  assert (k_blocks κ' !! u = if decide (page_of c u = p) then None else k_blocks κ !! u) as Eu.
  { rewrite E. case_decide as Hd.
    - apply map_lookup_filter_None. right. intros x _. unfold in_page. simpl.
      by rewrite bool_decide_eq_true_2.
    - destruct (k_blocks κ !! u) eqn:Eu.
      + apply map_lookup_filter_Some. split; [done|]. by apply bool_decide_eq_false.
      + apply map_lookup_filter_None. by left. }
  unfold PersistSpec.base. rewrite Eu. case_decide as Hd; [by apply Hin|]. apply Hout.
  destruct (k_blocks κ !! u) as [[s b]|] eqn:Ek; [|lia].
  pose proof (ci_slot _ _ Hi _ _ _ Ek) as Hs. pose proof bs_pos. pose proof (wf_att _ Hc).
  unfold PersistSpec.nslot, PersistSpec.dslot, c_nvm_base, c_dram_base in Hs.
  destruct s; try done; try (destruct Hs as (k&->&?); nia). subst. lia.
Qed.

(** Every step but a store keeps what is read of a block whose data it carries. *)
Lemma reads_step κ l κ' u : cinv c κ → cstep c κ l κ' → tag_ok c u → lost l ≠ Some u →
  (∀ a n, l ≠ LWrite a n) → reads_same κ κ' u.
Proof.
  intros Hi Hs Hu Hl Hw. cstep_cases Hs;
    try (pose proof (ci_tag _ _ Hi _ _ Ht) as Htt; pose proof (base_some _ _ _ _ Ht) as Hbt).
  - eapply (reads_insert κ _ t HIDDEN); eauto using base_home, lost_moved.
  - eapply (reads_insert κ _ t TEMP); eauto using base_dfresh, lost_moved.
  - eapply (reads_delete κ _ t true); eauto.
  - destruct (clean_slot _ _ _ Hi Ht) as (k'&E%nslot_inj&Hr&_). subst k'.
    intros o Ho. rewrite (base_delete κ _ t u) by done. cbn [k_mem].
    case_decide as Hd; [subst; rewrite Hbt; by apply (swapped_l _ _ _ _ _ Hm)|].
    eapply swapped_same; eauto using base_home. eapply base_other; eauto. lia.
  - eapply (reads_insert κ _ t DIRTY); eauto using base_nfresh, lost_moved.
  - eapply (reads_delete κ _ t mv); eauto using lost_moved.
  - eapply (reads_insert κ _ t HIDDEN); eauto using base_home, lost_moved.
  - assert (base κ t = home t) as Hbt by (unfold PersistSpec.base; by rewrite Hb).
    destruct (k_ck κ); destruct Hfr as (_&x&Hx&->);
      eapply (reads_insert κ _ t s); eauto using base_nfresh, base_dfresh, lost_moved.
  - by eapply (reads_migrate κ _ p).
  - by apply reads_unmoved.
  - intros o Ho. rewrite (base_insert κ _ t CLEAN b u) by done. cbn [k_mem]. rewrite Hm.
    case_decide; [|done]. subst u. by rewrite Hbt.
  - intros o Ho. rewrite (base_delete κ _ t u) by done. cbn [k_mem]. rewrite Hm.
    pose proof (ci_slot _ _ Hi _ _ _ Ht) as Hb. simpl in Hb. rewrite Hb in Hbt.
    case_decide; [|done]. subst u. by rewrite Hbt.
  - by apply reads_unmoved.
  - by apply reads_unmoved.
  - by destruct (Hw a n).
  - by apply reads_unmoved.
Qed.

Lemma base_inj κ t u : cinv c κ → tag_ok c t → tag_ok c u → base κ t = base κ u → t = u.
Proof.
  intros Hi Ht Hu E. destruct (decide (t = u)) as [|Hne]; [done|].
  destruct (k_blocks κ !! t) as [[s b]|] eqn:Et.
  - destruct (k_blocks κ !! u) as [[s' b']|] eqn:Eu.
    + rewrite (base_some _ _ _ _ Et), (base_some _ _ _ _ Eu) in E. subst.
      by eapply (ci_inj _ _ Hi).
    + destruct (base_home κ u t); [done..|]. rewrite E. unfold PersistSpec.base. by rewrite Eu.
  - destruct (base_home κ t u); [done..|]. rewrite <- E. unfold PersistSpec.base. by rewrite Et.
Qed.

Lemma addr_split x : x = home (x / bs) + x mod bs ∧ 0 ≤ x mod bs < bs.
Proof.
  pose proof bs_pos. unfold PersistSpec.home. pose proof (Z.div_mod x bs).
  pose proof (Z.mod_pos_bound x bs). lia.
Qed.

Lemma home_addr t o : 0 ≤ o < bs → (home t + o) / bs = t ∧ (home t + o) mod bs = o.
Proof.
  intros Ho. unfold PersistSpec.home.
  split; symmetry; [apply (Z.div_unique_pos _ _ _ o)|apply (Z.mod_unique_pos _ _ t)]; lia.
Qed.

Lemma tag_ok_addr x : 0 ≤ x < c_phy_range c → tag_ok c (x / bs).
Proof.
  intros Hx. pose proof bs_pos. destruct (addr_split x) as [E Hr].
  split; [apply Z.div_pos; lia|]. lia.
Qed.

(** A step changes what the processor reads only at the bytes it touches. *)
Lemma view_step κ l κ' x : cinv c κ → cstep c κ l κ' → 0 ≤ x < c_phy_range c →
  ¬ touches c l x → view c κ' x = view c κ x.
Proof.
  intros Hi Hs Hx Hl. pose proof (tag_ok_addr x Hx) as Hu. destruct (addr_split x) as [Ex Ho].
  assert ((∀ a n, l ≠ LWrite a n) ∨ ∃ a n, l = LWrite a n) as [Hw|(a&n&->)].
  { destruct l; try (left; done). right. eauto. }
  - eapply (reads_step κ l); eauto. by destruct l.
  - inversion Hs as [ | | | | | | | | | | | | | |κ0 a0 n0 m' Ht Hn Hr Hwr Hm|]; subst.
    unfold view. cbn [k_mem]. change (PersistSpec.base c (MkConf _ _ _ _ _ _)) with (base κ).
    apply Hm. intros Hin. destruct (addr_split a) as [Ea Ha]. simpl in Hl.
    destruct (decide (x / bs = a / bs)) as [E|Hne]; [rewrite E in *; lia|].
    apply (place_apart (base κ (x / bs)) (base κ (a / bs)) (x mod bs)
      (base κ (x / bs) + x mod bs - base κ (a / bs))); try done; try lia; [by apply base_place..|].
    intros E. by apply Hne, (base_inj κ).
Qed.

(** ** What a step writes *)

(** The step writes the home of block [u]. *)
Definition writes_home (κ : Conf) (l : label) (u : Z) : Prop :=
  match l with
  | LHideClean t _ | LFreeClean t | LFreeLoan t _ | LHideTemp t _ => t = u
  | LMigrateNVM p => page_of c u = p
  | LWrite a _ => a / bs = u ∧ base κ u = home u
  | _ => False
  end.

Lemma kept_write κ a n m' b :
  cinv c κ → 0 ≤ n → a mod bs + n ≤ bs → place b → base κ (a / bs) ≠ b →
  (∀ x, ¬ (base κ (a / bs) + a mod bs ≤ x < base κ (a / bs) + a mod bs + n) →
     m' x = k_mem κ x) → same_at (k_mem κ) m' b.
Proof.
  intros Hi Hn Hr Hb Hne Hm o Ho. apply Hm. intros Hx. destruct (addr_split a) as [_ Ha].
  apply (place_apart (base κ (a / bs)) b (b + o - base κ (a / bs)) o);
    [by apply base_place|done|done|lia..].
Qed.

Lemma unmoved_same m m' b : (∀ x, m' x = m x) → same_at m m' b.
Proof. intros Hm o _. apply Hm. Qed.

Lemma kept_home κ l κ' u : cinv c κ → cstep c κ l κ' → tag_ok c u → ¬ writes_home κ l u →
  same_at (k_mem κ) (k_mem κ') (home u).
Proof.
  intros Hi Hs Hu Hl. cstep_cases Hs;
    simpl in Hl; cbn [k_mem]; try by apply unmoved_same.
  - eapply moved_same; eauto. by intros ->%home_inj.
  - destruct Hd as [Hd _]. eapply moved_same; eauto. apply home_dslot; [done|lia].
  - eapply copied_same; eauto. by intros ->%home_inj.
  - destruct (clean_slot _ _ _ Hi Ht) as (k'&E%nslot_inj&Hr&_). subst k'.
    eapply swapped_same; eauto; [by intros ->%home_inj|]. apply home_nslot; [done|lia].
  - destruct Hn as [Hn _]. eapply moved_same; eauto. apply home_nslot; [done|lia].
  - eapply moved_same; eauto. by intros ->%home_inj.
  - eapply moved_same; eauto. by intros ->%home_inj.
  - destruct (k_ck κ); destruct Hfr as (_&x&[Hx _]&->); (eapply moved_same; eauto);
      [apply home_dslot|apply home_nslot]; done || lia.
  - intros o Ho. apply Hout. pose proof (page_range_home p u o Hal). lia.
  - eapply kept_write; eauto. intros E. apply Hl.
    destruct (decide (a / bs = u)) as [<-|Hne]; [done|]. by destruct (base_home κ u (a / bs)).
Qed.

(** A slot of the NVM buffer that is neither fresh nor written in place is kept,
    except by the exchange that frees a clean block during a checkpoint. *)
Lemma kept_nslot κ l κ' k : cinv c κ → cstep c κ l κ' → 0 ≤ k < 2 * c_att_len c →
  ¬ nfresh c κ k → (∀ t, tag_ok c t → base κ t = nslot k → ¬ writable c κ t) →
  (∀ t, l = LFreeClean t → k_ck κ = true → base κ t ≠ nslot k) →
  same_at (k_mem κ) (k_mem κ') (nslot k).
Proof.
  intros Hi Hs Hkr Hnf Hnw Hnx.
  assert (∀ t, tag_ok c t → nslot k ≠ home t) as Hnh.
  { intros t Ht E. by destruct (home_nslot t k Ht); [lia|]. }
  assert (∀ d, 0 ≤ d → nslot k ≠ dslot d) as Hnd by (intros; by apply nslot_dslot; [lia|]).
  cstep_cases Hs; cbn [k_mem]; try by apply unmoved_same.
  - pose proof (ci_tag _ _ Hi _ _ Ht). eapply moved_same; eauto.
  - destruct Hd as [Hd _]. eapply moved_same; eauto. apply Hnd. lia.
  - pose proof (ci_tag _ _ Hi _ _ Ht). eapply copied_same; eauto.
  - pose proof (ci_tag _ _ Hi _ _ Ht). eapply swapped_same; eauto.
    intros E. apply (Hnx t); [done|done|]. by rewrite (base_some _ _ _ _ Ht).
  - eapply moved_same; eauto. by intros ->%nslot_inj.
  - pose proof (ci_tag _ _ Hi _ _ Ht). eapply moved_same; eauto.
  - pose proof (ci_tag _ _ Hi _ _ Ht). eapply moved_same; eauto.
  - destruct (k_ck _); destruct Hfr as (_&x&Hx&->); (eapply moved_same; eauto).
    + destruct Hx as [Hx _]. apply Hnd. lia.
    + by intros ->%nslot_inj.
  - intros o Ho. apply Hout. pose proof bs_pos. unfold PersistSpec.nslot, c_nvm_base. nia.
  - eapply kept_write; eauto. intros E. by apply (Hnw (a / bs)).
Qed.

Lemma base_backup κ k t : cinv c κ → k ∈ k_b0 κ ∨ k ∈ k_b1 κ → tag_ok c t → base κ t ≠ nslot k.
Proof.
  intros Hi Hk Ht E. pose proof (ci_backup _ _ Hi _ Hk) as Hr. unfold PersistSpec.base in E.
  destruct (k_blocks κ !! t) as [[s b]|] eqn:Et.
  - subst. pose proof (nslot_range _ _ _ _ Hi Et). naive_solver lia.
  - by destruct (home_nslot t k); [|lia|].
Qed.

(** No step writes a backup slot. *)
Lemma kept_backup κ l κ' k : cinv c κ → cstep c κ l κ' → k ∈ k_b0 κ ∨ k ∈ k_b1 κ →
  same_at (k_mem κ) (k_mem κ') (nslot k).
Proof.
  intros Hi Hs Hk. eapply kept_nslot; eauto.
  - by apply (ci_backup _ _ Hi).
  - intros (_&?&?&_). naive_solver.
  - intros t Ht E. by destruct (base_backup κ k t).
  - intros t -> _ E. destruct (k_blocks κ !! t) as [x|] eqn:Et.
    + pose proof (ci_tag _ _ Hi _ _ Et). by destruct (base_backup κ k t).
    + inversion Hs; subst; congruence.
Qed.

(** The slot of a clean block is written only by the exchange. *)
Lemma kept_clean κ l κ' u k : cinv c κ → cstep c κ l κ' →
  k_blocks κ !! u = Some (CLEAN, nslot k) → (l = LFreeClean u → k_ck κ = false) →
  same_at (k_mem κ) (k_mem κ') (nslot k).
Proof.
  intros Hi Hs Hu Hl. destruct (clean_slot _ _ _ Hi Hu) as (k'&E%nslot_inj&Hr&_). subst k'.
  pose proof (ci_tag _ _ Hi _ _ Hu) as Hut. pose proof (base_some _ _ _ _ Hu) as Hbu.
  eapply kept_nslot; eauto.
  - intros (_&_&_&Hf). by apply (Hf u CLEAN).
  - intros t Ht E. assert (t = u) as -> by (apply (base_inj κ); [done..|congruence]).
    unfold writable. rewrite Hu. naive_solver.
  - intros t -> Hk E. assert (t = u) as ->; [|rewrite Hl in Hk; done].
    apply (base_inj κ); [done| |done|congruence].
    inversion Hs; subst; by eapply (ci_tag _ _ Hi).
Qed.

(** ** Crash consistency *)

Lemma backed_step κ l κ' (S S' : gset Z) img u : cinv c κ → cstep c κ l κ' →
  (∀ k, k ∈ S → k ∈ k_b0 κ ∨ k ∈ k_b1 κ) → S ⊆ S' →
  backed c κ S img u → backed c κ' S' img u.
Proof.
  intros Hi Hs HS Hsub (k&Hk&Hh). exists k. split; [set_solver|].
  eapply holds_same; [|done]. eapply kept_backup; eauto.
Qed.

Lemma holds_home κ l κ' img u : cinv c κ → cstep c κ l κ' → tag_ok c u → ¬ writes_home κ l u →
  holds c (k_mem κ) img (home u) u → holds c (k_mem κ') img (home u) u.
Proof. intros. eapply holds_same; [|done]. by eapply kept_home. Qed.

Lemma holds_clean κ l κ' img u b : cinv c κ → cstep c κ l κ' →
  k_blocks κ !! u = Some (CLEAN, b) → (l = LFreeClean u → k_ck κ = false) →
  holds c (k_mem κ) img b u → holds c (k_mem κ') img b u.
Proof.
  intros Hi Hs Hu Hl. destruct (clean_slot _ _ _ Hi Hu) as (k&->&_). intros Hh.
  eapply holds_same; [|done]. by eapply kept_clean.
Qed.

(** The steps taken while the processor runs, ... *)
Definition run_label (l : label) : bool :=
  match l with LCleanDirty _ | LDropHidden _ | LBegin | LFinish => false | _ => true end.
(** ... and while the table is flushed at the start of a checkpoint. *)
Definition flush_label (l : label) : bool :=
  match l with
  | LDirtyStained _ true | LHideTemp _ true | LCleanDirty _ | LDropHidden _ => true
  | _ => false
  end.

(** A step about another block, or a store to this one. *)
Lemma run_other κ l κ' img u : cinv c κ → cstep c κ l κ' → tag_ok c u →
  k_blocks κ' !! u = k_blocks κ !! u → k_b0 κ ⊆ k_b0 κ' → l ≠ LFreeClean u →
  match k_blocks κ !! u with
  | Some (CLEAN, _) | Some (HIDDEN, _) | Some (TEMP, _) => True
  | _ => ¬ writes_home κ l u
  end → last_run c κ img u → last_run c κ' img u.
Proof.
  intros Hi Hs Hu E Hb Hl Hw. unfold last_run. rewrite E.
  destruct (k_blocks κ !! u) as [[[] b]|] eqn:Eu; try by eapply holds_home.
  - by eapply holds_clean.
  - eapply backed_step; eauto.
  - eapply backed_step; eauto.
Qed.

(** Solves the case of a block that the step is not about. *)
Ltac other_block lem :=
  eapply lem; eauto; cbn [k_blocks k_b0 k_b1];
  rewrite ?lookup_insert_ne, ?lookup_delete_ne by done;
  lazymatch goal with
  | |- _ ⊆ _ => set_solver
  | |- LFreeClean _ ≠ _ => congruence
  | |- _ = _ => done
  | |- _ => simpl; repeat case_match; eauto
  end.

Lemma write_home κ a n u : cinv c κ → tag_ok c u → page_of c u ∉ k_pages κ → writable c κ (a / bs) →
  (∀ b, k_blocks κ !! u ≠ Some (HIDDEN, b)) → ¬ writes_home κ (LWrite a n) u.
Proof.
  intros Hi Hu Hp Hw Hh [<- E]. unfold writable in Hw.
  destruct (k_blocks κ !! (a / bs)) as [[s b]|] eqn:Eu; [|done].
  pose proof (ci_slot _ _ Hi _ _ _ Eu) as Hsl. rewrite (base_some _ _ _ _ Eu) in E. subst b.
  destruct s; try done; try by apply (Hh (home (a / bs))).
  all: destruct Hsl as (k&Hk&?).
  all: (by destruct (home_dslot (a / bs) k); [|lia|]) || by destruct (home_nslot (a / bs) k); [|lia|].
Qed.

Lemma run_step κ l κ' img u : cinv c κ → cstep c κ l κ' → k_ck κ = false → run_label l = true →
  tag_ok c u → page_of c u ∉ k_pages κ → page_of c u ∉ k_pages κ' →
  last_run c κ img u → last_run c κ' img u.
Proof.
  intros Hi Hs Hck Hl Hu Hpu Hpu' HL. pose proof Hs as Hs0.
  assert (∀ b, k_blocks κ !! u ≠ Some (LOAN, b)) as Hnloan.
  { intros b Eb. by apply Hpu, (ci_page _ _ Hi _ _ _ Eb). }
  cstep_cases Hs; try done; try congruence; cbn [k_ck k_pages] in *.
  - destruct (decide (u = t)) as [->|Hd]; [|other_block run_other].
    unfold last_run in *. rewrite Ht in HL. cbn [k_blocks]. rewrite lookup_insert_eq.
    exists j. cbn [k_b0 k_mem]. split; [set_solver|]. by eapply (holds_clean _ _ _ _ _ _ Hi Hs0).
  - destruct (decide (u = t)) as [->|Hd]; [|other_block run_other].
    unfold last_run in *. rewrite Ht in HL. cbn [k_blocks]. rewrite lookup_delete_eq.
    intros o Ho. cbn [k_mem]. rewrite (copied_to _ _ _ _ _ Hm) by done. by apply HL.
  - destruct (decide (u = t)) as [->|Hd]; [|other_block run_other].
    unfold last_run in *. rewrite Ht in HL. cbn [k_blocks]. rewrite lookup_insert_eq.
    eapply (holds_home _ _ _ _ _ Hi Hs0); [done|intros []|done].
  - destruct (decide (u = t)) as [->|Hd]; [by destruct (Hnloan (dslot d))|other_block run_other].
  - destruct (decide (u = t)) as [->|Hd]; [|other_block run_other].
    unfold last_run in *. rewrite Ht in HL. cbn [k_blocks]. rewrite lookup_insert_eq.
    eapply (backed_step _ _ _ _ _ _ _ Hi Hs0); [by left|done|done].
  - rewrite Hck in *. destruct Hfr as [-> _].
    destruct (decide (u = t)) as [->|Hd]; [|other_block run_other].
    unfold last_run in *. rewrite Hb in HL. cbn [k_blocks]. rewrite lookup_insert_eq.
    eapply (holds_home _ _ _ _ _ Hi Hs0); [done|intros []|done].
  - assert (page_of c u ≠ p) by set_solver.
    eapply run_other; eauto; cbn [k_blocks k_b0]; [|repeat case_match; eauto].
    destruct (k_blocks κ !! u) eqn:Eu.
    + apply map_lookup_filter_Some. split; [done|]. by apply bool_decide_eq_false.
    + apply map_lookup_filter_None. by left.
  - other_block run_other.
  - pose proof (write_home κ a n u Hi Hu Hpu Hwr). other_block run_other.
  - other_block run_other.
Qed.

Lemma flush_other κ l κ' img u : cinv c κ → cstep c κ l κ' → tag_ok c u →
  k_blocks κ' !! u = k_blocks κ !! u → k_b0 κ ⊆ k_b0 κ' → l ≠ LFreeClean u →
  ¬ writes_home κ l u → last_flush c κ img u → last_flush c κ' img u.
Proof.
  intros Hi Hs Hu E Hb Hl Hw. unfold last_flush. rewrite E.
  assert (holds c (k_mem κ) img (home u) u → holds c (k_mem κ') img (home u) u) as Hh
    by (by eapply holds_home).
  assert (backed c κ (k_b0 κ) img u → backed c κ' (k_b0 κ') img u) as Hk
    by (eapply backed_step; eauto).
  destruct (k_blocks κ !! u) as [[[] b]|] eqn:Eu; auto; [|tauto].
  assert (holds c (k_mem κ) img b u → holds c (k_mem κ') img b u); [|tauto].
  by eapply holds_clean.
Qed.

Lemma flush_step κ l κ' img u : cinv c κ → cstep c κ l κ' → flush_label l = true →
  tag_ok c u → last_flush c κ img u → last_flush c κ' img u.
Proof.
  intros Hi Hs Hl Hu HL. pose proof Hs as Hs0.
  cstep_cases Hs; try done; (destruct (decide (u = t)) as [->|Hd]; [|other_block flush_other]);
    unfold last_flush in *; rewrite Ht in HL; cbn [k_blocks k_b0];
    rewrite ?lookup_insert_eq, ?lookup_delete_eq.
  - eapply (holds_home _ _ _ _ _ Hi Hs0); [done|intros []|done].
  - eapply (backed_step _ _ _ _ _ _ _ Hi Hs0); [by left|done|done].
  - right. eapply (holds_home _ _ _ _ _ Hi Hs0); [done|intros []|done].
  - right. eapply (backed_step _ _ _ _ _ _ _ Hi Hs0); [by left|done|done].
Qed.

(** During a checkpoint only the exchange writes the home of a block that is not
    cached in DRAM. *)
Lemma ckpt_home κ l κ' u : cinv c κ → cstep c κ l κ' → k_ck κ = true → k_ck κ' = true →
  page_of c u ∉ k_pages κ → tag_ok c u → l ≠ LFreeClean u → ¬ writes_home κ l u.
Proof.
  intros Hi Hs Hck Hck' Hpu Hu Hl. cstep_cases Hs; try congruence; try done;
    try (intros Hw; by destruct Hw).
  eapply write_home; eauto. intros b E. pose proof (ci_ck _ _ Hi _ _ _ Hck E). naive_solver.
Qed.

Lemma ckpt_step κ l κ' img u : cinv c κ → cstep c κ l κ' → k_ck κ = true → k_ck κ' = true →
  tag_ok c u → page_of c u ∉ k_pages κ → last_ckpt c κ img u → last_ckpt c κ' img u.
Proof.
  intros Hi Hs Hck Hck' Hu Hpu HL. pose proof (ckpt_home _ _ _ u Hi Hs Hck Hck' Hpu Hu) as Hh.
  assert (k_b0 κ ⊆ k_b0 κ' ∧ k_b1 κ ⊆ k_b1 κ') as [Hb0 Hb1].
  { destruct Hs; cbn [k_ck k_b0 k_b1] in *; try congruence; set_solver. }
  destruct HL as [HL|[HL|[HL|(bu&Eb&HL)]]].
  - destruct (decide (l = LFreeClean u)) as [->|Hne]; [|left; eapply holds_home; eauto].
    inversion Hs as [ | | |κ0 t j m' Hk Ht Hm| | | | | | | | | | | |]; subst; [congruence|].
    destruct (clean_slot _ _ _ Hi Ht) as (k'&E%nslot_inj&Hr&_). subst k'.
    right; right; left. exists j. cbn [k_b1 k_mem]. split; [set_solver|]. intros o Ho.
    rewrite (swapped_r _ _ _ _ _ Hm); eauto. apply home_nslot; [done|lia].
  - right; left. by eapply (backed_step _ _ _ _ _ _ _ Hi Hs); [by left|..].
  - right; right; left. by eapply (backed_step _ _ _ _ _ _ _ Hi Hs); [by right|..].
  - destruct (decide (l = LFreeClean u)) as [->|Hne].
    + inversion Hs as [ | | |κ0 t j m' Hk Ht Hm| | | | | | | | | | | |]; subst; [congruence|].
      left. intros o Ho. cbn [k_mem]. rewrite (swapped_l _ _ _ _ _ Hm) by done.
      rewrite Ht in Eb. injection Eb as <-. by apply HL.
    + pose proof (holds_clean _ _ _ img u bu Hi Hs Eb ltac:(done) HL) as HL'.
      right; right. cstep_cases Hs; cbn [k_ck k_blocks k_b1 k_mem] in *; try congruence.
      * destruct (decide (u = t)) as [->|Hut]; [left|right; exists bu; by rewrite lookup_insert_ne].
        exists j. rewrite Ht in Eb. injection Eb as <-. split; [set_solver|done].
      * right. exists bu. rewrite lookup_delete_ne by congruence. done.
      * right. exists bu. rewrite lookup_insert_ne by congruence. done.
      * right. by exists bu.
      * right. by exists bu.
Qed.

Lemma pend_step κ l κ' img u : cinv c κ → cstep c κ l κ' → k_ck κ = true → k_ck κ' = true →
  tag_ok c u → page_of c u ∉ k_pages κ → pend_ckpt c κ img u → pend_ckpt c κ' img u.
Proof.
  intros Hi Hs Hck Hck' Hu Hpu HL. pose proof (ckpt_home _ _ _ u Hi Hs Hck Hck' Hpu Hu) as Hh.
  assert (k_blocks κ' !! u = k_blocks κ !! u → k_b1 κ ⊆ k_b1 κ' → l ≠ LFreeClean u →
    pend_ckpt c κ' img u) as Hother.
  { intros E Hb1 Hne. unfold pend_ckpt in *. rewrite E.
    destruct (k_blocks κ !! u) as [[[] b]|] eqn:Eu; try (eapply holds_home; eauto; fail).
    - by eapply holds_clean.
    - by eapply (backed_step _ _ _ _ _ _ _ Hi Hs); [by right|..]. }
  pose proof Hs as Hs0. cstep_cases Hs; cbn [k_ck k_blocks k_b1] in *; try congruence.
  - destruct (decide (u = t)) as [->|Hut];
      [|apply Hother; [by rewrite lookup_insert_ne|set_solver|done]].
    unfold pend_ckpt in *. cbn [k_blocks]. rewrite lookup_insert_eq. rewrite Ht in HL.
    exists j. cbn [k_b1 k_mem]. split; [set_solver|]. by eapply (holds_clean _ _ _ _ _ _ Hi Hs0).
  - destruct (decide (u = t)) as [->|Hut];
      [|apply Hother; [by rewrite lookup_delete_ne|set_solver|congruence]].
    unfold pend_ckpt in *. cbn [k_blocks]. rewrite lookup_delete_eq. rewrite Ht in HL.
    intros o Ho. cbn [k_mem]. rewrite (swapped_l _ _ _ _ _ Hm) by done. by apply HL.
  - destruct (decide (u = t)) as [->|Hut];
      [|apply Hother; [by rewrite lookup_insert_ne|set_solver|done]].
    unfold pend_ckpt in *. cbn [k_blocks]. rewrite lookup_insert_eq. rewrite Hb in HL.
    assert (holds c m' img (home t) t) by (eapply (holds_home _ _ _ _ _ Hi Hs0); eauto).
    rewrite Hck in Hfr. destruct Hfr as [[-> | ->] _]; done.
  - by apply Hother.
  - by apply Hother.
Qed.

(** The processor's view becomes the image of the checkpoint that begins. *)
Lemma begin_step κ κ' img u : cinv c κ → cstep c κ LBegin κ' → tag_ok c u →
  (last_flush c κ img u → last_ckpt c κ' img u) ∧ pend_ckpt c κ' (view c κ) u.
Proof.
  intros Hi Hs Hu. pose proof Hs as Hs0.
  inversion Hs as [ | | | | | | | | | | | |κ0 m' Hk Hcl Hm| | |]; subst.
  assert (∀ img b, holds c (k_mem κ) img b u → holds c m' img b u) as Hh.
  { intros img' b Hh o Ho. rewrite Hm. by apply Hh. }
  split.
  - unfold last_flush, last_ckpt. cbn [k_blocks k_mem k_b0]. intros HL.
    destruct (k_blocks κ !! u) as [[s b]|] eqn:Eu.
    + rewrite (Hcl _ _ _ Eu) in *. destruct HL as [HL|HL]; [|left; by apply Hh].
      right; right; right. exists b. split; [done|by apply Hh].
    + destruct HL as [HL|HL]; [left; by apply Hh|]. right; left.
      by eapply (backed_step _ _ _ _ _ _ _ Hi Hs0); [by left|..].
  - assert (holds c m' (view c κ) (base κ u) u) as Hv.
    { intros o Ho. rewrite Hm. unfold view. by destruct (home_addr u o Ho) as [-> ->]. }
    unfold pend_ckpt. cbn [k_blocks k_mem]. unfold PersistSpec.base in Hv.
    destruct (k_blocks κ !! u) as [[s b]|] eqn:Eu; [|done]. by rewrite (Hcl _ _ _ Eu).
Qed.

(** The checkpoint that ends becomes the last one. *)
Lemma finish_step κ κ' img u : cinv c κ → cstep c κ LFinish κ' →
  pend_ckpt c κ img u → last_run c κ' img u.
Proof.
  intros Hi Hs. inversion Hs as [ | | | | | | | | | | | | |κ0 m' Hk Hm| |]; subst.
  assert (∀ img b, holds c (k_mem κ) img b u → holds c m' img b u) as Hh.
  { intros img' b Hh o Ho. rewrite Hm. by apply Hh. }
  unfold pend_ckpt, last_run. cbn [k_blocks k_mem k_b0].
  destruct (k_blocks κ !! u) as [[s b]|] eqn:Eu; [|apply Hh].
  pose proof (ci_ck _ _ Hi _ _ _ Hk Eu).
  destruct s; try apply Hh; [naive_solver|]. intros (k&Hkb&Hb). exists k. split; [done|by apply Hh].
Qed.

(** ** Runs *)

Lemma csteps_one κ l κ' : cinv c κ → cstep c κ l κ' → csteps c κ [l] κ'.
Proof. intros. econstructor; [done|done|constructor]. Qed.

Lemma csteps_app κ ls κ1 ls' κ' : csteps c κ ls κ1 → csteps c κ1 ls' κ' → csteps c κ (ls ++ ls') κ'.
Proof. induction 1; [done|]. intros. simpl. econstructor; eauto. Qed.

Lemma csteps_snoc κ ls κ1 l κ' : csteps c κ ls κ1 → cinv c κ1 → cstep c κ1 l κ' →
  csteps c κ (ls ++ [l]) κ'.
Proof. intros ? ? ?. eapply csteps_app; [done|]. by apply csteps_one. Qed.

Lemma view_steps κ ls κ' x : csteps c κ ls κ' → 0 ≤ x < c_phy_range c →
  (∀ l, l ∈ ls → ¬ touches c l x) → view c κ' x = view c κ x.
Proof.
  intros Hs Hx. induction Hs as [|κ l κ1 ls κ' Hi H1 _ IH]; intros Hl; [done|].
  rewrite IH by (intros; apply Hl; set_solver). eapply view_step; eauto. apply Hl. set_solver.
Qed.

End Facts.
