(* ===== verification/PersistMachine.v ===== *)
(** The promise of the controller as a machine with a flat memory: a current image,
    the image of the last complete checkpoint, and the image of the checkpoint being
    written. [Rel] relates it to a configuration: what the processor reads is the
    current image, and the two checkpoints can be read back, block by block, for the
    blocks that stayed out of the DRAM page cache since the image was taken. *)

From S2P Require Import Prelude MemStore AddrTransTable PersistSpec PersistFacts.
#[global] Open Scope Z_scope.

Inductive phase := Running | Migrated | Checkpointing.

Record PMem := MkPMem {
  p_phase : phase;
  p_mem : Z → Z;           (* what the processor reads *)
  p_last : Z → Z;          (* the last complete checkpoint *)
  p_pend : Z → Z;          (* the checkpoint being written *)
  p_dram : gset Z;         (* pages cached in DRAM *)
  p_safe : Z → Prop;       (* blocks whose last checkpoint is kept *)
  p_psafe : Z → Prop;      (* blocks of the checkpoint being written *)
}.

(** Pages that enter and leave DRAM. *)
Inductive page_move := MoveIn (p : Z) | MoveOut (p : Z).

Section Machine.
Context (c : Config).

Abbreviation bs := (c_bsize c).

(** [data] written at [addr]. *)
Definition write_bytes (addr : Z) (data : list Z) (m : Z → Z) : Z → Z :=
  λ x, if (addr <=? x) && (x <? addr + Z.of_nat (length data)) then data !!! Z.to_nat (x - addr) else m x.

Definition p_store (addr : Z) (data : list Z) (P : PMem) : PMem :=
  MkPMem (p_phase P) (write_bytes addr data (p_mem P)) (p_last P) (p_pend P) (p_dram P) (p_safe P) (p_psafe P).

Definition p_move (P : PMem) (mv : page_move) : PMem :=
  match mv with
  | MoveIn p => MkPMem (p_phase P) (p_mem P) (p_last P) (p_pend P) ({[p]} ∪ p_dram P)
                  (λ t, p_safe P t ∧ page_of c t ≠ p) (p_psafe P)
  | MoveOut p => MkPMem (p_phase P) (p_mem P) (p_last P) (p_pend P) (p_dram P ∖ {[p]}) (p_safe P) (p_psafe P)
  end.

Definition p_migrate (mvs : list page_move) (P : PMem) : PMem :=
  let P' := foldl p_move P mvs in
  MkPMem Migrated (p_mem P') (p_last P') (p_pend P') (p_dram P') (p_safe P') (p_psafe P').

Definition p_begin (P : PMem) : PMem :=
  MkPMem Checkpointing (p_mem P) (p_last P) (p_mem P) (p_dram P) (p_safe P)
    (λ t, tag_ok c t ∧ page_of c t ∉ p_dram P).

Definition p_finish (P : PMem) : PMem :=
  MkPMem Running (p_mem P) (p_pend P) (p_pend P) (p_dram P) (p_psafe P) (p_psafe P).

(** What can be read back after a crash in configuration [κ]: block [t] of [img] is in
    the slot of its clean entry, in a backup slot, or home. *)
Definition survives (κ : Conf) (img : Z → Z) (t : Z) : Prop :=
  if k_ck κ then last_ckpt c κ img t else last_flush c κ img t.

Record Rel (κ : Conf) (P : PMem) : Prop := {
  rel_view x : 0 ≤ x < c_phy_range c → view c κ x = p_mem P x;
  rel_dram : k_pages κ = p_dram P;
  rel_safe t : p_safe P t → tag_ok c t ∧ page_of c t ∉ k_pages κ;
  rel_last t : p_safe P t →
    if k_ck κ then last_ckpt c κ (p_last P) t else last_run c κ (p_last P) t;
  rel_psafe t : p_psafe P t → k_ck κ = true → tag_ok c t ∧ page_of c t ∉ k_pages κ;
  rel_pend t : p_psafe P t → k_ck κ = true → pend_ckpt c κ (p_pend P) t;
}.

Context (Hc : wf_config c).

Lemma last_run_flush κ img t : last_run c κ img t → last_flush c κ img t.
Proof. unfold last_run, last_flush. destruct (k_blocks κ !! t) as [[[] b]|]; auto. Qed.

(** ** Runs of steps *)

Definition stays (l : label) : bool :=
  match l with LBegin | LFinish | LMigrateNVM _ | LMigrateDRAM _ | LCleanDirty _ | LDropHidden _ => false | _ => true end.

Lemma stays_step κ l κ' : cstep c κ l κ' → stays l = true → k_ck κ' = k_ck κ ∧ k_pages κ' = k_pages κ.
Proof. intros Hs Hl. by destruct Hs; cbn; rewrite ?H. Qed.

Lemma stays_run l : stays l = true → run_label l = true.
Proof. by destruct l. Qed.

Lemma stays_steps κ ls κ' : csteps c κ ls κ' → Forall (λ l, stays l = true) ls →
  k_ck κ' = k_ck κ ∧ k_pages κ' = k_pages κ.
Proof.
  induction 1 as [|κ l κ1 ls κ' Hi Hs _ IH]; intros Hl; [done|].
  apply Forall_cons in Hl as [Hl Hls]. destruct (IH Hls) as [-> ->]. by eapply stays_step.
Qed.

(** The checkpoints are kept by what happens between two phase changes. *)
Lemma kept_steps κ ls κ' img t : csteps c κ ls κ' → Forall (λ l, stays l = true) ls →
  tag_ok c t → page_of c t ∉ k_pages κ →
  (if k_ck κ then last_ckpt c κ img t else last_run c κ img t) →
  if k_ck κ' then last_ckpt c κ' img t else last_run c κ' img t.
Proof.
  induction 1 as [|κ l κ1 ls κ' Hi Hs _ IH]; intros Hl Ht Hp HL; [done|].
  apply Forall_cons in Hl as [Hl Hls]. destruct (stays_step _ _ _ Hs Hl) as [Eck Epg].
  apply IH; [done|done|by rewrite Epg|]. rewrite Eck. destruct (k_ck κ) eqn:Hck.
  - eapply ckpt_step; eauto.
  - eapply run_step; eauto using stays_run. by rewrite Epg.
Qed.

Lemma pend_steps κ ls κ' img t : csteps c κ ls κ' → Forall (λ l, stays l = true) ls →
  tag_ok c t → page_of c t ∉ k_pages κ → k_ck κ = true → pend_ckpt c κ img t → pend_ckpt c κ' img t.
Proof.
  induction 1 as [|κ l κ1 ls κ' Hi Hs _ IH]; intros Hl Ht Hp Hck HL; [done|].
  apply Forall_cons in Hl as [Hl Hls]. destruct (stays_step _ _ _ Hs Hl) as [Eck Epg].
  rewrite Hck in Eck. apply IH; [done|done|by rewrite Epg|done|]. eapply pend_step; eauto.
Qed.

(** Steps that stay within the phase and change the current image to [m]. *)
Lemma rel_steps κ ls κ' P m : csteps c κ ls κ' → Forall (λ l, stays l = true) ls → Rel κ P →
  (∀ x, 0 ≤ x < c_phy_range c → view c κ' x = m x) →
  Rel κ' (MkPMem (p_phase P) m (p_last P) (p_pend P) (p_dram P) (p_safe P) (p_psafe P)).
Proof.
  intros Hs Hl [] Hv. destruct (stays_steps _ _ _ Hs Hl) as [Eck Epg].
  split; cbn; rewrite ?Epg; try done.
  - intros t Ht. destruct (rel_safe0 t Ht). eapply (kept_steps κ); [done|done|done|done|by apply rel_last0].
  - intros t Ht Hck. rewrite Eck in Hck. auto.
  - intros t Ht Hck. rewrite Eck in Hck. destruct (rel_psafe0 t Ht Hck). eapply pend_steps; eauto.
Qed.

(** ** Migration *)

Definition moves (ls : list label) : list page_move :=
  omap (λ l, match l with LMigrateNVM p => Some (MoveIn p) | LMigrateDRAM p => Some (MoveOut p) | _ => None end) ls.

Definition migrates (l : label) : bool :=
  match l with LMigrateNVM _ | LMigrateDRAM _ | LFreeLoan _ true => true | _ => false end.

Lemma moves_cons l ls : moves (l :: ls) =
  match l with LMigrateNVM p => MoveIn p :: moves ls | LMigrateDRAM p => MoveOut p :: moves ls | _ => moves ls end.
Proof. by destruct l. Qed.

Lemma migrate_step κ l κ' P : cinv c κ → cstep c κ l κ' → migrates l = true → k_ck κ = false →
  Rel κ P → k_ck κ' = false ∧ Rel κ' (foldl p_move P (moves [l])).
Proof.
  intros Hi Hs Hl Hck [].
  assert (∀ x, 0 ≤ x < c_phy_range c → view c κ' x = view c κ x) as Hv.
  { intros x Hx. eapply view_step; eauto. by destruct l as [| | | |? []| | | | | | | | | |]. }
  assert (∀ t, tag_ok c t → page_of c t ∉ k_pages κ → page_of c t ∉ k_pages κ' →
    last_run c κ (p_last P) t → last_run c κ' (p_last P) t) as HL.
  { intros t Ht Hp Hp' HL. eapply run_step; eauto. by destruct l as [| | | |? []| | | | | | | | | |]. }
  rewrite Hck in *.
  assert (k_ck κ' = false) as Hck' by (by destruct Hs). split; [done|].
  assert (∀ x, 0 ≤ x < c_phy_range c → view c κ' x = p_mem P x) as Hv' by (intros; rewrite Hv; auto).
  destruct l as [| | | |t0 []| | |p|p| | | | | |]; try done; cbn.
  - assert (k_pages κ' = k_pages κ) as Epg by (by inversion Hs).
    split; cbn; rewrite ?Hck', ?Epg; try done. intros t Ht. destruct (rel_safe0 t Ht).
    by apply HL; [| |rewrite Epg|apply rel_last0].
  - assert (k_pages κ' = {[p]} ∪ k_pages κ) as Epg by (by inversion Hs).
    split; cbn; rewrite ?Hck', ?Epg; try done; [by rewrite rel_dram0| |].
    + intros t [Ht Hne]. destruct (rel_safe0 t Ht). split; [done|]. rewrite not_elem_of_union, not_elem_of_singleton. done.
    + intros t [Ht Hne]. destruct (rel_safe0 t Ht). apply HL; [done|done| |by apply rel_last0].
      rewrite Epg, not_elem_of_union, not_elem_of_singleton. done.
  - assert (k_pages κ' = k_pages κ ∖ {[p]}) as Epg by (by inversion Hs).
    assert (∀ t, page_of c t ∉ k_pages κ → page_of c t ∉ k_pages κ ∖ {[p]}) as Hd
      by (intros t Hn [? _]%elem_of_difference; done).
    split; cbn; rewrite ?Hck', ?Epg; try done; [by rewrite rel_dram0| |].
    + intros t Ht. destruct (rel_safe0 t Ht). auto.
    + intros t Ht. destruct (rel_safe0 t Ht). apply HL; [done|done|rewrite Epg; by apply Hd|by apply rel_last0].
Qed.

Lemma migrate_steps κ ls κ' P : csteps c κ ls κ' → Forall (λ l, migrates l = true) ls → k_ck κ = false →
  Rel κ P → k_ck κ' = false ∧ Rel κ' (p_migrate (moves ls) P).
Proof.
  intros Hs Hl Hck HR.
  assert (k_ck κ' = false ∧ Rel κ' (foldl p_move P (moves ls))) as [? []]; [|by split].
  revert P Hl Hck HR. induction Hs as [|κ l κ1 ls κ' Hi H1 _ IH]; intros P Hl Hck HR; [done|].
  apply Forall_cons in Hl as [Hl Hls]. destruct (migrate_step _ _ _ _ Hi H1 Hl Hck HR) as [Hck1 HR1].
  specialize (IH _ Hls Hck1 HR1). rewrite moves_cons. by destruct l.
Qed.

(** ** Checkpoints *)

Lemma flush_steps κ ls κ' img t : csteps c κ ls κ' → Forall (λ l, flush_label l = true) ls →
  tag_ok c t → last_flush c κ img t → last_flush c κ' img t.
Proof.
  induction 1 as [|κ l κ1 ls κ' Hi Hs _ IH]; intros Hl Ht HL; [done|].
  apply Forall_cons in Hl as [Hl Hls]. apply IH; [done|done|]. eapply flush_step; eauto.
Qed.

Lemma flush_same κ ls κ' : csteps c κ ls κ' → Forall (λ l, flush_label l = true) ls →
  k_pages κ' = k_pages κ ∧ ∀ x, 0 ≤ x < c_phy_range c → view c κ' x = view c κ x.
Proof.
  induction 1 as [|κ l κ1 ls κ' Hi Hs _ IH]; intros Hl; [done|].
  apply Forall_cons in Hl as [Hl Hls]. destruct (IH Hls) as [-> Hv]. split; [by destruct Hs|].
  intros x Hx. rewrite Hv by done. eapply view_step; eauto.
  by destruct l as [| | |? []| |? []| | | | | | | | |].
Qed.

Lemma csteps_last κ ls l κ' : csteps c κ (ls ++ [l]) κ' →
  ∃ κ1, csteps c κ ls κ1 ∧ cinv c κ1 ∧ cstep c κ1 l κ'.
Proof.
  remember (ls ++ [l]) as l0 eqn:El. intros Hs. revert ls El.
  induction Hs as [|κ l1 κ1 l2 κ' Hi H1 H2 IH]; intros ls El; [by destruct ls|].
  destruct ls as [|l3 ls]; simplify_eq/=.
  - inversion H2; subst. eexists. split; [constructor|done].
  - destruct (IH ls eq_refl) as (κ2&?&?&?). exists κ2. split; [by econstructor|done].
Qed.

Lemma begin_steps κ ls κ' P : csteps c κ (ls ++ [LBegin]) κ' → Forall (λ l, flush_label l = true) ls →
  k_ck κ = false → Rel κ P → Rel κ' (p_begin P).
Proof.
  intros (κ1&Hs&Hi1&H1)%csteps_last Hl Hck []. rewrite Hck in *.
  destruct (flush_same _ _ _ Hs Hl) as [Epg Hv].
  assert (k_pages κ' = k_pages κ1 ∧ k_ck κ' = true) as [Epg' Hck'] by (by inversion H1).
  assert (∀ x, 0 ≤ x < c_phy_range c → view c κ' x = p_mem P x) as Hv'.
  { intros x Hx. rewrite <- rel_view0, <- Hv by done. by eapply view_step; eauto. }
  split; cbn; rewrite ?Hck', ?Epg', ?Epg; try done.
  - intros t Ht. destruct (rel_safe0 t Ht). eapply (begin_step c Hc κ1); [done|done|done|].
    eapply flush_steps; eauto. apply last_run_flush. auto.
  - intros t [Ht Hp] _. by rewrite rel_dram0.
  - intros t [Ht Hp] _. destruct (begin_step c Hc κ1 κ' (p_last P) t Hi1 H1 Ht) as [_ Hpend].
    assert (∀ b, holds c (k_mem κ') (view c κ1) b t → holds c (k_mem κ') (p_mem P) b t) as Hh.
    { intros b Hb o Ho. rewrite Hb by done. pose proof (tag_top _ Hc _ Ht).
      rewrite <- rel_view0, <- Hv by lia. done. }
    unfold pend_ckpt, backed in *. destruct (k_blocks κ' !! t) as [[[] b]|]; auto. naive_solver.
Qed.

Lemma finish_steps κ κ1 P : cinv c κ → cstep c κ LFinish κ1 → Rel κ P → Rel κ1 (p_finish P).
Proof.
  intros Hi H1 [].
  assert (k_ck κ = true ∧ k_ck κ1 = false ∧ k_pages κ1 = k_pages κ) as (Hck&Hck1&Epg) by (by inversion H1).
  split; cbn; rewrite ?Hck1, ?Epg; try done.
  - intros x Hx. rewrite <- rel_view0 by done. by eapply view_step; eauto.
  - auto.
  - intros t Ht. eapply finish_step; eauto.
Qed.

(** In every phase the last checkpoint survives. *)
Lemma rel_survives κ P t : Rel κ P → p_safe P t → survives κ (p_last P) t.
Proof.
  intros [] Ht. unfold survives. specialize (rel_last0 t Ht). destruct (k_ck κ); [done|]. by apply last_run_flush.
Qed.

End Machine.
