(* ===== verification/ControllerInv.v ===== *)
(** The invariant of the controller: the table, the two buffers and the page table
    agree on which block is where. [conf] is the abstract configuration of a state
    ([PersistSpec]); [inv] implies its invariant [cinv]. *)

From S2P Require Import Prelude Profiler StdAlgo MemStore PersistSpec MigrationSpec AddrTransController.
From S2P Require Import PersistFacts.
#[global] Open Scope Z_scope.

(** The sets of a buffer after a slot moved. *)
Ltac vmove_sets :=
  rewrite ?VB.vset_vmove_from, ?VB.vset_vmove_to, ?VB.vset_vmove_ne by
    (done || (eapply VB.v_sets; eauto)).

(** ** Slots in use *)

Section Region.
Context (kind : ATT.ATTEntry → bool) (addr : Z → Z).
Context (addr_inj : ∀ k k', addr k = addr k' → k = k').

(** The entries of this kind own the slots of [U], each its own. *)
Record region (live : gmap Z ATT.ATTEntry) (U : gset Z) : Prop := {
  rg_slot i e : live !! i = Some e → kind e = true → ∃ k, k ∈ U ∧ ATT.mach_base e = addr k;
  rg_inj i j e e' : live !! i = Some e → live !! j = Some e' → kind e = true → kind e' = true →
    ATT.mach_base e = ATT.mach_base e' → i = j;
  rg_size : Z.of_nat (size U) = mcount kind live;
}.

Lemma region_owns live U i e k : region live U → live !! i = Some e → kind e = true →
  ATT.mach_base e = addr k → k ∈ U.
Proof.
  intros HR Hi Hk E. destruct (rg_slot _ _ HR _ _ Hi Hk) as (k'&Hk'&E').
  by rewrite (addr_inj k k') by congruence.
Qed.

Lemma region_remove live U i e k : region live U → live !! i = Some e → kind e = true →
  ATT.mach_base e = addr k → region (delete i live) (U ∖ {[k]}).
Proof.
  intros HR Hi Hk E. pose proof (region_owns _ _ _ _ _ HR Hi Hk E) as HU. split.
  - intros j e' [Hne Hj]%lookup_delete_Some Hk'.
    destruct (rg_slot _ _ HR _ _ Hj Hk') as (k'&Hk''&E'). exists k'. split; [|done].
    apply elem_of_difference. split; [done|]. intros ->%elem_of_singleton.
    apply Hne. eapply (rg_inj _ _ HR); eauto. congruence.
  - intros j j' e1 e2 [_ ?]%lookup_delete_Some [_ ?]%lookup_delete_Some. by eapply (rg_inj _ _ HR).
  - rewrite (mcount_delete _ _ _ _ Hi), Hk, <- (rg_size _ _ HR).
    rewrite size_difference by set_solver. rewrite size_singleton.
    assert (size U ≠ 0%nat); [|simpl; lia]. intros ?%size_empty_inv. set_solver.
Qed.

Lemma region_drop live U i e : region live U → live !! i = Some e → kind e = false →
  region (delete i live) U.
Proof.
  intros HR Hi Hk. split.
  - intros j e' [_ ?]%lookup_delete_Some. by eapply (rg_slot _ _ HR).
  - intros j j' e1 e2 [_ ?]%lookup_delete_Some [_ ?]%lookup_delete_Some. by eapply (rg_inj _ _ HR).
  - rewrite (mcount_delete _ _ _ _ Hi), Hk, <- (rg_size _ _ HR). simpl. lia.
Qed.

Lemma region_skip live U i e : region live U → live !! i = None → kind e = false →
  region (<[i := e]> live) U.
Proof.
  intros HR Hi Hk. split.
  - intros j e' [[-> ->]|[_ Hj]]%lookup_insert_Some ?; [congruence|by eapply (rg_slot _ _ HR)].
  - intros j j' e1 e2 [[-> ->]|[_ ?]]%lookup_insert_Some [[-> ->]|[_ ?]]%lookup_insert_Some ??;
      try congruence. by eapply (rg_inj _ _ HR).
  - rewrite mcount_insert_fresh, Hk, <- (rg_size _ _ HR) by done. simpl. lia.
Qed.

Lemma region_add live U i e k : region live U → live !! i = None → kind e = true → k ∉ U →
  ATT.mach_base e = addr k → region (<[i := e]> live) ({[k]} ∪ U).
Proof.
  intros HR Hi Hk HU E. split.
  - intros j e' [[-> ->]|[_ Hj]]%lookup_insert_Some Hk'; [exists k; set_solver|].
    destruct (rg_slot _ _ HR _ _ Hj Hk') as (k'&?&?). exists k'. set_solver.
  - assert (∀ j e', live !! j = Some e' → kind e' = true → ATT.mach_base e' ≠ ATT.mach_base e) as Hne.
    { intros j e' Hj Hk' E'. apply HU. eapply region_owns; eauto. congruence. }
    intros j j' e1 e2 [[-> <-]|[_ ?]]%lookup_insert_Some [[-> <-]|[_ ?]]%lookup_insert_Some ?? ?;
      [done|by edestruct (Hne j')|by edestruct (Hne j)|by eapply (rg_inj _ _ HR)].
  - rewrite mcount_insert_fresh, Hk, <- (rg_size _ _ HR) by done.
    rewrite size_union by set_solver. rewrite size_singleton. simpl. lia.
Qed.

(** An entry that changes kind gives its slot back or takes one. *)
Lemma region_leave live U i e e' k : region live U → live !! i = Some e → kind e = true →
  ATT.mach_base e = addr k → kind e' = false → region (<[i := e']> live) (U ∖ {[k]}).
Proof.
  intros. rewrite <- insert_delete_eq. apply region_skip; [|apply lookup_delete_eq|done].
  by eapply region_remove.
Qed.

Lemma region_enter live U i e e' k : region live U → live !! i = Some e → kind e = false →
  kind e' = true → k ∉ U → ATT.mach_base e' = addr k → region (<[i := e']> live) ({[k]} ∪ U).
Proof.
  intros. rewrite <- insert_delete_eq. apply region_add; [|apply lookup_delete_eq|done..].
  by eapply region_drop.
Qed.

Lemma region_out live U i e e' : region live U → live !! i = Some e → kind e = false →
  kind e' = false → region (<[i := e']> live) U.
Proof.
  intros. rewrite <- insert_delete_eq. apply region_skip; [|apply lookup_delete_eq|done].
  by eapply region_drop.
Qed.

(** Rewriting an entry without changing what it owns. *)
Lemma region_same live U i e e' : region live U → live !! i = Some e →
  kind e' = kind e → ATT.mach_base e' = ATT.mach_base e → region (<[i := e']> live) U.
Proof.
  intros HR Hi Hk E. rewrite <- insert_delete_eq. destruct (kind e) eqn:Ek.
  - destruct (rg_slot _ _ HR _ _ Hi Ek) as (k&Hk'&Ea).
    replace U with ({[k]} ∪ (U ∖ {[k]})) by (apply set_eq; intros x; destruct (decide (x = k)); set_solver).
    apply region_add; [by eapply region_remove|apply lookup_delete_eq|congruence|set_solver|congruence].
  - apply region_skip; [by eapply region_drop|apply lookup_delete_eq|congruence].
Qed.

Lemma region_fmap live U f : region live U →
  (∀ e, kind (f e) = kind e ∧ ATT.mach_base (f e) = ATT.mach_base e) → region (f <$> live) U.
Proof.
  intros HR Hf. split.
  - intros i e'. rewrite lookup_fmap. intros (e&He&->)%fmap_Some. destruct (Hf e) as [-> ->].
    by eapply (rg_slot _ _ HR).
  - intros i j e1 e2. rewrite !lookup_fmap. intros (x&?&->)%fmap_Some (y&?&->)%fmap_Some.
    destruct (Hf x) as [-> ->], (Hf y) as [-> ->]. by apply (rg_inj _ _ HR).
  - rewrite mcount_fmap, (rg_size _ _ HR). apply mcount_ext. intros i x _. symmetry. apply Hf.
Qed.

End Region.

(** ** Blocks with an entry, by tag *)

Definition blocks_of (t : ATT.AddrTransTable) : gmap Z (ATT.ATTState * Z) :=
  omap (λ i, (λ e, (ATT.state e, ATT.mach_base e)) <$> zlookup (ATT.entries_ t) i) (ATT.tag_index_ t).

Section Blocks.
Context (t : ATT.AddrTransTable) (a : ATT.AbsATT) (Hrep : ATT.att_rep t a).

Lemma blocks_of_Some tag s b : blocks_of t !! tag = Some (s, b) ↔
  ∃ i e, ATT.a_live a !! i = Some e ∧ ATT.phy_tag e = tag ∧ ATT.state e = s ∧ ATT.mach_base e = b.
Proof.
  unfold blocks_of. rewrite lookup_omap. split.
  - intros (i&Ht&(e0&He0&[= -> ->])%fmap_Some)%bind_Some.
    apply (ATT.r_tag _ _ Hrep) in Ht as (e&He&Htag). exists i, e. split; [done|].
    destruct (ATT.rep_live_entry _ _ Hrep _ _ He) as (_&e1&He1&->).
    by replace e0 with e1 by congruence.
  - intros (i&e&He&Htag&<-&<-). apply bind_Some. exists i.
    split; [apply (ATT.r_tag _ _ Hrep); eauto|].
    by destruct (ATT.rep_live_entry _ _ Hrep _ _ He) as (_&e0&->&->).
Qed.

Lemma blocks_of_live i e : ATT.a_live a !! i = Some e →
  blocks_of t !! ATT.phy_tag e = Some (ATT.state e, ATT.mach_base e).
Proof. intros. apply blocks_of_Some. eauto 10. Qed.

Lemma blocks_of_None tag : blocks_of t !! tag = None ↔
  ∀ i e, ATT.a_live a !! i = Some e → ATT.phy_tag e ≠ tag.
Proof.
  rewrite eq_None_not_Some. split.
  - intros Hn i e He <-. apply Hn. eexists. by eapply blocks_of_live.
  - intros Hn [[s b] (i&e&He&Ht&_)%blocks_of_Some]. by eapply Hn.
Qed.

End Blocks.

Section BlocksChange.
Context (t t' : ATT.AddrTransTable) (a a' : ATT.AbsATT).
Context (Hrep : ATT.att_rep t a) (Hrep' : ATT.att_rep t' a').

Lemma blocks_same : ATT.a_live a' = ATT.a_live a → blocks_of t' = blocks_of t.
Proof.
  intros E. apply map_eq. intros tag. apply option_eq. intros [s b].
  by rewrite (blocks_of_Some _ _ Hrep), (blocks_of_Some _ _ Hrep'), E.
Qed.

Lemma blocks_insert i e : ATT.a_live a' = <[i := e]> (ATT.a_live a) →
  (∀ j e', ATT.a_live a !! j = Some e' → ATT.phy_tag e' = ATT.phy_tag e ↔ i = j) →
  blocks_of t' = <[ATT.phy_tag e := (ATT.state e, ATT.mach_base e)]> (blocks_of t).
Proof.
  intros E Hu. apply map_eq. intros tag. apply option_eq. intros [s b].
  rewrite (blocks_of_Some _ _ Hrep'), E. destruct (decide (tag = ATT.phy_tag e)) as [->|Hne].
  - rewrite lookup_insert_eq. split.
    + intros (j&e'&[[-> <-]|[Hj Hj']]%lookup_insert_Some&Ht&<-&<-); [done|].
      by apply (Hu _ _ Hj') in Ht.
    + intros [= <- <-]. exists i, e. by rewrite lookup_insert_eq.
  - rewrite lookup_insert_ne by done. rewrite (blocks_of_Some _ _ Hrep). split.
    + intros (j&e'&[[-> <-]|[Hj Hj']]%lookup_insert_Some&Ht&<-&<-); [done|]. eauto 10.
    + intros (j&e'&Hj&Ht&<-&<-). exists j, e'. split; [|done]. rewrite lookup_insert_ne; [done|].
      intros <-. destruct Hne. rewrite <- Ht. by apply (Hu i).
Qed.

Lemma blocks_delete i e : ATT.a_live a !! i = Some e → ATT.a_live a' = delete i (ATT.a_live a) →
  blocks_of t' = delete (ATT.phy_tag e) (blocks_of t).
Proof.
  intros He E. apply map_eq. intros tag. apply option_eq. intros [s b].
  rewrite (blocks_of_Some _ _ Hrep'), E, lookup_delete_Some, (blocks_of_Some _ _ Hrep). split.
  - intros (j&e'&[Hne Hj]%lookup_delete_Some&<-&<-&<-). split; [|eauto 10]. intros Ht.
    apply Hne. by eapply (ATT.rep_tag_inj _ _ Hrep).
  - intros (Hne&j&e'&Hj&<-&<-&<-). exists j, e'. split; [|done].
    rewrite lookup_delete_ne; [done|]. intros <-. congruence.
Qed.

End BlocksChange.

(** ** Counting entries *)

Lemma live_size t a : ATT.att_rep t a →
  Z.of_nat (size (ATT.a_live a)) + Z.of_nat (length (ATT.qof a ATT.FREE)) = ATT.length_ t.
Proof.
  intros Hrep. pose proof (ATT.r_len _ _ Hrep).
  rewrite <- (VB.size_zseq (ATT.length_ t)) by lia.
  assert (list_to_set (zseq (ATT.length_ t)) =@{gset Z}
    dom (ATT.a_live a) ∪ list_to_set (ATT.qof a ATT.FREE)) as ->.
  { apply set_eq. intros i. rewrite elem_of_union, !elem_of_list_to_set, elem_of_dom, ATT.elem_of_zseq.
    split.
    - intros Hi. destruct (ATT.rep_free_or_live _ _ Hrep i Hi); auto.
    - intros [[e He]|Hi]; [by destruct (ATT.rep_live_entry _ _ Hrep _ _ He)|].
      apply (ATT.r_cover _ _ Hrep). eexists. split; [apply ATT.StateIndex_range|done]. }
  rewrite size_union.
  - rewrite size_dom, size_list_to_set by apply (ATT.rep_NoDup _ _ Hrep). lia.
  - intros i (e&He)%elem_of_dom. rewrite elem_of_list_to_set. by apply (ATT.rep_not_free _ _ Hrep _ e).
Qed.

(** An entry of another kind, or a free one, leaves room. *)
Lemma live_count_lt t a P i e : ATT.att_rep t a → ATT.a_live a !! i = Some e → P e = false →
  mcount P (ATT.a_live a) < ATT.length_ t.
Proof.
  intros Hrep He HP. pose proof (live_size _ _ Hrep). pose proof (mcount_delete P _ _ _ He) as Hd.
  pose proof (mcount_le_size P (delete i (ATT.a_live a))).
  pose proof (map_size_delete_Some i (ATT.a_live a) ltac:(eauto)) as E. rewrite HP in Hd. simpl in Hd.
  assert (size (ATT.a_live a) ≠ 0%nat) by (intros E0%map_size_empty_inv; by rewrite E0, lookup_empty in He). lia.
Qed.

Lemma live_count_free t a P : ATT.att_rep t a → ATT.qof a ATT.FREE ≠ [] →
  mcount P (ATT.a_live a) < ATT.length_ t.
Proof.
  intros Hrep Hf. pose proof (live_size _ _ Hrep). pose proof (mcount_le_size P (ATT.a_live a)).
  destruct (ATT.qof a ATT.FREE); [done|]. simpl in *. lia.
Qed.

(** ** The invariant *)

Definition in_nvm (e : ATT.ATTEntry) : bool :=
  match ATT.state e with ATT.CLEAN | ATT.DIRTY => true | _ => false end.
Definition in_dram (e : ATT.ATTEntry) : bool :=
  match ATT.state e with ATT.LOAN | ATT.TEMP | ATT.STAINED => true | _ => false end.
Definition is_clean (e : ATT.ATTEntry) : bool := ATT.state_eqb (ATT.state e) ATT.CLEAN.

Section Inv.
Context (c : Config) {St : Type} `{!MemStore St, !MemStoreLaws St c}.

Definition conf (s : Sys St) : Conf :=
  {| k_ck := in_checkpointing_ (ctl s); k_blocks := blocks_of (att_ (ctl s));
     k_b0 := VB.vset (nvm_buffer_ (ctl s)) VB.BACKUP0;
     k_b1 := VB.vset (nvm_buffer_ (ctl s)) VB.BACKUP1;
     k_pages := dom (Mig.entries_ (migrator_ (ctl s))); k_mem := content (store s) |}.

(** The constants set by the constructors. *)
Record ctl_geom (k : AddrTransController) : Prop := {
  cg_len : ATT.length_ (att_ k) = c_att_len c;
  cg_bits : ATT.block_bits_ (att_ k) = c_block_bits c;
  cg_mask : ATT.block_mask_ (att_ k) = c_bsize c - 1;
  cg_nvm : VB.addr_base_ (nvm_buffer_ k) = c_nvm_base c ∧
    VB.length_ (nvm_buffer_ k) = 2 * c_att_len c ∧ VB.block_bits_ (nvm_buffer_ k) = c_block_bits c;
  cg_dram : VB.addr_base_ (dram_buffer_ k) = c_dram_base c ∧
    VB.length_ (dram_buffer_ k) = c_att_len c ∧ VB.block_bits_ (dram_buffer_ k) = c_block_bits c;
  cg_mig : Mig.block_bits_ (migrator_ k) = c_block_bits c ∧
    Mig.page_bits_ (migrator_ k) = c_page_bits c ∧
    Mig.ptt_length_ (migrator_ k) = c_ptt_length c ∧
    Mig.ptt_capacity_ (migrator_ k) = c_ptt_capacity c;
  cg_phy : phy_range_ k = c_phy_range c;
}.

Lemma geom_dram k d : ctl_geom k → VB.same_geom (dram_buffer_ k) d → ctl_geom (set_dram_buffer_ d k).
Proof. intros [] (E1&E2&E3&_). split; cbn; rewrite ?E1, ?E2, ?E3; done. Qed.
Lemma geom_nvm k d : ctl_geom k → VB.same_geom (nvm_buffer_ k) d → ctl_geom (set_nvm_buffer_ d k).
Proof. intros [] (E1&E2&E3&_). split; cbn; rewrite ?E1, ?E2, ?E3; done. Qed.

(** What an entry says about its block, given the phase and the pages in DRAM. *)
Record entry_ok (ck : bool) (pages : gset Z) (e : ATT.ATTEntry) : Prop := {
  eo_tag : tag_ok c (ATT.phy_tag e);
  eo_hidden : ATT.state e = ATT.HIDDEN → ATT.mach_base e = home c (ATT.phy_tag e);
  eo_page : ATT.state e = ATT.LOAN ↔ page_of c (ATT.phy_tag e) ∈ pages;
  eo_ck : ck = true → ATT.state e = ATT.CLEAN ∨ ATT.state e = ATT.LOAN ∨
    ATT.state e = ATT.TEMP ∨ ATT.state e = ATT.STAINED;
}.

Lemma entry_ok_next ck pages e e' : entry_ok ck pages e → ATT.phy_tag e' = ATT.phy_tag e →
  (ATT.state e' = ATT.LOAN ↔ ATT.state e = ATT.LOAN) →
  (ATT.state e' = ATT.HIDDEN → ATT.mach_base e' = home c (ATT.phy_tag e)) →
  (ck = true → ATT.state e' = ATT.CLEAN ∨ ATT.state e' = ATT.LOAN ∨
     ATT.state e' = ATT.TEMP ∨ ATT.state e' = ATT.STAINED) →
  entry_ok ck pages e'.
Proof.
  intros [] Et El Hh Hck. split; rewrite ?Et; try done. by rewrite El.
Qed.

(** The NVM buffer has a slot for every entry that may need one: [b0] and [b1] are
    the sizes of the backup sets. While the table is flushed ([fl]) the bound on
    the clean entries is suspended. *)
Definition room_ok (ck fl : bool) (b0 b1 clean : Z) : Prop :=
  b0 ≤ c_att_len c ∧
  (if ck then b1 + clean ≤ c_att_len c else fl = false → b0 + clean ≤ c_att_len c).

Definition room (fl : bool) (a : ATT.AbsATT) (s : Sys St) : Prop :=
  room_ok (in_checkpointing_ (ctl s)) fl
    (Z.of_nat (size (VB.vset (nvm_buffer_ (ctl s)) VB.BACKUP0)))
    (Z.of_nat (size (VB.vset (nvm_buffer_ (ctl s)) VB.BACKUP1)))
    (mcount is_clean (ATT.a_live a)).

Record inv (fl : bool) (a : ATT.AbsATT) (s : Sys St) : Prop := {
  iv_geom : ctl_geom (ctl s);
  iv_att : ATT.att_rep (att_ (ctl s)) a;
  iv_nvm : VB.vb_ok (nvm_buffer_ (ctl s));
  iv_dram : VB.vb_ok (dram_buffer_ (ctl s));
  iv_mig : mig_ok (migrator_ (ctl s));
  iv_store : st_ok (store s);
  iv_rn : region in_nvm (nslot c) (ATT.a_live a) (VB.vset (nvm_buffer_ (ctl s)) VB.IN_USE);
  iv_rd : region in_dram (dslot c) (ATT.a_live a) (VB.vset (dram_buffer_ (ctl s)) VB.IN_USE);
  iv_entry : map_Forall (λ _, entry_ok (in_checkpointing_ (ctl s))
    (dom (Mig.entries_ (migrator_ (ctl s))))) (ATT.a_live a);
  iv_pages p : p ∈ dom (Mig.entries_ (migrator_ (ctl s))) → p + 2 ^ c_page_bits c ≤ c_phy_range c;
  iv_dback : VB.vset (dram_buffer_ (ctl s)) VB.BACKUP0 = ∅ ∧
    VB.vset (dram_buffer_ (ctl s)) VB.BACKUP1 = ∅;
  iv_b1 : in_checkpointing_ (ctl s) = false → VB.vset (nvm_buffer_ (ctl s)) VB.BACKUP1 = ∅;
  iv_room : room fl a s;
}.

Context (Hc : wf_config c).

Lemma nvm_slot k i : ctl_geom k → VB.slot_addr (nvm_buffer_ k) i = nslot c i.
Proof. intros Hg. unfold VB.slot_addr. by destruct (cg_nvm _ Hg) as (->&_&->). Qed.
Lemma dram_slot k i : ctl_geom k → VB.slot_addr (dram_buffer_ k) i = dslot c i.
Proof. intros Hg. unfold VB.slot_addr. by destruct (cg_dram _ Hg) as (->&_&->). Qed.

(** Where an entry keeps its block. *)
Lemma inv_place fl a s i e : inv fl a s → ATT.a_live a !! i = Some e →
  (in_nvm e = true ∧ ∃ k, ATT.mach_base e = nslot c k ∧ 0 ≤ k < 2 * c_att_len c ∧
     k ∈ VB.vset (nvm_buffer_ (ctl s)) VB.IN_USE) ∨
  (in_dram e = true ∧ ∃ d, ATT.mach_base e = dslot c d ∧ 0 ≤ d < c_att_len c ∧
     d ∈ VB.vset (dram_buffer_ (ctl s)) VB.IN_USE) ∨
  (ATT.state e = ATT.HIDDEN ∧ ATT.mach_base e = home c (ATT.phy_tag e)).
Proof.
  intros Hi He. destruct (cg_nvm _ (iv_geom _ _ _ Hi)) as (_&Hnl&_).
  destruct (cg_dram _ (iv_geom _ _ _ Hi)) as (_&Hdl&_).
  pose proof (ATT.r_state _ _ (iv_att _ _ _ Hi) _ _ He) as [Hnf _].
  pose proof (eo_hidden _ _ _ (iv_entry _ _ _ Hi _ _ He)) as Hh.
  destruct (in_nvm e) eqn:En; [left|right; destruct (in_dram e) eqn:Ed; [left|right]].
  - destruct (rg_slot _ _ _ _ (iv_rn _ _ _ Hi) _ _ He En) as (k&Hk&->). split; [done|]. exists k.
    rewrite <- Hnl. pose proof (VB.v_range _ (iv_nvm _ _ _ Hi) _ _ Hk). done.
  - destruct (rg_slot _ _ _ _ (iv_rd _ _ _ Hi) _ _ He Ed) as (k&Hk&->). split; [done|]. exists k.
    rewrite <- Hdl. pose proof (VB.v_range _ (iv_dram _ _ _ Hi) _ _ Hk). done.
  - unfold in_nvm, in_dram in *. destruct (ATT.state e); try done. auto.
Qed.

Lemma inv_base_inj fl a s i j e e' : inv fl a s →
  ATT.a_live a !! i = Some e → ATT.a_live a !! j = Some e' →
  ATT.mach_base e = ATT.mach_base e' → i = j.
Proof.
  intros Hi He He' E. pose proof (iv_entry _ _ _ Hi _ _ He) as [Ht _ _ _].
  pose proof (iv_entry _ _ _ Hi _ _ He') as [Ht' _ _ _].
  destruct (inv_place _ _ _ _ _ Hi He) as [(En&k&Ek&Hk&_)|[(Ed&d&Ek&Hd&_)|(_&Ek)]];
  destruct (inv_place _ _ _ _ _ Hi He') as [(En'&k'&Ek'&Hk'&_)|[(Ed'&d'&Ek'&Hd'&_)|(_&Ek')]].
  - by eapply (rg_inj _ _ _ _ (iv_rn _ _ _ Hi)).
  - destruct (nslot_dslot c Hc k d'); [lia|lia|congruence].
  - destruct (home_nslot c Hc (ATT.phy_tag e') k); [done|lia|congruence].
  - destruct (nslot_dslot c Hc k' d); [lia|lia|congruence].
  - by eapply (rg_inj _ _ _ _ (iv_rd _ _ _ Hi)).
  - destruct (home_dslot c Hc (ATT.phy_tag e') d); [done|lia|congruence].
  - destruct (home_nslot c Hc (ATT.phy_tag e) k'); [done|lia|congruence].
  - destruct (home_dslot c Hc (ATT.phy_tag e) d'); [done|lia|congruence].
  - eapply (ATT.rep_tag_inj _ _ (iv_att _ _ _ Hi)); [done|done|].
    apply (home_inj c Hc). congruence.
Qed.

Lemma inv_cinv fl a s : inv fl a s → cinv c (conf s).
Proof.
  intros Hi. pose proof (blocks_of_Some _ _ (iv_att _ _ _ Hi)) as Hb.
  destruct (cg_nvm _ (iv_geom _ _ _ Hi)) as (_&Hnl&_).
  assert (∀ i e, ATT.a_live a !! i = Some e → entry_ok (in_checkpointing_ (ctl s))
    (dom (Mig.entries_ (migrator_ (ctl s)))) e) as Heo by apply (iv_entry _ _ _ Hi).
  split; cbn [conf k_ck k_blocks k_b0 k_b1 k_pages].
  - intros t [st b] (i&e&He&<-&_)%Hb. apply (eo_tag _ _ _ (Heo _ _ He)).
  - intros t st b (i&e&He&<-&<-&<-)%Hb.
    pose proof (ATT.r_state _ _ (iv_att _ _ _ Hi) _ _ He) as [Hnf _].
    pose proof (VB.v_disj _ (iv_nvm _ _ _ Hi)) as Hdj.
    destruct (inv_place _ _ _ _ _ Hi He) as [(En&k&Ek&Hk&Hu)|[(Ed&d&Ek&Hd&_)|(Es&Ek)]];
      unfold in_nvm, in_dram in *; [..|by rewrite Es].
    + assert (k ∉ VB.vset (nvm_buffer_ (ctl s)) VB.BACKUP0 ∧
        k ∉ VB.vset (nvm_buffer_ (ctl s)) VB.BACKUP1).
      { split; intros Hk'; by pose proof (Hdj _ _ _ Hu Hk'). }
      destruct (ATT.state e); try done; by exists k.
    + destruct (ATT.state e); try done; by exists d.
  - intros t u st st' b (i&e&He&<-&_&<-)%Hb (j&e'&He'&<-&_&E)%Hb.
    assert (i = j) as -> by (by eapply inv_base_inj). congruence.
  - intros k [Hk|Hk]; rewrite <- Hnl; by eapply (VB.v_range _ (iv_nvm _ _ _ Hi)).
  - intros t st b (i&e&He&<-&<-&<-)%Hb. apply (eo_page _ _ _ (Heo _ _ He)).
  - intros t st b Hck (i&e&He&<-&<-&<-)%Hb. by apply (eo_ck _ _ _ (Heo _ _ He)).
  - apply (iv_b1 _ _ _ Hi).
  - intros p (e&He)%elem_of_dom. destruct (m_page _ (iv_mig _ _ _ Hi) _ _ He) as ((Hp&_)&_).
    by destruct (cg_mig _ (iv_geom _ _ _ Hi)) as (_&<-&_).
Qed.

(** The buffers do not run out of slots. *)
Lemma dram_free fl a s : inv fl a s → mcount in_dram (ATT.a_live a) < c_att_len c →
  VB.vset (dram_buffer_ (ctl s)) VB.FREE ≠ ∅.
Proof.
  intros Hi Hn E. pose proof (VB.vb_size _ (iv_dram _ _ _ Hi)) as Hs.
  destruct (iv_dback _ _ _ Hi) as [E0 E1]. rewrite E, E0, E1, size_empty in Hs.
  rewrite (rg_size _ _ _ _ (iv_rd _ _ _ Hi)) in Hs.
  destruct (cg_dram _ (iv_geom _ _ _ Hi)) as (_&Hl&_). lia.
Qed.

Lemma nvm_free fl a s : inv fl a s → in_checkpointing_ (ctl s) = false →
  mcount in_nvm (ATT.a_live a) < c_att_len c → VB.vset (nvm_buffer_ (ctl s)) VB.FREE ≠ ∅.
Proof.
  intros Hi Hck Hn E. pose proof (VB.vb_size _ (iv_nvm _ _ _ Hi)) as Hs.
  destruct (iv_room _ _ _ Hi) as [Hb0 _]. rewrite E, (iv_b1 _ _ _ Hi Hck), size_empty in Hs.
  rewrite (rg_size _ _ _ _ (iv_rn _ _ _ Hi)) in Hs.
  destruct (cg_nvm _ (iv_geom _ _ _ Hi)) as (_&Hl&_). lia.
Qed.

(** Re-establishing the invariant after a change of the table, the buffers and the
    memory. *)
Lemma inv_change fl fl' a a' s s' : inv fl a s →
  ATT.same_const (att_ (ctl s)) (att_ (ctl s')) →
  VB.same_geom (nvm_buffer_ (ctl s)) (nvm_buffer_ (ctl s')) →
  VB.same_geom (dram_buffer_ (ctl s)) (dram_buffer_ (ctl s')) →
  migrator_ (ctl s') = migrator_ (ctl s) → phy_range_ (ctl s') = phy_range_ (ctl s) →
  in_checkpointing_ (ctl s') = in_checkpointing_ (ctl s) →
  ATT.att_rep (att_ (ctl s')) a' → VB.vb_ok (nvm_buffer_ (ctl s')) →
  VB.vb_ok (dram_buffer_ (ctl s')) → st_ok (store s') →
  region in_nvm (nslot c) (ATT.a_live a') (VB.vset (nvm_buffer_ (ctl s')) VB.IN_USE) →
  region in_dram (dslot c) (ATT.a_live a') (VB.vset (dram_buffer_ (ctl s')) VB.IN_USE) →
  map_Forall (λ _, entry_ok (in_checkpointing_ (ctl s))
    (dom (Mig.entries_ (migrator_ (ctl s))))) (ATT.a_live a') →
  VB.vset (dram_buffer_ (ctl s')) VB.BACKUP0 = ∅ ∧
    VB.vset (dram_buffer_ (ctl s')) VB.BACKUP1 = ∅ →
  (in_checkpointing_ (ctl s) = false → VB.vset (nvm_buffer_ (ctl s')) VB.BACKUP1 = ∅) →
  room fl' a' s' → inv fl' a' s'.
Proof.
  intros Hi (E1&E2&E3) (E4&E5&E6&_) (E7&E8&E9&_) Em Ep Eck. intros.
  destruct (iv_geom _ _ _ Hi) as [?????? ?].
  split; rewrite ?Em, ?Eck; try done; [|apply (iv_mig _ _ _ Hi)|apply (iv_pages _ _ _ Hi)].
  split; rewrite ?Em; done || congruence || (split_and!; naive_solver congruence).
Qed.

End Inv.

Lemma abs_shift_live i e st a : st ≠ ATT.FREE →
  ATT.a_live (ATT.abs_shift i e st a) = <[i := ATT.set_state st e]> (ATT.a_live a).
Proof. intros Hs. unfold ATT.abs_shift. simpl. by rewrite (proj2 (ATT.state_eqb_neq _ _) Hs). Qed.

Lemma abs_shift_gone i e a :
  ATT.a_live (ATT.abs_shift i e ATT.FREE a) = delete i (ATT.a_live a).
Proof. done. Qed.
