(* ===== verification/ControllerOps.v ===== *)
(** The internal operations of the controller. Each one is proved to keep [inv] and
    to be one step of the abstract memory ([cstep]); with the invariant no assertion
    of the sources can fail in it. *)

From S2P Require Import Prelude Profiler StdAlgo MemStore PersistSpec PersistFacts MigrationSpec.
From S2P Require Import AddrTransController ControllerInv.
#[global] Open Scope Z_scope.

Section Ops.
Context (c : Config) (Hc : wf_config c) {St : Type} `{!MemStore St, !MemStoreLaws St c}.
Context `{HO : HashOrder, HA : HeapAlgo}.
Implicit Types s : Sys St.

Abbreviation bs := (c_bsize c).
Abbreviation conf := (conf c).
Abbreviation inv := (inv c).

(** ** Sizes and addresses *)

Lemma bits_31 : 0 ≤ c_block_bits c < 31.
Proof. pose proof (wf_bits _ Hc). pose proof (wf_page _ Hc). lia. Qed.

Lemma bs_31 : 0 < bs < 2 ^ 31.
Proof. pose proof bits_31. split; [apply (bs_pos _ Hc)|]. apply Z.pow_lt_mono_r; lia. Qed.

Lemma wp_block_size (Q : Z → Sys St → Prop) s :
  ctl_geom c (ctl s) → Q bs s → wp block_size Q s.
Proof.
  intros Hg HQ. apply wp_gets. unfold ATT.block_size. pose proof bs_31. pose proof bits_31.
  rewrite (cg_bits _ _ Hg), shiftl_pow2, Z.mul_1_l, i32_small; [done|unfold c_bsize in *; lia|lia].
Qed.

Lemma wp_ToTag (Q : Z → Sys St → Prop) s addr :
  ctl_geom c (ctl s) → 0 ≤ addr < 2 ^ 63 → Q (addr / bs) s → wp (ToTag addr) Q s.
Proof.
  intros Hg Ha HQ. apply wp_gets. unfold ATT.ToTag. pose proof bits_31. pose proof bs_31.
  rewrite (cg_bits _ _ Hg), shiftr_pow2, i64_small; [done| |lia]. fold bs.
  pose proof (Z.div_pos addr bs). pose proof (Z.div_le_upper_bound addr bs addr). nia.
Qed.

Lemma wp_ToAddr (Q : Z → Sys St → Prop) s t :
  ctl_geom c (ctl s) → tag_ok c t → Q (home c t) s → wp (ToAddr t) Q s.
Proof.
  intros Hg Ht HQ. apply wp_gets. unfold ATT.ToAddr. pose proof bits_31. pose proof bs_31.
  pose proof (tag_top _ Hc _ Ht). destruct Ht as [Ht0 Ht1]. pose proof (wf_top _ Hc).
  pose proof (wf_att _ Hc). pose proof (pow2_pos (c_page_bits c)). pose proof (wf_bits _ Hc).
  assert (c_phy_range c < 2 ^ 63) by (unfold c_top in *; nia).
  assert (t ≤ home c t) by (unfold home in *; nia).
  rewrite (cg_bits _ _ Hg), shiftl_pow2, (u64_small t), u64_small by
    (unfold home, c_bsize in *; lia). done.
Qed.

(** ** Places the store can copy *)

Definition valid (b : Z) : Prop := place c b ∧ 0 ≤ b ∧ b + bs ≤ c_top c.

Lemma valid_home t : tag_ok c t → valid (home c t).
Proof.
  intros Ht. pose proof (tag_top _ Hc _ Ht). split; [by apply place_home|]. pose proof bs_31.
  pose proof (wf_att _ Hc). unfold c_top. nia.
Qed.
Lemma phy_nonneg : 0 ≤ c_phy_range c.
Proof. pose proof (wf_dram _ Hc). lia. Qed.
Lemma valid_nslot k : 0 ≤ k < 2 * c_att_len c → valid (nslot c k).
Proof.
  intros Hk. split; [by apply place_nslot|]. pose proof bs_31. pose proof phy_nonneg.
  unfold nslot, c_nvm_base, c_top. nia.
Qed.
Lemma valid_dslot k : 0 ≤ k < c_att_len c → valid (dslot c k).
Proof.
  intros Hk. split; [by apply place_dslot|]. pose proof bs_31. pose proof phy_nonneg.
  unfold dslot, c_dram_base, c_top. nia.
Qed.

Lemma place_disj b b' : place c b → place c b' → b ≠ b' → b + bs ≤ b' ∨ b' + bs ≤ b.
Proof.
  intros [q ->] [q' ->] Hne. pose proof bs_31. assert (q < q' ∨ q' < q) as [?|?] by nia; nia.
Qed.

(** ** Calls *)

Lemma wp_on_pf r op `{!Quiet op} (Q : unit → Sys St → Prop) s :
  (∀ ps', pf_same (profs s) ps' → Q tt (MkSys (ctl s) (store s) ps' (ckpt s))) →
  wp (on_pf r op) Q s.
Proof.
  intros HQ. apply wp_zoom. destruct (quiet (sel r (profs s))) as (p'&E&H1&H2&H3&H4).
  unfold wp. rewrite E. apply HQ. by apply pf_same_upd.
Qed.

Lemma wp_push (ck : bool) b (Q : unit → Sys St → Prop) s :
  Q tt (MkSys (ctl s) (store s) (profs s) (ckpt s ++ if ck then [b] else [])) →
  wp (push_ckpt ck b) Q s.
Proof.
  intros HQ. destruct ck; apply HQ || (rewrite app_nil_r in HQ; by destruct s).
Qed.

Lemma wp_copy {dest src} (Q : unit → Sys St → Prop) s :
  st_ok (store s) → valid dest → valid src → dest ≠ src →
  (∀ st', st_ok st' → copied c dest src (content (store s)) (content st') →
     Q tt (MkSys (ctl s) st' (profs s) (ckpt s))) →
  wp (on_store (MemCopy dest src bs)) Q s.
Proof.
  intros Hst (Hd&Hd0&Hd1) (Hs&Hs0&Hs1) Hne HQ. apply wp_zoom. pose proof bs_31.
  wp_apply law_copy; [done..|lia|lia|lia|lia|by apply place_disj|].
  intros [] st' [Hst' Hm]. by apply HQ.
Qed.

Lemma wp_CopyBlockIntra dest src pf (ck : bool) (Q : unit → Sys St → Prop) s :
  ctl_geom c (ctl s) → st_ok (store s) → valid dest → valid src → dest ≠ src →
  (∀ st' ps', st_ok st' → copied c dest src (content (store s)) (content st') →
     pf_same (profs s) ps' →
     Q tt (MkSys (ctl s) st' ps' (ckpt s ++ if ck then [dest] else []))) →
  wp (CopyBlockIntra dest src pf ck) Q s.
Proof.
  intros Hg Hst Hd Hs Hne HQ. unfold CopyBlockIntra. wp_step. apply wp_block_size; [done|].
  wp_step. apply wp_copy; [done..|]. intros st' Hst' Hm.
  wp_step. apply wp_on_pf; [apply _|]. intros ps' Hps. apply wp_push. by apply HQ.
Qed.

Lemma wp_CopyBlockInter dest src pf (ck : bool) (Q : unit → Sys St → Prop) s :
  ctl_geom c (ctl s) → st_ok (store s) → valid dest → valid src → dest ≠ src →
  (∀ st' ps', st_ok st' → copied c dest src (content (store s)) (content st') →
     pf_same (profs s) ps' →
     Q tt (MkSys (ctl s) st' ps' (ckpt s ++ if ck then [dest] else []))) →
  wp (CopyBlockInter dest src pf ck) Q s.
Proof.
  intros Hg Hst Hd Hs Hne HQ. unfold CopyBlockInter. wp_step. apply wp_block_size; [done|].
  wp_step. apply wp_copy; [done..|]. intros st' Hst' Hm.
  wp_step. apply wp_on_pf; [apply _|]. intros ps' Hps. apply wp_push. by apply HQ.
Qed.

Lemma wp_SwapBlock x y pf (Q : unit → Sys St → Prop) s :
  ctl_geom c (ctl s) → st_ok (store s) → valid x → valid y → x ≠ y →
  (∀ st' ps', st_ok st' → swapped c x y (content (store s)) (content st') →
     pf_same (profs s) ps' → Q tt (MkSys (ctl s) st' ps' (ckpt s))) →
  wp (SwapBlock x y pf false) Q s.
Proof.
  intros Hg Hst (Hd&Hd0&Hd1) (Hs&Hs0&Hs1) Hne HQ. unfold SwapBlock. wp_step.
  apply wp_block_size; [done|]. wp_step. apply wp_zoom. pose proof bs_31.
  wp_apply law_swap; [done..|lia|lia|lia|by apply place_disj|].
  intros [] st' [Hst' Hm]. wp_step. apply wp_on_pf; [apply _|]. intros ps' Hps.
  repeat wp_step. by apply HQ.
Qed.

Lemma sys_eta s : MkSys (set_att_ (att_ (ctl s)) (ctl s)) (store s) (profs s) (ckpt s) = s.
Proof. by destruct s as [[] ???]. Qed.

Lemma wp_sys_At a i e (Q : ATT.ATTEntry → Sys St → Prop) s :
  ATT.att_rep (att_ (ctl s)) a → ATT.a_live a !! i = Some e →
  (∀ e0, ATT.state e0 = ATT.state e → ATT.phy_tag e0 = ATT.phy_tag e →
     ATT.mach_base e0 = ATT.mach_base e → Q e0 s) → wp (att_At i) Q s.
Proof.
  intros Hrep He HQ. apply wp_zoom, wp_own. eapply ATT.wp_att_At; [done|done|].
  intros e0 <-. cbn [fst snd]. rewrite sys_eta. by apply HQ.
Qed.

Lemma wp_phase b (Q : bool → Sys St → Prop) s :
  in_checkpointing_ (ctl s) = b → Q b s → wp in_checkpointing Q s.
Proof. by intros <-. Qed.

(** What every operation on a block leaves alone. *)
Definition keeps s s' : Prop :=
  migrator_ (ctl s') = migrator_ (ctl s) ∧
  in_checkpointing_ (ctl s') = in_checkpointing_ (ctl s) ∧ pf_same (profs s) (profs s').

(** The data of a block are copied when [mv]. *)
Lemma wp_move_intra (mv : bool) dest src pf (Q : unit → Sys St → Prop) s :
  ctl_geom c (ctl s) → st_ok (store s) → valid dest → valid src → dest ≠ src →
  (∀ st' ps', st_ok st' → moved c mv dest src (content (store s)) (content st') →
     pf_same (profs s) ps' → Q tt (MkSys (ctl s) st' ps' (ckpt s))) →
  wp (if mv then CopyBlockIntra dest src pf false else mret tt) Q s.
Proof.
  intros Hg Hst Hd Hs Hne HQ. destruct mv.
  - apply wp_CopyBlockIntra; [done..|]. intros st' ps' ???. rewrite app_nil_r. by apply HQ.
  - apply wp_ret. destruct s. by apply HQ.
Qed.

Lemma wp_move_inter (mv : bool) dest src pf (Q : unit → Sys St → Prop) s :
  ctl_geom c (ctl s) → st_ok (store s) → valid dest → valid src → dest ≠ src →
  (∀ st' ps', st_ok st' → moved c mv dest src (content (store s)) (content st') →
     pf_same (profs s) ps' → Q tt (MkSys (ctl s) st' ps' (ckpt s))) →
  wp (if mv then CopyBlockInter dest src pf false else mret tt) Q s.
Proof.
  intros Hg Hst Hd Hs Hne HQ. destruct mv.
  - apply wp_CopyBlockInter; [done..|]. intros st' ps' ???. rewrite app_nil_r. by apply HQ.
  - apply wp_ret. destruct s. by apply HQ.
Qed.

Lemma wp_move_push (mv ckb : bool) dest src pf (Q : unit → Sys St → Prop) s :
  ctl_geom c (ctl s) → st_ok (store s) → valid dest → valid src → dest ≠ src →
  (∀ st' ps', st_ok st' → moved c mv dest src (content (store s)) (content st') →
     pf_same (profs s) ps' →
     Q tt (MkSys (ctl s) st' ps' (ckpt s ++ if mv && ckb then [dest] else []))) →
  wp (if mv then CopyBlockInter dest src pf false ;; push_ckpt ckb dest else mret tt) Q s.
Proof.
  intros Hg Hst Hd Hs Hne HQ. destruct mv.
  - wp_step. apply wp_CopyBlockInter; [done..|]. intros st' ps' ???. apply wp_push.
    cbn [ckpt ctl store profs]. rewrite app_nil_r. by apply HQ.
  - apply wp_ret. simpl in HQ. rewrite app_nil_r in HQ. destruct s. by apply HQ.
Qed.

(** ** Transitions *)

(** [s] with a new table, new buffers and a new memory. *)
Definition upd_sys (t : ATT.AddrTransTable) (v d : VB.VersionBuffer) (st : St) (ps : Profs)
    (l : list Z) s : Sys St :=
  MkSys (MkCtl t v d (migrator_ (ctl s)) (phy_range_ (ctl s)) (in_checkpointing_ (ctl s))
    (pages_to_dram_ (ctl s)) (pages_to_nvm_ (ctl s))) st ps l.

Lemma upd_keeps t v d st ps l s : pf_same (profs s) ps → keeps s (upd_sys t v d st ps l s).
Proof. done. Qed.

Lemma zsize_add (k : Z) (S : gset Z) : k ∉ S → Z.of_nat (size ({[k]} ∪ S)) = Z.of_nat (size S) + 1.
Proof. intros. rewrite size_union by set_solver. rewrite size_singleton. lia. Qed.

Lemma conf_upd t v d st ps l s : conf (upd_sys t v d st ps l s) =
  MkConf (in_checkpointing_ (ctl s)) (blocks_of t) (VB.vset v VB.BACKUP0) (VB.vset v VB.BACKUP1)
    (dom (Mig.entries_ (migrator_ (ctl s)))) (content st).
Proof. done. Qed.

Lemma inv_upd fl fl' a a' s t' v' d' st' ps' l' : inv fl a s →
  ATT.same_const (att_ (ctl s)) t' →
  VB.vb_next (nvm_buffer_ (ctl s)) v' → VB.vb_next (dram_buffer_ (ctl s)) d' →
  ATT.att_rep t' a' → st_ok st' →
  region in_nvm (nslot c) (ATT.a_live a') (VB.vset v' VB.IN_USE) →
  region in_dram (dslot c) (ATT.a_live a') (VB.vset d' VB.IN_USE) →
  map_Forall (λ _, entry_ok c (in_checkpointing_ (ctl s))
    (dom (Mig.entries_ (migrator_ (ctl s))))) (ATT.a_live a') →
  VB.vset d' VB.BACKUP0 = ∅ ∧ VB.vset d' VB.BACKUP1 = ∅ →
  (in_checkpointing_ (ctl s) = false → VB.vset v' VB.BACKUP1 = ∅) →
  room_ok c (in_checkpointing_ (ctl s)) fl' (Z.of_nat (size (VB.vset v' VB.BACKUP0)))
    (Z.of_nat (size (VB.vset v' VB.BACKUP1))) (mcount is_clean (ATT.a_live a')) →
  inv fl' a' (upd_sys t' v' d' st' ps' l' s).
Proof. intros Hi ? [??] [??]. intros. by eapply (inv_change c fl fl' a a' s). Qed.

(** The configuration of such a state, when the blocks are [B]. *)
Definition conf_next s (B : gmap Z (ATT.ATTState * Z)) (v' : VB.VersionBuffer) (st' : St) : Conf :=
  MkConf (in_checkpointing_ (ctl s)) B (VB.vset v' VB.BACKUP0) (VB.vset v' VB.BACKUP1)
    (k_pages (conf s)) (content st').

Section Transitions.
Context (fl fl' : bool) (a a' : ATT.AbsATT) (s : Sys St) (Hi : inv fl a s).
Context (i : Z) (t' : ATT.AddrTransTable) (v' d' : VB.VersionBuffer) (st' : St) (ps' : Profs) (l' : list Z).
Context (Hsc : ATT.same_const (att_ (ctl s)) t') (Hst : st_ok st') (Hrep : ATT.att_rep t' a').
Context (Hv : VB.vb_next (nvm_buffer_ (ctl s)) v') (Hd : VB.vb_next (dram_buffer_ (ctl s)) d').
Context (Hrn : region in_nvm (nslot c) (ATT.a_live a') (VB.vset v' VB.IN_USE)).
Context (Hrd : region in_dram (dslot c) (ATT.a_live a') (VB.vset d' VB.IN_USE)).
Context (Hdb : VB.vset d' VB.BACKUP0 = ∅ ∧ VB.vset d' VB.BACKUP1 = ∅).
Context (Hb1 : in_checkpointing_ (ctl s) = false → VB.vset v' VB.BACKUP1 = ∅).

Abbreviation s' := (upd_sys t' v' d' st' ps' l' s).
Abbreviation room_next n := (room_ok c (in_checkpointing_ (ctl s)) fl'
  (Z.of_nat (size (VB.vset v' VB.BACKUP0))) (Z.of_nat (size (VB.vset v' VB.BACKUP1))) n).

(** Entry [i] is rewritten ... *)
Lemma tr_insert e e' : ATT.a_live a !! i = Some e → ATT.a_live a' = <[i := e']> (ATT.a_live a) →
  ATT.phy_tag e' = ATT.phy_tag e →
  entry_ok c (in_checkpointing_ (ctl s)) (k_pages (conf s)) e' →
  room_next (mcount is_clean (ATT.a_live a) - Z.b2z (is_clean e) + Z.b2z (is_clean e')) →
  inv fl' a' s' ∧ conf s' =
    conf_next s (<[ATT.phy_tag e := (ATT.state e', ATT.mach_base e')]> (k_blocks (conf s))) v' st'.
Proof.
  intros He El Ht Heo Hroom. split.
  - eapply (inv_upd fl fl' a a' s); eauto; rewrite El.
    + apply map_Forall_insert_2; [done|apply (iv_entry _ _ _ _ Hi)].
    + by rewrite (mcount_insert _ _ _ _ _ He).
  - rewrite conf_upd. unfold conf_next. f_equal.
    rewrite (blocks_insert _ _ _ _ (iv_att _ _ _ _ Hi) Hrep i e' El); [by rewrite Ht|].
    intros j e1 Hj. split; [|intros ->; congruence]. intros Htag.
    by apply (ATT.rep_tag_inj _ _ (iv_att _ _ _ _ Hi) _ _ e e1); [..|congruence].
Qed.

(** ... or becomes free ... *)
Lemma tr_delete e : ATT.a_live a !! i = Some e → ATT.a_live a' = delete i (ATT.a_live a) →
  room_next (mcount is_clean (ATT.a_live a) - Z.b2z (is_clean e)) →
  inv fl' a' s' ∧ conf s' = conf_next s (delete (ATT.phy_tag e) (k_blocks (conf s))) v' st'.
Proof.
  intros He El Hroom. split.
  - eapply (inv_upd fl fl' a a' s); eauto; rewrite El.
    + apply map_Forall_delete, (iv_entry _ _ _ _ Hi).
    + by rewrite (mcount_delete _ _ _ _ He).
  - rewrite conf_upd. unfold conf_next. f_equal.
    by rewrite (blocks_delete _ _ _ _ (iv_att _ _ _ _ Hi) Hrep i e He El).
Qed.

(** ... or is taken for a new block. *)
Lemma tr_new e' : ATT.a_live a !! i = None → ATT.a_live a' = <[i := e']> (ATT.a_live a) →
  (∀ j e, ATT.a_live a !! j = Some e → ATT.phy_tag e ≠ ATT.phy_tag e') →
  entry_ok c (in_checkpointing_ (ctl s)) (k_pages (conf s)) e' →
  room_next (mcount is_clean (ATT.a_live a) + Z.b2z (is_clean e')) →
  inv fl' a' s' ∧ conf s' =
    conf_next s (<[ATT.phy_tag e' := (ATT.state e', ATT.mach_base e')]> (k_blocks (conf s))) v' st'.
Proof.
  intros He El Ht Heo Hroom. split.
  - eapply (inv_upd fl fl' a a' s); eauto; rewrite El.
    + apply map_Forall_insert_2; [done|apply (iv_entry _ _ _ _ Hi)].
    + by rewrite mcount_insert_fresh.
  - rewrite conf_upd. unfold conf_next. f_equal.
    apply (blocks_insert _ _ _ _ (iv_att _ _ _ _ Hi) Hrep i e' El).
    intros j e1 Hj. split; [by intros ?%(Ht _ _ Hj)|intros ->; congruence].
Qed.

End Transitions.

#[local] Hint Resolve VB.vb_next_refl VB.vb_next_move : core.
#[local] Hint Resolve nslot_inj dslot_inj : core.
#[local] Hint Resolve iv_geom iv_att iv_nvm iv_dram iv_store iv_rn iv_rd iv_dback iv_b1 : core.

(** [att_.At(index)] and the fields read from the entry. *)
Ltac wp_entry Hi :=
  wp_steps; eapply wp_sys_At; [exact (iv_att _ _ _ _ Hi)|eassumption|];
  let e0 := fresh "e0" in let E1 := fresh in let E2 := fresh in let E3 := fresh in
  intros e0 E1 E2 E3; rewrite ?E1, ?E2, ?E3; clear e0 E1 E2 E3.

(** A clean entry's slot becomes a backup. *)
Lemma room_backup ck b0 b1 n b0' b1' n' : room_ok c ck false b0 b1 n → 0 < n → n' = n - 1 →
  b0' = (if ck then b0 else b0 + 1) → b1' = (if ck then b1 + 1 else b1) →
  room_ok c ck false b0' b1' n'.
Proof. unfold room_ok. intros [? Hr] ? -> -> ->. destruct ck; [|specialize (Hr eq_refl)]; lia. Qed.

Lemma kind_nvm e : in_nvm e = true → in_dram e = false ∧ (is_clean e = true ∨ ATT.state e = ATT.DIRTY).
Proof. unfold in_nvm, in_dram, is_clean. destruct (ATT.state e); naive_solver. Qed.

(** The slot of an entry, by its state. *)
Lemma entry_nvm fl a s i e : inv fl a s → ATT.a_live a !! i = Some e → in_nvm e = true →
  ∃ k, ATT.mach_base e = nslot c k ∧ 0 ≤ k < 2 * c_att_len c ∧
    k ∈ VB.vset (nvm_buffer_ (ctl s)) VB.IN_USE ∧ k ∉ VB.vset (nvm_buffer_ (ctl s)) VB.BACKUP0 ∧
    k ∉ VB.vset (nvm_buffer_ (ctl s)) VB.BACKUP1.
Proof.
  intros Hi He Hn. destruct (inv_place _ _ _ _ _ _ Hi He) as [(_&k&Ek&Hk&Hu)|[(Ed&_)|(Es&_)]].
  - exists k. split_and!; try done; try lia; intros Hk';
      by pose proof (VB.v_disj _ (iv_nvm _ _ _ _ Hi) _ _ _ Hu Hk').
  - destruct (kind_nvm _ Hn). congruence.
  - unfold in_nvm in Hn. by rewrite Es in Hn.
Qed.

Lemma wp_HideClean a i e mv pf (Q : unit → Sys St → Prop) s :
  inv false a s → in_checkpointing_ (ctl s) = false →
  ATT.a_live a !! i = Some e → ATT.state e = ATT.CLEAN →
  (∀ s', inv false (ATT.abs_shift i (ATT.set_mach_base (home c (ATT.phy_tag e)) e) ATT.HIDDEN a) s' →
     cstep c (conf s) (LHideClean (ATT.phy_tag e) mv) (conf s') → keeps s s' → ckpt s' = ckpt s →
     Q tt s') →
  wp (HideClean i mv pf) Q s.
Proof.
  intros Hi Hck He Hst HQ. pose proof (iv_geom _ _ _ _ Hi) as Hg.
  pose proof (iv_entry _ _ _ _ Hi _ _ He) as Heo. pose proof (eo_tag _ _ _ _ Heo) as Ht.
  assert (in_nvm e = true ∧ in_dram e = false ∧ is_clean e = true) as (Kn&Kd&Kc).
  { unfold in_nvm, in_dram, is_clean. by rewrite Hst. }
  destruct (entry_nvm _ _ _ _ _ Hi He Kn) as (k&Ek&Hk&Hu&Hk0&Hk1).
  unfold HideClean. wp_step. apply (wp_phase false); [done|].
  wp_steps. apply wp_assert; [done|]. wp_entry Hi.
  wp_steps. apply wp_assert; [by apply ATT.state_eqb_eq|]. wp_step.
  apply wp_ToAddr; [done..|]. wp_step. rewrite Ek.
  apply wp_move_intra; [done|eauto|by apply valid_home|by apply valid_nslot|apply home_nslot; done || lia|].
  intros st' ps' Hst' Hm Hps. wp_step. apply wp_zoom. cbn [ctl profs store].
  rewrite <- (nvm_slot _ _ _ Hg). apply VB.wp_SlotBackup; [eauto|done|by left|]. intros ps2 Hps2.
  apply wp_zoom. eapply ATT.wp_Reset; [exact (iv_att _ _ _ _ Hi)|done|by rewrite Hst|].
  intros t' ps3 Hrep Hsc Hps3.
  destruct (tr_insert false false a _ s Hi i t' (VB.vmove k VB.IN_USE VB.BACKUP0 (nvm_buffer_ (ctl s)))
    (dram_buffer_ (ctl s)) st' ps3 (ckpt s) Hsc Hst' Hrep) with (e := e)
    (e' := ATT.set_state ATT.HIDDEN (ATT.set_mach_base (home c (ATT.phy_tag e)) e))
    as [Hinv Hcf]; eauto; rewrite ?abs_shift_live by done; vmove_sets; eauto.
  - eapply (region_leave in_nvm); eauto.
  - eapply (region_out in_dram); eauto.
  - eapply entry_ok_next; [exact Heo|done|by rewrite Hst|done|by rewrite Hck].
  - rewrite Kc, zsize_add by done. eapply room_backup; [apply (iv_room _ _ _ _ Hi)|..];
      rewrite ?Hck; by eauto using mcount_pos || (simpl; lia).
  - apply (HQ _ Hinv); [|apply upd_keeps; by do 2 (etrans; [done|])|done].
    rewrite Hcf. unfold conf_next. vmove_sets. rewrite Hck. apply S_hide_clean; [done| |done].
    simpl. by rewrite (blocks_of_live _ _ (iv_att _ _ _ _ Hi) _ _ He), Hst, Ek.
Qed.

Lemma entry_dram fl a s i e : inv fl a s → ATT.a_live a !! i = Some e → in_dram e = true →
  ∃ d, ATT.mach_base e = dslot c d ∧ 0 ≤ d < c_att_len c ∧
    d ∈ VB.vset (dram_buffer_ (ctl s)) VB.IN_USE.
Proof.
  intros Hi He Hn. destruct (inv_place _ _ _ _ _ _ Hi He) as [(En&_)|[(_&d&Ed&Hd&Hu)|(Es&_)]].
  - destruct (kind_nvm _ En). congruence.
  - by exists d.
  - unfold in_dram in Hn. by rewrite Es in Hn.
Qed.

Lemma state_kind e st : ATT.state e = st →
  in_nvm e = (match st with ATT.CLEAN | ATT.DIRTY => true | _ => false end) ∧
  in_dram e = (match st with ATT.LOAN | ATT.TEMP | ATT.STAINED => true | _ => false end) ∧
  is_clean e = (match st with ATT.CLEAN => true | _ => false end).
Proof. intros <-. unfold in_nvm, in_dram, is_clean. by destruct (ATT.state e). Qed.

(** A free slot is not in any other set. *)
Lemma free_unused v k x : VB.vb_ok v → k ∈ VB.vset v VB.FREE → x ≠ VB.FREE → k ∉ VB.vset v x.
Proof. intros Hok Hk Hs Hk'. by pose proof (VB.v_disj _ Hok _ _ _ Hk Hk'). Qed.

Lemma free_dfresh fl a s d : inv fl a s → d ∈ VB.vset (dram_buffer_ (ctl s)) VB.FREE →
  dfresh c (conf s) d.
Proof.
  intros Hi Hd. pose proof (VB.v_range _ (iv_dram _ _ _ _ Hi) _ _ Hd) as Hr.
  destruct (cg_dram _ _ (iv_geom _ _ _ _ Hi)) as (_&Hl&_). split; [lia|].
  intros t s0 (i&e&He&<-&<-&Eb)%(blocks_of_Some _ _ (iv_att _ _ _ _ Hi)).
  pose proof (eo_tag _ _ _ _ (iv_entry _ _ _ _ Hi _ _ He)) as Ht.
  destruct (inv_place _ _ _ _ _ _ Hi He) as [(_&k&Ek&Hk&_)|[(_&d'&Ed&Hd'&Hu)|(_&Es)]].
  - destruct (nslot_dslot c Hc k d); [lia|lia|congruence].
  - assert (d' = d) as -> by (apply (dslot_inj c Hc); congruence).
    by apply (free_unused _ d VB.IN_USE (iv_dram _ _ _ _ Hi)).
  - destruct (home_dslot c Hc (ATT.phy_tag e) d); [done|lia|congruence].
Qed.

Lemma free_nfresh fl a s n : inv fl a s → n ∈ VB.vset (nvm_buffer_ (ctl s)) VB.FREE →
  nfresh c (conf s) n.
Proof.
  intros Hi Hn. pose proof (VB.v_range _ (iv_nvm _ _ _ _ Hi) _ _ Hn) as Hr.
  destruct (cg_nvm _ _ (iv_geom _ _ _ _ Hi)) as (_&Hl&_). split; [lia|].
  split; [by eapply free_unused; eauto|]. split; [by eapply free_unused; eauto|].
  intros t s0 (i&e&He&<-&<-&Eb)%(blocks_of_Some _ _ (iv_att _ _ _ _ Hi)).
  pose proof (eo_tag _ _ _ _ (iv_entry _ _ _ _ Hi _ _ He)) as Ht.
  destruct (inv_place _ _ _ _ _ _ Hi He) as [(_&k&Ek&Hk&Hu)|[(_&d&Ed&Hd&_)|(_&Es)]].
  - assert (k = n) as -> by (apply (nslot_inj c Hc); congruence).
    by apply (free_unused _ n VB.IN_USE (iv_nvm _ _ _ _ Hi)).
  - destruct (nslot_dslot c Hc n d); [lia|lia|congruence].
  - destruct (home_nslot c Hc (ATT.phy_tag e) n); [done|lia|congruence].
Qed.

Lemma wp_ResetClean a i e mv pf (Q : Z → Sys St → Prop) s :
  inv false a s → in_checkpointing_ (ctl s) = true →
  ATT.a_live a !! i = Some e → ATT.state e = ATT.CLEAN →
  (∀ d s', 0 ≤ d < c_att_len c →
     inv false (ATT.abs_shift i (ATT.set_mach_base (dslot c d) e) ATT.TEMP a) s' →
     cstep c (conf s) (LResetClean (ATT.phy_tag e) mv) (conf s') → keeps s s' → ckpt s' = ckpt s →
     Q (dslot c d) s') →
  wp (ResetClean i mv pf) Q s.
Proof.
  intros Hi Hck He Hst HQ. pose proof (iv_geom _ _ _ _ Hi) as Hg.
  pose proof (iv_entry _ _ _ _ Hi _ _ He) as Heo. pose proof (eo_tag _ _ _ _ Heo) as Ht.
  destruct (state_kind _ _ Hst) as (Kn&Kd&Kc).
  destruct (entry_nvm _ _ _ _ _ Hi He Kn) as (k&Ek&Hk&Hu&Hk0&Hk1).
  unfold ResetClean. wp_step. apply (wp_phase true); [done|].
  wp_steps. apply wp_assert; [done|]. wp_entry Hi.
  wp_steps. apply wp_assert; [by apply ATT.state_eqb_eq|]. wp_step. apply wp_zoom.
  assert (VB.vset (dram_buffer_ (ctl s)) VB.FREE ≠ ∅) as Hfree.
  { eapply dram_free; [done|]. rewrite <- (cg_len _ _ Hg). eapply live_count_lt; eauto. }
  apply VB.wp_SlotAlloc; [eauto|done|]. intros d ps1 Hd _ Hps1. rewrite (dram_slot _ _ _ Hg).
  pose proof (free_dfresh _ _ _ _ Hi Hd) as Hfd. pose proof (proj1 Hfd) as Hdr.
  wp_step. rewrite Ek.
  apply wp_move_inter; [by apply geom_dram|cbn; eauto|by apply valid_dslot|by apply valid_nslot| |].
  { apply not_symmetry, nslot_dslot; [done|lia..]. }
  intros st' ps2 Hst' Hm Hps2. wp_step. apply wp_zoom. cbn [ctl nvm_buffer_ set_dram_buffer_].
  rewrite <- (nvm_slot _ _ _ Hg). apply VB.wp_SlotBackup; [eauto|done|by right|]. intros ps3 Hps3.
  wp_step. apply wp_zoom. eapply ATT.wp_Reset; [exact (iv_att _ _ _ _ Hi)|done|by rewrite Hst|].
  intros t' ps4 Hrep Hsc Hps4. apply wp_ret.
  assert (d ∉ VB.vset (dram_buffer_ (ctl s)) VB.IN_USE) as Hdu by (by eapply free_unused; eauto).
  destruct (tr_insert false false a _ s Hi i t' (VB.vmove k VB.IN_USE VB.BACKUP1 (nvm_buffer_ (ctl s)))
    (VB.vmove d VB.FREE VB.IN_USE (dram_buffer_ (ctl s))) st' ps4 (ckpt s) Hsc Hst' Hrep) with (e := e)
    (e' := ATT.set_state ATT.TEMP (ATT.set_mach_base (dslot c d) e))
    as [Hinv Hcf]; eauto; rewrite ?abs_shift_live by done; vmove_sets; eauto.
  - eapply (region_leave in_nvm); eauto.
  - eapply (region_enter in_dram); eauto.
  - by rewrite Hck.
  - eapply entry_ok_next; [exact Heo|done|by rewrite Hst|done|naive_solver].
  - rewrite Kc, zsize_add by done. eapply room_backup; [apply (iv_room _ _ _ _ Hi)|..];
      rewrite ?Hck; by eauto using mcount_pos || (simpl; lia).
  - apply (HQ d _ Hdr Hinv); [|apply upd_keeps; by do 3 (etrans; [done|])|done].
    rewrite Hcf. unfold conf_next. vmove_sets. rewrite Hck. apply S_reset_clean; [done| |done|done].
    simpl. by rewrite (blocks_of_live _ _ (iv_att _ _ _ _ Hi) _ _ He), Hst, Ek.
Qed.

Lemma mig_eta s (st : St) ps l : MkSys (set_migrator_ (migrator_ (ctl s)) (ctl s)) st ps l =
  MkSys (ctl s) st ps l.
Proof. by destruct s as [[] ???]. Qed.

Lemma PageAlign_addr k x : ctl_geom c k → mig_ok (migrator_ k) → Mig.PageAlign (migrator_ k) x =
  x - x mod 2 ^ c_page_bits c.
Proof.
  intros Hg Hm. rewrite PageAlign_eq by apply (m_geom _ Hm).
  by destruct (cg_mig _ _ Hg) as (_&->&_).
Qed.

Lemma wp_IsDRAM fl a t pf (Q : bool → Sys St → Prop) s : inv fl a s →
  (∀ ps', pf_same (profs s) ps' → Q (bool_decide (page_of c t ∈ k_pages (conf s)))
     (MkSys (ctl s) (store s) ps' (ckpt s))) →
  wp (IsDRAM (home c t) pf) Q s.
Proof.
  intros Hi HQ. apply wp_zoom, wp_mig_Contains. intros ps' Hps. cbn [fst snd].
  rewrite mig_eta, (PageAlign_addr _ _ (iv_geom _ _ _ _ Hi) (iv_mig _ _ _ _ Hi)).
  rewrite (bool_decide_ext _ (page_of c t ∈ k_pages (conf s))); [by apply HQ|].
  unfold page_of. simpl. by rewrite elem_of_dom.
Qed.

(** A block goes home, if it is (not) cached in DRAM as [b] says. *)
Lemma wp_go_home fl a (mv ckb b : bool) site t d (copy : Z → Z → pfref → bool → M (Sys St) unit) pf
    (Q : unit → Sys St → Prop) s :
  inv fl a s → tag_ok c t → 0 ≤ d < c_att_len c →
  copy = CopyBlockIntra ∨ copy = CopyBlockInter →
  bool_decide (page_of c t ∈ k_pages (conf s)) = b →
  (∀ st' ps', st_ok st' → moved c mv (home c t) (dslot c d) (content (store s)) (content st') →
     pf_same (profs s) ps' →
     Q tt (MkSys (ctl s) st' ps' (ckpt s ++ if mv && ckb then [home c t] else []))) →
  wp (if mv then
        x ← IsDRAM (home c t) PfNull;
        assert_ site (if b then x else negb x) ;;
        copy (home c t) (dslot c d) pf false ;;
        push_ckpt ckb (home c t)
      else mret tt) Q s.
Proof.
  intros Hi Ht Hd Hcopy Hb HQ. pose proof (iv_geom _ _ _ _ Hi) as Hg. destruct mv.
  - wp_step. eapply wp_IsDRAM; [done|]. intros ps1 Hps1. rewrite Hb.
    wp_step. apply wp_assert; [by destruct b|]. wp_step.
    assert (∀ st' ps', st_ok st' → copied c (home c t) (dslot c d) (content (store s)) (content st') →
      pf_same ps1 ps' →
      wp (push_ckpt ckb (home c t)) Q (MkSys (ctl s) st' ps' (ckpt s ++ []))) as Hk.
    { intros st' ps' ???. apply wp_push. cbn [ckpt ctl store profs]. rewrite app_nil_r.
      apply HQ; [done|done|by etrans]. }
    destruct Hcopy as [-> | ->]; [apply wp_CopyBlockIntra|apply wp_CopyBlockInter]; cbn [ctl store profs ckpt];
      done || eauto using valid_home, valid_dslot || (apply home_dslot; done || lia).
  - apply wp_ret. simpl in HQ. rewrite app_nil_r in HQ. pose proof (iv_store _ _ _ _ Hi).
    destruct s. by apply HQ.
Qed.

(** The second half of [FreeClean]: the block is home, the slot becomes a backup. *)
Lemma wp_retire_clean a i e k ck pf (Q : unit → Sys St → Prop) s st' ps' :
  inv false a s → in_checkpointing_ (ctl s) = ck →
  ATT.a_live a !! i = Some e → ATT.state e = ATT.CLEAN → ATT.mach_base e = nslot c k →
  st_ok st' → pf_same (profs s) ps' →
  (if ck then swapped c (home c (ATT.phy_tag e)) (nslot c k) (content (store s)) (content st')
   else copied c (home c (ATT.phy_tag e)) (nslot c k) (content (store s)) (content st')) →
  (∀ s', inv false (ATT.abs_shift i e ATT.FREE a) s' →
     cstep c (conf s) (LFreeClean (ATT.phy_tag e)) (conf s') → keeps s s' → ckpt s' = ckpt s →
     Q tt s') →
  wp (on_nvm (VB.SlotBackup (nslot c k) (if ck then VB.BACKUP1 else VB.BACKUP0) pf) ;;
      on_att (ATT.ShiftState i ATT.FREE PfOverlap)) Q (MkSys (ctl s) st' ps' (ckpt s)).
Proof.
  intros Hi Hck He Hst Ek Hst' Hps Hm HQ. pose proof (iv_geom _ _ _ _ Hi) as Hg.
  destruct (state_kind _ _ Hst) as (Kn&Kd&Kc).
  destruct (entry_nvm _ _ _ _ _ Hi He Kn) as (k'&Ek'&Hk&Hu&Hk0&Hk1).
  assert (k' = k) as -> by (apply (nslot_inj c Hc); congruence).
  wp_step. apply wp_zoom. cbn [ctl].
  rewrite <- (nvm_slot _ _ _ Hg). apply VB.wp_SlotBackup; [eauto|done|destruct ck; auto|].
  intros ps2 Hps2. apply wp_zoom.
  eapply ATT.wp_att_ShiftState; [exact (iv_att _ _ _ _ Hi)|done|by rewrite Hst|].
  intros t' ps3 Hrep Hsc Hps3.
  destruct (tr_delete false false a _ s Hi i t'
    (VB.vmove k VB.IN_USE (if ck then VB.BACKUP1 else VB.BACKUP0) (nvm_buffer_ (ctl s)))
    (dram_buffer_ (ctl s)) st' ps3 (ckpt s) Hsc Hst' Hrep) with (e := e) as [Hinv Hcf];
    eauto; rewrite ?abs_shift_gone.
  - apply VB.vb_next_move; [eauto|by destruct ck|done].
  - rewrite VB.vset_vmove_from; [|by eauto using VB.v_sets|by destruct ck].
    eapply (region_remove in_nvm); eauto.
  - eapply (region_drop in_dram); eauto.
  - rewrite Hck. intros ->. vmove_sets. eauto.
  - rewrite Hck, Kc. pose proof (iv_room _ _ _ _ Hi) as Hr. unfold room in Hr. rewrite Hck in Hr.
    eapply room_backup; [exact Hr|by eapply mcount_pos|simpl; lia|..];
      destruct ck; vmove_sets; rewrite ?zsize_add by done; done.
  - apply (HQ _ Hinv); [|apply upd_keeps; by do 2 (etrans; [done|])|done].
    rewrite Hcf. unfold conf_next. rewrite Hck.
    assert (k_blocks (conf s) !! ATT.phy_tag e = Some (ATT.CLEAN, nslot c k)) as Hb.
    { simpl. by rewrite (blocks_of_live _ _ (iv_att _ _ _ _ Hi) _ _ He), Hst, Ek. }
    destruct ck; vmove_sets; [by apply S_free_clean_ck|by apply S_free_clean_run].
Qed.

Lemma wp_FreeClean a i e pf (Q : unit → Sys St → Prop) s :
  inv false a s → ATT.a_live a !! i = Some e → ATT.state e = ATT.CLEAN →
  (∀ s', inv false (ATT.abs_shift i e ATT.FREE a) s' →
     cstep c (conf s) (LFreeClean (ATT.phy_tag e)) (conf s') → keeps s s' → ckpt s' = ckpt s →
     Q tt s') →
  wp (FreeClean i pf) Q s.
Proof.
  intros Hi He Hst HQ. pose proof (iv_geom _ _ _ _ Hi) as Hg.
  pose proof (eo_tag _ _ _ _ (iv_entry _ _ _ _ Hi _ _ He)) as Ht.
  destruct (state_kind _ _ Hst) as (Kn&_).
  destruct (entry_nvm _ _ _ _ _ Hi He Kn) as (k&Ek&Hk&_).
  pose proof (valid_home _ Ht) as Vh. pose proof (valid_nslot k Hk) as Vn.
  assert (home c (ATT.phy_tag e) ≠ nslot c k) as Hne by (apply home_nslot; done || lia).
  unfold FreeClean. wp_entry Hi. wp_steps. apply wp_assert; [by apply ATT.state_eqb_eq|]. wp_step.
  apply wp_ToAddr; [done..|]. wp_step. remember (in_checkpointing_ (ctl s)) as ck eqn:Hck.
  apply (wp_phase ck); [done|]. wp_step. rewrite Ek. destruct ck.
  - apply wp_SwapBlock; [done|eauto|done..|]. intros st' ps' ???. by eapply (wp_retire_clean _ _ _ _ true).
  - apply wp_CopyBlockIntra; [done|eauto|done..|]. intros st' ps' ???. rewrite app_nil_r.
    by eapply (wp_retire_clean _ _ _ _ false).
Qed.

Lemma wp_DirtyStained fl a i e (mv : bool) pf (ckb : bool) (Q : Z → Sys St → Prop) s :
  inv fl a s → in_checkpointing_ (ctl s) = false →
  ATT.a_live a !! i = Some e → ATT.state e = ATT.STAINED →
  (∀ n s', 0 ≤ n < 2 * c_att_len c →
     inv fl (ATT.abs_shift i (ATT.set_mach_base (nslot c n) e) ATT.DIRTY a) s' →
     cstep c (conf s) (LDirtyStained (ATT.phy_tag e) mv) (conf s') → keeps s s' →
     ckpt s' = ckpt s ++ (if mv && ckb then [nslot c n] else []) → Q (nslot c n) s') →
  wp (DirtyStained i mv pf ckb) Q s.
Proof.
  intros Hi Hck He Hst HQ. pose proof (iv_geom _ _ _ _ Hi) as Hg.
  pose proof (iv_entry _ _ _ _ Hi _ _ He) as Heo.
  destruct (state_kind _ _ Hst) as (Kn&Kd&Kc).
  destruct (entry_dram _ _ _ _ _ Hi He Kd) as (d&Ed&Hd&Hu).
  unfold DirtyStained. wp_step. apply (wp_phase false); [done|].
  wp_steps. apply wp_assert; [done|]. wp_entry Hi.
  wp_steps. apply wp_assert; [by apply ATT.state_eqb_eq|]. wp_step. apply wp_zoom.
  assert (VB.vset (nvm_buffer_ (ctl s)) VB.FREE ≠ ∅) as Hfree.
  { eapply nvm_free; [done..|]. rewrite <- (cg_len _ _ Hg). eapply live_count_lt; eauto. }
  apply VB.wp_SlotAlloc; [eauto|done|]. intros n ps1 Hn _ Hps1. rewrite (nvm_slot _ _ _ Hg).
  pose proof (free_nfresh _ _ _ _ Hi Hn) as Hfn. pose proof (proj1 Hfn) as Hnr.
  wp_step. rewrite Ed. cbn [fst snd].
  apply wp_move_push; [by apply geom_nvm|cbn; eauto|by apply valid_nslot|by apply valid_dslot|
    apply nslot_dslot; done || lia|].
  intros st' ps2 Hst' Hm Hps2. wp_step. apply wp_zoom. cbn [ctl dram_buffer_ set_nvm_buffer_].
  rewrite <- (dram_slot _ _ _ Hg). apply VB.wp_FreeSlot; [eauto|done|]. intros ps3 Hps3.
  wp_step. apply wp_zoom. eapply ATT.wp_Reset; [exact (iv_att _ _ _ _ Hi)|done|by rewrite Hst|].
  intros t' ps4 Hrep Hsc Hps4. apply wp_ret.
  assert (n ∉ VB.vset (nvm_buffer_ (ctl s)) VB.IN_USE) as Hnu by (by eapply free_unused; eauto).
  destruct (tr_insert fl fl a _ s Hi i t' (VB.vmove n VB.FREE VB.IN_USE (nvm_buffer_ (ctl s)))
    (VB.vmove d VB.IN_USE VB.FREE (dram_buffer_ (ctl s))) st' ps4
    (ckpt s ++ if mv && ckb then [nslot c n] else []) Hsc Hst' Hrep) with (e := e)
    (e' := ATT.set_state ATT.DIRTY (ATT.set_mach_base (nslot c n) e))
    as [Hinv Hcf]; eauto; rewrite ?abs_shift_live by done; vmove_sets; eauto.
  - eapply (region_enter in_nvm); eauto.
  - eapply (region_leave in_dram); eauto.
  - eapply entry_ok_next; [exact Heo|done|by rewrite Hst|done|by rewrite Hck].
  - rewrite Kc. simpl. rewrite Z.sub_0_r, Z.add_0_r. apply (iv_room _ _ _ _ Hi).
  - apply (HQ n _ Hnr Hinv); [|apply upd_keeps; by do 3 (etrans; [done|])|done].
    rewrite Hcf. unfold conf_next. vmove_sets. rewrite Hck. eapply S_dirty_stained; [done| |done|done].
    simpl. by rewrite (blocks_of_live _ _ (iv_att _ _ _ _ Hi) _ _ He), Hst, Ed.
Qed.

Lemma wp_FreeLoan fl a i e (mv : bool) pf (ckb : bool) (Q : unit → Sys St → Prop) s :
  inv fl a s → in_checkpointing_ (ctl s) = false →
  ATT.a_live a !! i = Some e → ATT.state e = ATT.LOAN →
  (∀ s', inv fl (ATT.abs_shift i e ATT.FREE a) s' →
     cstep c (conf s) (LFreeLoan (ATT.phy_tag e) mv) (conf s') → keeps s s' →
     ckpt s' = ckpt s ++ (if mv && ckb then [home c (ATT.phy_tag e)] else []) → Q tt s') →
  wp (FreeLoan i mv pf ckb) Q s.
Proof.
  intros Hi Hck He Hst HQ. pose proof (iv_geom _ _ _ _ Hi) as Hg.
  pose proof (iv_entry _ _ _ _ Hi _ _ He) as Heo. pose proof (eo_tag _ _ _ _ Heo) as Ht.
  destruct (state_kind _ _ Hst) as (Kn&Kd&Kc).
  destruct (entry_dram _ _ _ _ _ Hi He Kd) as (d&Ed&Hd&Hu).
  unfold FreeLoan. wp_step. apply (wp_phase false); [done|].
  wp_steps. apply wp_assert; [done|]. wp_entry Hi.
  wp_steps. apply wp_assert; [by apply ATT.state_eqb_eq|]. wp_step.
  apply wp_ToAddr; [done..|]. wp_step. rewrite Ed.
  eapply (wp_go_home _ _ mv ckb true); [done..|by left| |].
  { apply bool_decide_eq_true, (eo_page _ _ _ _ Heo). done. }
  intros st' ps' Hst' Hm Hps. wp_step. apply wp_zoom. cbn [ctl]. rewrite <- (dram_slot _ _ _ Hg).
  apply VB.wp_FreeSlot; [eauto|done|]. intros ps2 Hps2. apply wp_zoom.
  eapply ATT.wp_att_ShiftState; [exact (iv_att _ _ _ _ Hi)|done|by rewrite Hst|].
  intros t' ps3 Hrep Hsc Hps3.
  destruct (tr_delete fl fl a _ s Hi i t' (nvm_buffer_ (ctl s))
    (VB.vmove d VB.IN_USE VB.FREE (dram_buffer_ (ctl s))) st' ps3
    (ckpt s ++ if mv && ckb then [home c (ATT.phy_tag e)] else []) Hsc Hst' Hrep) with (e := e)
    as [Hinv Hcf]; eauto; rewrite ?abs_shift_gone; vmove_sets; eauto.
  - eapply (region_drop in_nvm); eauto.
  - eapply (region_remove in_dram); eauto.
  - rewrite Kc, Z.sub_0_r. apply (iv_room _ _ _ _ Hi).
  - apply (HQ _ Hinv); [|apply upd_keeps; by do 2 (etrans; [done|])|done].
    rewrite Hcf. unfold conf_next. rewrite Hck. eapply S_free_loan; [done| |done].
    simpl. by rewrite (blocks_of_live _ _ (iv_att _ _ _ _ Hi) _ _ He), Hst, Ed.
Qed.

Lemma wp_HideTemp fl a i e (mv : bool) pf (ckb : bool) (Q : unit → Sys St → Prop) s :
  inv fl a s → in_checkpointing_ (ctl s) = false →
  ATT.a_live a !! i = Some e → ATT.state e = ATT.TEMP →
  (∀ s', inv fl (ATT.abs_shift i (ATT.set_mach_base (home c (ATT.phy_tag e)) e) ATT.HIDDEN a) s' →
     cstep c (conf s) (LHideTemp (ATT.phy_tag e) mv) (conf s') → keeps s s' →
     ckpt s' = ckpt s ++ (if mv && ckb then [home c (ATT.phy_tag e)] else []) → Q tt s') →
  wp (HideTemp i mv pf ckb) Q s.
Proof.
  intros Hi Hck He Hst HQ. pose proof (iv_geom _ _ _ _ Hi) as Hg.
  pose proof (iv_entry _ _ _ _ Hi _ _ He) as Heo. pose proof (eo_tag _ _ _ _ Heo) as Ht.
  destruct (state_kind _ _ Hst) as (Kn&Kd&Kc).
  destruct (entry_dram _ _ _ _ _ Hi He Kd) as (d&Ed&Hd&Hu).
  unfold HideTemp. wp_step. apply (wp_phase false); [done|].
  wp_steps. apply wp_assert; [done|]. wp_entry Hi.
  wp_steps. apply wp_assert; [by apply ATT.state_eqb_eq|]. wp_step.
  apply wp_ToAddr; [done..|]. wp_step. rewrite Ed.
  eapply (wp_go_home _ _ mv ckb false); [done..|by right| |].
  { apply bool_decide_eq_false. rewrite <- (eo_page _ _ _ _ Heo). by rewrite Hst. }
  intros st' ps' Hst' Hm Hps. wp_step. apply wp_zoom. cbn [ctl]. rewrite <- (dram_slot _ _ _ Hg).
  apply VB.wp_FreeSlot; [eauto|done|]. intros ps2 Hps2. apply wp_zoom.
  eapply ATT.wp_Reset; [exact (iv_att _ _ _ _ Hi)|done|by rewrite Hst|].
  intros t' ps3 Hrep Hsc Hps3.
  destruct (tr_insert fl fl a _ s Hi i t' (nvm_buffer_ (ctl s))
    (VB.vmove d VB.IN_USE VB.FREE (dram_buffer_ (ctl s))) st' ps3
    (ckpt s ++ if mv && ckb then [home c (ATT.phy_tag e)] else []) Hsc Hst' Hrep) with (e := e)
    (e' := ATT.set_state ATT.HIDDEN (ATT.set_mach_base (home c (ATT.phy_tag e)) e))
    as [Hinv Hcf]; eauto; rewrite ?abs_shift_live by done; vmove_sets; eauto.
  - eapply (region_out in_nvm); eauto.
  - eapply (region_leave in_dram); eauto.
  - eapply entry_ok_next; [exact Heo|done|by rewrite Hst|done|by rewrite Hck].
  - rewrite Kc. simpl. rewrite Z.sub_0_r, Z.add_0_r. apply (iv_room _ _ _ _ Hi).
  - apply (HQ _ Hinv); [|apply upd_keeps; by do 2 (etrans; [done|])|done].
    rewrite Hcf. unfold conf_next. rewrite Hck. eapply S_hide_temp; [done| |done].
    simpl. by rewrite (blocks_of_live _ _ (iv_att _ _ _ _ Hi) _ _ He), Hst, Ed.
Qed.

(** ** Operations that move no block *)

(** [s'] has the same blocks and data as [s]. *)
Definition quiet_step s s' : Prop :=
  conf s' = conf s ∧ keeps s s' ∧ ckpt s' = ckpt s ∧ store s' = store s.

Lemma tr_same fl a a' s t' ps' : inv fl a s → ATT.a_live a' = ATT.a_live a →
  ATT.same_const (att_ (ctl s)) t' → ATT.att_rep t' a' → pf_same (profs s) ps' →
  let s' := MkSys (set_att_ t' (ctl s)) (store s) ps' (ckpt s) in
  inv fl a' s' ∧ quiet_step s s'.
Proof.
  intros Hi El Hsc Hrep Hps s'. split.
  - apply (inv_upd fl fl a a' s t' _ _ _ ps' (ckpt s)); eauto; rewrite ?El; eauto.
    + apply (iv_entry _ _ _ _ Hi).
    + apply (iv_room _ _ _ _ Hi).
  - split_and!; [|by split_and!|done|done]. unfold ControllerInv.conf. cbn. f_equal.
    by apply (blocks_same _ _ _ _ (iv_att _ _ _ _ Hi) Hrep).
Qed.

Lemma wp_sys_Lookup fl a t pf (Q : Z → Sys St → Prop) s : inv fl a s →
  (∀ ps', (∀ i e, ATT.a_live a !! i = Some e → ATT.phy_tag e ≠ t) → pf_same (profs s) ps' →
     Q (- EINVAL) (MkSys (ctl s) (store s) ps' (ckpt s))) →
  (∀ i e s', ATT.a_live a !! i = Some e → ATT.phy_tag e = t → 0 ≤ i →
     inv fl (ATT.abs_touch i e a) s' → quiet_step s s' → Q i s') →
  wp (on_att (ATT.Lookup t pf)) Q s.
Proof.
  intros Hi Hmiss Hhit. apply wp_zoom. pose proof (iv_att _ _ _ _ Hi) as Hrep.
  destruct (blocks_of (att_ (ctl s)) !! t) as [[st b]|] eqn:E.
  - apply (blocks_of_Some _ _ Hrep) in E as (i&e&He&<-&_).
    eapply ATT.wp_Lookup_hit; [done|done|]. intros t' ps' Hrep' Hsc Hps.
    destruct (tr_same fl a (ATT.abs_touch i e a) s t' ps' Hi) as [Hinv Hq]; try done.
    apply (Hhit i e); try done. by destruct (ATT.rep_live_entry _ _ Hrep _ _ He) as [? _]; lia.
  - pose proof (proj1 (blocks_of_None _ _ Hrep t) E) as Hn.
    eapply ATT.wp_Lookup_miss; [done|done|]. intros ps' Hps. cbn [fst snd].
    replace (set_att_ (att_ (ctl s)) (ctl s)) with (ctl s) by (by destruct (ctl s)). by apply Hmiss.
Qed.

(** A statistic of a live entry is bumped. *)
Lemma wp_sys_stat fl a i e f (Q : unit → Sys St → Prop) s : inv fl a s → ATT.a_live a !! i = Some e →
  (∀ e, ATT.strip (f e) = f (ATT.strip e) ∧ ATT.queue_node (f e) = ATT.queue_node e ∧
        ATT.state (f e) = ATT.state e ∧ ATT.phy_tag (f e) = ATT.phy_tag e ∧
        ATT.mach_base (f e) = ATT.mach_base e) →
  (∀ s', inv fl (ATT.abs_write i (f e) a) s' → quiet_step s s' → Q tt s') →
  wp (on_att (own (ATT.entry_mod i f))) Q s.
Proof.
  intros Hi He Hf HQ. apply wp_zoom, wp_own. destruct (Hf e) as (_&_&Hs&Ht&Hb).
  eapply ATT.wp_entry_mod_live; [exact (iv_att _ _ _ _ Hi)|done|naive_solver|].
  intros t' Hrep Hsc.
  destruct (tr_insert fl fl a _ s Hi i t' (nvm_buffer_ (ctl s)) (dram_buffer_ (ctl s)) (store s)
    (profs s) (ckpt s) Hsc (iv_store _ _ _ _ Hi) Hrep) with (e := e) (e' := f e)
    as [Hinv Hcf]; eauto.
  - eapply region_same; eauto. unfold in_nvm. by rewrite Hs.
  - eapply region_same; eauto. unfold in_dram. by rewrite Hs.
  - destruct (iv_entry _ _ _ _ Hi _ _ He). split; by rewrite ?Ht, ?Hs, ?Hb.
  - replace (is_clean (f e)) with (is_clean e) by (unfold is_clean; by rewrite Hs).
    replace (_ - _ + _) with (mcount is_clean (ATT.a_live a)) by lia. apply (iv_room _ _ _ _ Hi).
  - apply (HQ _ Hinv). split_and!; [|done|done|done]. rewrite Hcf. unfold conf_next. cbn.
    unfold ControllerInv.conf. f_equal. rewrite Hs, Hb. apply insert_id.
    by apply (blocks_of_live _ _ (iv_att _ _ _ _ Hi) i).
Qed.

Lemma wp_sys_IsEmpty fl a st (Q : bool → Sys St → Prop) s : inv fl a s → ATT.state_num st ≤ 3 →
  Q (bool_decide (ATT.qof a st = [])) s → wp (att_IsEmpty st) Q s.
Proof.
  intros Hi Hs HQ. apply wp_zoom, wp_own. eapply ATT.wp_IsEmpty; [exact (iv_att _ _ _ _ Hi)|done|].
  cbn [fst snd]. by rewrite sys_eta.
Qed.

Lemma wp_sys_GetLength fl a st (Q : Z → Sys St → Prop) s : inv fl a s → ATT.state_num st ≤ 3 →
  Q (Z.of_nat (length (ATT.qof a st))) s → wp (on_att (own (ATT.GetLength st))) Q s.
Proof.
  intros Hi Hs HQ. apply wp_zoom, wp_own. eapply ATT.wp_GetLength; [exact (iv_att _ _ _ _ Hi)|done|].
  cbn [fst snd]. by rewrite sys_eta.
Qed.

(** The front of a queue that is not empty is a live entry of its state. *)
Lemma wp_sys_GetFront fl a st (Q : Z → Sys St → Prop) s : inv fl a s →
  st = ATT.CLEAN ∨ st = ATT.LOAN → ATT.qof a st ≠ [] →
  (∀ i e, ATT.a_live a !! i = Some e → ATT.state e = st → Q i s) →
  wp (on_att (own (ATT.GetFront st))) Q s.
Proof.
  intros Hi Hs Hne HQ. pose proof (iv_att _ _ _ _ Hi) as Hrep. apply wp_zoom, wp_own.
  eapply ATT.wp_GetFront; [done|by destruct Hs as [-> | ->]|]. cbn [fst snd]. rewrite sys_eta.
  destruct (ATT.qof a st) as [|i l] eqn:Eq; [done|]. simpl.
  destruct (ATT.rep_queue_live _ _ Hrep st i) as (e&He&Hse).
  { by destruct Hs as [-> | ->]. } { rewrite Eq. set_solver. }
  apply (HQ i e He). destruct Hs as [-> | ->]; by destruct (ATT.state e).
Qed.

Lemma land_block x : 0 ≤ x → Z.land x (bs - 1) = x mod bs.
Proof. intros. apply land_mask, bits_31. Qed.

Lemma wp_sys_Translate fl a addr b (Q : Z → Sys St → Prop) s : inv fl a s → 0 ≤ addr →
  valid b → Q (b + addr mod bs) s → wp (att_Translate addr b) Q s.
Proof.
  intros Hi Ha (Hp&Hb0&Hb1) HQ. apply wp_zoom, wp_own. unfold ATT.Translate. wp_steps.
  pose proof bs_31 as Hbs. pose proof (Z.mod_pos_bound addr bs ltac:(lia)) as Hm.
  rewrite (cg_mask _ _ (iv_geom _ _ _ _ Hi)), !land_block by done.
  apply wp_assert; [|wp_steps].
  - destruct Hp as [q ->]. apply Z.eqb_eq, Z.mod_mul. lia.
  - pose proof (wf_top _ Hc). pose proof (pow2_pos (c_page_bits c)). pose proof (wf_bits _ Hc).
    rewrite u64_small by lia. cbn [fst snd]. by rewrite sys_eta.
Qed.

Definition full_block (addr size : Z) : bool := (addr mod bs =? 0) && (size =? bs).

Lemma wp_sys_FullBlock addr size (Q : bool → Sys St → Prop) s :
  ctl_geom c (ctl s) → 0 ≤ addr → Q (full_block addr size) s → wp (FullBlock addr size) Q s.
Proof.
  intros Hg Ha HQ. unfold FullBlock. wp_step. apply wp_block_size; [done|]. wp_step.
  pose proof bs_31. rewrite u64_small by lia. by rewrite land_block.
Qed.

End Ops.
