(* ===== verification/ControllerStore.v ===== *)
(** The accesses of the processor: [LoadAddr], [StoreAddr] with its two halves
    [NVMStore] and [DRAMStore], and [Probe]. A load leaves every byte as it is and
    returns where the current data are; a store may move blocks but changes no byte
    outside the ones that are stored, and returns a place that may be written. *)

From S2P Require Import Prelude Profiler StdAlgo MemStore PersistSpec PersistFacts MigrationSpec.
From S2P Require Import AddrTransController ControllerInv ControllerOps.
#[global] Open Scope Z_scope.

Section Store.
Context (c : Config) (Hc : wf_config c) {St : Type} `{!MemStore St, !MemStoreLaws St c}.
Context `{HO : HashOrder, HA : HeapAlgo}.
Implicit Types s : Sys St.

Abbreviation bs := (c_bsize c).
Abbreviation conf := (conf c).
Abbreviation inv := (inv c).

#[local] Hint Resolve VB.vb_next_refl VB.vb_next_move : core.
#[local] Hint Resolve nslot_inj dslot_inj : core.
#[local] Hint Resolve iv_geom iv_att iv_nvm iv_dram iv_store iv_rn iv_rd iv_dback iv_b1 : core.

(** ** Statistics of the epoch *)

Definition counts_writes (st : ATT.ATTState) : bool :=
  match st with ATT.DIRTY | ATT.HIDDEN | ATT.TEMP | ATT.STAINED => true | _ => false end.

(** Only blocks in use that may hold new data have been counted as written. *)
Definition stats_ok (a : ATT.AbsATT) : Prop := ∀ i e,
  zlookup (ATT.a_ents a) i = Some e → ATT.epoch_writes e ≠ 0 →
  ATT.a_live a !! i = Some e ∧ counts_writes (ATT.state e) = true.

Definition mig_ready (m : Mig.MigrationController) : Prop :=
  mig_stats m ∧ Mig.nvm_pages_ m = ∅ ∧ Mig.dram_heap_ m = [] ∧ Mig.nvm_heap_ m = [].

(** What [MigratePages] expects to find. *)
Definition ready (a : ATT.AbsATT) s : Prop := stats_ok a ∧ mig_ready (migrator_ (ctl s)).

Lemma ready_keeps a a' s s' : ControllerOps.keeps s s' → (stats_ok a → stats_ok a') →
  ready a s → ready a' s'.
Proof. intros (E&_) Hst [??]. split; [auto|]. by rewrite E. Qed.

Lemma stats_insert a i e live' q' :
  stats_ok a → live' = <[i := e]> (ATT.a_live a) →
  (ATT.epoch_writes e ≠ 0 → counts_writes (ATT.state e) = true) →
  stats_ok (ATT.MkAbsATT (zinsert i e (ATT.a_ents a)) live' q').
Proof.
  intros Hs -> He j e' [[-> ->]|[Hne Hj]]%zlookup_insert_Some Hw; simpl.
  - rewrite lookup_insert_eq. auto.
  - rewrite lookup_insert_ne by done. by apply Hs.
Qed.

Lemma stats_delete a i e live' q' :
  stats_ok a → live' = delete i (ATT.a_live a) → ATT.epoch_writes e = 0 →
  stats_ok (ATT.MkAbsATT (zinsert i e (ATT.a_ents a)) live' q').
Proof.
  intros Hs -> He j e' [[-> ->]|[Hne Hj]]%zlookup_insert_Some Hw; [done|simpl].
  rewrite lookup_delete_ne by done. by apply Hs.
Qed.

Lemma live_ents t a i e : ATT.att_rep t a → ATT.a_live a !! i = Some e → zlookup (ATT.a_ents a) i = Some e.
Proof. intros Hrep. rewrite (ATT.r_live _ _ Hrep). by case_decide. Qed.

(** An entry moves to a state that counts writes, ... *)
Lemma stats_shift a i e st : stats_ok a → counts_writes st = true → stats_ok (ATT.abs_shift i e st a).
Proof.
  intros Hs Hst. unfold ATT.abs_shift. apply stats_insert; [done| |done].
  by rewrite (proj2 (ATT.state_eqb_neq _ _)) by (by intros ->).
Qed.

(** ... or a clean or lent one becomes free. *)
Lemma stats_free t a i e : ATT.att_rep t a → stats_ok a → ATT.a_live a !! i = Some e →
  counts_writes (ATT.state e) = false → stats_ok (ATT.abs_shift i e ATT.FREE a).
Proof.
  intros Hrep Hs He Hst. unfold ATT.abs_shift. apply stats_delete; [done|done|]. simpl.
  destruct (decide (ATT.epoch_writes e = 0)) as [|Hw]; [done|].
  destruct (Hs i e) as [_ ?]; [by eapply live_ents|done|congruence].
Qed.

Lemma stats_bump a i e : stats_ok a → counts_writes (ATT.state e) = true →
  stats_ok (ATT.abs_write i e a).
Proof. intros Hs He. by apply stats_insert. Qed.

Lemma stats_reads t a i e f : ATT.att_rep t a → stats_ok a → ATT.a_live a !! i = Some e →
  ATT.epoch_writes (f e) = ATT.epoch_writes e → ATT.state (f e) = ATT.state e →
  stats_ok (ATT.abs_write i (f e) a).
Proof.
  intros Hrep Hs He Ew Es. apply stats_insert; [done|done|]. rewrite Ew, Es. intros Hw.
  eapply (Hs i e); [by eapply live_ents|done].
Qed.

Lemma stats_setup t a i l e b tag st : ATT.att_rep t a → stats_ok a → ATT.qof a ATT.FREE = i :: l →
  zlookup (ATT.a_ents a) i = Some e →
  stats_ok (ATT.abs_setup i (ATT.set_mach_base b (ATT.set_phy_tag tag (ATT.set_state st e))) a).
Proof.
  intros Hrep Hs Hq He. apply stats_insert; [done|done|]. simpl. intros Hw.
  destruct (Hs i e He Hw) as [Hl _]. destruct (ATT.rep_not_free _ _ Hrep _ _ Hl). rewrite Hq. set_solver.
Qed.

(** ** Calls to the memory *)

Lemma inv_store fl a s st' ps' l : inv fl a s → st_ok st' → inv fl a (MkSys (ctl s) st' ps' l).
Proof. intros [] ?. by split. Qed.

Lemma tau_store s st' ps' l : (∀ x, content st' x = content (store s) x) →
  cstep c (conf s) LTau (conf (MkSys (ctl s) st' ps' l)).
Proof. intros Hm. by apply (S_tau c (conf s)). Qed.

(** A call that moves no data. *)
Definition tau_step s s' : Prop :=
  cstep c (conf s) LTau (conf s') ∧ ctl s' = ctl s ∧ pf_same (profs s) (profs s') ∧ ckpt s' = ckpt s.

Lemma wp_hook fl a (op : M St unit) (Q : unit → Sys St → Prop) s : inv fl a s →
  (op = OnEpochEnd ∨ op = statsNVMWrites ∨ op = statsDRAMWrites ∨ op = ckDRAMWriteHit ∨
   (∃ st, op = OnATTWriteHit st) ∨ (∃ st, op = OnATTWriteMiss st)) →
  (∀ s', inv fl a s' → tau_step s s' → Q tt s') → wp (on_store op) Q s.
Proof.
  intros Hi Hop HQ. apply wp_zoom. eapply wp_mono; [eapply law_hook; [apply (iv_store _ _ _ _ Hi)|done]|].
  intros [] st' [Hst Hm]. apply HQ; [by apply inv_store|]. split_and!; [by apply tau_store|done..].
Qed.

Lemma wp_charge fl a (op : M St Z) pf {B} (k : M (Sys St) B) (Q : B → Sys St → Prop) s : inv fl a s →
  wp op (λ lat st', 0 < lat < 2 ^ 31 ∧ st_ok st' ∧ ∀ x, content st' x = content (store s) x) (store s) →
  ignore_latency_ (sel pf (profs s)) = false →
  (∀ s', inv fl a s' → tau_step s s' → wp k Q s') →
  wp (lat ← on_store op; on_pf pf (AddLatency lat) ;; k) Q s.
Proof.
  intros Hi Hop Hign HQ. wp_step. apply wp_zoom. eapply wp_mono; [exact Hop|].
  intros lat st' (Hl&Hst&Hm). wp_step. apply wp_zoom. unfold AddLatency. cbn [profs ctl store ckpt].
  repeat wp_step; rewrite ?Hign, ?i32_small by lia.
  - destruct (Z.ltb_spec 0 lat); [done|lia].
  - apply HQ; [by apply inv_store|]. split_and!; [by apply tau_store|done| |done]. by apply pf_same_upd.
Qed.

(** The page table changes without gaining or losing a page. *)
Lemma inv_mig fl a s m' ps' : inv fl a s → mig_ok m' → same_mgeom (migrator_ (ctl s)) m' →
  dom (Mig.entries_ m') = dom (Mig.entries_ (migrator_ (ctl s))) →
  inv fl a (MkSys (set_migrator_ m' (ctl s)) (store s) ps' (ckpt s)).
Proof.
  intros [[]] Hm (E1&_&E3&_&_&E6&E7) Hd. split; cbn; rewrite ?Hd; try done.
  split; cbn; rewrite ?E1, ?E3, ?E6, ?E7; done.
Qed.

Lemma conf_mig s m' ps' : dom (Mig.entries_ m') = dom (Mig.entries_ (migrator_ (ctl s))) →
  conf (MkSys (set_migrator_ m' (ctl s)) (store s) ps' (ckpt s)) = conf s.
Proof. intros Hd. unfold ControllerInv.conf. cbn. by rewrite Hd. Qed.

(** ** Accesses *)

(** The write counter of the page of [addr] can count one more. *)
Definition countable s (addr : Z) : Prop := ∀ e,
  Mig.entries_ (migrator_ (ctl s)) !! page_of c (addr / bs) = Some e → Mig.epoch_writes e < 2 ^ 31 - 1.

(** From [s], with table [a], to [s'], with table [a'], by the steps [ls]; the phase,
    the pages in DRAM and the blocks to write back stay, and with [G] the statistics. *)
Record access {G : Prop} (a a' : ATT.AbsATT) s s' (ls : list label) : Prop := {
  ac_inv : inv false a' s';
  ac_steps : csteps c (conf s) ls (conf s');
  ac_ready : G → ready a s → ready a' s';
  ac_phase : in_checkpointing_ (ctl s') = in_checkpointing_ (ctl s);
  ac_pages : k_pages (conf s') = k_pages (conf s);
  ac_pf : pf_same (profs s) (profs s');
  ac_ckpt : ckpt s' = ckpt s;
}.

Lemma access_refl {G : Prop} a s : inv false a s → access (G := G) a a s s [].
Proof. intros. by split; [|constructor|..]. Qed.

Lemma access_trans {G : Prop} a a1 a2 s s1 s2 ls ls' :
  access (G := G) a a1 s s1 ls → access (G := G) a1 a2 s1 s2 ls' → access (G := G) a a2 s s2 (ls ++ ls').
Proof.
  intros [] []. split; [done|by eapply csteps_app|auto|congruence|congruence|by etrans|congruence].
Qed.

Lemma access_quiet {G : Prop} a a' s s' : inv false a s → inv false a' s' → quiet_step c s s' →
  (stats_ok a → stats_ok a') → access (G := G) a a' s s' [].
Proof.
  intros Hi Hi' (Ec&Hk&El&_) Hst. pose proof Hk as (Em&Eck&Hps).
  split; [done|rewrite Ec; constructor| |done|by rewrite Ec|done|done]. intros _. by eapply ready_keeps.
Qed.

Lemma access_tau {G : Prop} a s s' : inv false a s → inv false a s' → tau_step s s' → access (G := G) a a s s' [LTau].
Proof.
  intros Hi Hi' (Hs&Ec&Hps&El). split; [done|apply csteps_one; [by eapply inv_cinv|done]| |..];
    unfold ready; simpl; by rewrite ?Ec.
Qed.

Lemma access_step {G : Prop} a a' s s' l : inv false a s → inv false a' s' → cstep c (conf s) l (conf s') →
  ControllerOps.keeps s s' → ckpt s' = ckpt s → (stats_ok a → stats_ok a') → access (G := G) a a' s s' [l].
Proof.
  intros Hi Hi' Hs Hk El Hst. pose proof Hk as (Em&Eck&Hps).
  split; [done|apply csteps_one; [by eapply inv_cinv|done]|intros _; by eapply ready_keeps|done| |done|done].
  simpl. by rewrite Em.
Qed.

Lemma access_prof {G : Prop} a s ps' : inv false a s → pf_same (profs s) ps' →
  access (G := G) a a s (MkSys (ctl s) (store s) ps' (ckpt s)) [].
Proof. intros Hi Hps. split; try done; [by apply inv_store; [|apply (iv_store _ _ _ _ Hi)]|constructor]. Qed.

Lemma access_ign {G : Prop} a a' s s' ls pf : access (G := G) a a' s s' ls →
  ignore_latency_ (sel pf (profs s)) = false → ignore_latency_ (sel pf (profs s')) = false.
Proof. intros A H. by rewrite (proj1 (ac_pf _ _ _ _ _ A pf)). Qed.

(** The bound on addresses that keeps machine arithmetic from wrapping. *)
Lemma phy_63 : c_phy_range c + 2 ^ c_page_bits c < 2 ^ 63.
Proof.
  pose proof (wf_top _ Hc). pose proof (wf_att _ Hc). pose proof (bs_pos _ Hc). unfold c_top in *. nia.
Qed.

Lemma entry_valid fl a s i e : inv fl a s → ATT.a_live a !! i = Some e → valid c (ATT.mach_base e).
Proof.
  intros Hi He. pose proof (eo_tag _ _ _ _ (iv_entry _ _ _ _ Hi _ _ He)).
  destruct (inv_place _ _ _ _ _ _ Hi He) as [(_&k&->&?&_)|[(_&d&->&?&_)|(_&->)]];
    [by apply valid_nslot|by apply valid_dslot|by apply valid_home].
Qed.

(** The latency queries for a block in the table are the ones the memory answers. *)
Lemma entry_lat fl a s i e addr : inv fl a s → ATT.a_live a !! i = Some e →
  lat_ok (ATT.mach_base e + addr mod bs) (in_dram e) None.
Proof.
  intros Hi He. pose proof (tag_top _ Hc _ (eo_tag _ _ _ _ (iv_entry _ _ _ _ Hi _ _ He))) as Ht.
  pose proof (Z.mod_pos_bound addr bs (bs_pos _ Hc)). pose proof (phy_nonneg _ Hc). pose proof (wf_att _ Hc).
  destruct (inv_place _ _ _ _ _ _ Hi He) as [(En&k&->&?&_)|[(->&d&->&?&_)|(Es&->)]].
  - destruct (kind_nvm _ En) as [-> _]. apply law_lat_nvm.
    unfold nslot, c_nvm_base, c_dram_base. nia.
  - apply law_lat_dram. unfold dslot, c_top, c_dram_base. nia.
  - unfold in_dram. rewrite Es. apply law_lat_nvm. unfold c_dram_base. nia.
Qed.

Lemma base_live fl a s i e : inv fl a s → ATT.a_live a !! i = Some e →
  base c (conf s) (ATT.phy_tag e) = ATT.mach_base e.
Proof.
  intros Hi He. eapply base_some. cbn. by apply (blocks_of_live _ _ (iv_att _ _ _ _ Hi) i).
Qed.

Lemma base_miss fl a s t : inv fl a s → (∀ i e, ATT.a_live a !! i = Some e → ATT.phy_tag e ≠ t) →
  base c (conf s) t = home c t.
Proof.
  intros Hi Hn. unfold base. cbn. by rewrite (proj2 (blocks_of_None _ _ (iv_att _ _ _ _ Hi) t) Hn).
Qed.

Lemma page_of_addr addr : addr - addr mod 2 ^ c_page_bits c = page_of c (addr / bs).
Proof.
  destruct (addr_split _ Hc addr) as [E Ho]. destruct (bs_page _ Hc) as (q&Hq&Eq).
  unfold page_of. rewrite Eq. pose proof (bs_pos _ Hc). unfold home in *.
  rewrite Z.mul_mod_distr_r by lia. rewrite (Z.mul_comm q), Z.rem_mul_r by lia. lia.
Qed.

(** [LookupPage]: the page's entry, or an entry with a negative index. *)
Lemma wp_sys_LookupPage fl a addr pf (Q : Mig.PTTEntry → Sys St → Prop) s : inv fl a s →
  (∀ ps', pf_same (profs s) ps' → page_of c (addr / bs) ∉ k_pages (conf s) →
     Q Mig.new_PTTEntry (MkSys (ctl s) (store s) ps' (ckpt s))) →
  (∀ ps' e, pf_same (profs s) ps' → page_of c (addr / bs) ∈ k_pages (conf s) →
     Mig.entries_ (migrator_ (ctl s)) !! page_of c (addr / bs) = Some e →
     Mig.mach_base e = page_of c (addr / bs) → 0 ≤ Mig.index e < c_ptt_capacity c →
     Q e (MkSys (ctl s) (store s) ps' (ckpt s))) →
  wp (on_mig (Mig.LookupPage addr pf)) Q s.
Proof.
  intros Hi Hno Hyes. apply wp_zoom, wp_LookupPage. intros ps' Hps. cbn [fst snd]. rewrite mig_eta.
  rewrite (PageAlign_addr _ _ _ (iv_geom _ _ _ _ Hi) (iv_mig _ _ _ _ Hi)).
  rewrite page_of_addr.
  destruct (Mig.entries_ (migrator_ (ctl s)) !! page_of c (addr / bs)) as [e|] eqn:E; simpl.
  - destruct (m_page _ (iv_mig _ _ _ _ Hi) _ _ E) as (_&Hb&Hx).
    destruct (cg_mig _ _ (iv_geom _ _ _ _ Hi)) as (_&_&_&Hcap). rewrite Hcap in Hx.
    apply Hyes; try done. by apply elem_of_dom.
  - apply Hno; [done|]. by apply not_elem_of_dom.
Qed.

(** The page's frame is the page itself, so translation is the identity. *)
Lemma wp_sys_pgTranslate fl a addr b (Q : Z → Sys St → Prop) s : inv fl a s →
  0 ≤ addr < c_phy_range c → b = page_of c (addr / bs) → Q addr s →
  wp (on_mig (own (Mig.Translate addr b))) Q s.
Proof.
  intros Hi Ha -> HQ. pose proof (m_geom _ (iv_mig _ _ _ _ Hi)) as Hmg.
  destruct (cg_mig _ _ (iv_geom _ _ _ _ Hi)) as (_&Hpb&_). pose proof phy_63 as Hp.
  pose proof (wf_bits _ Hc). pose proof (pow2_pos (c_page_bits c)) as Hpp.
  pose proof (Z.mod_pos_bound addr (2 ^ c_page_bits c)) as Hmod.
  apply wp_zoom, wp_own. unfold Mig.Translate. wp_steps.
  rewrite (mg_pmask _ Hmg), Hpb, !land_mask by lia. rewrite <- page_of_addr.
  apply wp_assert.
  - apply Z.eqb_eq. rewrite Zminus_mod, Z.mod_mod, Z.sub_diag by lia. apply Z.mod_0_l. lia.
  - wp_steps. cbn [fst snd]. rewrite Z.sub_add, u64_small by lia. rewrite mig_eta. by destruct s.
Qed.

Lemma wp_page_read fl a addr e (Q : unit → Sys St → Prop) s : inv fl a s →
  Mig.entries_ (migrator_ (ctl s)) !! page_of c (addr / bs) = Some e →
  Mig.mach_base e = page_of c (addr / bs) →
  (∀ s', inv fl a s' → conf s' = conf s → (ready a s → ready a s') →
     in_checkpointing_ (ctl s') = in_checkpointing_ (ctl s) → profs s' = profs s →
     ckpt s' = ckpt s → store s' = store s → Q tt s') →
  wp (on_mig (own (Mig.AddDRAMPageRead (Mig.mach_base e)))) Q s.
Proof.
  intros Hi He Hb HQ. pose proof (iv_mig _ _ _ _ Hi) as Hm. apply wp_zoom, wp_own.
  unfold Mig.AddDRAMPageRead. wp_steps. rewrite Hb.
  destruct (m_page _ Hm _ _ He) as (Hp&_). rewrite PageAlign_page by (done || apply (m_geom _ Hm)).
  eapply wp_page_mod; [done|]. cbn [fst snd].
  assert (dom (alter (λ e, Mig.set_epoch_reads (i32 (Mig.epoch_reads e + 1)) e) (page_of c (addr / bs))
    (Mig.entries_ (migrator_ (ctl s)))) = dom (Mig.entries_ (migrator_ (ctl s)))) as Hd
    by apply dom_alter_L.
  apply HQ; try done.
  - apply inv_mig; [done|by eapply mig_ok_bump|done|done].
  - by apply conf_mig.
  - intros (Hs&Hst&Hr). split; [done|]. split; [|done]. intros p e'.
    cbn. intros [(<-&e0&He0&->)|[_ ?]]%lookup_alter_Some; [|by apply (Hst p)]. by apply (Hst _ _ He0).
Qed.

(** Queries for the home of a block. *)
Lemma home_lat addr : 0 ≤ addr < c_phy_range c → lat_ok addr false None.
Proof.
  intros. apply law_lat_nvm. pose proof (wf_att _ Hc). pose proof (bs_pos _ Hc).
  unfold c_dram_base. nia.
Qed.

Lemma wp_read_lat {G : Prop} a addr d p pf {B} (k : M (Sys St) B) (Q : B → Sys St → Prop) a0 s0 s ls :
  access (G := G) a0 a s0 s ls → ignore_latency_ (sel pf (profs s0)) = false → lat_ok addr d p →
  (∀ s', access (G := G) a0 a s0 s' (ls ++ [LTau]) → wp k Q s') →
  wp (lat ← on_store (GetReadLatency addr d p); on_pf pf (AddLatency lat) ;; k) Q s.
Proof.
  intros A Hign Hl HQ. pose proof (ac_inv _ _ _ _ _ A) as Hi.
  eapply wp_charge; [done|apply law_read_latency; [apply (iv_store _ _ _ _ Hi)|done]|by eapply access_ign|].
  intros s' Hi' Ht. apply HQ. eapply access_trans; [done|]. by apply access_tau.
Qed.

Lemma wp_LoadAddr a addr pf (Q : Z → Sys St → Prop) s :
  inv false a s → 0 ≤ addr < c_phy_range c → ignore_latency_ (sel pf (profs s)) = false →
  (∀ a' s' ls, access (G := True) a a' s s' ls → Forall (λ l, l = LTau) ls →
     Q (base c (conf s) (addr / bs) + addr mod bs) s') →
  wp (LoadAddr addr pf) Q s.
Proof.
  intros Hi Ha Hign HQ. pose proof (iv_geom _ _ _ _ Hi) as Hg. pose proof phy_63 as Hphy.
  pose proof (addr_split _ Hc addr) as [Ea Hm]. pose proof (pow2_pos (c_page_bits c)) as Hpp.
  pose proof (wf_bits _ Hc) as Hbits.
  unfold LoadAddr. wp_step. apply (wp_ToTag c Hc); [done|lia|]. wp_step.
  eapply wp_sys_Lookup; [done|..].
  - intros ps1 Hmiss Hps1. simpl. rewrite (base_miss _ _ _ _ Hi Hmiss), <- Ea in HQ.
    pose proof (access_prof (G := True) a s ps1 Hi Hps1) as A1.
    wp_step. eapply wp_sys_LookupPage; [apply (ac_inv _ _ _ _ _ A1)|..].
    + intros ps2 Hps2 _. simpl.
      pose proof (access_trans _ _ _ _ _ _ _ _ A1 (access_prof a _ ps2 (ac_inv _ _ _ _ _ A1) Hps2)) as A2.
      eapply wp_read_lat; [exact A2|done|by apply home_lat|]. intros s3 A3. wp_step.
      eapply HQ; [exact A3|by repeat constructor].
    + intros ps2 e Hps2 Hp He Hb Hx. cbn [ctl migrator_] in *.
      pose proof (access_trans _ _ _ _ _ _ _ _ A1 (access_prof a _ ps2 (ac_inv _ _ _ _ _ A1) Hps2)) as A2.
      destruct (Z.ltb_spec (Mig.index e) 0); [lia|]. wp_step.
      eapply wp_page_read; [apply (ac_inv _ _ _ _ _ A2)|done|done|].
      intros s3 Hi3 Ec3 Hr3 Eck3 Eps3 El3 Est3.
      assert (access (G := True) a a s s3 []) as A3.
      { destruct A2 as [_ ? ? ? ? ? ?]. split; [done|by rewrite Ec3|auto|by rewrite Eck3|by rewrite Ec3|
          by rewrite Eps3|by rewrite El3]. }
      wp_step. eapply wp_sys_pgTranslate; [done|done|exact Hb|].
      eapply wp_read_lat; [exact A3|done|by apply law_lat_page|]. intros s4 A4. wp_step.
      eapply HQ; [exact A4|by repeat constructor].
  - intros i e s1 He Ht Hi0 Hi1 Hq1. destruct (Z.eqb_spec i (- EINVAL)); [unfold EINVAL in *; lia|].
    simpl. pose proof (access_quiet (G := True) _ _ _ _ Hi Hi1 Hq1 ltac:(done)) as A1. subst.
    rewrite <- Ht, (base_live _ _ _ _ _ Hi He) in HQ.
    wp_step. eapply wp_sys_At; [apply (iv_att _ _ _ _ Hi1)|exact He|]. intros e0 Es0 _ Eb0.
    wp_step. eapply wp_sys_stat; [done|exact Hi1|exact He|done|]. intros s2 Hi2 Hq2.
    eassert (access (G := True) a _ s s2 []) as A2.
    { apply (access_trans _ _ _ _ _ _ _ _ A1). apply (access_quiet _ _ _ _ Hi1 Hi2 Hq2).
      intros Hs. eapply (stats_reads _ _ _ e (λ e, ATT.set_epoch_reads (i32 (ATT.epoch_reads e + 1)) e));
        [apply (iv_att _ _ _ _ Hi1)|done|done|done|done]. }
    wp_step. rewrite Eb0. eapply wp_sys_Translate; [done|exact Hi2|lia|apply (entry_valid _ _ _ _ _ Hi He)|].
    replace (_ || _ || _) with (in_dram e) by (unfold in_dram; rewrite Es0; by destruct (ATT.state e)).
    eapply wp_read_lat; [exact A2|done|by eapply (entry_lat _ _ _ _ _ _ Hi He)|]. intros s3 A3. wp_step.
    eapply HQ; [exact A3|by repeat constructor].
Qed.

(** ** Stores *)

(** The steps a store takes; they touch no byte outside [[addr, addr + size)]. *)
Definition store_label (l : label) : bool :=
  match l with
  | LHideClean _ _ | LResetClean _ _ | LFreeClean _ | LDirtyStained _ _ | LFreeLoan _ _
  | LHideTemp _ _ | LSetup _ _ | LTau => true
  | _ => false
  end.
Definition store_step (addr size : Z) (l : label) : Prop :=
  store_label l = true ∧ ∀ x, touches c l x → addr ≤ x < addr + size.

Lemma full_block_range addr size x : full_block c addr size = true → x / bs = addr / bs →
  addr ≤ x < addr + size.
Proof.
  unfold full_block. rewrite andb_true_iff, !Z.eqb_eq. intros [E ->] Ex.
  pose proof (addr_split _ Hc addr). pose proof (addr_split _ Hc x). rewrite Ex in *. lia.
Qed.

(** A step that leaves the data of the stored block behind. *)
Lemma store_step_block addr size l : store_label l = true →
  lost l = (if negb (full_block c addr size) then None else Some (addr / bs)) →
  store_step addr size l.
Proof.
  intros Hl E. split; [done|]. intros x Hx.
  assert (lost l = Some (x / bs)) as Hx' by (by destruct l). rewrite Hx' in E.
  destruct (full_block c addr size) eqn:Ef; [|done]. apply full_block_range; [done|].
  simpl in E. congruence.
Qed.

Lemma store_step_none addr size l : store_label l = true → lost l = None → store_step addr size l.
Proof.
  intros Hl E. split; [done|]. intros x Hx.
  assert (lost l = Some (x / bs)) as Hx' by (by destruct l). congruence.
Qed.

(** Recognises the calls that only report. *)
Ltac hook := solve [auto 10 | do 4 right; left; eauto | do 5 right; eauto].

(** A store under way, from [s0] with table [a0]. *)
Definition storing addr size a0 a s0 s : Prop :=
  ∃ ls, access (G := countable s0 addr) a0 a s0 s ls ∧ Forall (store_step addr size) ls.

Lemma storing_inv addr size a0 a s0 s : storing addr size a0 a s0 s → inv false a s.
Proof. intros (ls&A&_). apply (ac_inv _ _ _ _ _ A). Qed.

Lemma storing_ck addr size a0 a s0 s : storing addr size a0 a s0 s →
  in_checkpointing_ (ctl s) = in_checkpointing_ (ctl s0).
Proof. intros (ls&A&_). apply (ac_phase _ _ _ _ _ A). Qed.

Lemma storing_pages addr size a0 a s0 s : storing addr size a0 a s0 s →
  k_pages (conf s) = k_pages (conf s0).
Proof. intros (ls&A&_). apply (ac_pages _ _ _ _ _ A). Qed.

Lemma storing_quiet addr size a0 a a' s0 s s' : storing addr size a0 a s0 s → inv false a' s' →
  quiet_step c s s' → (stats_ok a → stats_ok a') → storing addr size a0 a' s0 s'.
Proof.
  intros (ls&A&Hls) Hi' Hq Hs. exists (ls ++ []). split; [|by rewrite app_nil_r].
  eapply access_trans; [done|]. by apply access_quiet; [apply (ac_inv _ _ _ _ _ A)|..].
Qed.

Lemma storing_tau addr size a0 a s0 s s' : storing addr size a0 a s0 s → inv false a s' →
  tau_step s s' → storing addr size a0 a s0 s'.
Proof.
  intros (ls&A&Hls) Hi' Ht. exists (ls ++ [LTau]). split.
  - eapply access_trans; [done|]. by apply access_tau; [apply (ac_inv _ _ _ _ _ A)|..].
  - apply Forall_app. split; [done|]. constructor; [by apply store_step_none|constructor].
Qed.

Lemma storing_step addr size a0 a a' s0 s s' l : storing addr size a0 a s0 s → inv false a' s' →
  cstep c (conf s) l (conf s') → ControllerOps.keeps s s' → ckpt s' = ckpt s →
  (stats_ok a → stats_ok a') → store_step addr size l → storing addr size a0 a' s0 s'.
Proof.
  intros (ls&A&Hls) Hi' Hs Hk El Hst Hl. exists (ls ++ [l]). split.
  - eapply access_trans; [done|]. by apply access_step; [apply (ac_inv _ _ _ _ _ A)|..].
  - apply Forall_app. split; [done|]. by constructor; [|constructor].
Qed.

Lemma storing_hook addr size a0 a s0 op (Q : unit → Sys St → Prop) s : storing addr size a0 a s0 s →
  (op = OnEpochEnd ∨ op = statsNVMWrites ∨ op = statsDRAMWrites ∨ op = ckDRAMWriteHit ∨
   (∃ st, op = OnATTWriteHit st) ∨ (∃ st, op = OnATTWriteMiss st)) →
  (∀ s', storing addr size a0 a s0 s' → Q tt s') → wp (on_store op) Q s.
Proof.
  intros A Hop HQ. eapply wp_hook; [by eapply storing_inv|done|]. intros s' Hi' Ht. apply HQ.
  by eapply storing_tau.
Qed.

(** The entry that receives the store: it holds block [t] and may be written in
    place, in the DRAM buffer exactly while a checkpoint is written. *)
Definition target (a : ATT.AbsATT) (ck : bool) (t i m : Z) : Prop := ∃ e,
  ATT.a_live a !! i = Some e ∧ ATT.phy_tag e = t ∧ ATT.mach_base e = m ∧
  counts_writes (ATT.state e) = true ∧ in_dram e = ck.

Lemma wp_sys_ref fl a i e (Q : ATT.ATTEntry → Sys St → Prop) s : inv fl a s →
  ATT.a_live a !! i = Some e →
  (∀ e0, ATT.mach_base e0 = ATT.mach_base e → ATT.state e0 = ATT.state e → Q e0 s) →
  wp (att_ref i) Q s.
Proof.
  intros Hi He HQ. apply wp_zoom, wp_own.
  destruct (ATT.rep_live_entry _ _ (iv_att _ _ _ _ Hi) _ _ He) as (_&e0&He0&->).
  eapply ATT.wp_entry_at; [done|]. cbn [fst snd]. rewrite sys_eta. by apply HQ.
Qed.

Section Halves.
Context (addr size : Z) (Ha : 0 ≤ addr < c_phy_range c) (pf : pfref).
Context (a0 : ATT.AbsATT) (s0 : Sys St).

Abbreviation storing := (storing addr size).

Lemma wp_NVMStore_hit_running a i e (Q : Z * Z → Sys St → Prop) s : storing a0 a s0 s →
  in_checkpointing_ (ctl s) = false → page_of c (addr / bs) ∉ k_pages (conf s) →
  ATT.a_live a !! i = Some e → ATT.phy_tag e = addr / bs →
  (∀ a' s' m, storing a0 a' s0 s' → target a' false (addr / bs) i m →
     Q (i, m + addr mod bs) s') →
  wp (NVMStore_hit_running i addr size pf) Q s.
Proof.
  intros A Hck Hp He Ht HQ. pose proof (storing_inv _ _ _ _ _ _ A) as Hi.
  pose proof (iv_entry _ _ _ _ Hi _ _ He) as Heo. pose proof (eo_tag _ _ _ _ Heo) as Htok.
  pose proof (proj1 (ATT.r_state _ _ (iv_att _ _ _ _ Hi) _ _ He)) as Hnf.
  assert (ATT.state e ≠ ATT.LOAN) as Hnl.
  { rewrite (eo_page _ _ _ _ Heo), Ht. done. }
  unfold NVMStore_hit_running. wp_step.
  eapply wp_sys_At; [apply (iv_att _ _ _ _ Hi)|done|]. intros e0 Es0 _ Eb0. wp_step.
  eapply storing_hook; [done|hook|]. intros s1 A1. rewrite Es0, Eb0. clear e0 Es0 Eb0.
  pose proof (storing_inv _ _ _ _ _ _ A1) as Hi1.
  assert (in_checkpointing_ (ctl s1) = false) as Hck1.
  { rewrite (storing_ck _ _ _ _ _ _ A1), <- (storing_ck _ _ _ _ _ _ A). done. }
  wp_step. apply (wp_sys_FullBlock c Hc); [apply (iv_geom _ _ _ _ Hi1)|lia|]. wp_step.
  destruct (ATT.state e) eqn:Es; try done.
  - wp_step. eapply (wp_HideClean c Hc); [done..|]. intros s2 Hi2 Hs2 Hk2 El2. wp_steps.
    rewrite (proj1 (addr_split _ Hc addr)) at 1.
    eapply HQ; [eapply storing_step; [exact A1|done|done|done|done|by intros; apply stats_shift|]|].
    + apply store_step_block; [done|]. rewrite Ht. by destruct (full_block c addr size).
    + eexists. rewrite abs_shift_live, lookup_insert_eq by done. rewrite <- Ht at 2. done.
  - eapply (wp_sys_Translate c Hc); [exact Hi1|lia|by eapply entry_valid|]. wp_steps.
    eapply HQ; [exact A1|]. eexists. unfold in_dram. by rewrite Es.
  - eapply (wp_sys_Translate c Hc); [exact Hi1|lia|by eapply entry_valid|]. wp_steps.
    eapply HQ; [exact A1|]. eexists. unfold in_dram. by rewrite Es.
  - wp_step. eapply (wp_HideTemp c Hc); [done..|]. intros s2 Hi2 Hs2 Hk2 El2.
    rewrite andb_false_r, app_nil_r in El2. wp_step.
    eapply wp_sys_ref; [exact Hi2|by rewrite abs_shift_live, lookup_insert_eq|]. intros e1 -> _. simpl.
    eapply (wp_sys_Translate c Hc); [exact Hi2|lia|by apply valid_home|]. wp_steps.
    eapply HQ; [eapply storing_step; [exact A1|done|done|done|done|by intros; apply stats_shift|]|].
    + apply store_step_block; [done|]. rewrite Ht. by destruct (full_block c addr size).
    + eexists. by rewrite abs_shift_live, lookup_insert_eq.
  - wp_step. eapply (wp_DirtyStained c Hc); [done..|]. intros n s2 Hn Hi2 Hs2 Hk2 El2.
    rewrite andb_false_r, app_nil_r in El2.
    eapply (wp_sys_Translate c Hc); [exact Hi2|lia|by apply valid_nslot|]. wp_steps.
    eapply HQ; [eapply storing_step; [exact A1|done|done|done|done|by intros; apply stats_shift|]|].
    + apply store_step_block; [done|]. rewrite Ht. by destruct (full_block c addr size).
    + eexists. by rewrite abs_shift_live, lookup_insert_eq.
Qed.

Lemma wp_NVMStore_hit_ckpt a i e (Q : Z * Z → Sys St → Prop) s : storing a0 a s0 s →
  in_checkpointing_ (ctl s) = true → page_of c (addr / bs) ∉ k_pages (conf s) →
  ATT.a_live a !! i = Some e → ATT.phy_tag e = addr / bs →
  (∀ a' s' m, storing a0 a' s0 s' → target a' true (addr / bs) i m →
     Q (i, m + addr mod bs) s') →
  wp (NVMStore_hit_ckpt i addr size pf) Q s.
Proof.
  intros A Hck Hp He Ht HQ. pose proof (storing_inv _ _ _ _ _ _ A) as Hi.
  pose proof (iv_entry _ _ _ _ Hi _ _ He) as Heo.
  assert (ATT.state e ≠ ATT.LOAN) as Hnl.
  { rewrite (eo_page _ _ _ _ Heo), Ht. done. }
  pose proof (eo_ck _ _ _ _ Heo Hck) as Hcks.
  unfold NVMStore_hit_ckpt. wp_step.
  eapply wp_sys_At; [apply (iv_att _ _ _ _ Hi)|done|]. intros e0 Es0 _ Eb0. wp_step.
  eapply storing_hook; [done|hook|]. intros s1 A1. rewrite Es0, Eb0. clear e0 Es0 Eb0.
  pose proof (storing_inv _ _ _ _ _ _ A1) as Hi1.
  assert (in_checkpointing_ (ctl s1) = true) as Hck1.
  { rewrite (storing_ck _ _ _ _ _ _ A1), <- (storing_ck _ _ _ _ _ _ A). done. }
  wp_step. destruct (ATT.state e) eqn:Es; try naive_solver; simpl.
  - wp_step. apply (wp_sys_FullBlock c Hc); [apply (iv_geom _ _ _ _ Hi1)|lia|]. wp_step.
    eapply (wp_ResetClean c Hc); [done..|]. intros d s2 Hd Hi2 Hs2 Hk2 El2.
    eapply (wp_sys_Translate c Hc); [exact Hi2|lia|by apply valid_dslot|]. wp_steps.
    eapply HQ; [eapply storing_step; [exact A1|done|done|done|done|by intros; apply stats_shift|]|].
    + apply store_step_block; [done|]. rewrite Ht. by destruct (full_block c addr size).
    + eexists. by rewrite abs_shift_live, lookup_insert_eq.
  - eapply (wp_sys_Translate c Hc); [exact Hi1|lia|by eapply entry_valid|]. wp_steps.
    eapply HQ; [exact A1|]. eexists. unfold in_dram. by rewrite Es.
  - eapply (wp_sys_Translate c Hc); [exact Hi1|lia|by eapply entry_valid|]. wp_steps.
    eapply HQ; [exact A1|]. eexists. unfold in_dram. by rewrite Es.
Qed.

(** ** A new entry *)

Definition unmapped (a : ATT.AbsATT) (t : Z) : Prop :=
  ∀ i e, ATT.a_live a !! i = Some e → ATT.phy_tag e ≠ t.

Lemma freed_unmapped a i e t : unmapped a t → unmapped (ATT.abs_shift i e ATT.FREE a) t.
Proof. intros Hu j e'. rewrite abs_shift_gone. intros [_ ?]%lookup_delete_Some. by eapply Hu. Qed.

Lemma freed_front a i e : ATT.qof (ATT.abs_shift i e ATT.FREE a) ATT.FREE ≠ [].
Proof.
  unfold ATT.qof, ATT.abs_shift, ATT.qmove. cbn [ATT.a_q]. rewrite ATT.qset_eq.
  intros E%(f_equal length). rewrite length_app in E. simpl in E. lia.
Qed.

Lemma wp_Setup_raw a st b (mv : bool) (Q : Z → Sys St → Prop) s :
  ctl_geom c (ctl s) → ATT.att_rep (att_ (ctl s)) a → st_ok (store s) →
  st = ATT.DIRTY ∨ st = ATT.STAINED ∨ st = ATT.LOAN → valid c b → b ≠ home c (addr / bs) →
  unmapped a (addr / bs) → ATT.qof a ATT.FREE ≠ [] →
  (∀ i e t' st' ps', ATT.a_live a !! i = None → ATT.phy_tag e = addr / bs →
     ATT.state e = st → ATT.mach_base e = b → (stats_ok a → stats_ok (ATT.abs_setup i e a)) →
     ATT.att_rep t' (ATT.abs_setup i e a) → ATT.same_const (att_ (ctl s)) t' → st_ok st' →
     moved c mv b (home c (addr / bs)) (content (store s)) (content st') →
     pf_same (profs s) ps' → Q i (MkSys (set_att_ t' (ctl s)) st' ps' (ckpt s))) →
  wp (Setup addr b st mv pf) Q s.
Proof.
  intros Hg Hrep Hst Hs Hb Hne Hu Hf HQ. pose proof phy_63 as Hphy.
  pose proof (pow2_pos (c_page_bits c)). pose proof (wf_bits _ Hc).
  pose proof (tag_ok_addr _ Hc _ Ha) as Ht.
  destruct (ATT.qof a ATT.FREE) as [|i l] eqn:Eq; [done|].
  assert (i ∈ ATT.qof a ATT.FREE) as Hif by (rewrite Eq; set_solver).
  assert (0 ≤ i < ATT.length_ (att_ (ctl s))) as Hir.
  { apply (ATT.r_cover _ _ Hrep). eexists. split; [apply ATT.StateIndex_range|done]. }
  destruct (ATT.rep_entry _ _ Hrep i Hir) as (e0&_&He0).
  unfold Setup. wp_step. apply wp_assert; [by destruct Hs as [-> |[-> | ->]]|].
  wp_step. apply (wp_ToTag c Hc); [done|lia|]. wp_step.
  assert (wp (if mv then src ← ToAddr (addr / bs); CopyBlockIntra b src pf false else mret tt)
    (λ _ s', ∃ st' ps', s' = MkSys (ctl s) st' ps' (ckpt s) ∧ st_ok st' ∧
       moved c mv b (home c (addr / bs)) (content (store s)) (content st') ∧
       pf_same (profs s) ps') s) as Hmove.
  { destruct mv.
    - wp_step. apply (wp_ToAddr c Hc); [done|done|].
      apply (wp_CopyBlockIntra c Hc); [done|done|done|by apply valid_home|done|].
      intros st' ps' ???. rewrite app_nil_r. eauto 10.
    - apply wp_ret. exists (store s), (profs s). by destruct s. }
  eapply wp_mono; [exact Hmove|]. intros _ s1 (st'&ps1&->&Hst'&Hm&Hps1). apply wp_zoom.
  eapply ATT.wp_att_Setup; [exact Hrep|done|exact He0|by destruct Hs as [-> |[-> | ->]]|done|].
  intros t' ps2 Hrep' Hsc Hps2. apply (HQ i _ t' st' ps2) in Hrep'; try done.
  - rewrite (ATT.r_live _ _ Hrep). by rewrite decide_True.
  - intros. by eapply stats_setup.
  - by etrans.
Qed.

(** Claiming a slot and setting up the entry, while running ... *)
Lemma wp_new_nvm a {B} (k : Z → Z → M (Sys St) B) (Q : B → Sys St → Prop) s : storing a0 a s0 s →
  in_checkpointing_ (ctl s) = false → page_of c (addr / bs) ∉ k_pages (conf s) →
  unmapped a (addr / bs) → ATT.qof a ATT.FREE ≠ [] →
  (∀ a' s' i n, 0 ≤ n < 2 * c_att_len c → storing a0 a' s0 s' →
     target a' false (addr / bs) i (nslot c n) → wp (k i (nslot c n)) Q s') →
  wp (mach_base ← on_nvm (VB.SlotAlloc PfOverlap);
      full ← FullBlock addr size;
      index ← Setup addr mach_base ATT.DIRTY (negb full) pf;
      k index mach_base) Q s.
Proof.
  intros A Hck Hp Hu Hf HQ. pose proof (storing_inv _ _ _ _ _ _ A) as Hi.
  pose proof (iv_geom _ _ _ _ Hi) as Hg. pose proof (tag_ok_addr _ Hc _ Ha) as Ht.
  assert (VB.vset (nvm_buffer_ (ctl s)) VB.FREE ≠ ∅) as Hfree.
  { eapply nvm_free; [done..|]. rewrite <- (cg_len _ _ Hg).
    eapply live_count_free; [apply (iv_att _ _ _ _ Hi)|done]. }
  wp_step. apply wp_zoom, VB.wp_SlotAlloc; [apply (iv_nvm _ _ _ _ Hi)|done|].
  intros n ps1 Hn _ Hps1. rewrite (nvm_slot _ _ _ Hg).
  pose proof (free_nfresh c Hc _ _ _ _ Hi Hn) as Hfn. pose proof (proj1 Hfn) as Hnr.
  assert (n ∉ VB.vset (nvm_buffer_ (ctl s)) VB.IN_USE) as Hnu
    by (eapply free_unused; [apply (iv_nvm _ _ _ _ Hi)|done|done]).
  wp_step. apply (wp_sys_FullBlock c Hc); [by apply geom_nvm|lia|]. wp_step.
  eapply wp_Setup_raw; [by apply geom_nvm|apply (iv_att _ _ _ _ Hi)|apply (iv_store _ _ _ _ Hi)|by left|
    by apply valid_nslot|apply not_symmetry, home_nslot; done || lia|done|done|].
  intros i e t' st' ps2 Hl Et Es Eb Hst Hrep Hsc Hstok Hm Hps2. cbn [ctl store profs ckpt att_ set_nvm_buffer_] in *.
  destruct (tr_new c false false a (ATT.abs_setup i e a) s Hi i t'
    (VB.vmove n VB.FREE VB.IN_USE (nvm_buffer_ (ctl s))) (dram_buffer_ (ctl s)) st' ps2 (ckpt s)
    Hsc Hstok Hrep) with (e' := e) as [Hinv Hcf].
  all: vmove_sets; eauto.
  - eapply (region_add in_nvm); eauto. unfold in_nvm. by rewrite Es.
  - eapply (region_skip in_dram); eauto. unfold in_dram. by rewrite Es.
  - by rewrite Et.
  - split; rewrite ?Et, ?Es, ?Hck; done.
  - destruct (state_kind _ _ Es) as (_&_&->). rewrite Z.add_0_r. apply (iv_room _ _ _ _ Hi).
  - change (wp (k i (nslot c n)) Q (upd_sys t' (VB.vmove n VB.FREE VB.IN_USE (nvm_buffer_ (ctl s)))
      (dram_buffer_ (ctl s)) st' ps2 (ckpt s) s)).
    eapply HQ; [exact Hnr|eapply storing_step; [exact A|exact Hinv| |apply upd_keeps; by etrans|done|done|]|].
    + rewrite Hcf. unfold conf_next. vmove_sets. rewrite Et, Es, Eb.
      apply (S_setup c (conf s) _ ATT.DIRTY); [done| |done| |exact Hm].
      * by apply (blocks_of_None _ _ (iv_att _ _ _ _ Hi)).
      * cbn. rewrite Hck. eauto.
    + apply store_step_block; [done|]. by destruct (full_block c addr size).
    + exists e. cbn. rewrite lookup_insert_eq. destruct (state_kind _ _ Es) as (_&->&_).
      unfold counts_writes. by rewrite Es.
Qed.

(** ... and while a checkpoint is written. *)
Lemma wp_new_dram a st {B} (k : Z → Z → M (Sys St) B) (Q : B → Sys St → Prop) s : storing a0 a s0 s →
  in_checkpointing_ (ctl s) = true → st = ATT.STAINED ∨ st = ATT.LOAN →
  (st = ATT.LOAN ↔ page_of c (addr / bs) ∈ k_pages (conf s)) →
  unmapped a (addr / bs) → ATT.qof a ATT.FREE ≠ [] →
  (∀ a' s' i d e, 0 ≤ d < c_att_len c → storing a0 a' s0 s' → ATT.a_live a' !! i = Some e →
     ATT.phy_tag e = addr / bs → ATT.mach_base e = dslot c d → ATT.state e = st →
     wp (k i (dslot c d)) Q s') →
  wp (mach_base ← on_dram (VB.SlotAlloc PfOverlap);
      full ← FullBlock addr size;
      index ← Setup addr mach_base st (negb full) pf;
      k index mach_base) Q s.
Proof.
  intros A Hck Hst Hp Hu Hf HQ. pose proof (storing_inv _ _ _ _ _ _ A) as Hi.
  pose proof (iv_geom _ _ _ _ Hi) as Hg. pose proof (tag_ok_addr _ Hc _ Ha) as Ht.
  assert (VB.vset (dram_buffer_ (ctl s)) VB.FREE ≠ ∅) as Hfree.
  { eapply dram_free; [done|]. rewrite <- (cg_len _ _ Hg). eapply live_count_free; eauto. }
  wp_step. apply wp_zoom, VB.wp_SlotAlloc; [eauto|done|].
  intros d ps1 Hd _ Hps1. rewrite (dram_slot _ _ _ Hg).
  pose proof (free_dfresh c Hc _ _ _ _ Hi Hd) as Hfd. pose proof (proj1 Hfd) as Hdr.
  assert (d ∉ VB.vset (dram_buffer_ (ctl s)) VB.IN_USE) as Hdu by (eapply free_unused; eauto).
  wp_step. apply (wp_sys_FullBlock c Hc); [by apply geom_dram|lia|]. wp_step.
  eapply wp_Setup_raw; [by apply geom_dram|apply (iv_att _ _ _ _ Hi)|apply (iv_store _ _ _ _ Hi)|
    by destruct Hst as [-> | ->]; auto|by apply valid_dslot|apply not_symmetry, home_dslot; done || lia|done|done|].
  intros i e t' st' ps2 Hl Et Es Eb Hsts Hrep Hsc Hstok Hm Hps2. cbn [ctl store profs ckpt att_ set_dram_buffer_] in *.
  destruct (tr_new c false false a (ATT.abs_setup i e a) s Hi i t' (nvm_buffer_ (ctl s))
    (VB.vmove d VB.FREE VB.IN_USE (dram_buffer_ (ctl s))) st' ps2 (ckpt s)
    Hsc Hstok Hrep) with (e' := e) as [Hinv Hcf]; vmove_sets; eauto.
  - eapply (region_skip in_nvm); eauto. unfold in_nvm. by destruct Hst as [-> | ->]; rewrite Es.
  - eapply (region_add in_dram); eauto. unfold in_dram. by destruct Hst as [-> | ->]; rewrite Es.
  - by rewrite Et.
  - split; rewrite ?Et, ?Es; try done; by destruct Hst as [-> | ->]; auto.
  - destruct (state_kind _ _ Es) as (_&_&->). replace (_ + _) with (mcount is_clean (ATT.a_live a)) by
      (destruct Hst as [-> | ->]; simpl; lia). apply (iv_room _ _ _ _ Hi).
  - change (wp (k i (dslot c d)) Q (upd_sys t' (nvm_buffer_ (ctl s))
      (VB.vmove d VB.FREE VB.IN_USE (dram_buffer_ (ctl s))) st' ps2 (ckpt s) s)).
    eapply (HQ _ _ i d e Hdr); [eapply storing_step; [exact A|exact Hinv| |apply upd_keeps; by etrans|done|done|]| |done..].
    + rewrite Hcf. unfold conf_next. rewrite Et, Es, Eb.
      apply (S_setup c (conf s) _ st); [done| |done| |exact Hm].
      * by apply (blocks_of_None _ _ (iv_att _ _ _ _ Hi)).
      * cbn. rewrite Hck. eauto.
    + apply store_step_block; [done|]. by destruct (full_block c addr size).
    + cbn. by rewrite lookup_insert_eq.
Qed.

(** ** Making room *)

(** There is an entry to take, or one that can be freed. *)
Definition has_room (a : ATT.AbsATT) (ck : bool) : Prop :=
  ATT.qof a ATT.FREE ≠ [] ∨ ATT.qof a ATT.CLEAN ≠ [] ∨ (ck = false ∧ ATT.qof a ATT.LOAN ≠ []).

(** Evicting an entry leaves one to take. *)
Definition evicted (a0 : ATT.AbsATT) (s0 : Sys St) (Q : unit → Sys St → Prop) : Prop :=
  ∀ a' s', storing a0 a' s0 s' → unmapped a' (addr / bs) → ATT.qof a' ATT.FREE ≠ [] → Q tt s'.

Lemma wp_evict_clean a i e (Q : unit → Sys St → Prop) s : storing a0 a s0 s →
  unmapped a (addr / bs) → ATT.a_live a !! i = Some e → ATT.state e = ATT.CLEAN →
  evicted a0 s0 Q → wp (FreeClean i pf) Q s.
Proof.
  intros A Hu He Es HQ. pose proof (storing_inv _ _ _ _ _ _ A) as Hi.
  eapply (wp_FreeClean c Hc); [done..|]. intros s' Hi' Hs Hk El.
  apply (HQ (ATT.abs_shift i e ATT.FREE a)); [|by apply freed_unmapped|apply freed_front].
  eapply storing_step; [exact A|done|done|done|done| |by apply store_step_none].
  intros. eapply stats_free; [apply (iv_att _ _ _ _ Hi)|done|done|by rewrite Es].
Qed.

Lemma wp_evict_loan a i e (Q : unit → Sys St → Prop) s : storing a0 a s0 s →
  in_checkpointing_ (ctl s) = false →
  unmapped a (addr / bs) → ATT.a_live a !! i = Some e → ATT.state e = ATT.LOAN →
  evicted a0 s0 Q → wp (FreeLoan i true pf false) Q s.
Proof.
  intros A Hck Hu He Es HQ. pose proof (storing_inv _ _ _ _ _ _ A) as Hi.
  eapply (wp_FreeLoan c Hc); [done..|]. intros s' Hi' Hs Hk El. rewrite app_nil_r in El.
  apply (HQ (ATT.abs_shift i e ATT.FREE a)); [|by apply freed_unmapped|apply freed_front].
  eapply storing_step; [exact A|done|done|done|done| |by apply store_step_none].
  intros. eapply stats_free; [apply (iv_att _ _ _ _ Hi)|done|done|by rewrite Es].
Qed.

(** The first half of a store that misses while a checkpoint is written. *)
Lemma wp_room_ckpt a (site : string) st (Q : unit → Sys St → Prop) s : storing a0 a s0 s →
  unmapped a (addr / bs) → has_room a true → evicted a0 s0 Q →
  wp (ef ← att_IsEmpty ATT.FREE;
      if (ef : bool) then
        ec ← att_IsEmpty ATT.CLEAN;
        assert_ site (negb ec) ;;
        front ← on_att (own (ATT.GetFront ATT.CLEAN));
        FreeClean front pf ;;
        on_store (OnATTWriteMiss st)
      else on_store (OnATTWriteHit st)) Q s.
Proof.
  intros A Hu Hroom HQ. pose proof (storing_inv _ _ _ _ _ _ A) as Hi.
  wp_step. eapply wp_sys_IsEmpty; [done|done|].
  destruct (bool_decide_reflect (ATT.qof a ATT.FREE = [])) as [Hfe|Hfe].
  - assert (ATT.qof a ATT.CLEAN ≠ []) as Hce by (destruct Hroom as [?|[?|[]]]; done).
    wp_step. eapply wp_sys_IsEmpty; [done|done|]. rewrite bool_decide_eq_false_2 by done.
    wp_step. apply wp_assert; [done|]. wp_step.
    eapply (wp_sys_GetFront c Hc); [done|by left|done|]. intros i e He Es. wp_step.
    eapply wp_evict_clean; [done..|]. intros a1 s1 A1 Hu1 Hf1.
    eapply storing_hook; [done|hook|]. intros s2 A2. by apply (HQ a1).
  - eapply storing_hook; [done|hook|]. intros s2 A2. by apply (HQ a).
Qed.

(** ... and while the processor runs. *)
Lemma wp_room_running a (site : string) st (Q : unit → Sys St → Prop) s : storing a0 a s0 s →
  in_checkpointing_ (ctl s) = false →
  unmapped a (addr / bs) → has_room a false → evicted a0 s0 Q →
  wp (ef ← att_IsEmpty ATT.FREE;
      if (ef : bool) then
        el ← att_IsEmpty ATT.LOAN;
        (if negb el then
           li ← on_att (own (ATT.GetFront ATT.LOAN));
           FreeLoan li true pf false
         else
           ec ← att_IsEmpty ATT.CLEAN;
           assert_ site (negb ec) ;;
           ci ← on_att (own (ATT.GetFront ATT.CLEAN));
           FreeClean ci pf) ;;
        on_store (OnATTWriteMiss st)
      else on_store (OnATTWriteHit st)) Q s.
Proof.
  intros A Hck Hu Hroom HQ. pose proof (storing_inv _ _ _ _ _ _ A) as Hi.
  assert (evicted a0 s0 (λ _ s', wp (on_store (OnATTWriteMiss st)) Q s')) as HQ'.
  { intros a1 s1 A1 Hu1 Hf1. eapply storing_hook; [done|hook|]. intros s2 A2. by apply (HQ a1). }
  wp_step. eapply wp_sys_IsEmpty; [done|done|].
  destruct (bool_decide_reflect (ATT.qof a ATT.FREE = [])) as [Hfe|Hfe].
  - wp_step. eapply wp_sys_IsEmpty; [done|done|]. wp_step.
    destruct (bool_decide_reflect (ATT.qof a ATT.LOAN = [])) as [Hle|Hle]; cbv beta iota delta [negb].
    + assert (ATT.qof a ATT.CLEAN ≠ []) as Hce by (destruct Hroom as [?|[?|[]]]; done).
      wp_step. eapply wp_sys_IsEmpty; [done|done|]. rewrite bool_decide_eq_false_2 by done.
      wp_step. apply wp_assert; [done|]. wp_step.
      eapply (wp_sys_GetFront c Hc); [done|by left|done|]. intros i e He Es.
      by eapply wp_evict_clean.
    + wp_step. eapply (wp_sys_GetFront c Hc); [done|by right|done|]. intros i e He Es.
      by eapply wp_evict_loan.
  - eapply storing_hook; [done|hook|]. intros s2 A2. by apply (HQ a).
Qed.

Lemma wp_NVMStore_miss_running a (Q : Z * Z → Sys St → Prop) s : storing a0 a s0 s →
  in_checkpointing_ (ctl s) = false → page_of c (addr / bs) ∉ k_pages (conf s) →
  unmapped a (addr / bs) → has_room a false →
  (∀ a' s' i m, storing a0 a' s0 s' → target a' false (addr / bs) i m →
     Q (i, m + addr mod bs) s') →
  wp (NVMStore_miss_running addr size pf) Q s.
Proof.
  intros A Hck Hp Hu Hroom HQ. unfold NVMStore_miss_running.
  apply wp_seq. eapply wp_room_running; [done..|]. intros a' s' A' Hu' Hf'.
  eapply wp_new_nvm; [exact A'| | |done|done|].
  - by rewrite (storing_ck _ _ _ _ _ _ A'), <- (storing_ck _ _ _ _ _ _ A).
  - by rewrite (storing_pages _ _ _ _ _ _ A'), <- (storing_pages _ _ _ _ _ _ A).
  - intros a2 s2 i n Hn A2 Ht2. wp_step.
    eapply (wp_sys_Translate c Hc); [by eapply storing_inv|lia|by apply valid_nslot|]. wp_steps. eauto.
Qed.

Lemma wp_NVMStore_miss_ckpt a (Q : Z * Z → Sys St → Prop) s : storing a0 a s0 s →
  in_checkpointing_ (ctl s) = true → page_of c (addr / bs) ∉ k_pages (conf s) →
  unmapped a (addr / bs) → has_room a true →
  (∀ a' s' i m, storing a0 a' s0 s' → target a' true (addr / bs) i m →
     Q (i, m + addr mod bs) s') →
  wp (NVMStore_miss_ckpt addr size pf) Q s.
Proof.
  intros A Hck Hp Hu Hroom HQ. unfold NVMStore_miss_ckpt.
  apply wp_seq. eapply wp_room_ckpt; [done..|]. intros a' s' A' Hu' Hf'.
  eapply wp_new_dram; [exact A'| |by left| |done|done|].
  - by rewrite (storing_ck _ _ _ _ _ _ A'), <- (storing_ck _ _ _ _ _ _ A).
  - by rewrite (storing_pages _ _ _ _ _ _ A'), <- (storing_pages _ _ _ _ _ _ A).
  - intros a2 s2 i d e Hd A2 He Et Eb Es. wp_step.
    eapply (wp_sys_Translate c Hc); [by eapply storing_inv|lia|by apply valid_dslot|]. wp_steps.
    eapply HQ; [done|]. exists e. destruct (state_kind _ _ Es) as (_&->&_). by rewrite Es.
Qed.

Lemma storing_prof a s ps' : storing a0 a s0 s → pf_same (profs s) ps' →
  storing a0 a s0 (MkSys (ctl s) (store s) ps' (ckpt s)).
Proof.
  intros (ls&A&Hls) Hps. exists (ls ++ []). split; [|by rewrite app_nil_r].
  eapply access_trans; [done|]. apply access_prof; [apply (ac_inv _ _ _ _ _ A)|done].
Qed.

Lemma storing_write_lat a x d p {B} (k : M (Sys St) B) (Q : B → Sys St → Prop) s :
  storing a0 a s0 s → ignore_latency_ (sel pf (profs s0)) = false → lat_ok x d p →
  (∀ s', storing a0 a s0 s' → ctl s' = ctl s → wp k Q s') →
  wp (lat ← on_store (GetWriteLatency x d p); on_pf pf (AddLatency lat) ;; k) Q s.
Proof.
  intros (ls&A&Hls) Hign Hl HQ. pose proof (ac_inv _ _ _ _ _ A) as Hi.
  eapply wp_charge; [done|apply law_write_latency; [apply (iv_store _ _ _ _ Hi)|done]|by eapply access_ign|].
  intros s' Hi' Ht. apply HQ; [|apply Ht]. eapply storing_tau; [by exists ls|done|done].
Qed.

(** The store ends with the entry's statistics. *)
Lemma wp_target a ck i m (Q : Z → Sys St → Prop) s : storing a0 a s0 s →
  ignore_latency_ (sel pf (profs s0)) = false → target a ck (addr / bs) i m →
  (∀ a' s', storing a0 a' s0 s' → writable c (conf s') (addr / bs) →
     Q (base c (conf s') (addr / bs) + addr mod bs) s') →
  wp (lat ← on_store (GetWriteLatency (m + addr mod bs) ck None);
      on_pf pf (AddLatency lat) ;;
      on_att (own (ATT.AddBlockWrite i)) ;; mret (m + addr mod bs)) Q s.
Proof.
  intros A Hign (e&He&Et&Eb&Hcw&Hd) HQ. pose proof (storing_inv _ _ _ _ _ _ A) as Hi.
  eapply storing_write_lat; [done|done| |].
  { rewrite <- Eb, <- Hd. by eapply entry_lat. }
  intros s1 A1 _. pose proof (storing_inv _ _ _ _ _ _ A1) as Hi1. wp_step.
  eapply (wp_sys_stat c Hc); [done|exact He|done|]. intros s2 Hi2 Hq2. wp_step.
  eapply storing_quiet in Hq2 as A2; [|exact A1|done|by intros; apply stats_bump].
  assert (ATT.a_live (ATT.abs_write i (ATT.set_epoch_writes (i32 (ATT.epoch_writes e + 1)) e) a) !! i =
    Some (ATT.set_epoch_writes (i32 (ATT.epoch_writes e + 1)) e)) as He2 by apply lookup_insert_eq.
  replace m with (base c (conf s2) (addr / bs)); [apply (HQ _ _ A2)|].
  - pose proof (blocks_of_live _ _ (iv_att _ _ _ _ Hi2) _ _ He2) as Hb.
    unfold writable. rewrite <- Et. cbn in Hb |- *. rewrite Hb. by destruct (ATT.state e).
  - rewrite <- Et, <- Eb. apply (base_live _ _ _ _ _ Hi2 He2).
Qed.

Lemma wp_NVMStore a (Q : Z → Sys St → Prop) s : storing a0 a s0 s →
  ignore_latency_ (sel pf (profs s0)) = false → page_of c (addr / bs) ∉ k_pages (conf s) →
  (unmapped a (addr / bs) → has_room a (in_checkpointing_ (ctl s))) →
  (∀ a' s', storing a0 a' s0 s' → writable c (conf s') (addr / bs) →
     Q (base c (conf s') (addr / bs) + addr mod bs) s') →
  wp (NVMStore addr size pf) Q s.
Proof.
  intros A Hign Hp Hroom HQ. pose proof (storing_inv _ _ _ _ _ _ A) as Hi. pose proof phy_63 as Hphy.
  pose proof (pow2_pos (c_page_bits c)) as Hpp. pose proof (wf_bits _ Hc) as Hbits.
  unfold NVMStore. wp_step. apply (wp_ToTag c Hc); [eauto|lia|]. wp_step.
  eapply wp_sys_Lookup; [done|..].
  - intros ps1 Hu Hps1. wp_step. eapply wp_phase; [done|]. cbn [ctl].
    specialize (Hroom Hu). pose proof (storing_prof _ _ _ A Hps1) as A1. wp_step.
    rewrite Z.eqb_refl. cbn [negb]. destruct (in_checkpointing_ (ctl s)) eqn:Hck; cbn [negb].
    + eapply wp_NVMStore_miss_ckpt; [exact A1|done..|]. intros a' s' i m A' Ht.
      by eapply (wp_target _ true).
    + eapply wp_NVMStore_miss_running; [exact A1|done..|]. intros a' s' i m A' Ht.
      by eapply (wp_target _ false).
  - intros i e s1 He Ht Hi0 Hi1 Hq1. pose proof (storing_quiet _ _ _ _ _ _ _ _ A Hi1 Hq1 ltac:(done)) as A1.
    pose proof Hq1 as (Ec&_).
    assert (page_of c (addr / bs) ∉ k_pages (conf s1)) as Hp1 by (by rewrite Ec).
    wp_step. eapply wp_phase; [done|]. wp_step.
    destruct (Z.eqb_spec i (- EINVAL)); [unfold EINVAL in *; lia|]. cbn [negb].
    destruct (in_checkpointing_ (ctl s1)) eqn:Hck; cbn [negb].
    + eapply wp_NVMStore_hit_ckpt; [exact A1|done|done|exact He|done|]. intros a' s' m A' Ht'.
      by eapply (wp_target _ true).
    + eapply wp_NVMStore_hit_running; [exact A1|done|done|exact He|done|]. intros a' s' m A' Ht'.
      by eapply (wp_target _ false).
Qed.

Lemma storing_mig a s m' ps' : storing a0 a s0 s → mig_ok m' →
  same_mgeom (migrator_ (ctl s)) m' →
  dom (Mig.entries_ m') = dom (Mig.entries_ (migrator_ (ctl s))) →
  (countable s0 addr → mig_ready (migrator_ (ctl s)) → mig_ready m') → pf_same (profs s) ps' →
  storing a0 a s0 (MkSys (set_migrator_ m' (ctl s)) (store s) ps' (ckpt s)).
Proof.
  intros (ls&A&Hls) Hm Hg Hd Hr Hps. exists ls. split; [|done]. destruct A.
  split; cbn [ctl profs ckpt]; try done.
  - by apply inv_mig.
  - by rewrite conf_mig.
  - intros HG Hr0. destruct (ac_ready0 HG Hr0) as [Hs Hmr]. by split; [|apply Hr].
  - by rewrite conf_mig.
  - by etrans.
Qed.

(** A store counts for its page, which becomes dirty. *)
Lemma wp_page_write a e {B} (k : Mig.PTTEntry → M (Sys St) B) (Q : B → Sys St → Prop) s :
  storing a0 a s0 s → Mig.entries_ (migrator_ (ctl s)) !! page_of c (addr / bs) = Some e →
  ctl s = ctl s0 → Mig.mach_base e = page_of c (addr / bs) →
  (∀ e' s', storing a0 a s0 s' → Mig.index e' = Mig.index e → wp (k e') Q s') →
  wp (on_mig (own (Mig.AddDRAMPageWrite (Mig.mach_base e))) ;;
      page' ←
        match Mig.state e with
        | Mig.CLEAN_STATIC =>
            on_mig (Mig.ShiftState (Mig.mach_base e) Mig.DIRTY_DIRECT pf) ;;
            mret (Mig.set_state Mig.DIRTY_DIRECT e)
        | Mig.CLEAN_DIRECT =>
            on_mig (Mig.ShiftState (Mig.mach_base e) Mig.DIRTY_STATIC pf) ;;
            mret (Mig.set_state Mig.DIRTY_STATIC e)
        | _ => mret e
        end;
      k page') Q s.
Proof.
  intros A He Ectl Hb HQ. pose proof (storing_inv _ _ _ _ _ _ A) as Hi. rewrite Hb. clear Hb.
  set (p := page_of c (addr / bs)) in *. pose proof (iv_mig _ _ _ _ Hi) as Hm.
  destruct (m_page _ Hm _ _ He) as (Hp&_). wp_step. apply wp_zoom, wp_own.
  unfold Mig.AddDRAMPageWrite. wp_steps. rewrite PageAlign_page by (done || apply (m_geom _ Hm)).
  eapply wp_page_mod; [done|]. cbn [fst snd].
  set (f := λ e, Mig.set_epoch_writes (i32 (Mig.epoch_writes e + 1)) e).
  set (m1 := Mig.set_entries_ (alter f p (Mig.entries_ (migrator_ (ctl s)))) (migrator_ (ctl s))).
  assert (mig_ok m1) as Hm1 by (by eapply mig_ok_bump).
  assert (Mig.entries_ m1 !! p = Some (f e)) as He1 by (cbn; by rewrite lookup_alter_eq, He).
  assert (∀ (g : Mig.PTTEntry → Mig.PTTEntry) (m2 : Mig.MigrationController),
    Mig.epoch_writes (g (f e)) = i32 (Mig.epoch_writes e + 1) → Mig.is_dirty (Mig.state (g (f e))) = true →
    same_heaps (migrator_ (ctl s)) m2 → Mig.entries_ m2 = <[p := g (f e)]> (Mig.entries_ (migrator_ (ctl s))) →
    countable s0 addr → mig_ready (migrator_ (ctl s)) → mig_ready m2) as Hready.
  { intros g m2 Ew Es (E1&E2&E3&_) Hent HG (Hst&?&?&?). unfold countable in HG. rewrite <- Ectl in HG. specialize (HG e He). split; [|by rewrite E1, E2, E3].
    intros q e' . rewrite Hent. intros [[<- <-]|[_ Hq]]%lookup_insert_Some; [|by apply (Hst q)].
    destruct (Hst _ _ He). rewrite Ew, Es, i32_small by lia. split; [lia|]. split; [done|lia]. }
  assert (∀ st, Mig.is_dirty (Mig.state e) = false → Mig.is_dirty st = true →
    wp (on_mig (Mig.ShiftState p st pf) ;; mret (Mig.set_state st e)) (λ x, wp (k x) Q)
      (MkSys (set_migrator_ m1 (ctl s)) (store s) (profs s) (ckpt s))) as Hshift.
  { intros st Hcl Hst. wp_step. apply wp_zoom. cbn [ctl profs migrator_ set_migrator_].
    eapply wp_mig_ShiftState; [exact Hm1|exact He1|done|]. intros m2 ps2 Hm2 Hg2 Hh2 Hent2 Hps2.
    wp_step. apply HQ; [|done]. rewrite (alter_as_insert _ _ _ (f e)) in Hent2 by done. cbn in Hent2.
    rewrite (alter_as_insert _ _ _ e), insert_insert_eq in Hent2 by done.
    apply (storing_mig _ _ m2 ps2 A Hm2); [done| | |done].
    - by rewrite Hent2, dom_insert_lookup_L by eauto.
    - apply (Hready (Mig.set_state st) m2); try done. }
  assert (Mig.is_dirty (Mig.state e) = true → wp (k e) Q
    (MkSys (set_migrator_ m1 (ctl s)) (store s) (profs s) (ckpt s))) as Hsame.
  { intros Hd. apply HQ; [|done]. apply (storing_mig _ _ m1 (profs s) A Hm1); [done|apply dom_alter_L| |done].
    apply (Hready id m1); try done. cbn. by rewrite (alter_as_insert _ _ _ e). }
  wp_step. destruct (Mig.state e); [by apply Hshift|by apply Hshift|..]; wp_step; by apply Hsame.
Qed.

(** The outcome of a store: the place of the block, which may be written. *)
Definition stored (Q : Z → Sys St → Prop) : Prop :=
  ∀ a' s', storing a0 a' s0 s' → writable c (conf s') (addr / bs) →
    Q (base c (conf s') (addr / bs) + addr mod bs) s'.

(** A block that is not in the table and whose page is in DRAM is written in place. *)
Lemma wp_page_direct a page (Q : Z → Sys St → Prop) s : storing a0 a s0 s →
  ignore_latency_ (sel pf (profs s0)) = false → unmapped a (addr / bs) →
  page_of c (addr / bs) ∈ k_pages (conf s) → 0 ≤ Mig.index page < c_ptt_capacity c → stored Q →
  wp (lat ← on_store (GetWriteLatency addr true (Some page)); on_pf pf (AddLatency lat) ;; mret addr) Q s.
Proof.
  intros A Hign Hu Hp Hx HQ.
  eapply storing_write_lat; [done|done|by apply law_lat_page|]. intros s1 A1 Ec1. wp_step.
  pose proof (storing_inv _ _ _ _ _ _ A1) as Hi1.
  rewrite (proj1 (addr_split _ Hc addr)) at 1. rewrite <- (base_miss _ _ _ _ Hi1 Hu). apply (HQ _ _ A1).
  unfold writable. cbn. rewrite (proj2 (blocks_of_None _ _ (iv_att _ _ _ _ Hi1) _) Hu).
  cbn in Hp. by rewrite Ec1.
Qed.

Lemma stored_live a i e (Q : Z → Sys St → Prop) s : storing a0 a s0 s → stored Q →
  ATT.a_live a !! i = Some e → ATT.phy_tag e = addr / bs → ATT.state e ≠ ATT.CLEAN →
  Q (ATT.mach_base e + addr mod bs) s.
Proof.
  intros A HQ He Et Es. pose proof (storing_inv _ _ _ _ _ _ A) as Hi.
  rewrite <- (base_live _ _ _ _ _ Hi He), Et. apply (HQ _ _ A). unfold writable. cbn.
  rewrite <- Et. by rewrite (blocks_of_live _ _ (iv_att _ _ _ _ Hi) _ _ He).
Qed.

Lemma wp_DRAMStore_hit a i e page {B : bool} (Q : Z → Sys St → Prop) s : storing a0 a s0 s →
  in_checkpointing_ (ctl s) = B → ignore_latency_ (sel pf (profs s0)) = false →
  page_of c (addr / bs) ∈ k_pages (conf s) → 0 ≤ Mig.index page < c_ptt_capacity c →
  ATT.a_live a !! i = Some e → ATT.phy_tag e = addr / bs →
  (B = true → lat_ok addr true None) → stored Q →
  wp (entry ← att_At i;
      on_store (OnATTWriteHit (ATT.state entry)) ;;
      if B then
        lat ← on_store (GetWriteLatency addr true None);
        on_pf pf (AddLatency lat) ;;
        entry ← att_ref i;
        att_Translate addr (ATT.mach_base entry)
      else
        full ← FullBlock addr size;
        FreeLoan i (negb full) pf false ;;
        lat ← on_store (GetWriteLatency addr true (Some page));
        on_pf pf (AddLatency lat) ;;
        mret addr) Q s.
Proof.
  intros A Hck Hign Hp Hx He Et Hlat HQ. pose proof (storing_inv _ _ _ _ _ _ A) as Hi.
  pose proof (iv_entry _ _ _ _ Hi _ _ He) as Heo. pose proof phy_63 as Hphy.
  pose proof (pow2_pos (c_page_bits c)) as Hpp. pose proof (wf_bits _ Hc) as Hbits.
  assert (ATT.state e = ATT.LOAN) as Es by (apply (eo_page _ _ _ _ Heo); by rewrite Et).
  wp_step. eapply wp_sys_At; [apply (iv_att _ _ _ _ Hi)|exact He|]. intros e0 Es0 _ _.
  wp_step. eapply storing_hook; [done|hook|]. intros s1 A1.
  destruct B.
  - eapply storing_write_lat; [done|done|by apply Hlat|]. intros s2 A2 _.
    pose proof (storing_inv _ _ _ _ _ _ A2) as Hi2. wp_step.
    eapply wp_sys_ref; [done|exact He|]. intros e1 -> _.
    eapply (wp_sys_Translate c Hc); [done|lia|by eapply entry_valid|].
    eapply stored_live; [done|done|done|done|by rewrite Es].
  - pose proof (storing_inv _ _ _ _ _ _ A1) as Hi1.
    assert (in_checkpointing_ (ctl s1) = false) as Hck1.
    { by rewrite (storing_ck _ _ _ _ _ _ A1), <- (storing_ck _ _ _ _ _ _ A). }
    wp_step. apply (wp_sys_FullBlock c Hc); [apply (iv_geom _ _ _ _ Hi1)|lia|]. wp_step.
    eapply (wp_FreeLoan c Hc); [exact Hi1|done|exact He|done|]. intros s2 Hi2 Hs2 Hk2 El2.
    rewrite andb_false_r, app_nil_r in El2.
    assert (storing a0 (ATT.abs_shift i e ATT.FREE a) s0 s2) as A2.
    { eapply storing_step; [exact A1|done|done|done|done| |].
      - intros. eapply stats_free; [apply (iv_att _ _ _ _ Hi1)|done|done|by rewrite Es].
      - apply store_step_block; [done|]. rewrite Et. by destruct (full_block c addr size). }
    eapply wp_page_direct; [exact A2|done| | |done|done].
    + intros j e'. rewrite abs_shift_gone. intros [Hne He']%lookup_delete_Some E. apply Hne.
      eapply (ATT.rep_tag_inj _ _ (iv_att _ _ _ _ Hi)); [done|done|congruence].
    + by rewrite (storing_pages _ _ _ _ _ _ A2), <- (storing_pages _ _ _ _ _ _ A).
Qed.

Lemma wp_DRAMStore a page (Q : Z → Sys St → Prop) s : storing a0 a s0 s →
  ignore_latency_ (sel pf (profs s0)) = false → page_of c (addr / bs) ∈ k_pages (conf s) →
  0 ≤ Mig.index page < c_ptt_capacity c →
  (in_checkpointing_ (ctl s) = true → unmapped a (addr / bs) → has_room a true) →
  (in_checkpointing_ (ctl s) = true → ¬ unmapped a (addr / bs) → lat_ok addr true None) →
  stored Q → wp (DRAMStore addr size page pf) Q s.
Proof.
  intros A Hign Hp Hx Hroom Hlat HQ. pose proof (storing_inv _ _ _ _ _ _ A) as Hi. pose proof phy_63 as Hphy.
  pose proof (pow2_pos (c_page_bits c)) as Hpp. pose proof (wf_bits _ Hc) as Hbits.
  unfold DRAMStore. wp_step. apply (wp_ToTag c Hc); [eauto|lia|]. wp_step.
  eapply wp_sys_Lookup; [done|..].
  - intros ps1 Hu Hps1. pose proof (storing_prof _ _ _ A Hps1) as A1.
    wp_step. eapply wp_phase; [done|]. rewrite Z.eqb_refl. cbn [negb].
    destruct (in_checkpointing_ _) eqn:Hck; cbn [ctl] in Hck.
    + apply wp_seq. eapply wp_room_ckpt; [exact A1|done|by apply Hroom|]. intros a2 s2 A2 Hu2 Hf2.
      eapply wp_new_dram; [exact A2| |by right| |done|done|].
      * by rewrite (storing_ck _ _ _ _ _ _ A2), <- (storing_ck _ _ _ _ _ _ A).
      * by rewrite (storing_pages _ _ _ _ _ _ A2), <- (storing_pages _ _ _ _ _ _ A).
      * intros a3 s3 i d e Hd A3 He Et Eb Es. wp_step. pose proof (storing_inv _ _ _ _ _ _ A3) as Hi3.
        eapply (wp_sys_Translate c Hc); [done|lia|by apply valid_dslot|]. rewrite <- Eb.
        eapply storing_write_lat; [done|done| |].
        { replace true with (in_dram e) by (unfold in_dram; by rewrite Es). by eapply entry_lat. }
        intros s4 A4 _. wp_step. eapply stored_live; [done|done|done|done|by rewrite Es].
    + wp_step. eapply storing_hook; [exact A1|hook|]. intros s2 A2. eapply wp_page_direct; [done|done|done| |done|done].
      by rewrite (storing_pages _ _ _ _ _ _ A2), <- (storing_pages _ _ _ _ _ _ A).
  - intros i e s1 He Et Hi0 Hi1 Hq1.
    pose proof (storing_quiet _ _ _ _ _ _ _ _ A Hi1 Hq1 ltac:(done)) as A1. pose proof Hq1 as (Ec&_).
    wp_step. eapply wp_phase; [done|].
    destruct (Z.eqb_spec i (- EINVAL)); [unfold EINVAL in *; lia|]. cbn [negb].
    eapply wp_DRAMStore_hit; [exact A1|done|done|by rewrite Ec|done|exact He|done| |done].
    intros Hck. apply Hlat; [|intros Hu; by apply (Hu i e)].
    by rewrite (storing_ck _ _ _ _ _ _ A), <- (storing_ck _ _ _ _ _ _ A1).
Qed.

End Halves.

End Store.
