(* ===== verification/ControllerAccess.v ===== *)
(** [StoreAddr] and [Probe]: what a store returns when there is room for it, what
    [Probe] computes, and when its answer is enough for the store to succeed. *)

From S2P Require Import Prelude Profiler StdAlgo MemStore PersistSpec PersistFacts MigrationSpec.
From S2P Require Import AddrTransController ControllerInv ControllerOps ControllerStore.
#[global] Open Scope Z_scope.

Section Access.
Context (c : Config) (Hc : wf_config c) {St : Type} `{!MemStore St, !MemStoreLaws St c}.
Context `{HO : HashOrder, HA : HeapAlgo}.
Implicit Types s : Sys St.

Abbreviation bs := (c_bsize c).
Abbreviation conf := (conf c).
Abbreviation inv := (inv c).
Abbreviation storing := (storing c).

(** The store fits in a block, and its block has an entry, or can get one, or needs
    none because its page is in DRAM. *)
Definition fits (addr size : Z) : Prop := 0 < size ∧ addr mod bs + size ≤ bs.
Definition store_room (a : ATT.AbsATT) s (addr : Z) : Prop :=
  unmapped a (addr / bs) →
  (in_checkpointing_ (ctl s) = false ∧ page_of c (addr / bs) ∈ k_pages (conf s)) ∨
  has_room a (in_checkpointing_ (ctl s)).
(** The latency query for a lent block is one the memory answers. *)
Definition lent_lat (a : ATT.AbsATT) s (addr : Z) : Prop :=
  in_checkpointing_ (ctl s) = true → page_of c (addr / bs) ∈ k_pages (conf s) →
  ¬ unmapped a (addr / bs) → lat_ok addr true None.

Lemma wp_CheckValid addr size (Q : bool → Sys St → Prop) s :
  ctl_geom c (ctl s) → 0 ≤ addr < c_phy_range c → fits addr size → Q true s →
  wp (CheckValid addr size) Q s.
Proof.
  intros Hg Ha (Hs&Hf) HQ. pose proof (phy_63 c Hc). pose proof (pow2_pos (c_page_bits c)).
  pose proof (wf_bits _ Hc). pose proof (bs_pos _ Hc) as Hb. pose proof (addr_split _ Hc addr) as [E Hm].
  pose proof (tag_top _ Hc _ (tag_ok_addr _ Hc _ Ha)) as Ht. unfold home in *.
  unfold CheckValid. wp_step. apply (wp_ToTag c Hc); [done|lia|]. wp_step.
  rewrite u64_small by lia. apply (wp_ToTag c Hc); [done|lia|]. wp_step.
  replace ((addr + size - 1) / bs) with (addr / bs); [by rewrite Z.eqb_refl|].
  apply Z.div_unique with (addr mod bs + size - 1); lia.
Qed.

Lemma storing_refl addr size a s : inv false a s → storing addr size a a s s.
Proof. intros Hi. exists []. split; [by apply access_refl|done]. Qed.

Lemma wp_StoreAddr addr size pf a (Q : Z → Sys St → Prop) s : inv false a s →
  0 ≤ addr < c_phy_range c → fits addr size → ignore_latency_ (sel pf (profs s)) = false →
  store_room a s addr → lent_lat a s addr →
  (∀ a' s', storing addr size a a' s s' → writable c (conf s') (addr / bs) →
     Q (base c (conf s') (addr / bs) + addr mod bs) s') →
  wp (StoreAddr addr size pf) Q s.
Proof.
  intros Hi Ha Hf Hign Hroom Hlat HQ. pose proof (iv_geom _ _ _ _ Hi) as Hg.
  pose proof (storing_refl addr size _ _ Hi) as A0.
  unfold StoreAddr. wp_step. apply wp_CheckValid; [done..|]. wp_steps.
  apply wp_assert; [rewrite (cg_phy _ _ Hg); simpl; apply Z.ltb_lt; lia|]. wp_step. eapply (wp_sys_LookupPage c Hc); [done|..].
  - intros ps1 Hps1 Hp. pose proof (storing_prof c addr size a s _ _ _ A0 Hps1) as A1.
    simpl. wp_step. eapply (storing_hook c Hc); [exact A1|auto 10|]. intros s2 A2.
    eapply (wp_NVMStore c Hc _ _ Ha); [exact A2|done| | |exact HQ].
    + by rewrite (storing_pages _ _ _ _ _ _ _ A2).
    + intros Hu. rewrite (storing_ck _ _ _ _ _ _ _ A2). by destruct (Hroom Hu) as [[_ ?]|?].
  - intros ps1 e Hps1 Hp He Hb Hx. pose proof (storing_prof c addr size a s _ _ _ A0 Hps1) as A1.
    destruct (Z.ltb_spec (Mig.index e) 0); [lia|].
    eapply wp_page_write; [exact A1|exact He|done|done|]. intros e' s2 A2 Ex.
    wp_step. eapply (storing_hook c Hc); [exact A2|auto 10|]. intros s3 A3.
    eapply (wp_DRAMStore c Hc _ _ Ha); [exact A3|done| |by rewrite Ex|..|exact HQ].
    + by rewrite (storing_pages _ _ _ _ _ _ _ A3).
    + rewrite (storing_ck _ _ _ _ _ _ _ A3). intros Hck Hu. rewrite <- Hck.
      by destruct (Hroom Hu) as [[? _]|?]; [congruence|].
    + rewrite (storing_ck _ _ _ _ _ _ _ A3). intros Hck Hu. by apply Hlat.
Qed.

(** ** Probe *)

(** The address itself is looked up as a tag. *)
Definition alias (a : ATT.AbsATT) (addr : Z) : Prop := ∃ i e, ATT.a_live a !! i = Some e ∧ ATT.phy_tag e = addr.

Definition probed (a : ATT.AbsATT) s (addr : Z) (r : Control) : Prop :=
  let ck := in_checkpointing_ (ctl s) in
  if ck then
    r = REG_WRITE ∧ (alias a addr ∨ has_room a true) ∨
    r = WAIT_CKPT ∧ ¬ alias a addr ∧ ¬ has_room a true
  else if bool_decide (page_of c (addr / bs) ∈ k_pages (conf s)) then r = REG_WRITE
  else
    let full := Z.of_nat (length (ATT.qof a ATT.DIRTY)) = c_att_len c ∨
                c_ptt_length c ≤ Mig.num_dirty_entries (migrator_ (ctl s)) in
    r = REG_WRITE ∧ (alias a addr ∨ ¬ full) ∨ r = NEW_EPOCH ∧ ¬ alias a addr ∧ full.

Lemma att_eta s (st : St) ps l : MkSys (set_att_ (att_ (ctl s)) (ctl s)) st ps l = MkSys (ctl s) st ps l.
Proof. by destruct s as [[] ???]. Qed.

Lemma wp_sys_Contains fl a addr (Q : bool → Sys St → Prop) s : inv fl a s →
  0 ≤ addr < c_phy_range c →
  (∀ r ps', pf_same (profs s) ps' → r = true ↔ alias a addr →
     Q r (MkSys (ctl s) (store s) ps' (ckpt s))) →
  wp (on_att (ATT.Contains addr PfNull)) Q s.
Proof.
  intros Hi Ha HQ. apply wp_zoom. unfold ATT.Contains. wp_step. apply wp_prof_quiet; [apply _|].
  intros ps' Hps. apply wp_own. wp_steps. cbn [fst snd]. rewrite att_eta. apply HQ; [done|].
  pose proof (phy_63 c Hc). pose proof (pow2_pos (c_page_bits c)). pose proof (wf_bits _ Hc).
  rewrite bool_decide_eq_true, i64_small by lia. split.
  - intros [i Hx]. apply (ATT.r_tag _ _ (iv_att _ _ _ _ Hi)) in Hx as (e&?&?). by exists i, e.
  - intros (i&e&?&?). exists i. apply (ATT.r_tag _ _ (iv_att _ _ _ _ Hi)). eauto.
Qed.

(** The two queries that decide while a checkpoint is written. *)
Lemma wp_probe_ckpt fl a (Q : Control → Sys St → Prop) s : inv fl a s →
  (has_room a true → Q REG_WRITE s) → (¬ has_room a true → Q WAIT_CKPT s) →
  wp (ef ← att_IsEmpty ATT.FREE;
      if negb ef then mret REG_WRITE else
      ec ← att_IsEmpty ATT.CLEAN;
      mret (if (ec : bool) then WAIT_CKPT else REG_WRITE)) Q s.
Proof.
  intros Hi Hr Hw. unfold has_room in *. wp_step. eapply wp_sys_IsEmpty; [done|done|].
  destruct (bool_decide_reflect (ATT.qof a ATT.FREE = [])); cbv beta iota delta [negb].
  - wp_step. eapply wp_sys_IsEmpty; [done|done|]. wp_step.
    destruct (bool_decide_reflect (ATT.qof a ATT.CLEAN = [])); [apply Hw|apply Hr]; naive_solver.
  - wp_step. apply Hr. by left.
Qed.

Lemma wp_Probe fl a addr (Q : Control → Sys St → Prop) s : inv fl a s → 0 ≤ addr < c_phy_range c →
  (∀ r ps', pf_same (profs s) ps' → probed a s addr r → Q r (MkSys (ctl s) (store s) ps' (ckpt s))) →
  wp (Probe addr) Q s.
Proof.
  intros Hi Ha HQ. unfold Probe, probed in *. pose proof (iv_geom _ _ _ _ Hi) as Hg.
  wp_step. apply wp_zoom, wp_mig_Contains. intros ps1 Hps1. cbn [fst snd]. rewrite mig_eta.
  rewrite (PageAlign_addr c _ _ Hg (iv_mig _ _ _ _ Hi)), (page_of_addr c Hc).
  rewrite (bool_decide_ext _ (page_of c (addr / bs) ∈ k_pages (conf s))) by (simpl; by rewrite elem_of_dom).
  assert (inv fl a (MkSys (ctl s) (store s) ps1 (ckpt s))) as Hi1
    by (apply inv_store; [done|apply (iv_store _ _ _ _ Hi)]).
  wp_step. eapply wp_phase; [done|]. cbn [ctl].
  destruct (in_checkpointing_ (ctl s)) eqn:Hck.
  - assert (wp (c ← on_att (ATT.Contains addr PfNull);
      if (c : bool) then mret REG_WRITE else
      ef ← att_IsEmpty ATT.FREE;
      if negb ef then mret REG_WRITE else
      ec ← att_IsEmpty ATT.CLEAN;
      mret (if (ec : bool) then WAIT_CKPT else REG_WRITE)) Q (MkSys (ctl s) (store s) ps1 (ckpt s))) as Hboth.
    { wp_step. eapply wp_sys_Contains; [exact Hi1|done|]. intros r ps2 Hps2 Hr. cbn [ctl store ckpt profs] in *.
      assert (pf_same (profs s) ps2) by (by etrans). destruct r.
      - wp_step. apply HQ; [done|]. left. split; [done|]. left. by apply Hr.
      - assert (¬ alias a addr) by (by rewrite <- Hr).
        eapply wp_probe_ckpt; [apply inv_store; [exact Hi|apply (iv_store _ _ _ _ Hi)]|..];
          intros Hroom; (apply HQ; [done|]); [left|right]; auto. }
    by destruct (bool_decide _).
  - destruct (bool_decide _); [wp_step; by apply HQ|].
    wp_step. eapply wp_sys_Contains; [exact Hi1|done|]. intros r ps2 Hps2 Hr. cbn [ctl store ckpt profs] in *.
    assert (pf_same (profs s) ps2) by (by etrans). destruct r.
    + wp_step. apply HQ; [done|]. left. split; [done|]. left. by apply Hr.
    + assert (¬ alias a addr) by (by rewrite <- Hr). wp_step.
      eapply wp_sys_GetLength; [apply inv_store; [exact Hi|apply (iv_store _ _ _ _ Hi)]|done|].
      wp_steps. apply HQ; [done|]. cbn [ctl]. rewrite (cg_len _ _ Hg).
      destruct (cg_mig _ _ Hg) as (_&_&->&_).
      destruct (Z.eqb_spec (Z.of_nat (length (ATT.qof a ATT.DIRTY))) (c_att_len c)); simpl; [right; auto|].
      destruct (Z.leb_spec (c_ptt_length c) (Mig.num_dirty_entries (migrator_ (ctl s)))); [right; auto|].
      left. split; [done|]. right. lia.
Qed.

(** If not every entry is in the dirty queue, some entry can be taken. *)
Lemma not_all_dirty fl a s : inv fl a s → Z.of_nat (length (ATT.qof a ATT.DIRTY)) ≠ c_att_len c →
  has_room a false.
Proof.
  intros Hi Hn. pose proof (iv_att _ _ _ _ Hi) as Hrep. unfold has_room.
  destruct (decide (ATT.qof a ATT.FREE = [])) as [Ef|]; [|auto].
  destruct (decide (ATT.qof a ATT.CLEAN = [])) as [Ec|]; [|auto].
  destruct (decide (ATT.qof a ATT.LOAN = [])) as [El|]; [|auto]. destruct Hn.
  rewrite <- (cg_len _ _ (iv_geom _ _ _ _ Hi)). pose proof (ATT.rep_NoDup _ _ Hrep ATT.DIRTY) as Hnd.
  assert (ATT.qof a ATT.DIRTY ≡ₚ zseq (ATT.length_ (att_ (ctl s)))) as Hp.
  { apply NoDup_Permutation; [done|apply NoDup_seqZ|]. intros i. rewrite ATT.elem_of_zseq, <- (ATT.r_cover _ _ Hrep).
    split; [intros Hin; by exists (ATT.StateIndex ATT.DIRTY)|]. intros (k&Hk&Hin).
    unfold ATT.qof in *. assert (k = 0 ∨ k = 1 ∨ k = 2 ∨ k = 3) as [-> |[-> |[-> | ->]]] by lia;
      unfold ATT.StateIndex in *; simpl in *; rewrite ?Ef, ?Ec, ?El in Hin; try done; by apply elem_of_nil in Hin. }
  rewrite Hp. unfold zseq. rewrite length_seqZ. pose proof (ATT.r_len _ _ Hrep). lia.
Qed.

(** A store that [Probe] admits has room, unless the address was mistaken for the tag
    of another block. *)
Lemma probed_room a s addr : inv false a s → probed a s addr REG_WRITE →
  (alias a addr → ¬ unmapped a (addr / bs)) → store_room a s addr.
Proof.
  intros Hi Hp Hal Hu. unfold probed in Hp. destruct (in_checkpointing_ (ctl s)); [right; naive_solver|].
  destruct (bool_decide_reflect (page_of c (addr / bs) ∈ k_pages (conf s))); [by left|].
  right. eapply not_all_dirty; [done|]. naive_solver.
Qed.

(** ** Stores on which an assertion fails *)

Lemma no_room a ck q : ¬ has_room a ck → q = ATT.FREE ∨ q = ATT.CLEAN ∨ (ck = false ∧ q = ATT.LOAN) → ATT.qof a q = [].
Proof. unfold has_room. intros Hn Hq. destruct (decide (ATT.qof a q = [])) as [|Hne]; [done|]. destruct Hn. naive_solver. Qed.

Lemma NVMStore_fails addr size pf a s : inv false a s → 0 ≤ addr < c_phy_range c → unmapped a (addr / bs) →
  ¬ has_room a (in_checkpointing_ (ctl s)) → NVMStore addr size pf s = Err (EAssert "AddrTransController::NVMStore").
Proof.
  intros Hi Ha Hu Hroom. pose proof (phy_63 c Hc). pose proof (pow2_pos (c_page_bits c)). pose proof (wf_bits _ Hc).
  unfold NVMStore. apply fails_bind, (wp_ToTag c Hc); [apply (iv_geom _ _ _ _ Hi)|lia|].
  apply fails_bind. eapply wp_sys_Lookup; [done| |intros i e s1 He Et; by destruct (Hu _ _ He)].
  intros ps1 _ Hps1. assert (inv false a (MkSys (ctl s) (store s) ps1 (ckpt s))) as Hi1 by (apply inv_store; [done|apply (iv_store _ _ _ _ Hi)]).
  apply fails_bind. eapply wp_phase; [done|]. cbn [ctl]. apply fails_left. rewrite Z.eqb_refl. cbn [negb].
  destruct (in_checkpointing_ (ctl s)); cbn [negb].
  - unfold NVMStore_miss_ckpt. apply fails_bind. eapply wp_sys_IsEmpty; [done|done|]. rewrite (no_room _ _ _ Hroom) by auto.
    apply fails_left, fails_bind. eapply wp_sys_IsEmpty; [done|done|]. by rewrite (no_room _ _ _ Hroom) by auto.
  - unfold NVMStore_miss_running. apply fails_bind. eapply wp_sys_IsEmpty; [done|done|]. rewrite (no_room _ _ _ Hroom) by auto.
    apply fails_left, fails_bind. eapply wp_sys_IsEmpty; [done|done|]. rewrite (no_room _ _ _ Hroom) by auto.
    apply fails_left, fails_bind. eapply wp_sys_IsEmpty; [done|done|]. by rewrite (no_room _ _ _ Hroom) by auto.
Qed.

(** While a checkpoint is written, a store to a page in DRAM fails if its block has no
    entry and there is none to take, or if its block is lent and the memory does not
    answer for the latency of its address. *)
Lemma DRAMStore_fails addr size page pf a err s : inv false a s → 0 ≤ addr < c_phy_range c → in_checkpointing_ (ctl s) = true →
  (unmapped a (addr / bs) ∧ ¬ has_room a true ∧ err = EAssert "AddrTransController::DRAMStore" ∨
   ¬ unmapped a (addr / bs) ∧ ∀ st, st_ok st → GetWriteLatency addr true None st = Err err) →
  DRAMStore addr size page pf s = Err err.
Proof.
  intros Hi Ha Hck Hor. pose proof (phy_63 c Hc). pose proof (pow2_pos (c_page_bits c)). pose proof (wf_bits _ Hc).
  unfold DRAMStore. apply fails_bind, (wp_ToTag c Hc); [apply (iv_geom _ _ _ _ Hi)|lia|].
  apply fails_bind. eapply wp_sys_Lookup; [done|..].
  - intros ps1 Hu Hps1. destruct Hor as [(_ & Hroom & ->)|[Hn _]]; [|done].
    assert (inv false a (MkSys (ctl s) (store s) ps1 (ckpt s))) as Hi1 by (apply inv_store; [done|apply (iv_store _ _ _ _ Hi)]).
    apply fails_bind. eapply wp_phase; [done|]. cbn [ctl]. rewrite Z.eqb_refl. cbn [negb].
    apply fails_bind. eapply wp_sys_IsEmpty; [done|done|]. rewrite (no_room _ _ _ Hroom) by auto.
    apply fails_left, fails_bind. eapply wp_sys_IsEmpty; [done|done|]. by rewrite (no_room _ _ _ Hroom) by auto.
  - intros i e s1 He Et Hi0 Hi1 (Ec & Hk & _). destruct Hor as [[Hu _]|[_ Hlat]]; [by destruct (Hu _ _ He)|].
    apply fails_bind. eapply wp_phase; [done|]. destruct (Z.eqb_spec i (- EINVAL)); [unfold EINVAL in *; lia|]. cbn [negb].
    apply fails_bind. eapply wp_sys_At; [apply (iv_att _ _ _ _ Hi1)|exact He|]. intros e0 _ _ _.
    apply fails_bind. eapply (wp_hook c); [exact Hi1|eauto 10|]. intros s2 Hi2 _. 
    rewrite (proj1 (proj2 Hk)), Hck.
    apply fails_left. unfold on_store, zoom. by rewrite (Hlat _ (iv_store _ _ _ _ Hi2)).
Qed.

Lemma StoreAddr_fails addr size pf a err s : inv false a s → 0 ≤ addr < c_phy_range c → fits addr size →
  (if bool_decide (page_of c (addr / bs) ∈ k_pages (conf s)) then
     in_checkpointing_ (ctl s) = true ∧
     (unmapped a (addr / bs) ∧ ¬ has_room a true ∧ err = EAssert "AddrTransController::DRAMStore" ∨
      ¬ unmapped a (addr / bs) ∧ ∀ st, st_ok st → GetWriteLatency addr true None st = Err err)
   else unmapped a (addr / bs) ∧ ¬ has_room a (in_checkpointing_ (ctl s)) ∧ err = EAssert "AddrTransController::NVMStore") →
  StoreAddr addr size pf s = Err err.
Proof.
  intros Hi Ha Hf Hwhy. pose proof (iv_geom _ _ _ _ Hi) as Hg. pose proof (storing_refl addr size _ _ Hi) as A0.
  unfold StoreAddr. apply fails_bind, wp_CheckValid; [done..|]. apply fails_bind, wp_get. apply fails_bind.
  apply wp_assert; [rewrite (cg_phy _ _ Hg); simpl; apply Z.ltb_lt; lia|]. apply fails_bind. eapply (wp_sys_LookupPage c Hc); [done|..].
  - intros ps1 Hps1 Hp. rewrite bool_decide_eq_false_2 in Hwhy by done. destruct Hwhy as (Hu & Hroom & ->).
    pose proof (storing_prof c addr size a s _ _ _ A0 Hps1) as A1. simpl. apply fails_bind.
    eapply (storing_hook c Hc); [exact A1|auto 10|]. intros s2 A2.
    apply (NVMStore_fails _ _ _ a); [by eapply storing_inv|done|done|by rewrite (storing_ck _ _ _ _ _ _ _ A2)].
  - intros ps1 e Hps1 Hp He Hb Hx. rewrite bool_decide_eq_true_2 in Hwhy by done. destruct Hwhy as (Hck & Hor).
    pose proof (storing_prof c addr size a s _ _ _ A0 Hps1) as A1. destruct (Z.ltb_spec (Mig.index e) 0); [lia|].
    apply fails_seq. eapply wp_page_write; [exact A1|exact He|done|done|]. intros e' s2 A2 Ex. apply wp_ret.
    apply fails_bind. eapply (storing_hook c Hc); [exact A2|auto 10|]. intros s3 A3.
    apply (DRAMStore_fails _ _ _ _ a); [by eapply storing_inv|done|by rewrite (storing_ck _ _ _ _ _ _ _ A3)|done].
Qed.

End Access.
