(* ===== verification/ControllerEpoch.v ===== *)
(** The end of an epoch: [MigratePages] revokes the loans and moves pages between
    NVM and DRAM, [BeginCheckpointing] flushes the table, [FinishCheckpointing]
    releases the backups of the checkpoint before. *)

From Stdlib Require Import QArith.
From S2P Require Import Prelude Profiler StdAlgo MemStore PersistSpec PersistFacts MigrationSpec.
From S2P Require Import IndexQueue.
From S2P Require Import AddrTransController ControllerInv ControllerOps ControllerStore.
#[global] Open Scope Z_scope.

(** ** Queues *)

Lemma lremove_snoc i l : ATT.lremove i (ATT.lremove i l ++ [i]) = ATT.lremove i l.
Proof.
  unfold ATT.lremove. rewrite filter_app, list_filter_filter_r by done.
  rewrite (filter_singleton_False) by auto. apply app_nil_r.
Qed.

Lemma lremove_head i l : NoDup (i :: l) → ATT.lremove i (i :: l) = l.
Proof. intros Hnd. by apply (ATT.lremove_split [] i l). Qed.

Lemma shift_queue i e st a st' : ATT.StateIndex st ≠ ATT.StateIndex st' →
  ATT.StateIndex (ATT.state e) = ATT.StateIndex st' →
  ATT.qof (ATT.abs_shift i e st a) st' = ATT.lremove i (ATT.qof a st').
Proof.
  intros Hne E. unfold ATT.qof, ATT.abs_shift, ATT.qmove. cbn [ATT.a_q]. rewrite E.
  rewrite ATT.qset_ne by done. apply ATT.qset_eq.
Qed.

Lemma shift_queue_same i e st a st' : ATT.StateIndex st = ATT.StateIndex st' →
  ATT.StateIndex (ATT.state e) = ATT.StateIndex st' →
  ATT.qof (ATT.abs_shift i e st a) st' = ATT.lremove i (ATT.qof a st') ++ [i].
Proof.
  intros Es E. unfold ATT.qof, ATT.abs_shift, ATT.qmove. cbn [ATT.a_q]. by rewrite Es, E, !ATT.qset_eq.
Qed.

Lemma pf_ignored pf ps ps' : ignore_latency_ (sel pf ps) = false →
  pf_same (upd pf (set_ignore_latency_ true (sel pf ps)) ps) ps' →
  pf_same ps (upd pf (set_ignore_latency_ false (sel pf ps')) ps').
Proof.
  intros Hign H r. specialize (H r). destruct pf, r; cbn in *; destruct H as (?&?&?&?); by rewrite ?Hign.
Qed.

Section Epoch.
Context (c : Config) (Hc : wf_config c) {St : Type} `{!MemStore St, !MemStoreLaws St c}.
Context `{HO : HashOrder, HA : HeapAlgo}.
Implicit Types s : Sys St.

Abbreviation bs := (c_bsize c).
Abbreviation conf := (conf c).
Abbreviation inv := (inv c).
Abbreviation keeps := (ControllerOps.keeps).

#[local] Hint Resolve VB.vb_next_refl VB.vb_next_move : core.
#[local] Hint Resolve nslot_inj dslot_inj : core.
#[local] Hint Resolve iv_geom iv_att iv_nvm iv_dram iv_store iv_rn iv_rd iv_dback iv_b1 : core.

(** ** Dropping an entry *)

Lemma room_fewer ck fl b0 b1 n n' : room_ok c ck fl b0 b1 n → n' ≤ n → room_ok c ck fl b0 b1 n'.
Proof. unfold room_ok. intros [? Hr] ?. split; [done|]. destruct ck; [lia|]. intros Hf. specialize (Hr Hf). lia. Qed.

(** The entry of block [t] is gone and nothing else changed. *)
Definition dropped s s' (t : Z) : Prop :=
  conf s' = MkConf (k_ck (conf s)) (delete t (k_blocks (conf s))) (k_b0 (conf s)) (k_b1 (conf s))
    (k_pages (conf s)) (k_mem (conf s)) ∧
  keeps s s' ∧ ckpt s' = ckpt s ∧ store s' = store s.

Lemma wp_Discard fl a i e (nvm : bool) pf (Q : unit → Sys St → Prop) s : inv fl a s →
  in_checkpointing_ (ctl s) = false → ATT.a_live a !! i = Some e →
  (if nvm then in_nvm e else in_dram e) = true →
  (∀ s', inv fl (ATT.abs_shift i e ATT.FREE a) s' → dropped s s' (ATT.phy_tag e) → Q tt s') →
  wp (Discard i nvm pf) Q s.
Proof.
  intros Hi Hck He Hk HQ. pose proof (iv_geom _ _ _ _ Hi) as Hg.
  destruct (ATT.r_state _ _ (iv_att _ _ _ _ Hi) _ _ He) as [Hnf _].
  unfold Discard. wp_step. apply (wp_phase false); [done|]. wp_steps. apply wp_assert; [done|]. wp_step.
  eapply wp_sys_At; [eauto|done|]. intros e0 _ _ Eb. wp_step. rewrite Eb.
  assert (∀ v d ps1, VB.vb_next (nvm_buffer_ (ctl s)) v → VB.vb_next (dram_buffer_ (ctl s)) d →
    VB.vset v VB.BACKUP0 = VB.vset (nvm_buffer_ (ctl s)) VB.BACKUP0 →
    VB.vset v VB.BACKUP1 = VB.vset (nvm_buffer_ (ctl s)) VB.BACKUP1 →
    VB.vset d VB.BACKUP0 = ∅ ∧ VB.vset d VB.BACKUP1 = ∅ →
    region in_nvm (nslot c) (delete i (ATT.a_live a)) (VB.vset v VB.IN_USE) →
    region in_dram (dslot c) (delete i (ATT.a_live a)) (VB.vset d VB.IN_USE) →
    pf_same (profs s) ps1 → wp (on_att (ATT.ShiftState i ATT.FREE pf)) Q
      (upd_sys (att_ (ctl s)) v d (store s) ps1 (ckpt s) s)) as Hrest.
  { intros v d ps1 Hv Hd Eb0 Eb1 Hdb Hrn Hrd Hps1. apply wp_zoom. cbn [ctl upd_sys att_ profs].
    eapply ATT.wp_att_ShiftState; [exact (iv_att _ _ _ _ Hi)|done|done|]. intros t' ps2 Hrep Hsc Hps2.
    destruct (tr_delete c fl fl a _ s Hi i t' v d (store s) ps2 (ckpt s) Hsc (iv_store _ _ _ _ Hi) Hrep)
      with (e := e) as [Hinv Hcf]; eauto; rewrite ?abs_shift_gone, ?Eb0, ?Eb1; eauto.
    - eapply room_fewer; [apply (iv_room _ _ _ _ Hi)|]. destruct (is_clean e); simpl; lia.
    - apply (HQ _ Hinv). split; [|split; [apply upd_keeps; by etrans|done]].
      rewrite Hcf. unfold conf_next. by rewrite Eb0, Eb1. }
  destruct nvm; apply wp_zoom; cbn [ctl profs].
  - destruct (entry_nvm _ _ _ _ _ _ Hi He Hk) as (k&Ek&Hkr&Hu&Hk0&Hk1).
    rewrite Ek, <- (nvm_slot _ _ _ Hg). apply VB.wp_FreeSlot; [eauto|done|]. intros ps1 Hps1.
    apply (Hrest (VB.vmove k VB.IN_USE VB.FREE (nvm_buffer_ (ctl s))) (dram_buffer_ (ctl s)) ps1); vmove_sets; eauto.
    + eapply (region_remove in_nvm); eauto.
    + eapply (region_drop in_dram); eauto. apply (kind_nvm _ Hk).
  - destruct (entry_dram _ _ _ _ _ _ Hi He Hk) as (d&Ed&Hdr&Hu).
    rewrite Ed, <- (dram_slot _ _ _ Hg). apply VB.wp_FreeSlot; [eauto|done|]. intros ps1 Hps1.
    apply (Hrest (nvm_buffer_ (ctl s)) (VB.vmove d VB.IN_USE VB.FREE (dram_buffer_ (ctl s))) ps1); vmove_sets; eauto.
    + eapply (region_drop in_nvm); eauto. unfold in_nvm, in_dram in *. by destruct (ATT.state e).
    + eapply (region_remove in_dram); eauto.
Qed.

(** ** Traces *)

Definition trace (P : label → bool) s s' : Prop :=
  ∃ ls, csteps c (conf s) ls (conf s') ∧ Forall (λ l, P l = true) ls.

Lemma trace_same P s s' : conf s' = conf s → trace P s s'.
Proof. intros E. exists []. rewrite E. split; constructor. Qed.

Lemma trace_trans P s s1 s' : trace P s s1 → trace P s1 s' → trace P s s'.
Proof.
  intros (ls&H1&F1) (ls'&H2&F2). exists (ls ++ ls'). split; [by eapply csteps_app|by apply Forall_app].
Qed.

Lemma trace_step P fl a s l s' : inv fl a s → cstep c (conf s) l (conf s') → P l = true → trace P s s'.
Proof.
  intros Hi Hs Hl. exists [l]. split; [apply csteps_one; [by eapply inv_cinv|done]|by repeat constructor].
Qed.

(** ** Visiting a queue *)

Lemma queue_next t a st i l : ATT.att_rep t a → ATT.qof a st = i :: l →
  next <$> node_at (ATT.entries_ t) i = Some (hd_or (- EINVAL) l) ∧ 0 ≤ i.
Proof.
  intros Hrep Hq. split.
  - destruct (ATT.r_q _ _ Hrep) as [Hqs _].
    destruct (Hqs _ (ATT.StateIndex_range st)) as (q&_&_&Hd&_). unfold ATT.qof in Hq.
    rewrite Hq in Hd. destruct Hd as [-> _]. done.
  - apply (ATT.r_cover _ _ Hrep i). exists (ATT.StateIndex st). split; [apply ATT.StateIndex_range|].
    unfold ATT.qof in Hq. rewrite Hq. apply list_elem_of_here.
Qed.

Lemma queue_length t a st : ATT.att_rep t a → (length (ATT.qof a st) ≤ Z.to_nat (ATT.length_ t))%nat.
Proof.
  intros Hrep. transitivity (length (zseq (ATT.length_ t))); [|unfold zseq; by rewrite length_seqZ].
  apply submseteq_length, NoDup_submseteq; [by eapply ATT.rep_NoDup|]. intros i Hin.
  apply ATT.elem_of_zseq, (ATT.r_cover _ _ Hrep). exists (ATT.StateIndex st).
  split; [apply ATT.StateIndex_range|done].
Qed.

Lemma wp_VisitQueue fl a st (visit : Z → M (Sys St) unit) (I : list Z → Sys St → Prop)
    (Q : Z → Sys St → Prop) s : inv fl a s → ATT.state_num st ≤ 3 → I (ATT.qof a st) s →
  (∀ i l s', I (i :: l) s' → (∃ a', ATT.att_rep (att_ (ctl s')) a' ∧ ATT.qof a' st = i :: l) ∧
     wp (visit i) (λ _, I l) s') →
  (∀ n s', I [] s' → Q n s') →
  wp (ATT.VisitQueue (λ s, att_ (ctl s)) st visit) Q s.
Proof.
  intros Hi Hs HI Hv HQ. pose proof (iv_att _ _ _ _ Hi) as Hrep.
  destruct (proj1 (ATT.r_q _ _ Hrep) _ (ATT.StateIndex_range st)) as (q&Hq&Hlist).
  unfold ATT.VisitQueue. wp_step. apply wp_assert; [by apply Z.leb_le|]. wp_steps.
  eapply wp_of_option; [exact Hq|]. unfold Accept. wp_steps.
  rewrite (proj1 (proj2 (proj2 Hlist))). eapply wp_mono.
  - apply (wp_Accept_loop _ _ visit I (ATT.qof a st)); [|done|].
    + pose proof (queue_length _ _ st Hrep). lia.
    + intros i l s' HI'. destruct (Hv _ _ _ HI') as [(a'&Hrep'&Hq') Hw].
      destruct (queue_next _ _ _ _ _ Hrep' Hq'). done.
  - intros n s' [_ HI']. by apply HQ.
Qed.

(** ** Revoking loans *)

Definition loan_label (l : label) : bool := match l with LFreeLoan _ true => true | _ => false end.

Lemma live_front a st i l t : ATT.att_rep t a → st ≠ ATT.FREE → ATT.qof a st = i :: l →
  NoDup (i :: l) ∧ ∃ e, ATT.a_live a !! i = Some e ∧ ATT.StateIndex (ATT.state e) = ATT.StateIndex st.
Proof.
  intros Hrep Hst Hq. split; [rewrite <- Hq; by eapply ATT.rep_NoDup|].
  apply (ATT.rep_queue_live _ _ Hrep st i Hst). rewrite Hq. apply list_elem_of_here.
Qed.

Lemma StateIndex_LOAN st : ATT.StateIndex st = ATT.StateIndex ATT.LOAN → st = ATT.LOAN.
Proof. by destruct st. Qed.

(** What holds while the loans [l] remain; the statistics stay fit for [InputBlocks]. *)
Definition revoking s0 (l : list Z) s : Prop := ∃ a, inv false a s ∧ stats_ok a ∧
  ATT.qof a ATT.LOAN = l ∧ in_checkpointing_ (ctl s) = false ∧ keeps s0 s ∧ trace loan_label s0 s.

Lemma keeps_trans s s1 s' : keeps s s1 → keeps s1 s' → keeps s s'.
Proof. intros (?&?&?) (?&?&?). split_and!; [congruence|congruence|by etrans]. Qed.

Lemma wp_LoanRevoker pf s0 i l s : revoking s0 (i :: l) s →
  wp (LoanRevoker_Visit pf i) (λ _, revoking s0 l) s.
Proof.
  intros (a&Hi&Hs&Hq&Hck&Hk&Ht). pose proof (iv_att _ _ _ _ Hi) as Hrep.
  destruct (live_front a ATT.LOAN i l _ Hrep) as (Hnd&e&He&Est%StateIndex_LOAN); [done|exact Hq|].
  unfold LoanRevoker_Visit. wp_step. eapply wp_sys_At; [done|done|]. intros e0 Es0 _ _. wp_step.
  apply wp_assert; [by rewrite Es0, Est|]. eapply (wp_FreeLoan c Hc); [done..|]. intros s' Hi' Hs' Hk' _.
  exists (ATT.abs_shift i e ATT.FREE a). split_and!; [done| | | | |].
  - eapply stats_free; [done|done|done|by rewrite Est].
  - rewrite shift_queue by (rewrite ?Est; done). rewrite Hq. by apply lremove_head.
  - destruct Hk' as (_&->&_). done.
  - by eapply keeps_trans.
  - eapply trace_trans; [done|]. by eapply trace_step.
Qed.

(** ** Flushing the table *)

Lemma inv_flush a s : inv false a s → inv true a s.
Proof.
  intros Hi. pose proof (iv_room _ _ _ _ Hi) as [? Hr]. destruct Hi. split; try done. split; [done|].
  by destruct (in_checkpointing_ (ctl s)).
Qed.

Lemma wp_clean_dirty a i e pf (Q : unit → Sys St → Prop) s : inv true a s →
  in_checkpointing_ (ctl s) = false → ATT.a_live a !! i = Some e → ATT.state e = ATT.DIRTY →
  (∀ s', inv true (ATT.abs_shift i e ATT.CLEAN a) s' →
     cstep c (conf s) (LCleanDirty (ATT.phy_tag e)) (conf s') → keeps s s' → Q tt s') →
  wp (on_att (ATT.ShiftState i ATT.CLEAN pf)) Q s.
Proof.
  intros Hi Hck He Es HQ. pose proof (iv_entry _ _ _ _ Hi _ _ He) as Heo. apply wp_zoom.
  eapply ATT.wp_att_ShiftState; [exact (iv_att _ _ _ _ Hi)|done|by rewrite Es|].
  intros t' ps' Hrep Hsc Hps.
  destruct (tr_insert c true true a _ s Hi i t' (nvm_buffer_ (ctl s)) (dram_buffer_ (ctl s)) (store s)
    ps' (ckpt s) Hsc (iv_store _ _ _ _ Hi) Hrep) with (e := e) (e' := ATT.set_state ATT.CLEAN e)
    as [Hinv Hcf]; eauto; rewrite ?abs_shift_live by done; eauto.
  - eapply (region_same in_nvm); eauto. unfold in_nvm. by rewrite Es.
  - eapply (region_out in_dram); eauto. unfold in_dram. by rewrite Es.
  - eapply entry_ok_next; [exact Heo|done|by rewrite Es|done|auto].
  - rewrite Hck. split; [apply (iv_room _ _ _ _ Hi)|done].
  - apply (HQ _ Hinv); [|by apply upd_keeps]. rewrite Hcf. unfold conf_next. rewrite Hck.
    eapply (S_clean_dirty c (conf s)); [done| |done].
    simpl. by rewrite (blocks_of_live _ _ (iv_att _ _ _ _ Hi) _ _ He), Es.
Qed.

Lemma wp_drop_hidden fl a i e pf (Q : unit → Sys St → Prop) s : inv fl a s →
  ATT.a_live a !! i = Some e → ATT.state e = ATT.HIDDEN →
  (∀ s', inv fl (ATT.abs_shift i e ATT.FREE a) s' → dropped s s' (ATT.phy_tag e) → Q tt s') →
  wp (on_att (ATT.ShiftState i ATT.FREE pf)) Q s.
Proof.
  intros Hi He Es HQ. apply wp_zoom.
  eapply ATT.wp_att_ShiftState; [exact (iv_att _ _ _ _ Hi)|done|by rewrite Es|].
  intros t' ps' Hrep Hsc Hps.
  destruct (tr_delete c fl fl a _ s Hi i t' (nvm_buffer_ (ctl s)) (dram_buffer_ (ctl s)) (store s)
    ps' (ckpt s) Hsc (iv_store _ _ _ _ Hi) Hrep) with (e := e) as [Hinv Hcf];
    eauto; rewrite ?abs_shift_gone.
  - eapply (region_drop in_nvm); eauto. unfold in_nvm. by rewrite Es.
  - eapply (region_drop in_dram); eauto. unfold in_dram. by rewrite Es.
  - eapply room_fewer; [apply (iv_room _ _ _ _ Hi)|]. destruct (is_clean e); simpl; lia.
  - apply (HQ _ Hinv). by split; [|split; [apply upd_keeps|]].
Qed.

(** What holds while the entries [l] of the dirty queue remain. *)
Definition flushing s0 (l : list Z) s : Prop := ∃ a, inv true a s ∧
  ATT.qof a ATT.DIRTY = l ∧ ATT.qof a ATT.LOAN = [] ∧
  in_checkpointing_ (ctl s) = false ∧ keeps s0 s ∧ trace flush_label s0 s.

Lemma shift_queue_other i e st a st' : ATT.StateIndex st ≠ ATT.StateIndex st' →
  ATT.StateIndex (ATT.state e) ≠ ATT.StateIndex st' →
  ATT.qof (ATT.abs_shift i e st a) st' = ATT.qof a st'.
Proof.
  intros Hne Hne'. unfold ATT.qof, ATT.abs_shift, ATT.qmove. cbn [ATT.a_q].
  by rewrite !ATT.qset_ne by done.
Qed.

Lemma flushing_step s0 a l s : ∀ a' s' lb, inv true a s → inv true a' s' →
  in_checkpointing_ (ctl s) = false → keeps s0 s → trace flush_label s0 s →
  cstep c (conf s) lb (conf s') → flush_label lb = true → keeps s s' →
  ATT.qof a' ATT.DIRTY = l → ATT.qof a' ATT.LOAN = [] → flushing s0 l s'.
Proof.
  intros a' s' lb Hi Hi' Hck Hk0 Ht Hs Hl Hk Hd Hn. exists a'. split_and!; [done..| | |].
  - by rewrite (proj1 (proj2 Hk)).
  - by eapply keeps_trans.
  - eapply trace_trans; [done|]. by eapply trace_step.
Qed.

(** The second half of the visit: a dirty entry becomes clean, a hidden one free. *)
Lemma wp_visit_finish a s0 i e l s : inv true a s → in_checkpointing_ (ctl s) = false →
  keeps s0 s → trace flush_label s0 s → ATT.a_live a !! i = Some e →
  ATT.state e = ATT.DIRTY ∨ ATT.state e = ATT.HIDDEN →
  ATT.lremove i (ATT.qof a ATT.DIRTY) = l → ATT.qof a ATT.LOAN = [] →
  wp (entry ← att_ref i;
      if ATT.state_eqb (ATT.state entry) ATT.DIRTY then
        on_att (ATT.ShiftState i ATT.CLEAN PfOverlap)
      else if ATT.state_eqb (ATT.state entry) ATT.HIDDEN then
        on_att (ATT.ShiftState i ATT.FREE PfOverlap)
      else mret tt) (λ _, flushing s0 l) s.
Proof.
  intros Hi Hck Hk0 Ht He Hst Hd Hn. wp_step. eapply wp_sys_ref; [done|done|]. intros e0 _ ->.
  destruct Hst as [Es|Es]; rewrite Es; simpl.
  - eapply wp_clean_dirty; [done..|]. intros s' Hi' Hs Hk.
    eapply (flushing_step _ a _ s); [done|done|done|done|done|done|done|done|..].
    + by rewrite shift_queue by (rewrite ?Es; done).
    + by rewrite shift_queue_other by (rewrite ?Es; done).
  - eapply wp_drop_hidden; [done..|]. intros s' Hi' (Ec&Hk&_).
    eapply (flushing_step _ a _ s _ _ (LDropHidden (ATT.phy_tag e))); [done|done|done|done|done| |done|done|..].
    + rewrite Ec. cbn [k_ck k_blocks k_b0 k_b1 k_pages k_mem ControllerInv.conf]. rewrite Hck.
      eapply (S_drop_hidden c (conf s)); [done| |done].
      cbn. by rewrite (blocks_of_live _ _ (iv_att _ _ _ _ Hi) _ _ He), Es.
    + by rewrite shift_queue by (rewrite ?Es; done).
    + by rewrite shift_queue_other by (rewrite ?Es; done).
Qed.

Lemma wp_DirtyCleaner pf s0 i l s : flushing s0 (i :: l) s →
  wp (DirtyCleaner_Visit pf i) (λ _, flushing s0 l) s.
Proof.
  intros (a&Hi&Hq&Hn&Hck&Hk&Ht). pose proof (iv_att _ _ _ _ Hi) as Hrep.
  destruct (live_front a ATT.DIRTY i l _ Hrep) as (Hnd&e&He&Est); [done|exact Hq|].
  unfold DirtyCleaner_Visit. wp_step. eapply wp_sys_At; [done|done|]. intros e0 -> _ _. wp_step.
  destruct (ATT.state e) eqn:Es; try done; simpl.
  - wp_step. eapply wp_visit_finish; [done..|by left|rewrite Hq; by apply lremove_head|done].
  - wp_step. eapply wp_visit_finish; [done..|by right|rewrite Hq; by apply lremove_head|done].
  - eapply (wp_HideTemp c Hc); [done..|]. intros s1 Hi1 Hs1 Hk1 _.
    eapply wp_visit_finish; [exact Hi1|by rewrite (proj1 (proj2 Hk1))|by eapply keeps_trans| |
      by rewrite abs_shift_live, lookup_insert_eq|by right|..].
    + eapply trace_trans; [done|]. by eapply trace_step.
    + rewrite shift_queue_same by (cbn; rewrite ?Es; done). rewrite lremove_snoc, Hq. by apply lremove_head.
    + by rewrite shift_queue_other by (cbn; rewrite ?Es; done).
  - wp_step. eapply (wp_DirtyStained c Hc); [done..|]. intros n s1 Hn1 Hi1 Hs1 Hk1 _. wp_step.
    eapply wp_visit_finish; [exact Hi1|by rewrite (proj1 (proj2 Hk1))|by eapply keeps_trans| |
      by rewrite abs_shift_live, lookup_insert_eq|by left|..].
    + eapply trace_trans; [done|]. by eapply trace_step.
    + rewrite shift_queue_same by (cbn; rewrite ?Es; done). rewrite lremove_snoc, Hq. by apply lremove_head.
    + by rewrite shift_queue_other by (cbn; rewrite ?Es; done).
Qed.

(** ** Checkpointing *)

Lemma all_clean t a i e : ATT.att_rep t a → ATT.qof a ATT.DIRTY = [] → ATT.qof a ATT.LOAN = [] →
  ATT.a_live a !! i = Some e → ATT.state e = ATT.CLEAN.
Proof.
  intros Hrep Hd Hn He. destruct (ATT.r_state _ _ Hrep _ _ He) as [Hnf Hin].
  unfold ATT.qof in *. destruct (ATT.state e) eqn:Es; try done;
    unfold ATT.StateIndex in *; simpl in *; rewrite ?Hd, ?Hn in Hin; by apply elem_of_nil in Hin.
Qed.

Lemma clean_free_length t a : ATT.att_rep t a → ATT.qof a ATT.DIRTY = [] → ATT.qof a ATT.LOAN = [] →
  Z.of_nat (length (ATT.qof a ATT.CLEAN)) + Z.of_nat (length (ATT.qof a ATT.FREE)) = ATT.length_ t.
Proof.
  intros Hrep Hd Hn. rewrite <- Nat2Z.inj_add, <- length_app.
  assert (ATT.qof a ATT.CLEAN ++ ATT.qof a ATT.FREE ≡ₚ zseq (ATT.length_ t)) as ->.
  { apply NoDup_Permutation; [|apply NoDup_seqZ|].
    - apply NoDup_app. split; [by eapply ATT.rep_NoDup|]. split; [|by eapply ATT.rep_NoDup].
      intros i H1 H2. by pose proof (proj2 (ATT.r_q _ _ Hrep) _ _ i (ATT.StateIndex_range ATT.CLEAN)
        (ATT.StateIndex_range ATT.FREE) H1 H2).
    - intros i. rewrite ATT.elem_of_zseq, <- (ATT.r_cover _ _ Hrep), elem_of_app. unfold ATT.qof in *. split.
      + by intros [?|?]; eexists; (split; [apply ATT.StateIndex_range|done]).
      + intros (k&Hk&Hin). assert (k = 0 ∨ k = 1 ∨ k = 2 ∨ k = 3) as [-> |[-> |[-> | ->]]] by lia;
          unfold ATT.StateIndex in *; simpl in *; rewrite ?Hd, ?Hn in Hin; auto; by apply elem_of_nil in Hin. }
  unfold zseq. rewrite length_seqZ. pose proof (ATT.r_len _ _ Hrep). lia.
Qed.

(** The phase changes once every entry is clean. *)
Lemma begin_inv a s ps : inv true a s → in_checkpointing_ (ctl s) = false →
  ATT.qof a ATT.DIRTY = [] → ATT.qof a ATT.LOAN = [] →
  let s' := MkSys (set_in_checkpointing_ true (ctl s)) (store s) ps (ckpt s) in
  inv false a s' ∧ cstep c (conf s) LBegin (conf s').
Proof.
  intros Hi Hck Hd Hn s'. pose proof (iv_att _ _ _ _ Hi) as Hrep.
  assert (∀ i e, ATT.a_live a !! i = Some e → ATT.state e = ATT.CLEAN) as Hcl
    by (intros; by eapply all_clean).
  split.
  - pose proof (iv_room _ _ _ _ Hi) as [Hb0 _]. pose proof (iv_b1 _ _ _ _ Hi Hck) as Hb1.
    pose proof (iv_entry _ _ _ _ Hi) as Heo. pose proof (live_size _ _ Hrep).
    pose proof (mcount_le_size is_clean (ATT.a_live a)). pose proof (cg_len _ _ (iv_geom _ _ _ _ Hi)).
    destruct Hi as [[]]. split; try done.
    + intros i e He. destruct (Heo i e He) as [????]. split; [done|done|done|]. eauto.
    + split; [done|]. change (Z.of_nat (size (VB.vset (nvm_buffer_ (ctl s)) VB.BACKUP1)) +
        mcount is_clean (ATT.a_live a) ≤ c_att_len c). rewrite Hb1, size_empty. lia.
  - apply (S_begin c (conf s)); [done| |done].
    intros t st b (i&e&He&_&<-&_)%(blocks_of_Some _ _ Hrep). eauto.
Qed.

Lemma blocks_clear t t' a : ATT.att_rep t a → ATT.att_rep t' (ATT.abs_clear a) → blocks_of t' = blocks_of t.
Proof.
  intros H1 H2. apply map_eq. intros tag. apply option_eq. intros [st b].
  rewrite (blocks_of_Some _ _ H1), (blocks_of_Some _ _ H2). split.
  - intros (i&e&He&<-&<-&<-). cbn in He. rewrite lookup_fmap in He.
    apply fmap_Some in He as (e0&He0&->). by exists i, e0.
  - intros (i&e&He&<-&<-&<-). exists i, (ATT.clear_stats e). cbn. by rewrite lookup_fmap, He.
Qed.

(** [ClearStats] forgets the counters only. *)
Lemma wp_sys_ClearStats a pf (Q : unit → Sys St → Prop) s : inv false a s →
  (∀ s', inv false (ATT.abs_clear a) s' → quiet_step c s s' → Q tt s') →
  wp (on_att (ATT.ClearStats pf)) Q s.
Proof.
  intros Hi HQ. apply wp_zoom. apply (ATT.wp_ClearStats _ a); [eauto|]. intros t' ps' Hrep Hsc Hps.
  cbn [fst snd]. apply HQ.
  - apply (inv_change c false false a _ s); [done|done|done|done|done|done|done|done|
      exact (iv_nvm _ _ _ _ Hi)|exact (iv_dram _ _ _ _ Hi)|exact (iv_store _ _ _ _ Hi)|
      |..|exact (iv_dback _ _ _ _ Hi)|exact (iv_b1 _ _ _ _ Hi)|].
    + apply region_fmap; [exact (iv_rn _ _ _ _ Hi)|done].
    + apply region_fmap; [exact (iv_rd _ _ _ _ Hi)|done].
    + intros i e. cbn. rewrite lookup_fmap. intros (e0&He0&->)%fmap_Some.
      destruct (iv_entry _ _ _ _ Hi _ _ He0). by split.
    + unfold room. cbn. rewrite mcount_fmap. apply (iv_room _ _ _ _ Hi).
  - split; [|done]. unfold ControllerInv.conf. cbn. by rewrite (blocks_clear _ _ _ (iv_att _ _ _ _ Hi) Hrep).
Qed.

Lemma stats_clear a : stats_ok (ATT.abs_clear a).
Proof.
  intros i e. cbn. rewrite zlookup_fmap. intros (e0&_&->)%fmap_Some. by destruct 1.
Qed.

Lemma wp_BeginCheckpointing a pf (Q : unit → Sys St → Prop) s : inv false a s →
  in_checkpointing_ (ctl s) = false → ATT.qof a ATT.LOAN = [] →
  (∀ a' s' ls, inv false a' s' → ready a' s' → in_checkpointing_ (ctl s') = true →
     csteps c (conf s) (ls ++ [LBegin]) (conf s') → Forall (λ l, flush_label l = true) ls →
     pf_same (profs s) (profs s') → Q tt s') →
  wp (BeginCheckpointing pf) Q s.
Proof.
  intros Hi Hck Hn HQ. unfold BeginCheckpointing. wp_step. apply (wp_phase false); [done|].
  wp_step. apply wp_assert; [done|]. wp_step.
  eapply (wp_VisitQueue _ _ _ _ (flushing s)); [exact Hi|done| | |].
  { exists a. split_and!; [by apply inv_flush|done..|]. by apply trace_same. }
  { intros i l s1 HI. split; [|by apply wp_DirtyCleaner]. destruct HI as (a1&Hi1&Hq1&_). eauto. }
  intros _ s1 (a1&Hi1&Hd1&Hn1&Hck1&(_&_&Hps1)&(ls&Hls&Hfl)). pose proof (iv_att _ _ _ _ Hi1) as Hrep1.
  wp_step. eapply wp_sys_GetLength; [done|done|]. wp_step. eapply wp_sys_GetLength; [done|done|].
  wp_steps. apply wp_assert; [apply Z.eqb_eq; by apply clean_free_length|]. wp_step.
  apply wp_on_pf; [apply _|]. intros ps2 Hps2. wp_steps. cbn [ctl store profs ckpt set_ctl].
  destruct (begin_inv a1 s1 ps2 Hi1 Hck1 Hd1 Hn1) as [Hi2 Hs2].
  eapply wp_sys_ClearStats; [exact Hi2|]. intros s3 Hi3 (Ec3&(Em3&Eck3&Hps3)&_).
  wp_steps. apply wp_zoom. eapply wp_Clear; [apply (iv_mig _ _ _ _ Hi3)|].
  intros m' ps4 Hm4 Hst4 Hg4 Hps4 Hent4 _ Hp4 Hdh4 Hnh4 _ _. cbn [fst snd]. wp_steps.
  assert (dom (Mig.entries_ m') = dom (Mig.entries_ (migrator_ (ctl s3)))) as Hdom
    by (rewrite Hent4; apply dom_fmap_L).
  pose proof (inv_mig c false _ s3 m' ps4 Hi3 Hm4 Hg4 Hdom) as Hi4.
  pose proof (conf_mig c s3 m' ps4 Hdom) as Ec4.
  apply (HQ (ATT.abs_clear a1) _ ls); [|split; [apply stats_clear|done]|exact Eck3| |done|].
  - destruct Hi4. by split.
  - eapply csteps_snoc; [exact Hls|by eapply inv_cinv|].
    change (cstep c (conf s1) LBegin (conf (MkSys (set_migrator_ m' (ctl s3)) (store s3) ps4 (ckpt s3)))).
    by rewrite Ec4, Ec3.
  - cbn in *. etrans; [done|]. etrans; [done|]. by etrans.
Qed.

(** The backups of the checkpoint before become free, the others take their place. *)
Lemma finish_inv a s ps : inv false a s → in_checkpointing_ (ctl s) = true →
  let s' := MkSys (set_in_checkpointing_ false (set_nvm_buffer_ (VB.vclear (nvm_buffer_ (ctl s))) (ctl s)))
    (store s) ps (ckpt s) in
  inv false a s' ∧ cstep c (conf s) LFinish (conf s').
Proof.
  intros Hi Hck s'. pose proof (iv_nvm _ _ _ _ Hi) as Hv.
  pose proof (λ x, VB.vset_vclear _ x (VB.v_sets _ Hv)) as Hsets.
  pose proof (iv_room _ _ _ _ Hi) as [Hb0 Hr]. rewrite Hck in Hr. split.
  - pose proof (iv_entry _ _ _ _ Hi) as Heo. pose proof (iv_rn _ _ _ _ Hi) as Hrn.
    pose proof (geom_nvm c _ (VB.vclear (nvm_buffer_ (ctl s))) (iv_geom _ _ _ _ Hi) ltac:(done)) as Hg.
    assert (room c false a s') as Hroom.
    { unfold room, s'. cbn [ctl in_checkpointing_ set_in_checkpointing_ nvm_buffer_ set_nvm_buffer_].
      rewrite !Hsets, size_empty. unfold room_ok. pose proof (mcount_nonneg is_clean (ATT.a_live a)). lia. }
    destruct Hi. split; try done.
    + by destruct Hg.
    + by apply VB.vclear_ok.
    + unfold s'. cbn [ctl nvm_buffer_ set_in_checkpointing_ set_nvm_buffer_]. by rewrite (Hsets VB.IN_USE).
    + intros i e He. destruct (Heo i e He). by split.
  - unfold s', ControllerInv.conf. cbn [ctl store in_checkpointing_ set_in_checkpointing_ nvm_buffer_
      set_nvm_buffer_ att_ migrator_]. rewrite (Hsets VB.BACKUP0), (Hsets VB.BACKUP1).
    by apply (S_finish c (conf s)).
Qed.

Lemma wp_FinishCheckpointing a (Q : unit → Sys St → Prop) s : inv false a s →
  in_checkpointing_ (ctl s) = true →
  (∀ s', inv false a s' → (ready a s → ready a s') → in_checkpointing_ (ctl s') = false →
     csteps c (conf s) [LFinish; LTau] (conf s') → pf_same (profs s) (profs s') → ckpt s' = ckpt s → Q tt s') →
  wp FinishCheckpointing Q s.
Proof.
  intros Hi Hck HQ. unfold FinishCheckpointing. wp_step. apply (wp_phase true); [done|].
  wp_step. apply wp_assert; [done|]. wp_step. apply wp_zoom. cbn [ctl profs].
  apply VB.wp_ClearBackup; [eauto|]. intros ps1 Hps1. wp_steps. cbn [fst snd ctl store profs ckpt set_ctl].
  destruct (finish_inv a s ps1 Hi Hck) as [Hi1 Hs1].
  eapply (wp_hook c); [exact Hi1|auto|]. intros s2 Hi2 (Hs2&Ec2&Hps2&El2). apply HQ; [done| | | |by etrans|done].
  - intros [? Hm]. split; [done|]. by rewrite Ec2.
  - by rewrite Ec2.
  - eapply csteps_cons; [by eapply inv_cinv|exact Hs1|].
    eapply csteps_cons; [by eapply inv_cinv|exact Hs2|constructor].
Qed.

End Epoch.
