(* ===== verification/ControllerMigrate.v ===== *)
(** Migration of pages: [MigrateNVM] brings the blocks of a page home and enters the
    page in the page table, [MigrateDRAM] removes a page, and the loops of
    [MigratePages] choose the pages by the ratios of written blocks. *)

From Stdlib Require Import QArith.
From S2P Require Import Prelude Profiler StdAlgo MemStore PersistSpec PersistFacts PersistMachine MigrationSpec.
From S2P Require Import AddrTransController ControllerInv ControllerOps ControllerStore ControllerEpoch.
#[global] Open Scope Z_scope.

Section Migrate.
Context (c : Config) (Hc : wf_config c) {St : Type} `{!MemStore St, !MemStoreLaws St c}.
Context `{HO : HashOrder, HA : HeapAlgo}.
Implicit Types s : Sys St.

Abbreviation bs := (c_bsize c).
Abbreviation home := (home c).
Abbreviation conf := (conf c).
Abbreviation inv := (inv c).
Abbreviation keeps := (ControllerOps.keeps).
Abbreviation bytes s := (content (store s)).

(** ** Freezing a profiler *)

Definition with_profs (ps : Profs) s : Sys St := MkSys (ctl s) (store s) ps (ckpt s).

Lemma inv_profs fl a ps s : inv fl a s → inv fl a (with_profs ps s).
Proof. intros Hi. apply inv_store; [done|apply (iv_store _ _ _ _ Hi)]. Qed.

Lemma wp_set_ignore pf (Q : unit → Sys St → Prop) s : ignore_latency_ (sel pf (profs s)) = false →
  Q tt (with_profs (upd pf (set_ignore_latency_ true (sel pf (profs s))) (profs s)) s) →
  wp (on_pf pf set_ignore_latency) Q s.
Proof.
  intros Hf HQ. apply wp_zoom. unfold set_ignore_latency. wp_steps. apply wp_assert; [by rewrite Hf|].
  by wp_steps.
Qed.

Lemma wp_clear_ignore pf (Q : unit → Sys St → Prop) s : ignore_latency_ (sel pf (profs s)) = true →
  Q tt (with_profs (upd pf (set_ignore_latency_ false (sel pf (profs s))) (profs s)) s) →
  wp (on_pf pf clear_ignore_latency) Q s.
Proof.
  intros Hf HQ. apply wp_zoom. unfold clear_ignore_latency. wp_steps. apply wp_assert; [by rewrite Hf|].
  by wp_steps.
Qed.

(** ** One block *)

(** The entry of block [t] is gone and its data are home; the rest is as it was. *)
Record block_moved s s' (t : Z) : Prop := {
  bm_mig : migrator_ (ctl s') = migrator_ (ctl s);
  bm_ck : in_checkpointing_ (ctl s') = in_checkpointing_ (ctl s);
  bm_blocks : k_blocks (conf s') = delete t (k_blocks (conf s));
  bm_b0 : k_b0 (conf s') = k_b0 (conf s);
  bm_b1 : k_b1 (conf s') = k_b1 (conf s);
  bm_home o : 0 ≤ o < bs → bytes s' (home t + o) = bytes s (base c (conf s) t + o);
  bm_rest x : x / bs ≠ t → bytes s' x = bytes s x;
}.

Lemma block_moved_profs s s' t ps : block_moved s s' t → block_moved s (with_profs ps s') t.
Proof. by intros []. Qed.
Lemma block_moved_start s s' t ps : block_moved (with_profs ps s) s' t → block_moved s s' t.
Proof. by intros []. Qed.

Lemma wp_migrate_copy fl a i e (nvm : bool) (copy : Z → Z → pfref → bool → M (Sys St) unit) op `{!Quiet op} pf
    (Q : unit → Sys St → Prop) s :
  inv fl a s → in_checkpointing_ (ctl s) = false → ATT.a_live a !! i = Some e →
  (if nvm then in_nvm e else in_dram e) = true → copy = CopyBlockIntra ∨ copy = CopyBlockInter →
  (∀ a' s', inv fl a' s' → block_moved s s' (ATT.phy_tag e) → pf_same (profs s) (profs s') → Q tt s') →
  wp (on_pf pf op ;; copy (home (ATT.phy_tag e)) (ATT.mach_base e) pf false ;;
      push_ckpt true (home (ATT.phy_tag e)) ;; Discard i nvm pf) Q s.
Proof.
  intros Hi Hck He Hk Hcopy HQ. pose proof (eo_tag _ _ _ _ (iv_entry _ _ _ _ Hi _ _ He)) as Ht.
  assert (home (ATT.phy_tag e) ≠ ATT.mach_base e ∧ valid c (ATT.mach_base e)) as [Hne Hv].
  { split; [|by eapply entry_valid].
    destruct (inv_place _ _ _ _ _ _ Hi He) as [(_&k&->&?&_)|[(_&d&->&?&_)|(Es&_)]].
    - apply home_nslot; done || lia.
    - apply home_dslot; done || lia.
    - unfold in_nvm, in_dram in Hk. rewrite Es in Hk. by destruct nvm. }
  wp_step. apply wp_on_pf; [done|]. intros ps1 Hps1. wp_step.
  assert (∀ st' ps', st_ok st' → copied c (home (ATT.phy_tag e)) (ATT.mach_base e) (bytes s) (content st') →
    pf_same ps1 ps' → wp (push_ckpt true (home (ATT.phy_tag e)) ;; Discard i nvm pf) Q
      (MkSys (ctl s) st' ps' (ckpt s ++ []))) as Hrest.
  { intros st' ps' Hst' Hm Hps'. wp_step. apply wp_push.
    assert (inv fl a (MkSys (ctl s) st' ps' ((ckpt s ++ []) ++ [home (ATT.phy_tag e)]))) as Hi1
      by (by apply inv_store).
    eapply wp_Discard; [done|exact Hi1|done|done|done|]. intros s' Hi' (Ec&(Em&Eck&Hps2)&_&Est).
    pose proof (f_equal k_blocks Ec) as Eb. pose proof (f_equal k_b0 Ec) as Eb0.
    pose proof (f_equal k_b1 Ec) as Eb1. cbn in Eb, Eb0, Eb1.
    eapply HQ; [exact Hi'| |by etrans; [|etrans]]. split; cbn [conf k_blocks k_b0 k_b1 ControllerInv.conf] in *; try done.
    - intros o Ho. rewrite Est. cbn [store]. rewrite (Hm _), bool_decide_eq_true_2 by lia.
      rewrite (base_live _ _ _ _ _ _ Hi He). f_equal. lia.
    - intros x Hx. rewrite Est. cbn [store]. rewrite (Hm _), bool_decide_eq_false_2; [done|].
      intros Hr. destruct Hx. destruct (home_addr c (ATT.phy_tag e) (x - home (ATT.phy_tag e))) as [<- _]; [lia|].
      f_equal. lia. }
  destruct Hcopy as [-> | ->]; [apply (wp_CopyBlockIntra c Hc)|apply (wp_CopyBlockInter c Hc)];
    eauto using valid_home; try apply Hi; by apply valid_home.
Qed.

Lemma block_moved_none fl a s s' t : inv fl a s → unmapped a t → conf s' = conf s →
  migrator_ (ctl s') = migrator_ (ctl s) → block_moved s s' t.
Proof.
  intros Hi Hu Ec Em.
  pose proof (proj2 (blocks_of_None _ _ (iv_att _ _ _ _ Hi) _) Hu) as Hb.
  pose proof (f_equal k_mem Ec) as E. cbn in E.
  split; rewrite ?Ec; try done.
  - apply (f_equal k_ck Ec).
  - cbn. by rewrite delete_id.
  - intros o _. rewrite E. by rewrite (base_miss _ _ _ _ _ Hi Hu).
  - intros x _. by rewrite E.
Qed.

Lemma block_moved_hidden fl a i e s s' : inv fl a s → ATT.a_live a !! i = Some e →
  ATT.state e = ATT.HIDDEN → dropped c s s' (ATT.phy_tag e) → block_moved s s' (ATT.phy_tag e).
Proof.
  intros Hi He Es (Ec&(Em&Eck&_)&_&Est). pose proof (iv_entry _ _ _ _ Hi _ _ He) as Heo.
  split; rewrite ?Ec; try done.
  - intros o _. rewrite Est, (base_live _ _ _ _ _ _ Hi He). by rewrite (eo_hidden _ _ _ _ Heo Es).
  - intros x _. by rewrite Est.
Qed.

Lemma block_moved_quiet s s1 s' t : quiet_step c s s1 → block_moved s1 s' t → block_moved s s' t.
Proof.
  intros (Ec&(Em&Eck&_)&_&Est) []. split; try congruence.
  - intros o Ho. by rewrite bm_home0, Ec, Est by done.
  - intros x Hx. by rewrite bm_rest0, Est by done.
Qed.

Lemma wp_migrate_block a pf t (Q : unit → Sys St → Prop) s : inv false a s →
  in_checkpointing_ (ctl s) = false → ignore_latency_ (sel pf (profs s)) = false →
  (∀ st b, k_blocks (conf s) !! t = Some (st, b) → st ≠ ATT.LOAN) →
  (∀ a' s', inv false a' s' → block_moved s s' t → pf_same (profs s) (profs s') → Q tt s') →
  wp (migrate_block pf t) Q s.
Proof.
  intros Hi Hck Hign Hnl HQ. unfold migrate_block. wp_step. eapply wp_sys_Lookup; [done|..].
  - intros ps1 Hu Hps1. rewrite Z.eqb_refl. apply wp_on_pf; [apply _|]. intros ps2 Hps2.
    apply (HQ a); [exact (inv_profs _ _ ps2 _ Hi)| |by etrans]. by eapply block_moved_none.
  - intros i e s1 He Et Hi0 Hi1 Hq1. destruct (Z.eqb_spec i (- EINVAL)); [unfold EINVAL in *; lia|].
    pose proof Hq1 as (Ec1&(Em1&Eck1&Hps1)&_). pose proof (iv_entry _ _ _ _ Hi _ _ He) as Heo.
    assert (ATT.state e ≠ ATT.LOAN) as Hne.
    { apply (Hnl _ (ATT.mach_base e)). subst t. by apply (blocks_of_live _ _ (iv_att _ _ _ _ Hi) i). }
    pose proof (proj1 (ATT.r_state _ _ (iv_att _ _ _ _ Hi) _ _ He)) as Hnf.
    wp_step. eapply wp_sys_At; [apply (iv_att _ _ _ _ Hi1)|exact He|]. intros e0 -> -> ->. wp_step.
    apply wp_set_ignore; [by rewrite (proj1 (Hps1 pf))|]. set (ps2 := upd pf _ _).
    pose proof (inv_profs _ _ ps2 _ Hi1) as Hi2. wp_step.
    apply (wp_ToAddr c Hc); [apply (iv_geom _ _ _ _ Hi2)|apply (eo_tag _ _ _ _ Heo)|]. wp_step.
    assert (in_checkpointing_ (ctl (with_profs ps2 s1)) = false) as Hck2 by (by rewrite <- Hck).
    assert (∀ a' s', inv false a' s' → block_moved (with_profs ps2 s1) s' (ATT.phy_tag e) → pf_same ps2 (profs s') →
      wp (on_pf pf clear_ignore_latency) Q s') as Hend.
    { intros a' s' Hi' Hm Hps'. apply wp_clear_ignore.
      - rewrite (proj1 (Hps' pf)). unfold ps2. by rewrite sel_upd_eq.
      - apply (HQ a'); [by apply inv_profs| |].
        + apply block_moved_profs. rewrite <- Et. eapply block_moved_quiet; [done|].
          by eapply block_moved_start.
        + etrans; [exact Hps1|]. apply pf_ignored; [by rewrite (proj1 (Hps1 pf))|done]. }
    destruct (ATT.state e) eqn:Es; try done.
    + eapply (wp_migrate_copy _ _ _ _ true); [apply _|exact Hi2|done|exact He|by unfold in_nvm; rewrite Es|by left|done].
    + eapply (wp_migrate_copy _ _ _ _ true); [apply _|exact Hi2|done|exact He|by unfold in_nvm; rewrite Es|by left|done].
    + wp_step. apply wp_on_pf; [apply _|]. intros ps3 Hps3.
      eapply (wp_drop_hidden c); [exact (inv_profs _ _ ps3 _ Hi1)|exact He|done|]. intros s' Hi' Hd.
      eapply Hend; [exact Hi'| |etrans; [exact Hps3|apply Hd]].
      apply (block_moved_start _ _ _ ps3). by eapply (block_moved_hidden _ _ _ _ _ _ (inv_profs _ _ ps3 _ Hi1)).
    + eapply (wp_migrate_copy _ _ _ _ false); [apply _|exact Hi2|done|exact He|by unfold in_dram; rewrite Es|by right|done].
    + eapply (wp_migrate_copy _ _ _ _ false); [apply _|exact Hi2|done|exact He|by unfold in_dram; rewrite Es|by right|done].
Qed.

(** ** The blocks of a page *)

Record page_homed s0 s (dn : list Z) : Prop := {
  ph_mig : migrator_ (ctl s) = migrator_ (ctl s0);
  ph_ck : in_checkpointing_ (ctl s) = in_checkpointing_ (ctl s0);
  ph_blocks : k_blocks (conf s) = filter (λ x, x.1 ∉ dn) (k_blocks (conf s0));
  ph_b0 : k_b0 (conf s) = k_b0 (conf s0);
  ph_b1 : k_b1 (conf s) = k_b1 (conf s0);
  ph_home t o : t ∈ dn → 0 ≤ o < bs → bytes s (home t + o) = bytes s0 (base c (conf s0) t + o);
  ph_rest x : x / bs ∉ dn → bytes s x = bytes s0 x;
}.

(** The bytes of a block are in its home or out of the physical space. *)
Lemma base_div κ t u o : cinv c κ → tag_ok c t → tag_ok c u → 0 ≤ o < bs → (base c κ t + o) / bs = u → u = t.
Proof.
  intros Hi Ht Hu Ho E. destruct (k_blocks κ !! t) as [[st b]|] eqn:Eb.
  - rewrite (base_some _ _ _ _ _ Eb) in E. pose proof (ci_slot _ _ Hi _ _ _ Eb) as Hs.
    pose proof (tag_top _ Hc _ Hu). pose proof (addr_split _ Hc (b + o)) as [Ex _]. rewrite E in Ex.
    pose proof (Z.mod_pos_bound (b + o) bs (bs_pos _ Hc)). pose proof (wf_att _ Hc).
    pose proof (bs_pos _ Hc).
    destruct st; try done; [destruct Hs as (k&->&?&_)|destruct Hs as (k&->&?)| |subst b|..].
    all: try (destruct Hs as (k&->&?)); unfold nslot, dslot, c_nvm_base, c_dram_base in *;
      try (exfalso; nia).
    rewrite <- E. by apply home_addr.
  - unfold base in E. rewrite Eb in E. rewrite <- E. by apply home_addr.
Qed.

Lemma page_homed_snoc fl a s0 s s' dn t : inv fl a s0 → page_homed s0 s dn → block_moved s s' t →
  t ∉ dn → tag_ok c t → Forall (tag_ok c) dn → page_homed s0 s' (dn ++ [t]).
Proof.
  intros Hi [] [] Ht Htok Hdn.
  assert (base c (conf s) t = base c (conf s0) t) as Eb.
  { unfold base. rewrite ph_blocks0. destruct (k_blocks (conf s0) !! t) as [x|] eqn:E.
    - by rewrite (map_lookup_filter_Some_2 _ _ _ _ E).
    - by rewrite map_lookup_filter_None_2 by auto. }
  assert (∀ x, x / bs ∉ dn ++ [t] → x / bs ∉ dn ∧ x / bs ≠ t) as Hsplit by set_solver.
  split; try congruence.
  - rewrite bm_blocks0, ph_blocks0. apply map_eq. intros u. apply option_eq. intros x.
    rewrite lookup_delete_Some, !map_lookup_filter_Some. set_solver.
  - intros u o [Hu| ->%list_elem_of_singleton]%elem_of_app Ho.
    + rewrite bm_rest0; [by apply ph_home0|]. destruct (home_addr c u o Ho) as [-> _]. intros ->. done.
    + rewrite bm_home0, Eb by done. apply ph_rest0. intros Hin.
      rewrite Forall_forall in Hdn. pose proof (Hdn _ Hin) as Hu.
      by rewrite (base_div _ _ _ _ (inv_cinv c Hc _ _ _ Hi) Htok Hu Ho eq_refl) in Hin.
  - intros x [Hx Hne]%Hsplit. by rewrite bm_rest0, ph_rest0.
Qed.

Lemma wp_home_blocks a pf s0 tags (Q : unit → Sys St → Prop) : inv false a s0 →
  in_checkpointing_ (ctl s0) = false → ignore_latency_ (sel pf (profs s0)) = false →
  (∀ t st b, k_blocks (conf s0) !! t = Some (st, b) → st ≠ ATT.LOAN) →
  NoDup tags → Forall (tag_ok c) tags →
  (∀ a' s', inv false a' s' → page_homed s0 s' tags → pf_same (profs s0) (profs s') → Q tt s') →
  wp (for_each tags (migrate_block pf)) Q s0.
Proof.
  intros Hi Hck Hign Hnl Hnd Htags HQ. eapply wp_mono.
  - apply (wp_for_each _ (λ rest s, ∃ dn a', dn ++ rest = tags ∧ inv false a' s ∧ page_homed s0 s dn ∧
      pf_same (profs s0) (profs s))).
    + exists [], a. split_and!; try done. split; try done.
      * symmetry. apply map_filter_id. set_solver.
      * by intros t o ?%elem_of_nil.
    + intros t rest s (dn&a'&Hdn&Hi'&Hph&Hps). subst tags. apply NoDup_app in Hnd as (_&Hd&_).
      apply Forall_app in Htags as [Hf1 Hf2]. apply Forall_cons in Hf2 as [Ht _].
      assert (t ∉ dn) as Hni by (intros Hin; apply (Hd _ Hin); set_solver).
      eapply wp_migrate_block; [exact Hi'|by rewrite (ph_ck _ _ _ Hph)|by rewrite (proj1 (Hps pf))| |].
      * intros st b. rewrite (ph_blocks _ _ _ Hph), map_lookup_filter_Some. intros [Hb _]. by eapply Hnl.
      * intros a2 s2 Hi2 Hm2 Hps2. exists (dn ++ [t]), a2. split_and!; [by rewrite <- app_assoc|done| |by etrans].
        by eapply page_homed_snoc.
  - intros [] s (dn&a'&Hdn&Hi'&Hph&Hps). rewrite app_nil_r in Hdn. subst dn. by eapply HQ.
Qed.

(** The tags of a page. *)
Lemma page_tags p t q : p mod 2 ^ c_page_bits c = 0 → 0 < q → 2 ^ c_page_bits c = q * bs →
  page_of c t = p ↔ t ∈ (λ k, p / bs + k) <$> zseq q.
Proof.
  intros Hp Hq E. pose proof (bs_pos _ Hc) as Hb. rewrite E in Hp. apply Z.mod_divide in Hp as [r Hr]; [|nia].
  assert (p / bs = r * q) as Ep by (rewrite Hr, Z.mul_assoc; apply Z.div_mul; lia).
  rewrite Ep, list_elem_of_fmap. split.
  - unfold page_of, PersistSpec.home. rewrite E, Z.mul_mod_distr_r by lia. intros Ht.
    pose proof (Z.mod_pos_bound t q Hq). exists (t mod q). split; [nia|]. apply ATT.elem_of_zseq. lia.
  - intros (k&->&Hk%ATT.elem_of_zseq). apply (page_range_home _ Hc p _ 0); [|unfold PersistSpec.home; nia|lia].
    apply Z.mod_divide; [nia|]. exists r. nia.
Qed.

(** ** Pages in and out of the table *)

Definition no_loan s : Prop := ∀ t st b, k_blocks (conf s) !! t = Some (st, b) → st ≠ ATT.LOAN.

Definition set_mig (m : Mig.MigrationController) (ps : Profs) s : Sys St :=
  MkSys (set_migrator_ m (ctl s)) (store s) ps (ckpt s).

(** The page table changes; without loans the entries only have to stay out of its
    pages. *)
Lemma inv_pages a s m' ps' : inv false a s → no_loan s → mig_ok m' →
  same_mgeom (migrator_ (ctl s)) m' →
  (∀ p, p ∈ dom (Mig.entries_ m') → p + 2 ^ c_page_bits c ≤ c_phy_range c ∧
     ∀ t x, k_blocks (conf s) !! t = Some x → page_of c t ≠ p) →
  inv false a (set_mig m' ps' s).
Proof.
  intros Hi Hnl Hm (E1&_&E3&_&_&E6&E7) Hp. pose proof (iv_att _ _ _ _ Hi) as Hrep.
  assert (∀ i e, ATT.a_live a !! i = Some e →
    k_blocks (conf s) !! ATT.phy_tag e = Some (ATT.state e, ATT.mach_base e)) as Hb.
  { intros i e He. by apply (blocks_of_live _ _ Hrep i). }
  pose proof (iv_entry _ _ _ _ Hi) as Heo. destruct Hi as [[]]. split; cbn; try done.
  - split; cbn; rewrite ?E1, ?E3, ?E6, ?E7; done.
  - intros i e He. destruct (Heo i e He). split; [done|done| |done]. split.
    + intros Es. by destruct (Hnl _ _ _ (Hb _ _ He)).
    + intros Hin. by destruct (proj2 (Hp _ Hin) _ _ (Hb _ _ He)).
  - intros p Hin. by apply Hp.
Qed.

Lemma conf_set_mig m ps s : conf (set_mig m ps s) =
  MkConf (k_ck (conf s)) (k_blocks (conf s)) (k_b0 (conf s)) (k_b1 (conf s)) (dom (Mig.entries_ m)) (k_mem (conf s)).
Proof. done. Qed.

(** A page that can be brought into DRAM. *)
Definition page_free s (p : Z) : Prop :=
  p ∉ k_pages (conf s) ∧ p mod 2 ^ c_page_bits c = 0 ∧ 0 ≤ p ∧ p + 2 ^ c_page_bits c ≤ c_phy_range c.

Lemma page_in_ok fl a s p : inv fl a s → page_free s p → page_ok (migrator_ (ctl s)) p.
Proof.
  intros Hi (_&Hal&H0&Hr). destruct (cg_mig _ _ (iv_geom _ _ _ _ Hi)) as (_&Hpb&_).
  pose proof (phy_63 c Hc). unfold page_ok. rewrite Hpb. lia.
Qed.

(** The homed page enters the table. *)
Lemma homed_enter a a1 s s1 p tags q m' ps' : inv false a s → inv false a1 s1 → no_loan s →
  in_checkpointing_ (ctl s) = false → page_free s p → page_homed s s1 tags →
  0 < q → 2 ^ c_page_bits c = q * bs → tags = (λ k, p / bs + k) <$> zseq q →
  mig_ok m' → same_mgeom (migrator_ (ctl s1)) m' →
  dom (Mig.entries_ m') = {[p]} ∪ dom (Mig.entries_ (migrator_ (ctl s))) →
  inv false a1 (set_mig m' ps' s1) ∧
  cstep c (conf s) (LMigrateNVM p) (conf (set_mig m' ps' s1)).
Proof.
  intros Hi Hi1 Hnl Hck Hpf Hph Hq E -> Hm Hg Hd. pose proof Hpf as (Hp&Hal&H0&Hr).
  pose proof (λ t, page_tags p t q Hal Hq E) as Htag. set (tags := _ <$> _) in *.
  assert (k_blocks (conf s1) = filter (λ x, in_page c p x.1 = false) (k_blocks (conf s))) as Hb.
  { rewrite (ph_blocks _ _ _ Hph). apply map_filter_ext. intros t x _. simpl. unfold in_page.
    by rewrite <- (Htag t), bool_decide_eq_false. }
  split.
  - apply inv_pages; [done| |done|done|].
    + intros t st b. rewrite (ph_blocks _ _ _ Hph), map_lookup_filter_Some. intros [? _]. by eapply Hnl.
    + rewrite Hd. intros p' [->%elem_of_singleton|Hin]%elem_of_union.
      * split; [done|]. intros t x. rewrite Hb, map_lookup_filter_Some. intros [_ Hin]. simpl in Hin.
        by apply bool_decide_eq_false in Hin.
      * split; [by apply (iv_pages _ _ _ _ Hi)|]. intros t [st b].
        rewrite Hb, map_lookup_filter_Some. intros [Ht _] Epage.
        apply (Hnl _ _ _ Ht), (ci_page _ _ (inv_cinv c Hc _ _ _ Hi) _ _ _ Ht). by rewrite Epage.
  - rewrite conf_set_mig, Hb, (ph_b0 _ _ _ Hph), (ph_b1 _ _ _ Hph), Hd.
    replace (k_ck (conf s1)) with false by (cbn; by rewrite (ph_ck _ _ _ Hph)).
    apply (S_migrate_nvm c (conf s)); [done..| |].
    + intros t o Ho Htok Epage. apply (ph_home _ _ _ Hph); [by apply Htag|done].
    + intros x Hx. apply (ph_rest _ _ _ Hph). intros Hin%Htag.
      destruct (addr_split _ Hc x) as [Ex Hox].
      assert (tag_ok c (x / bs)) as Ht.
      { pose proof (bs_pos _ Hc). unfold page_of, PersistSpec.home in Hin.
        pose proof (wf_bits _ Hc). pose proof (pow2_pos (c_page_bits c)).
        pose proof (Z.mod_pos_bound (x / bs * bs) (2 ^ c_page_bits c)).
        unfold tag_ok, PersistSpec.home. nia. }
      pose proof (page_of_range _ Hc _ Ht). rewrite Hin in *. lia.
Qed.

Lemma inv_ckpt fl a l s : inv fl a s → inv fl a (set_ckpt l s).
Proof. intros Hi. apply inv_store; [done|apply (iv_store _ _ _ _ Hi)]. Qed.

Lemma wp_add_page_blocks page (Q : unit → Sys St → Prop) s : mig_ok (migrator_ (ctl s)) →
  page_ok (migrator_ (ctl s)) page → (∀ l, Q tt (set_ckpt l s)) → wp (add_page_blocks page) Q s.
Proof.
  intros Hm Hp HQ. unfold add_page_blocks. wp_steps. apply wp_zoom, wp_own.
  apply wp_AddToBlockList; [apply (m_geom _ Hm)|done|]. wp_steps. cbn [fst snd].
  rewrite mig_eta. apply HQ.
Qed.

(** What a migration of page [p] does, besides the step. *)
Record migrated s s' (l : label) (f : gmap Z Mig.PTTEntry → gmap Z Mig.PTTEntry) : Prop := {
  mg_step : cstep c (conf s) l (conf s');
  mg_ck : in_checkpointing_ (ctl s') = in_checkpointing_ (ctl s);
  mg_pf : pf_same (profs s) (profs s');
  mg_heaps : same_heaps (migrator_ (ctl s)) (migrator_ (ctl s'));
  mg_consts : same_mgeom (migrator_ (ctl s)) (migrator_ (ctl s'));
  mg_entries : Mig.entries_ (migrator_ (ctl s')) = f (Mig.entries_ (migrator_ (ctl s)));
}.

(** The page gets a frame, in the state its share of dirty blocks calls for. *)
Lemma wp_enter_page s s1 p r pf : mig_ok (migrator_ (ctl s)) → migrator_ (ctl s1) = migrator_ (ctl s) →
  pf_same (profs s) (profs s1) → p ∉ k_pages (conf s) → page_ok (migrator_ (ctl s)) p →
  Mig.num_entries (migrator_ (ctl s)) < Mig.ptt_capacity_ (migrator_ (ctl s)) →
  wp (if Mig.Qlt_bool (1 # 2) r then on_mig (Mig.Setup p Mig.CLEAN_STATIC pf)
      else on_mig (Mig.Setup p Mig.CLEAN_DIRECT pf))
    (λ _ s', ∃ m' ps' e, s' = set_mig m' ps' s1 ∧ mig_ok m' ∧ same_mgeom (migrator_ (ctl s)) m' ∧
       same_heaps (migrator_ (ctl s)) m' ∧ pf_same (profs s) ps' ∧
       Mig.entries_ m' = <[p := e]> (Mig.entries_ (migrator_ (ctl s)))) s1.
Proof.
  intros Hm Em Hps Hp Hpok Hcap.
  destruct (Mig.Qlt_bool _ _); apply wp_zoom; rewrite Em; (apply wp_mig_Setup; [done| |done|done|]);
    try (by apply not_elem_of_dom); intros m' ps' slot ?????;
    eexists m', ps', _; (split_and!; try done); by etrans.
Qed.

Lemma wp_MigrateNVM a n pf (Q : unit → Sys St → Prop) s : inv false a s →
  in_checkpointing_ (ctl s) = false → ignore_latency_ (sel pf (profs s)) = false → no_loan s →
  page_free s (Mig.n_phy_addr n) →
  Mig.num_entries (migrator_ (ctl s)) < Mig.ptt_capacity_ (migrator_ (ctl s)) →
  (∀ a' s' e, inv false a' s' →
     migrated s s' (LMigrateNVM (Mig.n_phy_addr n)) (<[Mig.n_phy_addr n := e]>) → Q tt s') →
  wp (MigrateNVM n pf) Q s.
Proof.
  intros Hi Hck Hign Hnl Hpf Hcap HQ. set (p := Mig.n_phy_addr n) in *.
  pose proof Hpf as (Hp&Hal&H0&Hr). pose proof (iv_geom _ _ _ _ Hi) as Hg.
  pose proof (m_geom _ (iv_mig _ _ _ _ Hi)) as Hmg. pose proof (page_in_ok _ _ _ _ Hi Hpf) as Hpok.
  destruct (cg_mig _ _ Hg) as (Hbb&Hpb&_). destruct (page_blocks_mul _ Hmg) as [Hq Hmul].
  rewrite Hbb, Hpb in Hmul. fold (c_bsize c) in Hmul. pose proof (phy_63 c Hc) as H63.
  pose proof (bs_pos _ Hc) as Hb. set (q := Mig.page_blocks_ (migrator_ (ctl s))) in *.
  pose proof (wf_bits _ Hc). pose proof (pow2_pos (c_page_bits c)).
  unfold MigrateNVM. fold p. wp_steps. apply (wp_ToTag c Hc); [done|lia|]. wp_step.
  rewrite page_size_eq, Hpb, u64_small by (done || lia). apply (wp_ToTag c Hc); [done|lia|].
  assert ((p + 2 ^ c_page_bits c) / bs - p / bs = q) as Eq.
  { rewrite <- Hmul, Z.div_add by lia. lia. }
  wp_step. apply wp_assert; [by apply Z.eqb_eq|]. wp_step. rewrite Eq.
  set (tags := (λ k, p / bs + k) <$> zseq q).
  assert (∀ t, t ∈ tags → tag_ok c t) as Htok.
  { intros t Ht. apply (page_tags p t q Hal Hq (eq_sym Hmul)) in Ht. unfold page_of, PersistSpec.home in Ht.
    destruct (Z.mod_pos_bound (t * bs) (2 ^ c_page_bits c)); [lia|]. split; unfold PersistSpec.home; nia. }
  eapply wp_home_blocks; [done..| |by apply Forall_forall|].
  { apply NoDup_fmap_2; [intros ??; lia|apply NoDup_seqZ]. }
  intros a1 s1 Hi1 Hph Hps1. wp_step. pose proof (ph_mig _ _ _ Hph) as Em.
  eapply wp_mono; [eapply (wp_enter_page s s1); [apply (iv_mig _ _ _ _ Hi)|done..]|].
  intros _ s2 (m'&ps'&e&->&Hm&Hgm&Hh&Hps'&Hent). wp_step.
  destruct (homed_enter a a1 s s1 p tags q m' ps') as [Hi2 Hs2]; try done.
  { by rewrite Em. }
  { by rewrite Hent, dom_insert_L. }
  apply wp_add_page_blocks; [done|by eapply page_ok_same|]. intros l. wp_steps.
  eapply (HQ a1 _ e).
  - destruct (inv_ckpt _ _ l _ Hi2) as [[]]. by split.
  - split; try done. cbn. apply (ph_ck _ _ _ Hph).
Qed.

(** A page leaves DRAM; its blocks need no entry because its data are home. *)
Lemma wp_MigrateDRAM a d pf (Q : unit → Sys St → Prop) s : inv false a s →
  in_checkpointing_ (ctl s) = false → no_loan s → Mig.d_phy_addr d ∈ k_pages (conf s) →
  (∀ a' s', inv false a' s' →
     migrated s s' (LMigrateDRAM (Mig.d_phy_addr d)) (delete (Mig.d_phy_addr d)) → Q tt s') →
  wp (MigrateDRAM d pf) Q s.
Proof.
  intros Hi Hck Hnl Hd HQ. set (p := Mig.d_phy_addr d) in *. pose proof (iv_mig _ _ _ _ Hi) as Hm.
  pose proof (proj1 (elem_of_dom (Mig.entries_ (migrator_ (ctl s))) p) Hd) as [e He]. destruct (m_page _ Hm _ _ He) as (Hpok&_).
  unfold MigrateDRAM. fold p. wp_step.
  assert (∀ ps1 l, pf_same (profs s) ps1 →
    wp (on_mig (Mig.Free p pf)) Q (MkSys (ctl s) (store s) ps1 l)) as Hfree.
  { intros ps1 l Hps1. apply wp_zoom. cbn [ctl profs]. eapply wp_Free; [done|done|].
    intros m' ps' Hm' Hg' Hh' Hent' Hps'. cbn [fst snd store ckpt].
    change (Q tt (set_ckpt l (set_mig m' ps' s))).
    assert (dom (Mig.entries_ m') = dom (Mig.entries_ (migrator_ (ctl s))) ∖ {[p]}) as Hdom
      by (by rewrite Hent', dom_delete_L).
    apply (HQ a).
    - apply inv_ckpt, inv_pages; [done..|]. rewrite Hdom. intros p' [Hin _]%elem_of_difference.
      split; [by apply (iv_pages _ _ _ _ Hi)|]. intros t [st b] Ht Epage.
      apply (Hnl _ _ _ Ht), (ci_page _ _ (inv_cinv c Hc _ _ _ Hi) _ _ _ Ht). by rewrite Epage.
    - split; try done; [|by etrans].
      change (conf (set_ckpt l (set_mig m' ps' s))) with (conf (set_mig m' ps' s)).
      rewrite conf_set_mig, Hdom. replace (k_ck (conf s)) with false by done.
      by apply (S_migrate_dram c (conf s)). }
  assert (∀ (Q' : unit → Sys St → Prop) ps1 l, pf_same (profs s) ps1 → (∀ l', Q' tt (MkSys (ctl s) (store s) ps1 l')) →
    wp (add_page_blocks p) Q' (MkSys (ctl s) (store s) ps1 l)) as Hadd.
  { intros Q' ps1 l Hps1 HQ'. apply wp_add_page_blocks; [done|done|]. intros l'. apply HQ'. }
  destruct (Mig.d_state d).
  - wp_step. destruct s. by apply Hfree.
  - wp_step. apply wp_on_pf; [apply _|]. intros ps1 Hps1. apply Hadd; [done|]. intros. by apply Hfree.
  - wp_step. apply wp_on_pf; [apply _|]. intros ps1 Hps1. apply Hadd; [done|]. intros. by apply Hfree.
  - wp_step. apply wp_on_pf; [apply _|]. intros ps1 Hps1. wp_step. apply wp_on_pf; [apply _|].
    intros ps2 Hps2. wp_step. assert (pf_same (profs s) ps2) by (by etrans).
    apply Hadd; [done|]. intros. apply Hadd; [done|]. intros. by apply Hfree.
Qed.

(** ** The loops *)

(** What holds between two migrations; [ents] are the entries the heaps were built
    from. *)
Record mig_inv (ents : list ATT.ATTEntry) s0 s : Prop := {
  mi_inv : ∃ a, inv false a s;
  mi_loan : no_loan s;
  mi_ck : in_checkpointing_ (ctl s) = false;
  mi_pf : pf_same (profs s0) (profs s);
  mi_heaps : heaps_ok (migrator_ (ctl s)) ents;
  mi_nvm n : n ∈ Mig.nvm_heap_ (migrator_ (ctl s)) → (0 < Mig.n_dirty_ratio n)%Q →
    page_free s (Mig.n_phy_addr n);
  mi_trace : trace c migrates s0 s;
}.

Lemma heaps_ok_change m m' ents : heaps_ok m ents → same_heaps m m' → same_mgeom m m' →
  (∀ d e, d ∈ Mig.dram_heap_ m → Mig.entries_ m !! Mig.d_phy_addr d = Some e →
     Mig.entries_ m' !! Mig.d_phy_addr d = Some e) → heaps_ok m' ents.
Proof.
  intros [] (_&E2&E3&E4&E5) Hg Hd. split; rewrite ?E2, ?E3, ?E4, ?E5; try done.
  - intros n Hn Hr. destruct (h_nvm n Hn Hr) as [x Hx]. exists x. by eapply recorded_mono.
  - intros d Hin. destruct (h_dram d Hin) as (e&He&?). exists e. split; [by apply Hd|done].
Qed.

(** The heaps change, the table does not. *)
Lemma mig_inv_table ents s0 s m' ps' : mig_inv ents s0 s → same_table (migrator_ (ctl s)) m' →
  heaps_ok m' ents → (∀ n, n ∈ Mig.nvm_heap_ m' → n ∈ Mig.nvm_heap_ (migrator_ (ctl s))) →
  pf_same (profs s) ps' → mig_inv ents s0 (set_mig m' ps' s).
Proof.
  intros [[a Hi] Hnl Hck Hpf Hh Hn Ht] Hst Hh' Hin Hps. pose proof Hst as (Hg&Hent&_).
  assert (dom (Mig.entries_ m') = dom (Mig.entries_ (migrator_ (ctl s)))) as Hd by (by rewrite Hent).
  pose proof (conf_mig c s m' ps' Hd) as Ec.
  change (conf (set_mig m' ps' s) = conf s) in Ec.
  split; unfold no_loan, page_free, trace; rewrite ?Ec; try done.
  - exists a. apply inv_mig; [done| |done|done]. eapply mig_ok_table; [done|apply (iv_mig _ _ _ _ Hi)].
  - by etrans.
  - intros n H1 H2. by apply Hn; [apply Hin|].
Qed.

Lemma cstep_migrate_blocks κ l κ' : cstep c κ l κ' → (∃ p, l = LMigrateNVM p ∨ l = LMigrateDRAM p) →
  ∀ t x, k_blocks κ' !! t = Some x → k_blocks κ !! t = Some x.
Proof.
  intros Hs [p [-> | ->]] t x; inversion Hs; subst; cbn; [|done].
  rewrite map_lookup_filter_Some. by intros [? _].
Qed.

Lemma mig_inv_nvm ents s0 s s' p e : mig_inv ents s0 s →
  migrated s s' (LMigrateNVM p) (<[p := e]>) → (∃ a, inv false a s') →
  p ∉ k_pages (conf s) → p ∉ Mig.n_phy_addr <$> Mig.nvm_heap_ (migrator_ (ctl s)) → mig_inv ents s0 s'.
Proof.
  intros [[a Hi] Hnl Hck Hpf Hh Hn Ht] Hm Hi' Hp Hni.
  pose proof (cstep_migrate_blocks _ _ _ (mg_step _ _ _ _ Hm) ltac:(eauto)) as Hb. destruct Hm as [Hs Eck Hps Hheaps Hg Hent].
  split; [done| |congruence|by etrans| | |].
  - intros t st b Hx. by eapply Hnl, Hb.
  - eapply heaps_ok_change; [done|done|done|]. intros d e' _ He'. rewrite Hent.
    rewrite lookup_insert_ne; [done|]. intros ->. apply Hp. cbn. apply elem_of_dom. eauto.
  - destruct Hheaps as (_&_&Eh&_). rewrite Eh. intros n Hin Hr. destruct (Hn n Hin Hr) as (Hnp&?).
    split; [|done]. cbn. rewrite Hent, dom_insert_L. intros [E%elem_of_singleton|?]%elem_of_union; [|done].
    apply Hni. rewrite <- E. by apply list_elem_of_fmap_2.
  - eapply trace_trans; [done|]. by eapply trace_step.
Qed.

Lemma mig_inv_dram ents s0 s s' p : mig_inv ents s0 s →
  migrated s s' (LMigrateDRAM p) (delete p) → (∃ a, inv false a s') →
  p ∉ Mig.d_phy_addr <$> Mig.dram_heap_ (migrator_ (ctl s)) → mig_inv ents s0 s'.
Proof.
  intros [[a Hi] Hnl Hck Hpf Hh Hn Ht] Hm Hi' Hni.
  pose proof (cstep_migrate_blocks _ _ _ (mg_step _ _ _ _ Hm) ltac:(eauto)) as Hb. destruct Hm as [Hs Eck Hps Hheaps Hg Hent].
  split; [done| |congruence|by etrans| | |].
  - intros t st b Hx. by eapply Hnl, Hb.
  - eapply heaps_ok_change; [done|done|done|]. intros d e' Hin He'. rewrite Hent.
    rewrite lookup_delete_ne; [done|]. intros ->. apply Hni. by apply list_elem_of_fmap_2.
  - destruct Hheaps as (_&_&Eh&_). rewrite Eh. intros n Hin Hr. destruct (Hn n Hin Hr) as (Hnp&?).
    split; [|done]. cbn. rewrite Hent, dom_delete_L. intros [? _]%elem_of_difference. done.
  - eapply trace_trans; [done|]. by eapply trace_step.
Qed.

(** [MigrateDRAM] with the profiler frozen. *)
Lemma wp_frozen_MigrateDRAM a d pf {B} (k : M (Sys St) B) (Q : B → Sys St → Prop) s : inv false a s →
  in_checkpointing_ (ctl s) = false → ignore_latency_ (sel pf (profs s)) = false → no_loan s →
  Mig.d_phy_addr d ∈ k_pages (conf s) →
  (∀ a' s', inv false a' s' →
     migrated s s' (LMigrateDRAM (Mig.d_phy_addr d)) (delete (Mig.d_phy_addr d)) → wp k Q s') →
  wp (on_pf pf set_ignore_latency ;; MigrateDRAM d pf ;; on_pf pf clear_ignore_latency ;; k) Q s.
Proof.
  intros Hi Hck Hign Hnl Hd HQ. wp_step. apply wp_set_ignore; [done|]. set (ps1 := upd _ _ _). wp_step.
  eapply wp_MigrateDRAM; [exact (inv_profs _ _ ps1 _ Hi)|done|done|done|]. intros a' s1 Hi1 Hm1. wp_step.
  pose proof (mg_pf _ _ _ _ Hm1) as Hps1. cbn in Hps1. apply wp_clear_ignore.
  { rewrite (proj1 (Hps1 pf)). unfold ps1. by rewrite sel_upd_eq. }
  eapply HQ; [by apply inv_profs|]. destruct Hm1. split; try done. by apply pf_ignored.
Qed.

(** Extracting from the heaps. *)
Lemma wp_extract_nvm ents s0 pf (Q : option Mig.NVMPageStats → Sys St → Prop) s : mig_inv ents s0 s →
  (Mig.nvm_heap_ (migrator_ (ctl s)) = [] → Q None s) →
  (∀ n s', mig_inv ents s0 s' → (0 < Mig.n_dirty_ratio n → page_free s' (Mig.n_phy_addr n))%Q →
     Mig.n_phy_addr n ∉ Mig.n_phy_addr <$> Mig.nvm_heap_ (migrator_ (ctl s')) →
     length (Mig.nvm_heap_ (migrator_ (ctl s))) = S (length (Mig.nvm_heap_ (migrator_ (ctl s')))) →
     Q (Some n) s') →
  wp (on_mig (Mig.ExtractNVMPage pf)) Q s.
Proof.
  intros Hmi Hnone Hsome. apply wp_zoom. pose proof (mi_heaps _ _ _ Hmi) as Hh.
  eapply wp_ExtractNVMPage; [exact Hh| |].
  - intros E. cbn [fst snd]. rewrite mig_eta. destruct s. by apply Hnone.
  - intros n l m' ps' El _ Hst _ Hperm Hh' Hps. cbn [fst snd].
    pose proof (h_nvm_nodup _ _ Hh) as Hnd. rewrite El in Hnd. apply NoDup_cons in Hnd as [Hni _].
    assert (mig_inv ents s0 (set_mig m' ps' s)) as Hmi'.
    { apply mig_inv_table; [done..| |done]. intros n'. rewrite Hperm, El. set_solver. }
    change (Q (Some n) (set_mig m' ps' s)). apply Hsome; [done| | |].
    + intros Hr. pose proof (mi_nvm _ _ _ Hmi n) as Hn. rewrite El in Hn. specialize (Hn (list_elem_of_here _ _) Hr).
      unfold page_free in *. rewrite conf_set_mig. cbn [k_pages]. by rewrite (proj1 (proj2 Hst)).
    + cbn. by rewrite Hperm.
    + cbn. by rewrite El, Hperm.
Qed.

(** A page taken from the DRAM heap. *)
Definition at_hand s (d : Mig.DRAMPageStats) : Prop :=
  Mig.d_phy_addr d ∈ k_pages (conf s) ∧
  Mig.d_phy_addr d ∉ Mig.d_phy_addr <$> Mig.dram_heap_ (migrator_ (ctl s)).

Lemma wp_extract_dram ents s0 pf (Q : option Mig.DRAMPageStats → Sys St → Prop) s : mig_inv ents s0 s →
  (Mig.dram_heap_ (migrator_ (ctl s)) = [] → Q None s) →
  (∀ d s', mig_inv ents s0 s' → at_hand s' d → conf s' = conf s →
     Mig.nvm_heap_ (migrator_ (ctl s')) = Mig.nvm_heap_ (migrator_ (ctl s)) →
     Mig.num_entries (migrator_ (ctl s')) = Mig.num_entries (migrator_ (ctl s)) →
     Mig.ptt_capacity_ (migrator_ (ctl s')) = Mig.ptt_capacity_ (migrator_ (ctl s)) →
     length (Mig.dram_heap_ (migrator_ (ctl s))) = S (length (Mig.dram_heap_ (migrator_ (ctl s')))) →
     Q (Some d) s') →
  wp (on_mig (Mig.ExtractDRAMPage pf)) Q s.
Proof.
  intros Hmi Hnone Hsome. apply wp_zoom. pose proof (mi_heaps _ _ _ Hmi) as Hh.
  eapply wp_ExtractDRAMPage; [exact Hh| |].
  - intros E. cbn [fst snd]. rewrite mig_eta. destruct s. by apply Hnone.
  - intros d l m' ps' El _ Hst Hnvm Hperm Hh' Hps. cbn [fst snd].
    pose proof (h_dram_nodup _ _ Hh) as Hnd. rewrite El in Hnd. apply NoDup_cons in Hnd as [Hni _].
    assert (mig_inv ents s0 (set_mig m' ps' s)) as Hmi'.
    { apply mig_inv_table; [done..| |done]. intros n'. by rewrite Hnvm. }
    pose proof Hst as ((_&_&_&_&_&_&Ecap)&Hent&_).
    destruct (h_dram _ _ Hh d) as (e&He&_); [rewrite El; apply list_elem_of_here|].
    change (Q (Some d) (set_mig m' ps' s)). apply Hsome; [done| | |done| |done|].
    + split; [|cbn; by rewrite Hperm]. rewrite conf_set_mig. cbn [k_pages]. rewrite Hent.
      apply elem_of_dom. eauto.
    + rewrite conf_set_mig. cbn [k_pages]. by rewrite Hent.
    + unfold Mig.num_entries. cbn. by rewrite Hent.
    + cbn. by rewrite El, Hperm.
Qed.

(** How the first loop leaves the state. *)
Definition nvm_exit (ents : list ATT.ATTEntry) s0 (x : loop_exit) s : Prop :=
  mig_inv ents s0 s ∧ match x with ExitReady d => at_hand s d | _ => True end.

Lemma wp_one_migration ents s0 n pf fuel dr s : mig_inv ents s0 s →
  ignore_latency_ (sel pf (profs s0)) = false → page_free s (Mig.n_phy_addr n) →
  Mig.n_phy_addr n ∉ Mig.n_phy_addr <$> Mig.nvm_heap_ (migrator_ (ctl s)) →
  Mig.num_entries (migrator_ (ctl s)) < Mig.ptt_capacity_ (migrator_ (ctl s)) →
  (∀ s', mig_inv ents s0 s' → length (Mig.nvm_heap_ (migrator_ (ctl s'))) = length (Mig.nvm_heap_ (migrator_ (ctl s))) →
     wp (migrate_nvm_loop fuel pf dr) (nvm_exit ents s0) s') →
  wp (MigrateNVM n pf ;; migrate_nvm_loop fuel pf dr) (nvm_exit ents s0) s.
Proof.
  intros Hmi Hign Hpf Hni Hcap HQ. destruct (mi_inv _ _ _ Hmi) as [a Hi]. wp_step.
  eapply wp_MigrateNVM; [exact Hi|apply (mi_ck _ _ _ Hmi)| |apply (mi_loan _ _ _ Hmi)|done|done|].
  { by rewrite (proj1 (mi_pf _ _ _ Hmi pf)). }
  intros a' s' e Hi' Hm. apply HQ.
  - eapply mig_inv_nvm; [done|done|eauto|apply Hpf|done].
  - by destruct (mg_heaps _ _ _ _ Hm) as (_&_&->&_).
Qed.

Lemma wp_migrate_nvm_loop ents s0 pf dr fuel s : (0 < dr)%Q →
  ignore_latency_ (sel pf (profs s0)) = false → mig_inv ents s0 s →
  (length (Mig.nvm_heap_ (migrator_ (ctl s))) < fuel)%nat →
  wp (migrate_nvm_loop fuel pf dr) (nvm_exit ents s0) s.
Proof.
  intros Hdr Hign. revert s. induction fuel as [|fuel IH]; intros s Hmi Hf; [lia|]. cbn [migrate_nvm_loop].
  wp_step. eapply wp_extract_nvm; [done|intros _; wp_step; done|]. intros n s1 Hmi1 Hpf Hni Hlen.
  destruct (Mig.Qlt_bool (Mig.n_dirty_ratio n) dr) eqn:Er; [wp_step; done|].
  apply Qlt_bool_false in Er. specialize (Hpf (Qlt_le_trans _ _ _ Hdr Er)).
  destruct (mi_inv _ _ _ Hmi1) as [a1 Hi1]. pose proof (m_slots _ (iv_mig _ _ _ _ Hi1)) as Hslots.
  wp_steps. destruct (Z.eqb_spec (Mig.num_entries (migrator_ (ctl s1))) (Mig.ptt_capacity_ (migrator_ (ctl s1)))) as [E|E].
  - wp_step. eapply wp_extract_dram; [done|intros _; wp_step; done|]. intros d s2 Hmi2 Hd Ec2 En2 Ee2 Ecap2 _.
    destruct (Mig.Qlt_bool 0 (Mig.d_write_ratio d)); [wp_step; done|].
    destruct (mi_inv _ _ _ Hmi2) as [a2 Hi2].
    eapply wp_frozen_MigrateDRAM; [exact Hi2|apply (mi_ck _ _ _ Hmi2)| |apply (mi_loan _ _ _ Hmi2)|apply Hd|].
    { by rewrite (proj1 (mi_pf _ _ _ Hmi2 pf)). }
    intros a3 s3 Hi3 Hm3. pose proof (mg_heaps _ _ _ _ Hm3) as (_&_&En3&_).
    pose proof (mg_consts _ _ _ _ Hm3) as (_&_&_&_&_&_&Ecap3). pose proof (mg_entries _ _ _ _ Hm3) as Hent3.
    assert (mig_inv ents s0 s3) as Hmi3 by (eapply mig_inv_dram; [exact Hmi2|exact Hm3|eauto|apply Hd]).
    eapply wp_one_migration; [exact Hmi3|done| |by rewrite En3, En2| |].
    + unfold page_free in *. rewrite <- Ec2 in Hpf. destruct Hpf as (Hnp&?). split; [|done].
      cbn in *. rewrite Hent3, dom_delete_L. intros [? _]%elem_of_difference. done.
    + pose proof (proj1 (elem_of_dom (Mig.entries_ (migrator_ (ctl s2))) _) (proj1 Hd)) as [e He]. unfold Mig.num_entries in *. rewrite Hent3, Ecap3, Ecap2, <- E, <- Ee2.
      rewrite map_size_delete_Some by eauto.
      assert (size (Mig.entries_ (migrator_ (ctl s2))) ≠ 0%nat); [|lia].
      apply map_size_non_empty_iff. intros E0. by rewrite E0, lookup_empty in He.
    + intros s4 Hmi4 Hlen4. apply IH; [done|]. rewrite Hlen4, En3, En2. lia.
  - eapply wp_one_migration; [exact Hmi1|done|done|done|lia|]. intros s4 Hmi4 Hlen4.
    apply IH; [done|]. lia.
Qed.

Lemma wp_migrate_dram_loop ents s0 pf wr fuel d limit s :
  ignore_latency_ (sel pf (profs s0)) = false → mig_inv ents s0 s → at_hand s d →
  (length (Mig.dram_heap_ (migrator_ (ctl s))) < fuel)%nat →
  wp (migrate_dram_loop fuel pf wr d limit) (λ _, mig_inv ents s0) s.
Proof.
  intros Hign. revert d limit s. induction fuel as [|fuel IH]; intros d limit s Hmi Hd Hf; [lia|].
  cbn [migrate_dram_loop].
  assert (∀ limit s', mig_inv ents s0 s' →
    length (Mig.dram_heap_ (migrator_ (ctl s'))) = length (Mig.dram_heap_ (migrator_ (ctl s))) →
    wp (if limit =? 0 then mret tt else
        r ← on_mig (Mig.ExtractDRAMPage (if Qeq_bool (Mig.d_write_ratio d) 0 then PfNull else pf));
        match r with
        | None => mret tt
        | Some d' => migrate_dram_loop fuel pf wr d' limit
        end) (λ _, mig_inv ents s0) s') as Hcond.
  { intros lim s' Hmi' Hlen. destruct (lim =? 0); [by wp_step|]. wp_step.
    eapply wp_extract_dram; [done|intros _; by wp_step|]. intros d' s2 Hmi2 Hd2 _ _ _ _ Hlen2.
    apply IH; [done|done|]. lia. }
  destruct (Qeq_bool _ _); [by apply Hcond|]. destruct (Mig.Qlt_bool _ _); [by wp_step|].
  destruct (mi_inv _ _ _ Hmi) as [a Hi].
  eapply wp_frozen_MigrateDRAM; [exact Hi|apply (mi_ck _ _ _ Hmi)| |apply (mi_loan _ _ _ Hmi)|apply Hd|].
  { by rewrite (proj1 (mi_pf _ _ _ Hmi pf)). }
  intros a1 s1 Hi1 Hm1. pose proof (mg_heaps _ _ _ _ Hm1) as (_&Ed&_).
  assert (mig_inv ents s0 s1) as Hmi1 by (eapply mig_inv_dram; [exact Hmi|exact Hm1|eauto|apply Hd]).
  wp_steps. apply Hcond; [|cbn; by rewrite Ed]. destruct Hmi1 as [[a' [[]]]]. split; try done.
  exists a'. by split.
Qed.

(** ** MigratePages *)

Lemma page_of_top t : tag_ok c t → page_of c t mod 2 ^ c_page_bits c = 0 ∧ 0 ≤ page_of c t ∧
  page_of c t + 2 ^ c_page_bits c ≤ c_phy_range c.
Proof.
  intros [H0 Ht]. pose proof (wf_bits _ Hc). pose proof (pow2_pos (c_page_bits c)) as Hp.
  pose proof (bs_pos _ Hc). pose proof (wf_align _ Hc) as Hal. apply Z.mod_divide in Hal as [r Hr]; [|lia].
  unfold page_of. set (P := 2 ^ c_page_bits c) in *.
  pose proof (Z.div_mod (home t) P). set (h := home t) in *. pose proof (Z.mod_pos_bound h P).
  assert (0 ≤ h) by (unfold h, PersistSpec.home; nia).
  replace (h - h mod P) with (h / P * P) by lia. split; [apply Z.mod_mul; lia|].
  pose proof (Z.div_pos h P). assert (h / P < r); [|nia]. apply Z.div_lt_upper_bound; lia.
Qed.

Lemma loan_none a s : inv false a s → no_loan s ↔ ATT.qof a ATT.LOAN = [].
Proof.
  intros Hi. pose proof (iv_att _ _ _ _ Hi) as Hrep. split.
  - intros Hnl. destruct (ATT.qof a ATT.LOAN) as [|i l] eqn:Eq; [done|].
    destruct (live_front a ATT.LOAN i l _ Hrep) as (_&e&He&Es%StateIndex_LOAN); [done|exact Eq|].
    by destruct (Hnl _ _ _ (blocks_of_live _ _ Hrep _ _ He)).
  - intros Eq t st b (i&e&He&_&<-&_)%(blocks_of_Some _ _ Hrep) Es.
    destruct (ATT.r_state _ _ Hrep _ _ He) as [_ Hin]. rewrite Es, Eq in Hin. by apply elem_of_nil in Hin.
Qed.

(** A written entry is a block in use. *)
Lemma written_live a s b : inv false a s → stats_ok a → b ∈ ATT.entries_ (att_ (ctl s)) → written b →
  ∃ i e, ATT.a_live a !! i = Some e ∧ ATT.phy_tag e = ATT.phy_tag b ∧ ATT.state e = ATT.state b ∧
    counts_writes (ATT.state e) = true.
Proof.
  intros Hi Hs Hb Hw. apply list_elem_of_lookup in Hb as [k Hk].
  assert (zlookup (ATT.a_ents a) (Z.of_nat k) = Some (ATT.strip b)) as Hz.
  { rewrite <- (ATT.r_ents _ _ (iv_att _ _ _ _ Hi)). cbn. rewrite zlookup_fmap.
    unfold zlookup. destruct (Z.ltb_spec (Z.of_nat k) 0); [lia|]. by rewrite Nat2Z.id, Hk. }
  destruct (Hs _ _ Hz Hw) as [Hl Hc']. eauto 10.
Qed.

Lemma input_ok a s : inv false a s → stats_ok a →
  Forall (block_ok (migrator_ (ctl s))) (ATT.entries_ (att_ (ctl s))).
Proof.
  intros Hi Hs. apply Forall_forall. intros b Hb. split.
  - intros Hst Hw. destruct (written_live _ _ _ Hi Hs Hb Hw) as (i&e&_&_&Es&Hcw).
    rewrite Es in Hcw. by destruct Hst as [E|E]; rewrite E in Hcw.
  - intros Hw. destruct (written_live _ _ _ Hi Hs Hb Hw) as (i&e&He&Et&_).
    pose proof (eo_tag _ _ _ _ (iv_entry _ _ _ _ Hi _ _ He)) as Ht. rewrite Et in Ht.
    destruct (cg_mig _ _ (iv_geom _ _ _ _ Hi)) as (Hbb&Hpb&_). pose proof (tag_top _ Hc _ Ht).
    pose proof (phy_63 c Hc). pose proof (bs_pos _ Hc). unfold blk_addr. rewrite Hbb, Hpb.
    unfold PersistSpec.home, c_bsize in *. lia.
Qed.

Lemma recorded_free a s p x : inv false a s → stats_ok a → no_loan s →
  recorded (migrator_ (ctl s)) (ATT.entries_ (att_ (ctl s))) p x → page_free s p.
Proof.
  intros Hi Hs Hnl (b&Hb&Hw&_&_&->&_&->).
  destruct (written_live _ _ _ Hi Hs Hb Hw) as (i&e&He&Et&_). pose proof (iv_entry _ _ _ _ Hi _ _ He) as Heo.
  pose proof (eo_tag _ _ _ _ Heo) as Ht. rewrite (PageAlign_addr c _ _ (iv_geom _ _ _ _ Hi) (iv_mig _ _ _ _ Hi)).
  destruct (cg_mig _ _ (iv_geom _ _ _ _ Hi)) as (Hbb&_). unfold blk_addr. rewrite Hbb, <- Et.
  fold (c_bsize c). change (ATT.phy_tag e * bs) with (home (ATT.phy_tag e)). fold (page_of c (ATT.phy_tag e)).
  split; [|by apply page_of_top]. intros Hin. apply (eo_page _ _ _ _ Heo) in Hin.
  by destruct (Hnl _ _ _ (blocks_of_live _ _ (iv_att _ _ _ _ Hi) _ _ He)).
Qed.

(** The loans are revoked and the heaps filled. *)
Lemma mig_inv_start a s0 s m' : inv false a s → stats_ok a → no_loan s →
  in_checkpointing_ (ctl s) = false → pf_same (profs s0) (profs s) → trace c loan_label s0 s →
  same_table (migrator_ (ctl s)) m' → heaps_ok m' (ATT.entries_ (att_ (ctl s))) →
  mig_inv (ATT.entries_ (att_ (ctl s))) s0 (set_mig m' (profs s) s).
Proof.
  intros Hi Hs Hnl Hck Hps (ls&Hls&Hfl) Hst Hh. pose proof Hst as (Hg&Hent&_).
  assert (dom (Mig.entries_ m') = dom (Mig.entries_ (migrator_ (ctl s)))) as Hd by (by rewrite Hent).
  pose proof (conf_mig c s m' (profs s) Hd) as Ec. change (conf (set_mig m' (profs s) s) = conf s) in Ec.
  split; unfold no_loan, page_free, trace; rewrite ?Ec; try done.
  - exists a. apply inv_mig; [done| |done|done]. eapply mig_ok_table; [done|apply (iv_mig _ _ _ _ Hi)].
  - intros n Hin Hr. destruct (h_nvm _ _ Hh n Hin Hr) as [x Hx]. eapply recorded_free; [done..|].
    eapply recorded_mono; [|done|exact Hx]. destruct Hg as (?&?&?&?&?&?&?). split_and!; congruence.
  - exists ls. split; [done|]. eapply Forall_impl; [done|]. intros l. by destruct l as [| | | |? []| | | | | | | | | |].
Qed.

Lemma wp_finish_dram ents s0 pf wr d s : ignore_latency_ (sel pf (profs s0)) = false →
  mig_inv ents s0 s → at_hand s d →
  wp (s ← get;
      let m := migrator_ (ctl s) in
      migrate_dram_loop (S (length (Mig.dram_heap_ m))) pf wr d
        (Mig.ptt_capacity_ m - Mig.ptt_length_ m)) (λ _, mig_inv ents s0) s.
Proof. intros Hign Hmi Hd. wp_steps. apply wp_migrate_dram_loop; [done..|]. cbn. lia. Qed.

Lemma wp_MigratePages a pf dr wr (Q : unit → Sys St → Prop) s : inv false a s → ready a s →
  in_checkpointing_ (ctl s) = false → ignore_latency_ (sel pf (profs s)) = false → (0 < dr)%Q →
  (∀ a' s', inv false a' s' → ATT.qof a' ATT.LOAN = [] → in_checkpointing_ (ctl s') = false →
     pf_same (profs s) (profs s') → trace c migrates s s' → Q tt s') →
  wp (MigratePages pf dr wr) Q s.
Proof.
  intros Hi [Hst (Hms&Hpg&Hdh&Hnh)] Hck Hign Hdr HQ. unfold MigratePages.
  wp_step. apply (wp_phase false); [done|]. wp_step. apply wp_assert; [done|]. wp_step.
  eapply (wp_VisitQueue c _ _ _ _ (revoking c s)); [exact Hi|done| | |].
  { exists a. split_and!; try done. by apply trace_same. }
  { intros i l s1 HI. split; [|by apply wp_LoanRevoker]. destruct HI as (a1&Hi1&_&Hq1&_). exists a1.
    split; [apply (iv_att _ _ _ _ Hi1)|done]. }
  intros _ s1 (a1&Hi1&Hst1&Hq1&Hck1&(Em1&_&Hps1)&Ht1). wp_step.
  eapply wp_sys_IsEmpty; [done|done|]. rewrite bool_decide_eq_true_2 by done. wp_step. apply wp_assert; [done|].
  pose proof (proj2 (loan_none _ _ Hi1) Hq1) as Hnl1. wp_steps. apply wp_zoom, wp_own.
  apply wp_InputBlocks; rewrite ?Em1; try done; [rewrite <- Em1; apply (iv_mig _ _ _ _ Hi1)|rewrite <- Em1; by eapply input_ok|].
  intros m2 Hst2 Hh2. rewrite <- Em1 in Hst2.
  assert (mig_inv (ATT.entries_ (att_ (ctl s1))) s (set_mig m2 (profs s1) s1)) as Hmi2
    by (by eapply mig_inv_start). set (ents := ATT.entries_ _) in *. set (s2 := set_mig _ _ _) in *.
  change (MkSys (set_migrator_ (m2, profs s1).1 (ctl s1)) (store s1) (m2, profs s1).2 (ckpt s1)) with s2.
  assert (∀ s', mig_inv ents s s' → Q tt s') as Hend.
  { intros s' Hmi. destruct (mi_inv _ _ _ Hmi) as [a' Hi']. apply (HQ a'); [done| |apply Hmi..].
    apply (loan_none _ _ Hi'), Hmi. }
  wp_steps. eapply wp_mono; [apply (wp_migrate_nvm_loop ents s); [done|done|done|lia]|].
  intros [|d|] s3 [Hmi3 Hx].
  - wp_step. by apply Hend.
  - eapply wp_mono; [by apply (wp_finish_dram ents s)|]. intros [] s4. apply Hend.
  - wp_step. eapply wp_extract_dram; [done|intros _; wp_step; by apply Hend|]. intros d s4 Hmi4 Hd _ _ _ _ _.
    eapply wp_mono; [by apply (wp_finish_dram ents s)|]. intros [] s5. apply Hend.
Qed.

End Migrate.
