(* ===== verification/ControllerMachine.v ===== *)
(** The controller implements the persistent memory of [PersistMachine]: every
    operation that the memory is asked for succeeds and keeps the two related, loads
    return the current image, and the checkpoints survive. *)

From Stdlib Require Import QArith.
From S2P Require Import Prelude Profiler StdAlgo MemStore PersistSpec PersistFacts PersistMachine.
From S2P Require Import MigrationSpec AddrTransController ControllerInv ControllerOps ControllerStore.
From S2P Require Import ControllerAccess ControllerEpoch ControllerMigrate.
#[global] Open Scope Z_scope.

(** What the memory is asked for, and what it answers. *)
Inductive event :=
  | ELoad (addr : Z)
  | EStore (addr : Z) (data : list Z)
  | EMigrate (dr wr : Q)
  | EBegin
  | EFinish.

Inductive outcome := OVal (v : Z) | OCtl (r : Control) | ODone.

Section Machine.
Context (c : Config) {St : Type} `{!MemStore St, !MemDevice St}.
Context `{HO : HashOrder, HA : HeapAlgo}.
Implicit Types s : Sys St.

(** A load is translated and read. A store is probed first; it is translated and
    written if it is a regular write. *)
Definition exec (ev : event) : M (Sys St) outcome :=
  match ev with
  | ELoad addr =>
      m ← LoadAddr addr PfArg;
      v ← on_store (DevRead m);
      mret (OVal v)
  | EStore addr data =>
      r ← Probe addr;
      match r with
      | REG_WRITE =>
          m ← StoreAddr addr (Z.of_nat (length data)) PfArg;
          on_store (DevWrite m data) ;;
          mret (OCtl REG_WRITE)
      | r => mret (OCtl r)
      end
  | EMigrate dr wr => MigratePages PfArg dr wr ;; mret ODone
  | EBegin => BeginCheckpointing PfArg ;; mret ODone
  | EFinish => FinishCheckpointing ;; mret ODone
  end.

(** The same events on the flat memory. *)
Inductive pstep : PMem → event → outcome → PMem → Prop :=
  | P_load P addr : pstep P (ELoad addr) (OVal (p_mem P addr)) P
  | P_store P addr data : p_phase P ≠ Migrated →
      pstep P (EStore addr data) (OCtl REG_WRITE) (p_store addr data P)
  | P_refuse P addr data r : r ≠ REG_WRITE → pstep P (EStore addr data) (OCtl r) P
  | P_migrate P dr wr mvs : p_phase P = Running → pstep P (EMigrate dr wr) ODone (p_migrate c mvs P)
  | P_begin P : p_phase P = Migrated → pstep P EBegin ODone (p_begin c P)
  | P_finish P : p_phase P = Checkpointing → pstep P EFinish ODone (p_finish P).

Context `{!MemStoreLaws St c, !MemDeviceLaws St c}.

Abbreviation bs := (c_bsize c).
Abbreviation conf := (conf c).
Abbreviation inv := (inv c).

(** The controller's side of each phase. *)
Definition in_phase (p : phase) (a : ATT.AbsATT) s : Prop :=
  match p with
  | Running => in_checkpointing_ (ctl s) = false ∧ ready a s
  | Migrated => in_checkpointing_ (ctl s) = false ∧ ATT.qof a ATT.LOAN = []
  | Checkpointing => in_checkpointing_ (ctl s) = true ∧ ready a s
  end.

Definition implements s (P : PMem) : Prop :=
  ignore_latency_ (sel PfArg (profs s)) = false ∧
  ∃ a, inv false a s ∧ in_phase (p_phase P) a s ∧ Rel c (conf s) P.

(** A store [Probe] can judge: its address is not the tag of another block, and if
    its block is lent while a checkpoint is written, the memory answers the latency
    query that is made with the physical address. *)
Definition judged s (addr : Z) : Prop :=
  (is_Some (k_blocks (conf s) !! addr) → is_Some (k_blocks (conf s) !! (addr / bs))) ∧
  (in_checkpointing_ (ctl s) = true → page_of c (addr / bs) ∈ k_pages (conf s) →
   is_Some (k_blocks (conf s) !! (addr / bs)) → lat_ok addr true None).

(** The write counters are [int]s: a store may be counted once more for its page. *)
Definition counted s (ev : event) : Prop := match ev with EStore addr _ => countable c s addr | _ => True end.

(** The image is there, whatever the statistics say. *)
Definition holds s (P : PMem) : Prop :=
  ignore_latency_ (sel PfArg (profs s)) = false ∧ ∃ a, inv false a s ∧ Rel c (conf s) P.

(** When an event may be issued. *)
Definition issued s (P : PMem) (ev : event) : Prop :=
  match ev with
  | ELoad addr => 0 ≤ addr < c_phy_range c
  | EStore addr data => p_phase P ≠ Migrated ∧ 0 ≤ addr < c_phy_range c ∧
      fits c addr (Z.of_nat (length data)) ∧ judged s addr
  | EMigrate dr wr => p_phase P = Running ∧ (0 < dr)%Q
  | EBegin => p_phase P = Migrated
  | EFinish => p_phase P = Checkpointing
  end.

Context (Hc : wf_config c).

(** ** Loads *)

Lemma tau_stays ls : Forall (λ l, l = LTau) ls → Forall (λ l, stays l = true) ls.
Proof. intros H. eapply Forall_impl; [done|]. by intros l ->. Qed.

Lemma csteps_tau κ ls κ' : csteps c κ ls κ' → Forall (λ l, l = LTau) ls →
  k_blocks κ' = k_blocks κ ∧ ∀ x, k_mem κ' x = k_mem κ x.
Proof.
  induction 1 as [|κ l κ1 ls κ' _ H1 _ IH]; [done|]. intros [-> Hls]%Forall_cons.
  destruct (IH Hls) as [-> Hm]. inversion H1; subst. split; [done|]. intros x. by rewrite Hm.
Qed.

Lemma phase_access p a a' s s' ls : access c (G := True) a a' s s' ls → in_phase p a s →
  (p = Migrated → ATT.qof a ATT.LOAN = [] → ATT.qof a' ATT.LOAN = []) → in_phase p a' s'.
Proof.
  intros A Hp Hl. pose proof (ac_phase _ _ _ _ _ _ A) as Eck. pose proof (ac_ready _ _ _ _ _ _ A I) as Hr.
  destruct p; cbn in *; rewrite Eck; naive_solver.
Qed.

(** No loans means no lent block, which a load cannot change. *)
Lemma load_no_loan a a' s s' ls : inv false a s → access c (G := True) a a' s s' ls → Forall (λ l, l = LTau) ls →
  ATT.qof a ATT.LOAN = [] → ATT.qof a' ATT.LOAN = [].
Proof.
  intros Hi A Hls Hq. pose proof (ac_inv _ _ _ _ _ _ A) as Hi'. apply (loan_none c _ _ Hi').
  pose proof (proj2 (loan_none c _ _ Hi) Hq) as Hnl.
  destruct (csteps_tau _ _ _ (ac_steps _ _ _ _ _ _ A) Hls) as [Eb _]. intros t st b. rewrite Eb. apply Hnl.
Qed.

Lemma implements_access s s' P a a' ls : implements s P → inv false a s → in_phase (p_phase P) a s →
  Rel c (conf s) P → access c (G := True) a a' s s' ls → Forall (λ l, l = LTau) ls → implements s' P.
Proof.
  intros [Hign _] Hi Hp HR A Hls. split; [by eapply access_ign|]. exists a'.
  split; [apply (ac_inv _ _ _ _ _ _ A)|]. split.
  - eapply phase_access; [done|done|]. intros _. by eapply load_no_loan.
  - replace P with (MkPMem (p_phase P) (p_mem P) (p_last P) (p_pend P) (p_dram P) (p_safe P) (p_psafe P)) by (by destruct P).
    eapply (rel_steps c Hc); [apply (ac_steps _ _ _ _ _ _ A)|by apply tau_stays|done|].
    intros x Hx. rewrite <- (rel_view _ _ _ HR x Hx). eapply (view_steps c Hc); [apply (ac_steps _ _ _ _ _ _ A)|done|].
    intros l Hl. rewrite Forall_forall in Hls. by rewrite (Hls _ Hl).
Qed.

Lemma wp_dev_read fl a m (Q : Z → Sys St → Prop) s : inv fl a s → 0 ≤ m < c_top c →
  (∀ s', inv fl a s' → tau_step c s s' → Q (content (store s) m) s') →
  wp (on_store (DevRead m)) Q s.
Proof.
  intros Hi Hm HQ. apply wp_zoom. eapply wp_mono; [by eapply law_dev_read; [apply (iv_store _ _ _ _ Hi)|]|].
  intros v st' (->&Hst&Hcont). apply HQ; [by apply inv_store|]. by split_and!; [apply tau_store|..].
Qed.

(** Where a block is, is memory. *)
Lemma base_top fl a s addr : inv fl a s → 0 ≤ addr < c_phy_range c →
  0 ≤ base c (conf s) (addr / bs) ∧ base c (conf s) (addr / bs) + bs ≤ c_top c.
Proof.
  intros Hi Ha. pose proof (tag_ok_addr _ Hc _ Ha) as Ht.
  destruct (k_blocks (conf s) !! (addr / bs)) as [[st b]|] eqn:E.
  - rewrite (base_some _ _ _ _ _ E). apply (blocks_of_Some _ _ (iv_att _ _ _ _ Hi)) in E as (i&e&He&_&_&<-).
    destruct (entry_valid c Hc _ _ _ _ _ Hi He) as [_ ?]. done.
  - unfold base. rewrite E. destruct (valid_home c Hc _ Ht) as [_ ?]. done.
Qed.

(** A load returns the byte of the image. *)
Lemma wp_load addr a s P : inv false a s → ignore_latency_ (sel PfArg (profs s)) = false → Rel c (conf s) P → 0 ≤ addr < c_phy_range c →
  wp (exec (ELoad addr)) (λ o s', o = OVal (p_mem P addr) ∧
    ∃ a' ls, access c (G := True) a a' s s' ls ∧ Forall (λ l, l = LTau) ls) s.
Proof.
  intros Hi Hign HR Ha. cbn [exec]. wp_step.
  eapply (wp_LoadAddr c Hc); [done|done|done|]. intros a1 s1 ls A Hls. wp_step.
  pose proof (ac_inv _ _ _ _ _ _ A) as Hi1. pose proof (base_top _ _ _ _ Hi Ha) as Hb.
  pose proof (Z.mod_pos_bound addr bs (bs_pos _ Hc)).
  eapply wp_dev_read; [done|lia|]. intros s2 Hi2 Ht. wp_step. split.
  - f_equal. rewrite <- (rel_view _ _ _ HR addr Ha). unfold view. apply (csteps_tau _ _ _ (ac_steps _ _ _ _ _ _ A) Hls).
  - exists a1, (ls ++ [LTau]). split; [exact (access_trans c _ _ _ _ _ _ _ _ A (access_tau c Hc _ _ _ Hi1 Hi2 Ht))|].
    apply Forall_app. split; [done|by repeat constructor].
Qed.

Lemma holds_load addr s P : holds s P → 0 ≤ addr < c_phy_range c → wp (exec (ELoad addr)) (λ o _, o = OVal (p_mem P addr)) s.
Proof. intros (Hign&a&Hi&HR) Ha. eapply wp_mono; [by apply (wp_load addr a s P)|]. by intros o s' [-> _]. Qed.

Lemma implements_holds s P : implements s P → holds s P.
Proof. intros (Hign&a&Hi&_&HR). split; [done|]. by exists a. Qed.

Lemma exec_load addr s P : implements s P → issued s P (ELoad addr) →
  wp (exec (ELoad addr)) (λ o s', ∃ P', pstep P (ELoad addr) o P' ∧ implements s' P') s.
Proof.
  intros Himp Ha. pose proof Himp as (Hign&a&Hi&Hp&HR). eapply wp_mono; [by apply (wp_load addr a s P)|].
  intros o s' [-> (a1&ls&A&Hls)]. exists P. split; [constructor|by eapply implements_access].
Qed.

(** ** Stores *)

Lemma mapped_iff a s t : inv false a s → is_Some (k_blocks (conf s) !! t) ↔ ¬ unmapped a t.
Proof.
  intros Hi. pose proof (blocks_of_None _ _ (iv_att _ _ _ _ Hi) t) as Hn. fold (unmapped a t) in Hn.
  rewrite <- Hn, <- not_eq_None_Some. done.
Qed.

Lemma judged_room a s addr : inv false a s → judged s addr → probed c a s addr REG_WRITE →
  store_room c a s addr ∧ lent_lat c a s addr.
Proof.
  intros Hi [Hal Hlat] Hp. split.
  - apply probed_room; [done|done|]. intros (i&e&He&Et). apply (mapped_iff _ _ _ Hi), Hal.
    eexists. cbn. rewrite <- Et. by apply (blocks_of_live _ _ (iv_att _ _ _ _ Hi) i).
  - intros Hck Hpg Hu. apply Hlat; [done|done|]. by apply (mapped_iff _ _ _ Hi).
Qed.

Lemma store_stays addr size l : store_step c addr size l → stays l = true.
Proof. intros [Hl _]. by destruct l. Qed.

(** The device write makes the stored bytes current. *)
Lemma rel_write addr data a s s1 st' ls P : inv false a s1 → 0 ≤ addr < c_phy_range c →
  fits c addr (Z.of_nat (length data)) → Rel c (conf s) P → csteps c (conf s) ls (conf s1) →
  Forall (store_step c addr (Z.of_nat (length data))) ls → writable c (conf s1) (addr / bs) →
  (∀ x, content st' x =
     write_bytes (base c (conf s1) (addr / bs) + addr mod bs) data (content (store s1)) x) →
  Rel c (conf (MkSys (ctl s1) st' (profs s1) (ckpt s1))) (p_store addr data P).
Proof.
  intros Hi Ha [Hn Hfit] HR Hs Hls Hw Hst. set (n := Z.of_nat (length data)) in *.
  set (b := base c (conf s1) (addr / bs)) in *. pose proof (addr_split _ Hc addr) as [Ea Ho].
  set (s2 := MkSys _ _ _ _).
  assert (cstep c (conf s1) (LWrite addr n) (conf s2)) as Hw1.
  { apply (S_write c (conf s1)); [by apply tag_ok_addr|lia|done|done|]. intros x Hx. fold b in Hx.
    rewrite Hst. unfold write_bytes. fold n.
    destruct (Z.leb_spec (b + addr mod bs) x); [|done]. simpl.
    destruct (Z.ltb_spec x (b + addr mod bs + n)); [lia|done]. }
  assert (csteps c (conf s) (ls ++ [LWrite addr n]) (conf s2)) as Hs2
    by (by eapply csteps_snoc; [..|by eapply inv_cinv|]).
  apply (rel_steps c Hc (conf s) (ls ++ [LWrite addr n]) (conf s2) P); [exact Hs2| |done|].
  - apply Forall_app. split; [|by repeat constructor]. eapply Forall_impl; [done|]. intros l. apply store_stays.
  - intros x Hx. unfold write_bytes. fold n.
    destruct (Z.leb_spec addr x); [destruct (Z.ltb_spec x (addr + n))|]; cbn [andb].
    + assert (x / bs = addr / bs ∧ x mod bs = addr mod bs + (x - addr)) as [Ed Em].
      { pose proof (home_addr c (addr / bs) (addr mod bs + (x - addr)) ltac:(lia)) as [E1 E2].
        replace (home c (addr / bs) + (addr mod bs + (x - addr))) with x in * by lia. done. }
      unfold view. rewrite Ed, Em. change (base c (conf s2) (addr / bs)) with b.
      change (k_mem (conf s2)) with (content st'). rewrite Hst. unfold write_bytes. fold n.
      destruct (Z.leb_spec (b + addr mod bs) (b + (addr mod bs + (x - addr)))); [|lia]. simpl.
      destruct (Z.ltb_spec (b + (addr mod bs + (x - addr))) (b + addr mod bs + n)); [|lia]. f_equal. lia.
    + rewrite <- (rel_view _ _ _ HR x Hx). eapply (view_steps c Hc); [exact Hs2|done|].
      intros l [Hl| ->%list_elem_of_singleton]%elem_of_app; [|simpl; lia].
      rewrite Forall_forall in Hls. destruct (Hls _ Hl) as [_ Ht]. intros Hx'%Ht. lia.
    + rewrite <- (rel_view _ _ _ HR x Hx). eapply (view_steps c Hc); [exact Hs2|done|].
      intros l [Hl| ->%list_elem_of_singleton]%elem_of_app; [|simpl; lia].
      rewrite Forall_forall in Hls. destruct (Hls _ Hl) as [_ Ht]. intros Hx'%Ht. lia.
Qed.

(** The profilers and the list of checkpoint blocks are not part of the memory. *)
Lemma implements_profs s P ps l : implements s P → ignore_latency_ (sel PfArg ps) = false →
  implements (MkSys (ctl s) (store s) ps l) P.
Proof.
  intros (_&a&Hi&Hp&HR) Hign. split; [done|]. exists a.
  split; [apply inv_store; [done|apply (iv_store _ _ _ _ Hi)]|]. by split.
Qed.

(** The state in which [Probe] admitted a store. *)
Definition admitted (a : ATT.AbsATT) s (P : PMem) (addr : Z) : Prop :=
  inv false a s ∧ in_phase (p_phase P) a s ∧ Rel c (conf s) P ∧ store_room c a s addr ∧ lent_lat c a s addr.

Lemma wp_admission addr (Q : Control → Sys St → Prop) s P : implements s P → 0 ≤ addr < c_phy_range c → judged s addr →
  (∀ r ps a, pf_same (profs s) ps → implements (MkSys (ctl s) (store s) ps (ckpt s)) P → inv false a s →
     in_phase (p_phase P) a s → probed c a s addr r →
     (r = REG_WRITE → admitted a (MkSys (ctl s) (store s) ps (ckpt s)) P addr) →
     Q r (MkSys (ctl s) (store s) ps (ckpt s))) →
  wp (Probe addr) Q s.
Proof.
  intros Himp Ha Hj HQ. pose proof Himp as (Hign&a&Hi&Hp&HR). eapply (wp_Probe c Hc); [done|done|].
  intros r ps Hps Hpr. eapply HQ; [done| |done..|].
  - apply implements_profs; [done|]. by rewrite (proj1 (Hps PfArg)).
  - intros ->. destruct (judged_room _ _ _ Hi Hj Hpr) as [Hroom Hlat].
    split_and!; [|done..]. apply inv_store; [done|apply (iv_store _ _ _ _ Hi)].
Qed.

(** An admitted store, and the write of its bytes to the address it returns. *)
Lemma wp_store_write addr data pf a s P : admitted a s P addr → ignore_latency_ (sel PfArg (profs s)) = false →
  ignore_latency_ (sel pf (profs s)) = false → p_phase P ≠ Migrated → 0 ≤ addr < c_phy_range c →
  fits c addr (Z.of_nat (length data)) →
  wp (StoreAddr addr (Z.of_nat (length data)) pf)
    (λ m s1, wp (on_store (DevWrite m data)) (λ _ s2, holds s2 (p_store addr data P) ∧
       (countable c s addr → implements s2 (p_store addr data P)) ∧ ckpt s2 = ckpt s ∧ pf_same (profs s) (profs s2)) s1) s.
Proof.
  intros (Hi&Hp&HR&Hroom&Hlat) Hign Hpf Hph Ha Hfit.
  eapply (wp_StoreAddr c Hc); [exact Hi|done|done|done|done|done|].
  intros a2 s2 (ls&A2&Hls) Hw. pose proof (ac_inv _ _ _ _ _ _ A2) as Hi2.
  pose proof (base_top _ _ _ _ Hi2 Ha) as Hb. destruct Hfit as [Hn Hfit].
  pose proof (Z.mod_pos_bound addr bs (bs_pos _ Hc)).
  apply wp_zoom. eapply wp_mono; [eapply law_dev_write; [apply (iv_store _ _ _ _ Hi2)|lia|lia]|].
  intros [] st' [Hst' Hcont]. set (s3 := MkSys _ _ _ _).
  assert (ignore_latency_ (sel PfArg (profs s3)) = false ∧ inv false a2 s3 ∧ Rel c (conf s3) (p_store addr data P)) as (H1&H2&H3).
  { split; [exact (access_ign c _ _ _ _ _ _ A2 Hign)|]. split; [by apply inv_store|].
    eapply (rel_write addr data a2 s s2); [done|done|done|done|apply (ac_steps _ _ _ _ _ _ A2)|done|done|done]. }
  split_and!; [by split; [|exists a2]| |apply A2..]. intros HG. split; [done|]. exists a2. split; [done|]. split; [|done].
  pose proof (ac_phase _ _ _ _ _ _ A2) as Eck. pose proof (ac_ready _ _ _ _ _ _ A2 HG) as Hr.
  cbn. destruct (p_phase P); cbn in *; [|done|]; by rewrite Eck; naive_solver.
Qed.

Lemma exec_store addr data s P : implements s P → issued s P (EStore addr data) →
  wp (exec (EStore addr data)) (λ o s', ∃ P', pstep P (EStore addr data) o P' ∧ holds s' P' ∧ (countable c s addr → implements s' P')) s.
Proof.
  intros Himp (Hph&Ha&Hfit&Hj). cbn [exec]. wp_step. apply (wp_admission _ _ _ _ Himp Ha Hj).
  intros r ps a Hps Himp1 _ _ _ Hadm. pose proof (implements_holds _ _ Himp1).
  destruct r; [|wp_step; exists P; split; [by constructor|done]..].
  wp_step. eapply wp_mono; [apply (wp_store_write addr data PfArg a); [auto|apply Himp1..|done|done|done]|].
  intros m s1 Hw. wp_step. eapply wp_mono; [exact Hw|]. intros [] s2 (Hh2&Hi2&_). wp_step. exists (p_store addr data P).
  split; [by constructor|]. by split.
Qed.

(** ** Epochs *)

Lemma wp_migrate dr wr s P : implements s P → p_phase P = Running → (0 < dr)%Q →
  wp (MigratePages PfArg dr wr) (λ _ s', (∃ mvs, implements s' (p_migrate c mvs P)) ∧ pf_same (profs s) (profs s')) s.
Proof.
  intros (Hign&a&Hi&Hp&HR) Hph Hdr. rewrite Hph in Hp. destruct Hp as [Hck Hr].
  eapply (wp_MigratePages c Hc); [done..|]. intros a1 s1 Hi1 Hq1 Hck1 Hps1 (ls&Hls&Hfl). split; [|done].
  destruct (migrate_steps c Hc _ _ _ _ Hls Hfl Hck HR) as [_ HR1].
  exists (moves ls). split; [by rewrite (proj1 (Hps1 PfArg))|]. by exists a1.
Qed.

Lemma wp_begin s P : implements s P → p_phase P = Migrated →
  wp (BeginCheckpointing PfArg) (λ _ s', implements s' (p_begin c P) ∧ pf_same (profs s) (profs s')) s.
Proof.
  intros (Hign&a&Hi&Hp&HR) Hph. rewrite Hph in Hp. destruct Hp as [Hck Hq].
  eapply (wp_BeginCheckpointing c Hc); [done..|]. intros a1 s1 ls Hi1 Hr1 Hck1 Hls Hfl Hps1. split; [|done].
  split; [by rewrite (proj1 (Hps1 PfArg))|]. exists a1. split; [done|]. split; [done|]. by eapply begin_steps.
Qed.

Lemma wp_finish s P : implements s P → p_phase P = Checkpointing →
  wp FinishCheckpointing (λ _ s', implements s' (p_finish P) ∧ ckpt s' = ckpt s) s.
Proof.
  intros (Hign&a&Hi&Hp&HR) Hph. rewrite Hph in Hp. destruct Hp as [Hck Hr].
  eapply (wp_FinishCheckpointing c Hc); [done..|]. intros s1 Hi1 Hr1 Hck1 Hls Hps1 Ek. split; [|done].
  split; [by rewrite (proj1 (Hps1 PfArg))|]. exists a. split; [done|]. split; [by split; [|apply Hr1]|].
  inversion Hls as [|? ? κ1 ? ? Hk1 H1 H2]; subst. inversion H2 as [|? ? ? ? ? Hk2 H3 H4]; subst.
  inversion H4; subst. pose proof (finish_steps c Hc _ _ _ Hk1 H1 HR) as HR1.
  eapply (rel_steps c Hc κ1 [LTau] _ (p_finish P) (p_mem P)); [done|by repeat constructor|done|].
  intros x Hx. transitivity (view c κ1 x); [by eapply (view_step c Hc); eauto|apply (rel_view _ _ _ HR1 x Hx)].
Qed.

Lemma exec_epoch ev s P : implements s P → issued s P ev → (∀ x, ev ≠ ELoad x) → (∀ x l, ev ≠ EStore x l) →
  wp (exec ev) (λ o s', ∃ P', pstep P ev o P' ∧ implements s' P') s.
Proof.
  intros Himp His Hl Hs. destruct ev as [x|x l|dr wr| |]; [naive_solver..| | |]; cbn [exec issued] in *; wp_step.
  - destruct His as [Hph Hdr]. eapply wp_mono; [by eapply wp_migrate|]. intros [] s' [[mvs Hi] _]. wp_step. eexists. split; [by apply P_migrate|done].
  - eapply wp_mono; [by eapply wp_begin|]. intros [] s' [Hi _]. wp_step. eexists. split; [by apply P_begin|done].
  - eapply wp_mono; [by eapply wp_finish|]. intros [] s' [Hi _]. wp_step. eexists. split; [by apply P_finish|done].
Qed.

Lemma exec_step ev s P : implements s P → issued s P ev → counted s ev →
  wp (exec ev) (λ o s', ∃ P', pstep P ev o P' ∧ implements s' P') s.
Proof.
  intros Himp His HG. destruct ev; [by apply exec_load| |by apply exec_epoch..].
  eapply wp_mono; [by apply exec_store|]. intros o s' (P'&HP&_&Hi'). exists P'. auto.
Qed.

End Machine.
