(* ===== verification/ControllerInit.v ===== *)
(** The constructors establish the invariant: a new controller over any memory
    implements the flat memory whose only image is the content of that memory. *)

From S2P Require Import Prelude Profiler StdAlgo MemStore PersistSpec PersistFacts PersistMachine.
From S2P Require Import MigrationSpec AddrTransController ControllerInv ControllerOps ControllerStore.
From S2P Require Import ControllerMachine.
#[global] Open Scope Z_scope.

Lemma new_mig_ok bb pb len : 0 ≤ bb ≤ pb → pb < 31 → 0 ≤ len → len + len / 16 < 2 ^ 31 →
  let m := Mig.new_MigrationController bb pb len in
  mig_ok m ∧ mig_ready m ∧ Mig.ptt_capacity_ m = len + len / 16.
Proof.
  intros Hb Hp Hl Hcap m. assert (∀ k, 0 ≤ k < 31 → 0 < 2 ^ k < 2 ^ 31) as Hpow
    by (intros; split; [apply pow2_pos|apply Z.pow_lt_mono_r]; lia).
  pose proof (Hpow bb ltac:(lia)). pose proof (Hpow pb ltac:(lia)). pose proof (Hpow (pb - bb) ltac:(lia)).
  assert (0 ≤ len / 16) by (apply Z.div_pos; lia).
  assert (Mig.ptt_capacity_ m = len + len / 16) as Ecap.
  { cbn. rewrite shiftr_pow2 by lia. change (2 ^ 4) with 16. apply i32_small. lia. }
  split; [|split; [split; [intros p e; cbn; by rewrite lookup_empty|done]|done]].
  split; cbn [m Mig.new_MigrationController Mig.free_slots_ Mig.entries_ Mig.dirty_entries_].
  - cbn in Ecap. split; cbn; [lia|lia|..|lia]; rewrite shiftl_pow2, Z.mul_1_l, i32_small by lia; [..|done];
      rewrite u64_small by lia; done.
  - fold m. unfold Mig.num_entries. cbn [m Mig.new_MigrationController Mig.entries_]. rewrite map_size_empty.
    change (i32 (len + Z.shiftr len 4)) with (Mig.ptt_capacity_ m).
    unfold zseq. rewrite length_seqZ. lia.
  - intros p e. by rewrite lookup_empty.
  - intros p p' e e'. by rewrite lookup_empty.
  - apply NoDup_seqZ.
  - intros s. rewrite ATT.elem_of_zseq. done.
  - intros s p e _. by rewrite lookup_empty.
  - by rewrite mcount_empty.
Qed.

Section Init.
Context (c : Config) (Hc : wf_config c) {St : Type} `{!MemStore St, !MemDevice St}.
Context `{!MemStoreLaws St c, !MemDeviceLaws St c}.
Implicit Types s : Sys St.

(** The table and the buffers are empty. *)
Definition empty_conf (m : Z → Z) : Conf := MkConf false ∅ ∅ ∅ ∅ m.

Definition init_pmem (m : Z → Z) : PMem := MkPMem Running m m m ∅ (tag_ok c) (λ _, False).

Lemma stats_init len junk : stats_ok (ATT.abs_init len junk).
Proof.
  intros i e. cbn. destruct (decide (0 ≤ i < len)) as [Hi|Hi].
  - rewrite ATT.zlookup_zseq by done. intros [= <-]. by destruct 1.
  - intros E%zlookup_Some. unfold zseq in E. rewrite length_fmap, length_seqZ in E. lia.
Qed.

Lemma region_empty kind addr : region kind addr ∅ ∅.
Proof. split; [by intros ??; rewrite lookup_empty..|]. by rewrite size_empty, mcount_empty. Qed.

Lemma wp_new_AddrTransController junk :
  wp (new_AddrTransController (c_phy_range c) (c_dram_size c) (c_att_len c) (c_block_bits c) (c_page_bits c) junk)
    (λ k _, ∀ st ps l, st_ok st →
       let s := MkSys k st ps l in
       inv c false (ATT.abs_init (c_att_len c) junk) s ∧ ready (ATT.abs_init (c_att_len c) junk) s ∧
       conf c s = empty_conf (content st)) tt.
Proof.
  pose proof (wf_bits _ Hc). pose proof (wf_page _ Hc). pose proof (wf_att _ Hc). pose proof (wf_buf _ Hc).
  pose proof (wf_dram _ Hc). pose proof (wf_cap _ Hc). pose proof (wf_top _ Hc). pose proof (bs_pos _ Hc).
  pose proof (pow2_pos (c_page_bits c)). unfold c_top, c_bsize in *.
  assert (0 < 2 ^ c_block_bits c < 2 ^ 31) by (split; [apply pow2_pos|apply Z.pow_lt_mono_r]; lia).
  assert (0 < c_att_len c * 2 ^ c_block_bits c) by nia. assert (2 * c_att_len c < 2 ^ 31) by nia.
  assert (0 ≤ c_dram_size c / 2 ^ c_page_bits c) by (apply Z.div_pos; lia).
  assert (0 ≤ c_ptt_length c / 16) by (apply Z.div_pos; unfold c_ptt_length; lia).
  unfold new_AddrTransController. wp_step. eapply wp_mono; [apply ATT.wp_new_AddrTransTable; lia|].
  intros t [] (Hrep&Hlen&Hbits&Hmask).
  rewrite (i32_small (2 * c_att_len c)), shiftr_pow2, (i32_small (_ / _)) by (unfold c_ptt_capacity, c_ptt_length in *; lia).
  fold (c_ptt_length c).
  destruct (new_mig_ok (c_block_bits c) (c_page_bits c) (c_ptt_length c)) as (Hm&Hr&Hcap); [lia|lia|done|done|].
  set (m := Mig.new_MigrationController _ _ _) in *. cbv zeta.
  wp_step. apply wp_assert; [by apply slots_consistent_true, m_slots|].
  wp_step. apply wp_assert; [apply Z.leb_le; lia|]. wp_steps. intros st ps l Hst. set (s := MkSys _ st ps l).
  assert (VB.Size (VB.set_addr_base (c_phy_range c) (VB.new_VersionBuffer (2 * c_att_len c) (c_block_bits c))) =
    2 * c_att_len c * 2 ^ c_block_bits c) as Esz.
  { unfold VB.Size. cbn. rewrite shiftl_pow2, i32_small, u64_small by nia. done. }
  assert (VB.addr_base_ (dram_buffer_ (ctl s)) = c_dram_base c) as Ebase.
  { cbn [s ctl dram_buffer_ VB.set_addr_base VB.set_addr_base_ VB.addr_base_]. rewrite Esz. cbn.
    rewrite u64_small by lia. done. }
  split_and!; [|by split; [apply stats_init|]|].
  - split; cbn [s ctl att_ nvm_buffer_ dram_buffer_ migrator_ phy_range_ in_checkpointing_ store].
    + split; cbn [ctl att_ nvm_buffer_ dram_buffer_ migrator_ phy_range_]; try done.
      rewrite Hmask, shiftl_pow2, Z.mul_1_l, i32_small, u64_small by lia. done.
    + done.
    + apply VB.new_VersionBuffer_ok; lia.
    + apply VB.new_VersionBuffer_ok; rewrite ?Esz; cbn; try rewrite u64_small; lia.
    + done.
    + done.
    + apply region_empty.
    + apply region_empty.
    + apply map_Forall_empty.
    + intros p. cbn. rewrite dom_empty_L. set_solver.
    + done.
    + done.
    + unfold room. replace (mcount is_clean _) with 0 by done.
      cbn [s ctl in_checkpointing_ nvm_buffer_]. change (VB.vset _ _) with (∅ : gset Z). rewrite size_empty.
      split; [lia|]. intros _. lia.
  - unfold conf, empty_conf. cbn. f_equal. apply map_eq. intros tag. rewrite lookup_empty.
    apply (blocks_of_None _ _ Hrep). intros i e He. cbn in He. by rewrite lookup_empty in He.
Qed.

Lemma rel_init m : Rel c (empty_conf m) (init_pmem m).
Proof.
  split; cbn; try done.
  - intros x Hx. unfold view, base. cbn. rewrite lookup_empty. by rewrite <- (proj1 (addr_split _ Hc x)).
  - intros t Ht. unfold last_run. cbn. rewrite lookup_empty. by intros o Ho.
Qed.

Lemma new_implements junk st ps l : st_ok st → ignore_latency_ (sel PfArg ps) = false →
  wp (new_AddrTransController (c_phy_range c) (c_dram_size c) (c_att_len c) (c_block_bits c) (c_page_bits c) junk)
    (λ k _, implements c (MkSys k st ps l) (init_pmem (content st))) tt.
Proof.
  intros Hst Hign. eapply wp_mono; [apply wp_new_AddrTransController|]. intros k [] Hk.
  destruct (Hk st ps l Hst) as (Hi&Hr&Ec). split; [done|]. eexists. split; [done|]. split.
  - split; [|done]. apply (f_equal k_ck Ec).
  - rewrite Ec. apply rel_init.
Qed.

End Init.
