(* ===== verification/PacketAccess.v ===== *)
(** Packets served by the memory: [AbstractMemory::access] on a block of memory, in terms
    of the flat memory that the controller implements. *)

From S2P Require Import Prelude Profiler StdAlgo MemStore PersistSpec PersistFacts PersistMachine.
From S2P Require Import AddrTransController AbstractMem MemLaws MemFrame.
From S2P Require Import ControllerInv ControllerOps ControllerStore ControllerAccess ControllerMachine.
From S2P Require Import SimpleMem.
From S2P Require AddrRange Request Packet LockedAddr.
#[global] Open Scope Z_scope.

Section Access.
Context (c : Config) (Hc : wf_config c) (Hm : wf_mem c) (w : Frame).
Context `{HO : HashOrder, HA : HeapAlgo}.
#[local] Existing Instance framed_laws.
#[local] Existing Instance framed_device.
#[local] Instance laws : MemStoreLaws MemSt c := framed_laws c Hc Hm w.
#[local] Instance device : MemDeviceLaws MemSt c := framed_device c Hc Hm w.

Abbreviation bs := (c_bsize c).
Abbreviation implements := (implements c).

(** ** A block of memory *)

Lemma block_div x i : x mod bs = 0 → 0 ≤ i < bs → (x + i) / bs = x / bs ∧ (x + i) mod bs = i.
Proof.
  intros Hx Hi. pose proof (bs_pos _ Hc). pose proof (Z.div_mod x bs ltac:(lia)) as E. rewrite Hx, Z.add_0_r in E.
  rewrite E at 1 3. rewrite (Z.mul_comm bs), (Z.add_comm (x / bs * bs)), Z.div_add, Z.mod_add by lia.
  rewrite Z.div_small, Z.mod_small by lia. lia.
Qed.

Lemma implements_mem s P : implements s P → mem_ok c (store s) ∧ frame (store s) = w.
Proof. intros (_ & a & Hi & _). exact (iv_store _ _ _ _ Hi). Qed.

Lemma wp_load_block x pf (Q : Z → Sys MemSt → Prop) s P : implements s P → 0 ≤ x → x + bs ≤ c_phy_range c →
  x mod bs = 0 → ignore_latency_ (sel pf (profs s)) = false →
  (∀ h s', implements s' P → ckpt s' = ckpt s → pf_same (profs s) (profs s') → 0 ≤ h → h + bs ≤ c_top c →
     (∀ i, 0 ≤ i < bs → mem_content (store s') (h + i) = p_mem P (x + i)) → Q h s') →
  wp (a ← LoadAddr x pf; on_store (hostAddr a)) Q s.
Proof.
  intros Himp Hx Hr Hal Hign HQ. pose proof Himp as (Hig&a&Hi&Hp&HR). pose proof (bs_pos _ Hc). wp_step.
  eapply (wp_LoadAddr c Hc); [done|lia|done|]. intros a1 s1 ls A Hls. rewrite Hal, Z.add_0_r.
  assert (implements s1 P) as Himp1 by (by eapply implements_access).
  pose proof (base_top c Hc _ _ _ x Hi ltac:(lia)) as Hb. destruct (implements_mem _ _ Himp1) as [Hok _].
  apply wp_zoom. apply (wp_hostAddr c); [done|lia|]. cbn [store].
  replace (MkSys _ _ _ _) with s1 by (by destruct s1). apply HQ; [done|by apply A|by apply A|lia|lia|].
  intros i Hi'. destruct (block_div x i Hal Hi') as [Ed Em].
  destruct (csteps_tau c _ _ _ (ac_steps _ _ _ _ _ _ A) Hls) as [_ Hmem].
  transitivity (k_mem (conf c s1) (base c (conf c s) (x / bs) + i)); [done|].
  rewrite Hmem, <- (rel_view _ _ _ HR (x + i)) by lia. unfold view. by rewrite Ed, Em.
Qed.

(** ** Requests for a block *)

(** The memory serves all of the physical range, at some start address. *)
Record range_ok (r : AddrRange.AddrRange) : Prop := {
  ro_wf : AddrRange.wf_range r;
  ro_plain : AddrRange.interleaved r = false;
  ro_size : AddrRange._end r = AddrRange._start r + c_phy_range c - 1;
}.

Record block_request (m : SimpleMemory) (pkt : Pkt.Packet) (d : list Z) : Prop := {
  br_packet : Pkt.wf_packet pkt d;
  br_req : Lock.wf_req (Pkt.req pkt);
  br_open : Pkt.memInhibitAsserted pkt = false;
  br_size : Pkt.size pkt = bs;
  br_low : AddrRange._start (range m) ≤ Pkt.addr pkt;
  br_high : Pkt.addr pkt < AddrRange._start (range m) + c_phy_range c;
  br_align : (Pkt.addr pkt - AddrRange._start (range m)) mod bs = 0;
}.

(** The address of the packet in the memory. *)
Definition local (m : SimpleMemory) (pkt : Pkt.Packet) : Z := Pkt.addr pkt - AddrRange._start (range m).

(** The block of the flat memory at an address. *)
Definition image (P : PMem) (x : Z) : list Z := (λ i, p_mem P (x + i)) <$> zseq bs.

Section Request.
Context (m : SimpleMemory) (pkt : Pkt.Packet) (d : list Z) (Hr : range_ok (range m)) (Hb : block_request m pkt d).

Lemma local_ok : 0 ≤ local m pkt ∧ local m pkt + bs ≤ c_phy_range c ∧ local m pkt mod bs = 0 ∧
  localAddr pkt m = local m pkt.
Proof.
  destruct Hb as [_ _ _ _ Hl Hh Ha]. unfold local, localAddr, AddrRange.start.
  pose proof (AddrRange.wr_start _ (ro_wf _ Hr)). pose proof (AddrRange.wr_end _ (ro_wf _ Hr)). pose proof (ro_size _ Hr).
  rewrite u64_small by lia. split_and!; [lia| |done|done]. set (x := Pkt.addr pkt - _) in *.
  pose proof (tag_top c Hc _ (tag_ok_addr c Hc x ltac:(lia))) as Ht. pose proof (bs_pos _ Hc).
  pose proof (Z.div_mod x bs ltac:(lia)) as E. unfold home in Ht. lia.
Qed.

Lemma wp_check_range (Q : unit → SimpleMemory * Pkt.Packet → Prop) : Q tt (m, pkt) → wp check_range Q (m, pkt).
Proof.
  intros HQ. unfold check_range. destruct Hb as [Hp _ _ Hs Hl Hh _]. destruct local_ok as (H0 & Hx & _). unfold local in *.
  pose proof (AddrRange.wr_start _ (ro_wf _ Hr)). pose proof (AddrRange.wr_end _ (ro_wf _ Hr)). pose proof (ro_size _ Hr).
  pose proof (bs_pos _ Hc). wp_step. apply wp_zoom. eapply wp_run; [by apply (Pkt.wf_getAddr pkt d)|]. wp_step. apply wp_zoom.
  eapply wp_run; [by apply (Pkt.wf_getSize pkt d)|]. wp_steps. cbn [fst snd]. rewrite Hs, u64_small by lia.
  unfold AddrRange.isSubset. cbn. apply wp_assert; [|done]. apply andb_true_iff. rewrite !Z.leb_le. lia.
Qed.

Lemma wp_load_host pf (Q : Z → SimpleMemory * Pkt.Packet → Prop) P : implements (sys m) P →
  ignore_latency_ (sel pf (profs (sys m))) = false →
  (∀ h s', implements s' P → ckpt s' = ckpt (sys m) → pf_same (profs (sys m)) (profs s') → 0 ≤ h → h + bs ≤ c_top c →
     (∀ i, 0 ≤ i < bs → mem_content (store s') (h + i) = p_mem P (local m pkt + i)) → Q h (set_sys s' m, pkt)) →
  wp (load_host pf) Q (m, pkt).
Proof.
  intros Himp Hign HQ. destruct local_ok as (H0 & Hx & Hal & El). unfold load_host. wp_steps. cbn [fst snd]. rewrite El.
  do 2 apply wp_zoom. cbn [fst snd]. by eapply wp_load_block.
Qed.

End Request.

Lemma set_sys_id m : set_sys (sys m) m = m.
Proof. by destruct m. Qed.
Lemma set_req_id p : Pkt.set_req (Pkt.req p) p = p.
Proof. by destruct p. Qed.

Lemma image_length P x : Z.of_nat (length (image P x)) = bs.
Proof. unfold image, zseq. rewrite length_fmap, length_seqZ. pose proof (bs_pos _ Hc). lia. Qed.

Lemma wp_copy_to_pkt h m pkt d x P (Q : unit → SimpleMemory * Pkt.Packet → Prop) :
  implements (sys m) P → Pkt.wf_packet pkt d → Pkt.size pkt = bs → 0 ≤ h → h + bs ≤ c_top c →
  (∀ i, 0 ≤ i < bs → mem_content (mem_of m) (h + i) = p_mem P (x + i)) →
  Q tt (m, Pkt.set_data (Some (image P x)) pkt) → wp (copy_to_pkt h) Q (m, pkt).
Proof.
  intros Himp Hp Hs H0 Hh Hcont HQ. destruct (implements_mem _ _ Himp) as [Hok _]. destruct (mo_pmem _ _ Hok) as [M E].
  pose proof (bs_pos _ Hc). unfold copy_to_pkt. wp_step. apply wp_zoom. eapply wp_run; [by apply (Pkt.wf_getSize pkt d)|].
  wp_step. do 3 apply wp_zoom. cbn [fst snd]. rewrite Hs. eapply (wp_host_load c); [done|done|lia..|]. cbn [fst snd].
  replace (MkSys _ _ _ _) with (sys m) by (by destruct m as [[]]). rewrite set_sys_id. apply wp_zoom. cbn [fst snd].
  assert (El : mem_read M h bs = image P x).
  { unfold mem_read, image. apply list_fmap_ext. intros _ i Hi%list_elem_of_lookup_2. unfold zseq in Hi.
    rewrite elem_of_seqZ in Hi. rewrite <- Hcont by lia. unfold mem_content, mem_of. by rewrite E. }
  rewrite El. unfold Pkt.setData. wp_step. eapply wp_run; [by apply (Pkt.wf_getBytes pkt d)|]. wp_step.
  eapply wp_run; [by apply (Pkt.wf_getSize pkt d)|]. wp_step. rewrite Hs.
  pose proof (Pkt.wp_len _ _ Hp) as Hd. pose proof (image_length P x) as Hlen.
  eapply (wp_run _ (image P x)); [|by wp_steps]. unfold Pkt.lift, Pkt.memcpy.
  rewrite !(proj2 (Z.leb_le _ _)) by lia. change (Z.to_nat 0) with 0%nat. cbn [andb take app drop].
  rewrite take_0, drop_0, take_ge, drop_ge by lia. by rewrite app_nil_r.
Qed.

(** ** Accesses *)

(** The state of the memory that drives requests and events: accesses do not touch it. *)
Definition control (m : SimpleMemory) :=
  (isBusy m, waitStart m, ckptStart m, retryReq m, retryResp m,
   (releaseEvent m, freezeEvent m, unfreezeEvent m, dequeueEvent m), packetQueue m, pendingDelete m,
   (curTick m, range m, profBase m, bandwidth m, wbBandwidth m), sent m, (bytesChannel m, ckBusUtil m, totalCkptTime m)).
Definition same_control (s s' : SimpleMemory * Pkt.Packet) : Prop := control s'.1 = control s.1.

#[global] Instance same_control_preorder : PreOrder same_control.
Proof. split; unfold same_control; [done|]. intros ??? E1 E2. congruence. Qed.

Lemma on_pkt_control {A} (op : M Pkt.Packet A) : transits same_control (on_pkt op).
Proof. by apply transits_zoom. Qed.
Lemma on_sys_control {A} (op : M (Sys MemSt) A) : transits same_control (on_mem (on_sys op)).
Proof.
  apply transits_zoom. intros [m p] m' a. unfold on_sys, zoom. cbn. destruct (op (sys m)) as [[b s']|]; [|done].
  by intros [= _ <-].
Qed.
Lemma modify_control f : (∀ m, control (f m) = control m) → transits same_control (on_mem (modify f)).
Proof. intros Hf. apply transits_zoom. intros [m p] m' [] [= <-]. apply Hf. Qed.
#[local] Hint Resolve on_pkt_control on_sys_control : frame.

Ltac control_steps := repeat (transits_step || (progress auto with frame) || (apply modify_control; done)).

Lemma access_control pf : transits same_control (access pf).
Proof.
  unfold access, access_swap, access_read, access_write, check_range, load_host, copy_to_pkt, pkt_bytes, swap_condition.
  control_steps.
Qed.

Lemma needs_request k : Pkt.MemCmd.needsResponse k = true →
  Pkt.MemCmd.isRequest k = true ∧ Pkt.MemCmd.isResponse (Pkt.MemCmd.responseCommand k) = true.
Proof. by destruct k. Qed.

Lemma not_swap pkt : Pkt.pkt_isWrite pkt && Pkt.pkt_isRead pkt = false → bool_decide (Pkt.cmd pkt = Pkt.MemCmd.SwapReq) = false.
Proof.
  intros Hw. apply bool_decide_eq_false_2. intros E. unfold Pkt.pkt_isWrite, Pkt.pkt_isRead in Hw. by rewrite E in Hw.
Qed.

(** The answer to a request: a response if it needs one, with the same payload. *)
Definition answered (pkt pkt' : Pkt.Packet) : Prop :=
  Pkt.cmd pkt' = (if Pkt.pkt_needsResponse pkt then Pkt.MemCmd.responseCommand (Pkt.cmd pkt) else Pkt.cmd pkt) ∧
  Pkt.data pkt' = Pkt.data pkt ∧ Pkt.addr pkt' = Pkt.addr pkt ∧ Pkt.size pkt' = Pkt.size pkt.

Lemma wp_respond m pkt (Q : unit → SimpleMemory * Pkt.Packet → Prop) : (∀ pkt', answered pkt pkt' → Q tt (m, pkt')) →
  wp (s ← get; if Pkt.pkt_needsResponse s.2 then on_pkt Pkt.makeResponse else mret tt) Q (m, pkt).
Proof.
  intros HQ. wp_steps. cbn [fst snd]. unfold answered in HQ. destruct (Pkt.pkt_needsResponse pkt) eqn:E; [|wp_steps; auto].
  apply wp_zoom. unfold Pkt.makeResponse. wp_steps. apply wp_assert; [done|]. wp_steps.
  apply wp_assert; [by apply needs_request|]. wp_steps. by apply HQ.
Qed.

Section Block.
Context (m : SimpleMemory) (pkt : Pkt.Packet) (d : list Z) (P : PMem) (pf : pfref).
Context (Hr : range_ok (range m)) (Hb : block_request m pkt d) (Himp : implements (sys m) P).
Context (Hpf : ignore_latency_ (sel pf (profs (sys m))) = false).

Lemma block_bytes : Pkt.size pkt = u32 (ATT.block_size (att_ (ctl_of m))).
Proof.
  destruct Himp as (_ & a & Hi & _). pose proof (wp_block_size c Hc (λ b _, b = bs) (sys m) (iv_geom _ _ _ _ Hi) eq_refl) as E.
  cbn in E. unfold ctl_of. rewrite E, (br_size _ _ _ Hb). pose proof (bs_31 c Hc). pose proof (bs_pos _ Hc).
  symmetry. apply Z.mod_small. lia.
Qed.

Lemma wp_access_read (Q : unit → SimpleMemory * Pkt.Packet → Prop) : Pkt.pkt_isWrite pkt = false →
  (∀ m', implements (sys m') P → ckpt (sys m') = ckpt (sys m) → pf_same (profs (sys m)) (profs (sys m')) →
     Q tt (m', Pkt.set_data (Some (image P (local m pkt))) pkt)) →
  wp (access_read pf) Q (m, pkt).
Proof.
  intros Hw HQ. destruct (implements_mem _ _ Himp) as [Hok _]. destruct (mo_pmem _ _ Hok) as [M E].
  unfold access_read. wp_steps. cbn [fst snd]. apply wp_assert; [by rewrite Hw|]. apply wp_bind.
  eapply (wp_mono _ (λ _ s, ∃ l, s = (set_lockedAddrList l m, pkt))).
  { destruct (Pkt.pkt_isLLSC pkt); [|wp_steps; exists (lockedAddrList m); by destruct m]. wp_step. do 2 apply wp_zoom.
    destruct (Lock.trackLoadLocked_total _ (br_req _ _ _ Hb) (lockedAddrList m)) as [l El].
    eapply wp_run; [exact El|]. cbn [fst snd]. rewrite set_req_id. apply wp_zoom. wp_steps. by exists l. }
  intros [] ? [l ->]. wp_step. apply wp_zoom. eapply wp_run; [apply (Pkt.wf_getSize pkt d), Hb|]. wp_step.
  unfold mem_of. rewrite E. wp_step. apply wp_assert; [apply Z.eqb_eq, block_bytes|]. wp_step.
  eapply (wp_load_host (set_lockedAddrList l m) pkt d); [done|by destruct Hb|done|done|].
  intros h s' Hi' Ek Hps H0 Hh Hcont. eapply wp_copy_to_pkt; [done|apply Hb|apply Hb|done|done|done|]. wp_steps.
  apply wp_zoom. wp_steps. destruct (Req.isInstFetch _); [apply wp_zoom|]; wp_steps; by apply HQ.
Qed.

(** Whether the store of a packet is performed: not a store-conditional that failed. *)
Definition performed (m : SimpleMemory) (pkt : Pkt.Packet) : bool :=
  negb (Pkt.pkt_isLLSC pkt) ||
  bool_decide (Lock.reserved (lockedAddrList m) (Req._contextId (Pkt.req pkt)) (Req._paddr (Pkt.req pkt))).

Lemma wp_pkt_bytes m' (Q : list Z → SimpleMemory * Pkt.Packet → Prop) p : Pkt.wf_packet p d → Q d (m', p) → wp pkt_bytes Q (m', p).
Proof.
  intros Hp HQ. pose proof (Pkt.wp_len _ _ Hp). unfold pkt_bytes. wp_step. apply wp_zoom. eapply wp_run; [by apply (Pkt.wf_getBytes p d)|].
  wp_step. apply wp_zoom. eapply wp_run; [by apply (Pkt.wf_getSize p d)|]. cbn [fst snd]. rewrite (proj2 (Z.leb_le _ _)) by lia.
  wp_step. by rewrite take_ge by lia.
Qed.

Lemma wp_access_write a (Q : unit → SimpleMemory * Pkt.Packet → Prop) : admitted c a (sys m) P (local m pkt) →
  countable c (sys m) (local m pkt) → Req.isInstFetch (Pkt.req pkt) = false → p_phase P ≠ Migrated →
  (∀ m' r, implements (sys m') (if performed m pkt then p_store (local m pkt) d P else P) →
     ckpt (sys m') = ckpt (sys m) → pf_same (profs (sys m)) (profs (sys m')) → Q tt (m', Pkt.set_req r pkt)) →
  wp (access_write pf) Q (m, pkt).
Proof.
  intros Hadm HG Hif Hph HQ. destruct (implements_mem _ _ Himp) as [Hok _]. destruct (mo_pmem _ _ Hok) as [M E].
  pose proof (br_packet _ _ _ Hb) as Hp. pose proof (Pkt.wp_len _ _ Hp) as Hlen.
  pose proof (br_size _ _ _ Hb) as Hs. destruct (local_ok m pkt d Hr Hb) as (H0 & Hx & Hal & El). pose proof (bs_pos _ Hc).
  unfold access_write. wp_steps. do 2 apply wp_zoom. cbn [fst snd].
  eapply wp_run; [apply (Lock.writeOK_run _ (br_req _ _ _ Hb))|]. fold (performed m pkt). cbn [fst snd]. wp_step. apply wp_zoom.
  wp_step. cbn [fst snd]. set (r := if Pkt.pkt_isLLSC pkt then _ else _). set (m1 := set_lockedAddrList _ m).
  assert (Req.isInstFetch r = false) as Hif' by (subst r; by destruct (Pkt.pkt_isLLSC pkt)).
  assert (Pkt.wf_packet (Pkt.set_req r pkt) d) as Hp' by (by destruct Hp).
  destruct (performed m pkt); [|wp_steps; by apply (HQ m1)]. wp_step. apply wp_zoom.
  eapply wp_run; [apply (Pkt.wf_getSize (Pkt.set_req r pkt) d Hp')|]. wp_step. unfold mem_of. rewrite E. wp_step.
  apply wp_assert; [apply Z.eqb_eq, block_bytes|]. wp_step. do 2 apply wp_zoom. cbn [fst snd]. rewrite El.
  change (Pkt.size (Pkt.set_req r pkt)) with (Pkt.size pkt). rewrite <- Hlen. change (sys m1) with (sys m).
  eapply wp_mono; [eapply (wp_store_write c Hc (local m pkt) d pf a); [done|apply Himp|done|done|lia|]|].
  { split; [lia|]. rewrite Hal. lia. }
  intros la s1 Hw. wp_step. apply wp_pkt_bytes; [done|]. wp_step. do 2 apply wp_zoom. cbn [fst snd sys set_sys].
  eapply wp_mono; [exact Hw|]. intros [] s2 (_ & Hi2 & Ek & Hps2). specialize (Hi2 HG). do 2 apply wp_zoom. cbn [fst snd].
  apply wp_on_pf; [apply _|]. intros ps' Hps. wp_steps. cbn [fst snd]. apply wp_assert; [cbn; by rewrite Hif'|]. apply wp_zoom. wp_steps.
  apply HQ; [|done|by etrans]. apply implements_profs; [done|]. rewrite (proj1 (Hps PfArg)). apply Hi2.
Qed.

End Block.

(** ** Memory and packet *)

Record sm_ok (m : SimpleMemory) (P : PMem) : Prop := {
  so_impl : implements (sys m) P;
  so_range : range_ok (range m);
}.

Lemma control_range m m' : control m' = control m → range m' = range m.
Proof. unfold control. congruence. Qed.

Lemma wp_read m pkt d P pf : sm_ok m P → block_request m pkt d → Pkt.pkt_isRead pkt = true → Pkt.pkt_isWrite pkt = false →
  ignore_latency_ (sel pf (profs (sys m))) = false →
  wp (access pf) (λ _ s, sm_ok s.1 P ∧ ckpt (sys s.1) = ckpt (sys m) ∧ pf_same (profs (sys m)) (profs (sys s.1)) ∧
    control s.1 = control m ∧ answered (Pkt.set_data (Some (image P (local m pkt))) pkt) s.2) (m, pkt).
Proof.
  intros [Hi Hr] Hb Hrd Hw Hpf.
  eapply wp_mono; [eapply (wp_transits same_control _
    (λ _ s, implements (sys s.1) P ∧ ckpt (sys s.1) = ckpt (sys m) ∧ pf_same (profs (sys m)) (profs (sys s.1)) ∧
       answered (Pkt.set_data (Some (image P (local m pkt))) pkt) s.2)); [|apply access_control]|].
  - unfold access. wp_step. eapply wp_check_range; [done|done|]. wp_steps. cbn [snd].
    rewrite (br_open _ _ _ Hb), (not_swap pkt), Hrd by (by rewrite Hw). apply wp_bind.
    eapply (wp_access_read m pkt d P pf); [done..|]. intros m' Hi' Ek Hps. apply wp_respond. intros pkt' Ha. done.
  - intros [] s ((H1 & H2 & Hps & H3) & H4). split_and!; [|done..]. split; [done|]. by rewrite (control_range _ _ H4).
Qed.

Lemma wp_write m pkt d P pf a : sm_ok m P → block_request m pkt d → Pkt.pkt_isRead pkt = false → Pkt.pkt_isWrite pkt = true →
  Req.isInstFetch (Pkt.req pkt) = false → p_phase P ≠ Migrated → admitted c a (sys m) P (local m pkt) →
  countable c (sys m) (local m pkt) → ignore_latency_ (sel pf (profs (sys m))) = false →
  wp (access pf) (λ _ s, sm_ok s.1 (if performed m pkt then p_store (local m pkt) d P else P) ∧
    ckpt (sys s.1) = ckpt (sys m) ∧ pf_same (profs (sys m)) (profs (sys s.1)) ∧ control s.1 = control m ∧
    answered pkt s.2) (m, pkt).
Proof.
  intros [Hi Hr] Hb Hrd Hw Hif Hph Hadm HG Hpf.
  eapply wp_mono; [eapply (wp_transits same_control _
    (λ _ s, implements (sys s.1) (if performed m pkt then p_store (local m pkt) d P else P) ∧
       ckpt (sys s.1) = ckpt (sys m) ∧ pf_same (profs (sys m)) (profs (sys s.1)) ∧ answered pkt s.2)); [|apply access_control]|].
  - unfold access. wp_step. eapply wp_check_range; [done|done|]. wp_steps. cbn [snd].
    rewrite (br_open _ _ _ Hb), (not_swap pkt), Hrd, Hw by (by rewrite Hrd, andb_comm). apply wp_bind.
    eapply (wp_access_write m pkt d P pf); [done..|]. intros m' r Hi' Ek Hps. apply wp_respond. intros pkt' Ha. done.
  - intros [] s ((H1 & H2 & Hps & H3) & H4). split_and!; [|done..]. split; [done|]. by rewrite (control_range _ _ H4).
Qed.

End Access.
