(* ===== verification/SimpleMemEvents.v ===== *)
(** The request handler of SimpleMemory, in terms of the flat memory that the controller
    implements. The response to a packet is scheduled in time, since an access has a
    bounded cost; the time that migrating pages takes depends on the tables, so starting an
    epoch can overflow the clock, and [wpc] is a run that succeeds but for that. *)

From Stdlib Require Import QArith Qround.
From S2P Require Import Prelude Profiler StdAlgo MemStore PersistSpec PersistFacts PersistMachine.
From S2P Require Import AddrTransController AbstractMem MemLaws MemFrame.
From S2P Require Import ControllerInv ControllerOps ControllerStore ControllerAccess ControllerMachine.
From S2P Require Import AccessCost SimpleMem PacketAccess.
From S2P Require AddrRange Request Packet LockedAddr.
#[global] Open Scope Z_scope.

(** ** Runs up to an overflow of the clock *)

(** The assertion that an event is not scheduled in the past. *)
Definition clock_overflow : error := EAssert "EventQueue::schedule: when >= getCurTick()".

(** The run succeeds with [Q], or that assertion fails in a state with [E]. *)
Definition wpc (E : Prop) {S A} (m : M S A) (Q : A → S → Prop) (s : S) : Prop :=
  match m s with Ok (a, s') => Q a s' | Err e => e = clock_overflow ∧ E end.

Lemma wpc_wp E {S A} (m : M S A) Q s : wp m Q s → wpc E m Q s.
Proof. unfold wp, wpc. by destruct (m s) as [[]|]. Qed.

Lemma wpc_ok E {S A} (m : M S A) Q s a s' : wpc E m Q s → m s = Ok (a, s') → Q a s'.
Proof. unfold wpc. intros H E'. by rewrite E' in H. Qed.

Lemma wpc_bind E {S A B} (m : M S A) (k : A → M S B) Q s : wpc E m (λ a, wpc E (k a) Q) s → wpc E (m ≫= k) Q s.
Proof. unfold wpc, mbind, M_bind. by destruct (m s) as [[a s']|]. Qed.

Lemma wpc_mono (E E' : Prop) {S A} (m : M S A) (Q Q' : A → S → Prop) s : wpc E m Q s → (E → E') → (∀ a s', Q a s' → Q' a s') →
  wpc E' m Q' s.
Proof. unfold wpc. destruct (m s) as [[a s']|]; naive_solver. Qed.

(** [d] ticks from now is in the past only if the 64 bits of the clock do not hold it. *)
Lemma wpc_schedule ev set_ev d (Q : unit → SimpleMemory → Prop) m : ev m = None → 0 ≤ curTick m < 2 ^ 64 → 0 ≤ d < 2 ^ 64 →
  Q tt (set_ev (Some (curTick m + d)) m) → wpc (2 ^ 64 ≤ curTick m + d) (schedule ev set_ev (u64 (curTick m + d))) Q m.
Proof.
  intros He Ht Hd HQ. unfold schedule. apply wpc_bind, wpc_wp, wp_get. rewrite He. unfold wpc, assert_. cbv [mbind M_bind modify].
  destruct (Z.lt_ge_cases (curTick m + d) (2 ^ 64)) as [Hlt|Hge].
  - rewrite u64_small by lia. destruct (Z.leb_spec (curTick m) (curTick m + d)); [done|lia].
  - replace (u64 (curTick m + d)) with (curTick m + d - 2 ^ 64); [|unfold u64; apply Z.mod_unique with 1; lia].
    destruct (Z.leb_spec (curTick m) (curTick m + d - 2 ^ 64)); [lia|done].
Qed.

Lemma wp_schedule ev set_ev t (Q : unit → SimpleMemory → Prop) m : ev m = None → curTick m ≤ t →
  Q tt (set_ev (Some t) m) → wp (schedule ev set_ev t) Q m.
Proof.
  intros He Ht HQ. unfold schedule. wp_steps. rewrite He. apply wp_assert; [by apply Z.leb_le|]. wp_step.
  apply wp_assert; [done|]. by wp_steps.
Qed.

(** ** The cost of a packet *)

Definition sm_profs (s : SimpleMemory * Pkt.Packet) : Profs := profs (sys s.1).

Lemma pkt_costs {A} (op : M Pkt.Packet A) : costs sm_profs 0 0 (on_pkt op).
Proof. by apply costs_zoom_free. Qed.

Lemma sys_costs {A} o l (op : M (Sys MemSt) A) : costs profs o l op → costs sm_profs o l (on_mem (on_sys op)).
Proof.
  intros Hop. eapply (costs_zoom _ (λ m, profs (sys m))); [done..|]. by apply (costs_zoom _ profs).
Qed.

Lemma mem_costs f : (∀ m, sys (f m) = sys m) → costs sm_profs 0 0 (on_mem (modify f)).
Proof. intros Hf. apply (costs_zoom _ (λ m, profs (sys m))); [done..|]. apply costs_modify. intros m. by rewrite Hf. Qed.

#[local] Hint Resolve pkt_costs : cost.
#[local] Hint Extern 1 (costs sm_profs _ _ (on_mem (modify _))) => by apply mem_costs : cost.
#[local] Hint Extern 1 (costs sm_profs _ _ (on_mem (on_sys (on_store _)))) => apply sys_costs, bill_store : cost.

Section Cost.
Context `{HO : HashOrder, HA : HeapAlgo}.

Lemma load_host_costs pf : costs sm_profs 2 1 (load_host pf).
Proof.
  unfold load_host. costs_step. apply sys_costs. eapply costs_bind; [apply LoadAddr_bill|done|done|]. intros h. apply bill_store.
Qed.

Lemma store_costs a n pf : costs sm_profs 5 1 (on_mem (on_sys (StoreAddr a n pf))).
Proof. apply sys_costs, StoreAddr_bill. Qed.

Lemma move_costs pf : costs sm_profs 0 0 (on_mem (on_sys (on_pf pf (AddBlockMoveInter 1)))).
Proof. apply sys_costs, bill_pf, move_charges. Qed.

#[local] Hint Resolve load_host_costs store_costs move_costs : cost.

Lemma copy_to_pkt_costs h : costs sm_profs 0 0 (copy_to_pkt h).
Proof. unfold copy_to_pkt. costs_steps. Qed.

Lemma pkt_bytes_costs : costs sm_profs 0 0 pkt_bytes.
Proof. unfold pkt_bytes. costs_steps. Qed.

Lemma swap_condition_costs h n : costs sm_profs 0 0 (swap_condition h n).
Proof. unfold swap_condition. costs_steps. Qed.

Lemma check_range_costs : costs sm_profs 0 0 check_range.
Proof. unfold check_range. costs_steps. Qed.

#[local] Hint Resolve copy_to_pkt_costs pkt_bytes_costs swap_condition_costs check_range_costs : cost.

Lemma access_swap_costs pf : costs sm_profs 4 2 (access_swap pf).
Proof. unfold access_swap. costs_steps. costs_up_to 0%nat 0%nat. costs_steps. costs_up_to 2%nat 1%nat. costs_steps. Qed.

Lemma access_read_costs pf : costs sm_profs 2 1 (access_read pf).
Proof. unfold access_read. costs_steps. costs_up_to 0%nat 0%nat. costs_steps. costs_up_to 2%nat 1%nat. costs_steps. Qed.

Lemma access_write_costs pf : costs sm_profs 5 1 (access_write pf).
Proof. unfold access_write. costs_steps. costs_up_to 5%nat 1%nat. costs_steps. Qed.

#[local] Hint Resolve access_swap_costs access_read_costs access_write_costs : cost.

(** An access pays for at most five table and buffer operations and two memory accesses. *)
Lemma access_costs pf : costs sm_profs 5 2 (access pf).
Proof. unfold access. costs_steps. costs_up_to 5%nat 2%nat. costs_steps. Qed.

End Cost.

Section Events.
Context (c : Config) (Hc : wf_config c) (Hm : wf_mem c) (w : Frame).
Context `{HO : HashOrder, HA : HeapAlgo}.
#[local] Instance laws : MemStoreLaws MemSt c := framed_laws c Hc Hm w.
#[local] Instance device : MemDeviceLaws MemSt c := framed_device c Hc Hm w.

Abbreviation sm_ok := (sm_ok c Hc Hm w).
Abbreviation bs := (c_bsize c).

(** ** Accepting a packet *)

(** A fresh profiler for the access. *)
Definition fresh (m m1 : SimpleMemory) : Prop :=
  sys m1 = MkSys (ctl (sys m)) (store (sys m)) (upd PfArg (copy_Profiler (profBase m)) (profs (sys m))) (ckpt (sys m)) ∧
  range m1 = range m ∧ lockedAddrList m1 = lockedAddrList m.

(** The bytes on the channel that are not yet counted as bus traffic. *)
Definition balance (m : SimpleMemory) : Z := u64 (bytesChannel m - ckBusUtil m).

(** What accepting a packet leaves alone. *)
Definition undisturbed (m m' : SimpleMemory) : Prop :=
  ckpt (sys m') = ckpt (sys m) ∧ curTick m' = curTick m ∧ waitStart m' = waitStart m ∧ ckptStart m' = ckptStart m ∧
  retryReq m' = retryReq m ∧ freezeEvent m' = freezeEvent m ∧ unfreezeEvent m' = unfreezeEvent m ∧
  profBase m' = profBase m ∧ balance m' = balance m.

(** The response, if there is one, is queued behind the others. *)
Definition queued (m m' : SimpleMemory) (pkt : Pkt.Packet) : Prop :=
  if Pkt.pkt_needsResponse pkt then ∃ t pkt', answered pkt pkt' ∧ packetQueue m' = packetQueue m ++ [(t, pkt')]
  else packetQueue m' = packetQueue m.

(** The memory may become busy until the release event. *)
Definition held (m m' : SimpleMemory) : Prop :=
  isBusy m' = isBusy m ∧ releaseEvent m' = releaseEvent m ∨ isBusy m' = true ∧ is_Some (releaseEvent m').

Definition accepted (m m' : SimpleMemory) (P' : PMem) (pkt : Pkt.Packet) : Prop :=
  sm_ok m' P' ∧ undisturbed m m' ∧ queued m m' pkt ∧ held m m'.

Lemma balance_traffic n u b : u64 (n + b - u64 (u + b)) = u64 (n - u).
Proof. unfold u64. rewrite Zminus_mod_idemp_r. f_equal. lia. Qed.

Definition undelayed (pkt : Pkt.Packet) : Pkt.Packet := Pkt.set_busFirstWordDelay 0 (Pkt.set_busLastWordDelay 0 pkt).

Lemma fresh_ok m m1 P : sm_ok m P → fresh m m1 → sm_ok m1 P ∧ ckpt (sys m1) = ckpt (sys m) ∧
  ignore_latency_ (sel PfArg (profs (sys m1))) = false ∧ op_latency_ (sel PfArg (profs (sys m1))) = op_latency_ (profBase m).
Proof.
  intros [Hi Hr] (Es & Er & _). rewrite Es. split_and!; [|done..]. split; [|by rewrite Er].
  rewrite Es. by apply implements_profs.
Qed.

Definition released (m m1 : SimpleMemory) : Prop :=
  m1 = m ∨ ∃ t, m1 = set_isBusy true (set_releaseEvent (Some t) m).

(** The clock does not overflow while a packet of [n] bytes is served: neither at the end
    of its transfer nor at its response. *)
Record in_time (m : SimpleMemory) (n : Z) : Prop := {
  it_now : 0 ≤ curTick m;
  it_transfer : 0 ≤ Qfloor (inject_Z n * bandwidth m) ∧ curTick m + Qfloor (inject_Z n * bandwidth m) < 2 ^ 64;
  it_response : 0 ≤ op_latency_ (profBase m) ∧ curTick m + 5 * op_latency_ (profBase m) + 2 * (2 ^ 31 - 1) < 2 ^ 64;
}.

Lemma wp_hold m pkt d (Q : unit → SimpleMemory * Pkt.Packet → Prop) : Pkt.wf_packet pkt d → releaseEvent m = None →
  in_time m (Pkt.size pkt) → (∀ m1, released m m1 → Q tt (m1, pkt)) →
  wp (if Pkt.pkt_isRead pkt || Pkt.pkt_isWrite pkt then
         n ← on_pkt Pkt.getSize;
         let duration := u64 (Qfloor (inject_Z n * bandwidth m)) in
         if negb (duration =? 0) then
           on_mem (schedule releaseEvent set_releaseEvent (u64 (curTick m + duration))) ;;
           on_mem (modify (set_isBusy true))
         else mret tt
       else mret tt) Q (m, pkt).
Proof.
  intros Hp He [Hnow [Ht0 Ht] _] HQ. destruct (_ || _); [|apply wp_ret, HQ; by left]. apply wp_bind, wp_zoom.
  eapply wp_run; [by apply (Pkt.wf_getSize pkt d)|]. cbv zeta. destruct (negb _); [|apply wp_ret, HQ; by left].
  apply wp_bind, wp_zoom, wp_schedule; [done|cbn [fst]; rewrite (u64_small (Qfloor _)), u64_small by lia; lia|].
  apply wp_zoom. wp_steps. apply HQ. right. by eexists.
Qed.

(** The sum that a bounded access leads to. *)
Lemma sum_latency p o l : tame p → 0 ≤ op_latency_ p → ops p ≤ Z.of_nat o → latency_ p ≤ Z.of_nat l * (2 ^ 31 - 1) →
  0 ≤ u64 (latency_ p + op_latency_ p * u64 (num_table_ops_ p + num_buffer_ops_ p)) ≤
    Z.of_nat o * op_latency_ p + Z.of_nat l * (2 ^ 31 - 1).
Proof.
  intros (H1 & H2 & H3) Hop Ho Hl. unfold ops in Ho. pose proof (u64_le (num_table_ops_ p + num_buffer_ops_ p) ltac:(lia)) as Hu.
  set (n := u64 (num_table_ops_ p + _)) in *. pose proof (u64_le (latency_ p + op_latency_ p * n) ltac:(nia)). nia.
Qed.

Lemma wp_reply rnd m2 pkt1 pkt2 P (needs : bool) (Q : unit → SimpleMemory * Pkt.Packet → Prop) : sm_ok m2 P →
  0 ≤ op_latency_ (sel PfArg (profs (sys m2))) → tame (sel PfArg (profs (sys m2))) → ops (sel PfArg (profs (sys m2))) ≤ 5 →
  latency_ (sel PfArg (profs (sys m2))) ≤ 2 * (2 ^ 31 - 1) → 0 ≤ curTick m2 →
  curTick m2 + 5 * op_latency_ (sel PfArg (profs (sys m2))) + 2 * (2 ^ 31 - 1) < 2 ^ 64 → (needs = true → Pkt.pkt_isResponse pkt2 = true) →
  (∀ m', sm_ok m' P → undisturbed m2 m' → isBusy m' = isBusy m2 → releaseEvent m' = releaseEvent m2 →
     (if needs then ∃ t, packetQueue m' = packetQueue m2 ++ [(t, pkt2)] else packetQueue m' = packetQueue m2) → Q tt (m', pkt1)) →
  wp (let s := (m2, pkt2) in
       if needs then
         assert_ "SimpleMemory::recvTimingReq" (Pkt.pkt_isResponse s.2) ;;
         lat ← on_mem (on_sys (on_pf PfArg SumLatency));
         on_mem (modify (λ m, set_extraRespLatency (extraRespLatency m + (lat - getLatency rnd m)) m)) ;;
         let tick := u64 (curTick s.1 + lat) in
         on_mem (modify (λ m, set_packetQueue (packetQueue m ++ [(tick, s.2)]) m)) ;;
         if negb (retryResp s.1) && (match dequeueEvent s.1 with None => true | Some _ => false end) then
           on_mem (schedule dequeueEvent set_dequeueEvent tick)
         else mret tt
       else on_mem (modify (λ m, set_pendingDelete (pendingDelete m ++ [s.2]) m))) Q (m2, pkt1).
Proof.
  intros Hok Hop Htame Hops Hlat Hnow Hmax Hresp HQ. pose proof Hok as [Hi Hr]. cbv zeta. cbn [fst snd].
  pose proof (sum_latency _ 5 2 Htame Hop Hops Hlat) as Hsum.
  destruct needs; [|apply wp_zoom; wp_steps; by apply HQ].
  apply wp_bind. apply wp_assert; [by apply Hresp|]. apply wp_bind. do 3 apply wp_zoom. unfold SumLatency.
  wp_steps. apply wp_assert; [by apply Z.leb_le|]. wp_step. apply wp_assert; [cbn [fst]; by rewrite (proj1 Hi)|]. wp_steps. cbn [fst snd].
  set (lat := u64 (latency_ _ + _)) in *.
  replace (MkSys _ _ _ _) with (sys m2) by (by destruct m2 as [[?? []]]). rewrite set_sys_id.
  apply wp_zoom. wp_steps. apply wp_zoom. wp_steps. cbn [fst snd].
  destruct (negb _ && _) eqn:E; [|apply wp_ret; apply HQ; [done..|by eexists]].
  apply wp_zoom, wp_schedule; [cbn; apply andb_true_iff in E as [_ E]; by destruct (dequeueEvent m2)| |].
  - cbn [fst curTick set_packetQueue set_extraRespLatency]. rewrite u64_small; lia.
  - apply HQ; [done..|by eexists].
Qed.

Lemma wp_accept rnd m pkt d pkt2 P P' : sm_ok m P → Pkt.wf_packet pkt d → releaseEvent m = None →
  in_time m (Pkt.size pkt) → Pkt.cmd pkt2 = Pkt.cmd pkt →
  (∀ m1, fresh m m1 → wp (access PfArg) (λ _ s, sm_ok s.1 P' ∧ ckpt (sys s.1) = ckpt (sys m1) ∧
     pf_same (profs (sys m1)) (profs (sys s.1)) ∧ control s.1 = control m1 ∧ answered pkt2 s.2) (m1, undelayed pkt)) →
  wp (accept rnd) (λ _ s, accepted m s.1 P' pkt2) (m, pkt).
Proof.
  intros Hok Hp He Htime Hcmd Hacc. unfold accept. apply wp_bind, wp_zoom. wp_steps. cbn [fst snd]. fold (undelayed pkt).
  assert (Pkt.wf_packet (undelayed pkt) d) as Hp' by (by destruct Hp).
  eapply (wp_hold m); [done|done|done|]. intros m1 Hm1. apply wp_bind, wp_zoom. unfold new_pf. wp_steps.
  cbn [fst snd]. set (m2 := set_sys _ m1).
  assert (fresh m m2 ∧ profBase m2 = profBase m ∧ held m m2) as (Hf & Eb & Hbusy)
    by (destruct Hm1 as [->|[t ->]]; (split_and!; [done|done|]); [by left|right; split; [done|by eexists]]).
  assert (undisturbed m m2 ∧ packetQueue m2 = packetQueue m) as [Hu Eq] by (by destruct Hm1 as [->|[t ->]]).
  clearbody m2. clear m1 Hm1.
  destruct (fresh_ok _ _ _ Hok Hf) as (_ & _ & _ & Eop).
  destruct (proj1 (wp_ok _ _ _) (Hacc _ Hf)) as ([] & [m3 pkt3] & Erun & Hok3 & Ek & Hps & Ect & Ha). cbn [fst snd] in *.
  destruct (access_costs PfArg _ _ _ Erun) as (Htame & Hops & Hlat); [unfold sm_profs; cbn [fst]; rewrite (proj1 Hf); done|].
  unfold sm_profs in Htame, Hops, Hlat. cbn [fst] in *. rewrite (proj1 Hf) in Hops, Hlat. cbn in Hops, Hlat.
  eapply wp_run; [exact Erun|]. apply wp_bind, wp_zoom. unfold count_bytes. wp_steps. apply wp_zoom. wp_steps.
  cbn [fst snd]. set (m4 := set_ckBusUtil _ _).
  assert (sm_ok m4 P') as Hok4 by (by destruct Hok3).
  assert (Pkt.pkt_needsResponse (undelayed pkt) = Pkt.pkt_needsResponse pkt2) as En
    by (unfold Pkt.pkt_needsResponse; by rewrite Hcmd).
  unfold control in Ect. injection Ect as E1 E2 E3 E4 E5 E6 E7 E8 E9 E10 E11 E12 E13 E14 E15 E16 E17 E18 E19 E20.
  destruct Htime as [Hnow _ [Hop Hmax]].
  assert (op_latency_ (sel PfArg (profs (sys m4))) = op_latency_ (profBase m)) as Eop4
    by (change (profs (sys m4)) with (profs (sys m3)); by rewrite (proj2 (proj2 (proj2 (Hps PfArg)))), Eop).
  assert (curTick m4 = curTick m) as Et by (change (curTick m4) with (curTick m3); rewrite E12; apply Hu).
  rewrite En. eapply (wp_reply rnd m4 pkt3 pkt3 P'); [done|by rewrite Eop4|done|done|done|by rewrite Et|by rewrite Et, Eop4| |].
  { intros Hn. destruct Ha as [Ea _]. unfold Pkt.pkt_isResponse. rewrite Ea, Hn. by apply needs_request. }
  intros m' Hok' Hu' Ebu Ere Hq.
  cbn [fst]. split; [done|]. split; [|split].
  - assert (balance m4 = balance m3) as Eb4 by apply balance_traffic.
    unfold undisturbed in *. destruct Hu as (?&?&?&?&?&?&?&?&?), Hu' as (?&?&?&?&?&?&?&?&?). cbn in *.
    split_and!; try congruence. unfold balance at 1 in Eb4. unfold balance in *. congruence.
  - unfold queued. change (packetQueue m4) with (packetQueue m3) in Hq. rewrite E10, Eq in Hq.
    destruct (Pkt.pkt_needsResponse pkt2); [|done]. destruct Hq as [t Hq]. by exists t, pkt3.
  - change (isBusy m4) with (isBusy m3) in Ebu. change (releaseEvent m4) with (releaseEvent m3) in Ere.
    unfold held in *. rewrite Ebu, Ere, E1, E6. done.
Qed.

Lemma wp_run_accept rnd m pkt (Q : SimpleMemory → Prop) : wp (accept rnd) (λ _ s, Q s.1) (m, pkt) →
  wp (run_accept rnd pkt) (λ _, Q) m.
Proof. unfold wp, run_accept. by destruct (accept rnd (m, pkt)) as [[[] [m' p']]|]. Qed.

(** ** Starting an epoch change *)

(** The controller has run [op] with a fresh profiler. *)
Definition ran (m : SimpleMemory) (op : M (Sys MemSt) unit) (s' : Sys MemSt) : Prop :=
  ∃ s, ctl s = ctl (sys m) ∧ store s = store (sys m) ∧ ckpt s = ckpt (sys m) ∧
    sel PfArg (profs s) = copy_Profiler (profBase m) ∧ op s = Ok (tt, s').

(** How long the memory is busy with an epoch change after the pages have been migrated:
    writing both tables back, and the latency [lat] of the migration. *)
Definition pause (m : SimpleMemory) (s : Sys MemSt) (lat : Z) : Z :=
  let area := u64 (i32 (ATT.length_ (att_ (ctl s)) * 8)) in
  let area := u64 (area + u64 (i32 (Mig.ptt_length_ (migrator_ (ctl s)) * 8))) in
  u64 (u64 (Qfloor (inject_Z area * wbBandwidth m)) + lat).

(** The pages are migrated in [s'], and the epoch change takes [d] ticks. *)
Definition migration (m : SimpleMemory) (s' : Sys MemSt) (d : Z) : Prop :=
  ran m (MigratePages PfArg default_dr default_wr) s' ∧
  ∃ lat pf, SumLatency (sel PfArg (profs s')) = Ok (lat, pf) ∧ d = pause m s' lat.

(** The end of the epoch change is beyond the clock. *)
Definition overruns (m : SimpleMemory) : Prop := ∃ s' d, migration m s' d ∧ 2 ^ 64 ≤ curTick m + d.

Definition epoch_started (m m' : SimpleMemory) (P : PMem) : Prop :=
  (∃ mvs, sm_ok m' (p_migrate c mvs P)) ∧ (∃ d, migration m (sys m') d ∧ freezeEvent m' = Some (curTick m + d)) ∧ isBusy m' = true ∧ retryReq m' = true ∧
  ckptStart m' = curTick m ∧ curTick m' = curTick m ∧ unfreezeEvent m' = unfreezeEvent m ∧
  waitStart m' = waitStart m ∧ packetQueue m' = packetQueue m ∧ releaseEvent m' = releaseEvent m ∧ profBase m' = profBase m ∧
  bytesChannel m' = bytesChannel m + pf_bus false m' ∧ ckBusUtil m' = ckBusUtil m.

(** The memory after the migration, with its bytes and its waiting time counted. *)
Definition moved (m : SimpleMemory) (s : Sys MemSt) (d : Z) : SimpleMemory :=
  set_totalWaitTime (totalWaitTime m + d)
    (set_bytesInterChannel (bytesInterChannel m + SumBusUtil true (sel PfArg (profs s)))
      (set_bytesChannel (bytesChannel m + SumBusUtil false (sel PfArg (profs s))) (set_sys s m))).

(** The part of an epoch change before the start of the checkpoint is noted. *)
Lemma new_epoch_migrates m P : sm_ok m P → p_phase P = PersistMachine.Running → ckpt (sys m) = [] → 0 ≤ op_latency_ (profBase m) →
  ∃ s d, migration m s d ∧ (∃ mvs, sm_ok (moved m s d) (p_migrate c mvs P)) ∧ 0 ≤ d < 2 ^ 64 ∧
    new_epoch m = (setCkptStart (curTick m) ;; schedule freezeEvent set_freezeEvent (u64 (curTick m + d)) ;;
                   modify (set_isBusy true) ;; modify (set_retryReq true)) (moved m s d).
Proof.
  intros Hok Hph Hck Hop. pose proof Hok as [_ Hr]. set (m1 := set_sys (MkSys (ctl (sys m)) (store (sys m))
    (upd PfArg (copy_Profiler (profBase m)) (profs (sys m))) (ckpt (sys m))) m).
  destruct (fresh_ok m m1 P Hok ltac:(done)) as ([Hi1 _] & Ek & Hign & Eop).
  destruct (proj1 (wp_ok _ _ _) (wp_migrate c Hc default_dr default_wr (sys m1) P Hi1 Hph ltac:(done))) as ([] & s & Erun & [mvs Hi2] & Hps).
  assert (SumLatency (sel PfArg (profs s)) = Ok (u64 (latency_ (sel PfArg (profs s)) + op_latency_ (sel PfArg (profs s)) *
    u64 (num_table_ops_ (sel PfArg (profs s)) + num_buffer_ops_ (sel PfArg (profs s)))), sel PfArg (profs s))) as El.
  { unfold SumLatency. cbv [mbind M_bind get assert_ mret M_ret].
    rewrite (proj2 (proj2 (proj2 (Hps PfArg)))), Eop, (proj1 Hi2), (proj2 (Z.leb_le _ _) Hop). done. }
  set (lat := u64 _) in El. exists s, (pause m s lat). split_and!; [split; [by exists (sys m1)|by eexists _, _]|by exists mvs|..].
  1,2: apply Z.mod_pos_bound; lia.
  unfold new_epoch. cbv [mbind M_bind get assert_ new_pf modify]. rewrite Hck. fold m1. unfold on_sys at 1, zoom. rewrite Erun.
  unfold on_sys, on_pf, zoom. cbn [count_bytes modify sys set_bytesInterChannel set_bytesChannel set_sys]. rewrite El. cbv beta iota.
  replace (MkSys _ _ (upd _ _ _) _) with s by (by destruct s as [?? []]). reflexivity.
Qed.

Lemma wpc_new_epoch m P : sm_ok m P → p_phase P = PersistMachine.Running → ckpt (sys m) = [] → ckptStart m = 0 → freezeEvent m = None →
  0 ≤ op_latency_ (profBase m) → 0 ≤ curTick m < 2 ^ 64 → wpc (overruns m) new_epoch (λ _ m', epoch_started m m' P) m.
Proof.
  intros Hok Hph Hck Hcs He Hop Hnow. destruct (new_epoch_migrates m P Hok Hph Hck Hop) as (s & d & Hmg & [mvs Hi] & Hd & E).
  unfold wpc. rewrite E. apply wpc_bind, wpc_wp. unfold setCkptStart. wp_steps. apply wp_assert; [by apply Z.eqb_eq|]. wp_steps.
  apply wpc_bind. set (m4 := set_ckptStart _ _). change (curTick m) with (curTick m4).
  eapply (wpc_mono _ _ _ _ _ m4); [apply (wpc_schedule freezeEvent set_freezeEvent d (λ _ m', m' = set_freezeEvent (Some (curTick m4 + d)) m4))|..]; try done.
  - intros Hlate. by exists s, d.
  - intros [] m' ->. apply wpc_wp. wp_steps. split_and!; try done; [exists mvs; by destruct Hi|by exists d].
Qed.

(** An epoch change cannot start while the start of a checkpoint is noted. *)
Lemma new_epoch_noted m P : sm_ok m P → p_phase P = PersistMachine.Running → ckpt (sys m) = [] → 0 ≤ op_latency_ (profBase m) →
  ckptStart m ≠ 0 → new_epoch m = Err (EAssert "SimpleMemory::setCkptStart").
Proof.
  intros Hok Hph Hck Hop Hst. destruct (new_epoch_migrates m P Hok Hph Hck Hop) as (s & d & _ & _ & _ & ->).
  unfold setCkptStart. cbv [mbind M_bind get assert_]. change (ckptStart (moved m s d)) with (ckptStart m). by rewrite (proj2 (Z.eqb_neq _ _) Hst).
Qed.

(** ** Requests *)

Definition idle (m : SimpleMemory) : Prop := isBusy m = false ∧ retryReq m = false ∧ releaseEvent m = None.

Lemma wp_recv_read rnd m pkt d P : sm_ok m P → block_request c m pkt d → Pkt.pkt_isRead pkt = true →
  Pkt.pkt_isWrite pkt = false → idle m → in_time m bs →
  wp (recvTimingReq rnd pkt) (λ b m', b = true ∧
    accepted m m' P (Pkt.set_data (Some (image c P (local m pkt))) pkt)) m.
Proof.
  intros Hok Hb Hrd Hw (Hbu & Hre & He) Hop. unfold recvTimingReq. wp_steps.
  rewrite (br_open _ _ _ _ Hb). cbn [retryReq isBusy set_pendingDelete]. rewrite Hre, Hbu, Hw, andb_false_r.
  set (m1 := set_pendingDelete [] m). assert (sm_ok m1 P) as Hok1 by (by destruct Hok).
  set (pkt2 := Pkt.set_data (Some (image c P (local m pkt))) (undelayed pkt)).
  apply wp_bind. eapply wp_mono; [apply (wp_run_accept rnd m1 pkt (λ m', accepted m1 m' P pkt2))|].
  - eapply (wp_accept rnd m1 pkt d pkt2 P P); [done|apply Hb|done|rewrite (br_size _ _ _ _ Hb); by destruct Hop|done|].
    intros m2 Hf. destruct (fresh_ok _ _ _ Hok1 Hf) as (Hok2 & _ & Hign & _).
    destruct Hf as (_ & Er & _). subst pkt2. replace (local m pkt) with (local m2 (undelayed pkt)) by (unfold local; by rewrite Er).
    eapply (wp_read c Hc Hm w m2 (undelayed pkt) d P PfArg); [done| |done..]. destruct Hb. split; rewrite ?Er; try done. by destruct br_packet.
  - intros [] m' Ha. apply wp_ret. split; [done|]. exact Ha.
Qed.

Lemma admitted_profs a s P x ps l : admitted c a s P x → admitted c a (MkSys (ctl s) (store s) ps l) P x.
Proof. intros (Hi & H). split; [apply inv_store; [done|apply (iv_store _ _ _ _ Hi)]|done]. Qed.

(** A request that waits for the end of the checkpoint. *)
Definition waiting (m m' : SimpleMemory) (P : PMem) : Prop :=
  sm_ok m' P ∧ undisturbed (set_waitStart (if waitStart m =? 0 then curTick m else waitStart m) m) m' ∧
  isBusy m' = isBusy m ∧ releaseEvent m' = releaseEvent m ∧ packetQueue m' = packetQueue m ∧
  ctl (sys m') = ctl (sys m) ∧ store (sys m') = store (sys m).

Lemma phase_probed a s P x r : in_phase (p_phase P) a s → p_phase P ≠ Migrated → probed c a s x r →
  match r with
  | REG_WRITE => True | WAIT_CKPT => p_phase P = Checkpointing | NEW_EPOCH => p_phase P = PersistMachine.Running
  end.
Proof.
  intros Hp Hph Hpr. unfold probed in Hpr. destruct r; [done| |]; destruct (p_phase P); try done; destruct Hp as [Hck _];
    rewrite Hck in Hpr; [naive_solver|]; destruct (bool_decide _); naive_solver.
Qed.

(** Starting an epoch is the only case in which the clock can overflow. *)
Lemma wpc_recv_write rnd m pkt d P : sm_ok m P → block_request c m pkt d → Pkt.pkt_isRead pkt = false →
  Pkt.pkt_isWrite pkt = true → Req.isInstFetch (Pkt.req pkt) = false → AddrRange._start (range m) = 0 →
  p_phase P ≠ Migrated → judged c (sys m) (local m pkt) → countable c (sys m) (local m pkt) → idle m → in_time m bs →
  (p_phase P = PersistMachine.Running → ckpt (sys m) = [] ∧ ckptStart m = 0 ∧ freezeEvent m = None) →
  wpc (p_phase P = PersistMachine.Running ∧ (∃ s', Probe (local m pkt) (sys m) = Ok (NEW_EPOCH, s')) ∧ overruns m) (recvTimingReq rnd pkt) (λ b m',
    if b then accepted m m' (if performed m pkt then p_store (local m pkt) d P else P) pkt
    else (p_phase P = PersistMachine.Running ∧ epoch_started m m' P) ∨ (p_phase P = Checkpointing ∧ waiting m m' P)) m.
Proof.
  intros Hok Hb Hrd Hw Hif H0 Hph Hj HG (Hbu & Hre & He) Hop Hrun. pose proof Hok as [Hi Hr].
  destruct (local_ok c Hc m pkt d Hr Hb) as (Hx0 & Hx & _). assert (Pkt.addr pkt = local m pkt) as Ea by (unfold local; lia).
  unfold recvTimingReq. apply wpc_bind, wpc_wp. wp_steps. apply wpc_bind, wpc_wp, wp_get. rewrite (br_open _ _ _ _ Hb).
  cbn [retryReq isBusy set_pendingDelete]. rewrite Hre, Hbu, Hw, (not_swap pkt) by (by rewrite Hrd, andb_comm). cbn [negb andb].
  apply wpc_bind, wpc_wp. apply wp_assert; [apply Hb|]. rewrite Ea. pose proof (bs_pos _ Hc).
  assert (0 ≤ local m pkt < c_phy_range c) as Hx' by lia.
  set (m1 := set_pendingDelete [] m). apply wpc_bind, wpc_wp, wp_zoom.
  destruct (proj1 (wp_ok _ _ _) (wp_admission c Hc _ (λ r s, ∃ ps a, s = MkSys (ctl (sys m)) (store (sys m)) ps (ckpt (sys m)) ∧
    implements c s P ∧ in_phase (p_phase P) a s ∧ probed c a s (local m pkt) r ∧
    (r = REG_WRITE → admitted c a s P (local m pkt))) (sys m1) P Hi Hx' Hj
    ltac:(intros r ps a Hps Hi2 Hia Hp Hpr Hadm; by exists ps, a))) as (r & s2 & Epr & ps & a & Es2 & Hi2 & Hp & Hpr & Hadm).
  eapply wp_run; [exact Epr|].
  pose proof (phase_probed _ _ _ _ _ Hp Hph Hpr) as Hr'. set (m2 := set_sys s2 m1).
  assert (sm_ok m2 P) as Hok2 by (by split). destruct r.
  - specialize (Hadm eq_refl). apply wpc_wp, wp_bind.
    set (P' := if performed m pkt then p_store (local m pkt) d P else P).
    assert (undisturbed m m2) as Hu2 by (unfold undisturbed; subst m2; rewrite Es2; done).
    eapply wp_mono; [apply (wp_run_accept rnd m2 pkt (λ m', accepted m2 m' P' pkt))|].
    2: { intros [] m' Ha. apply wp_ret. destruct Ha as (Ha1 & Ha2 & Ha3). split; [done|]. split; [|done]. 
         unfold undisturbed in *. cbn in Ha2. rewrite Es2 in Ha2. exact Ha2. }
    eapply (wp_accept rnd m2 pkt d pkt P P'); [done|apply Hb|done|rewrite (br_size _ _ _ _ Hb); by destruct Hop|done|]. intros m3 Hf.
    destruct (fresh_ok _ _ _ Hok2 Hf) as (Hok3 & _ & Hign & _). destruct Hf as (Es & Er & El).
    assert (local m3 (undelayed pkt) = local m pkt) as Elo by (unfold local; by rewrite Er).
    assert (performed m3 (undelayed pkt) = performed m pkt) as Epe by (unfold performed; by rewrite El). subst P'.
    rewrite <- Elo, <- Epe. eapply (wp_write c Hc Hm w m3 (undelayed pkt) d P PfArg a); [done| |done..| | |done].
    + destruct Hb. split; rewrite ?Er; try done. by destruct br_packet.
    + rewrite Elo, Es. apply (admitted_profs a s2). done.
    + rewrite Elo, Es. subst m2. rewrite Es2. exact HG.
  - apply wpc_bind. subst s2. destruct (Hrun Hr') as (Ek & Ecs & Ef).
    assert (0 ≤ curTick m2 < 2 ^ 64) as Hnow by (destruct Hop as [H1 _ [H2 H3]]; cbn; lia).
    eapply wpc_mono; [by apply (wpc_new_epoch m2 P); [..|apply Hop|]|intros Hov; split_and!; [done|by eexists|exact Hov]|]. intros [] m' He'. apply wpc_wp, wp_ret. by left.
  - apply wpc_bind, wpc_wp. unfold setWait. wp_steps. apply wpc_wp, wp_ret. right. split; [done|]. subst s2.
    change (waitStart m2) with (waitStart m). unfold waiting. destruct (waitStart m =? 0) eqn:Ew; split_and!; done.
Qed.

End Events.
