(* ===== verification/SimpleMemEpoch.v ===== *)
(** The checkpoint events of SimpleMemory: [freeze] begins the checkpoint and hands its
    blocks to the banks, [unfreeze] runs once per round of writes, and when the last one
    has ended the checkpoint is finished. *)

From Stdlib Require Import QArith Qround.
From S2P Require Import Prelude Profiler StdAlgo MemStore PersistSpec PersistFacts PersistMachine.
From S2P Require Import AddrTransController AbstractMem MemLaws MemFrame.
From S2P Require Import ControllerInv ControllerOps ControllerStore ControllerAccess ControllerMachine.
From S2P Require Import SimpleMem PacketAccess SimpleMemEvents.
From S2P Require DRAMBanks.
#[global] Open Scope Z_scope.

Section Epoch.
Context (c : Config) (Hc : wf_config c) (Hm : wf_mem c).
Context `{HO : HashOrder, HA : HeapAlgo}.

Abbreviation bs := (c_bsize c).
Abbreviation laws_at w := (framed_laws c Hc Hm w).

(** The controller implements the flat memory, with the bank schedule as it is. *)
Definition implements_at (w : Frame) (s : Sys MemSt) (P : PMem) : Prop := implements c (MemStoreLaws0 := laws_at w) s P.
Definition serves (m : SimpleMemory) (P : PMem) : Prop := sm_ok c Hc Hm (frame (mem_of m)) m P.

Lemma sm_serves w m P : sm_ok c Hc Hm w m P → serves m P ∧ frame (mem_of m) = w.
Proof. intros [Hi Hr]. destruct (implements_mem c Hc Hm w _ _ Hi) as [_ E]. split; [|done]. unfold serves, mem_of. by rewrite E. Qed.

(** Only the banks change. *)
Lemma reframe w s P d l : implements_at w s P → mem_ok c (set_banks d (store s)) →
  implements_at (frame (set_banks d (store s))) (MkSys (ctl s) (set_banks d (store s)) (profs s) l) P.
Proof.
  intros (Hign & a & Hi & Hp & HR) Hok. split; [done|]. exists a. split; [|by split].
  by destruct Hi; constructor.
Qed.

(** ** Handing the blocks to the banks *)

Lemma put_row d i j b : Banks.row_buffer_size (Banks.put_bank i j b d) = Banks.row_buffer_size d.
Proof. unfold Banks.row_buffer_size, Banks.put_bank. by destruct (zlookup _ _). Qed.

Lemma length_tally d : length (mjoin (Banks.banks_ d)) = Banks.tally (λ _, 1%nat) d.
Proof. unfold Banks.tally. induction (mjoin (Banks.banks_ d)) as [|b l IH]; [done|]. cbn. by rewrite IH. Qed.

(** The banks after [n] more writes are queued. *)
Record more_writes (n : nat) (d d' : Banks.DRAMBanks) : Prop := {
  mw_ok : Banks.banks_ok d';
  mw_row : Banks.row_buffer_size d' = Banks.row_buffer_size d;
  mw_pending : Banks.pending d' = (n + Banks.pending d)%nat;
  mw_idle t : Banks.idle_by t d → Banks.idle_by t d';
  mw_flying t : Banks.flying t d' = Banks.flying t d;
  mw_size : length (mjoin (Banks.banks_ d')) = length (mjoin (Banks.banks_ d));
}.

Lemma wp_PushWrite_more a n d0 d (Q : unit → Banks.DRAMBanks → Prop) : more_writes n d0 d →
  (∀ d', more_writes (S n) d0 d' → Q tt d') → wp (Banks.PushWrite a) Q d.
Proof.
  intros Hd HQ. apply Banks.wp_PushWrite; [apply Hd|]. intros b Hb d' Hok. apply HQ.
  set (b' := Banks.set_write_queue_ _ b) in *.
  assert (length (Banks.write_queue_ b') = S (length (Banks.write_queue_ b))) as Hl by (subst b'; cbn; rewrite length_app; cbn; lia).
  destruct (Banks.push_counts d _ _ b b' Hb eq_refl Hl) as [Hp Hi]. destruct Hd as [_ Hrow Hpend Hidle Hfly Hsize]. fold d' in Hp, Hi.
  pose proof (Banks.tally_put (λ _, 1%nat) d _ _ b b' Hb) as Ht. fold d' in Ht. rewrite <- !length_tally in Ht. split; [done| | | | |].
  - etrans; [apply put_row|done].
  - rewrite Hp, Hpend. lia.
  - intros t Ht'. by apply Hi, Hidle.
  - intros t. rewrite (proj2 (Hi t)). apply Hfly.
  - rewrite <- Hsize. lia.
Qed.

Lemma wp_push_blocks w (Q : unit → Sys MemSt → Prop) s P : implements_at w s P →
  (∀ d, more_writes (length (ckpt s)) (banks (store s)) d →
     Q tt (MkSys (ctl s) (set_banks d (store s)) (profs s) [])) → wp push_blocks Q s.
Proof.
  intros Hi HQ. pose proof (implements_mem c Hc Hm w _ _ Hi) as [Hok _]. unfold push_blocks. wp_steps.
  set (I := λ (l : list Z) (s' : Sys MemSt), ∃ d n, (n + length l)%nat = length (ckpt s) ∧ more_writes n (banks (store s)) d ∧
    s' = MkSys (ctl s) (set_banks d (store s)) (profs s) (rev l)).
  eapply wp_mono; [apply (wp_for_each _ I)|].
  - exists (banks (store s)), 0%nat. rewrite length_rev, rev_involutive. split_and!; [done| |by destruct s as [? []]].
    split; [apply Hok|done|done|done|done|done].
  - intros x l s' (d & n & Hn & Hd & ->). wp_step. do 2 apply wp_zoom. cbn [store banks set_banks].
    eapply wp_PushWrite_more; [done|]. intros d' Hd'. wp_steps. exists d', (S n). split_and!; [cbn in *; lia|done|].
    unfold set_ckpt. cbn [ctl store profs ckpt rev]. by rewrite removelast_last.
  - intros [] s' (d & n & Hn & Hd & ->). cbn in Hn. rewrite Nat.add_0_r in Hn. subst n. by apply HQ.
Qed.

(** ** The schedule of the banks *)

(** What the banks have to do does not depend on their row buffers. *)
Lemma works_counts d d' : works d' = works d →
  Banks.pending d' = Banks.pending d ∧ (∀ t, Banks.flying t d' = Banks.flying t d) ∧
  (∀ t, Banks.idle_by t d → Banks.idle_by t d') ∧
  length (mjoin (Banks.banks_ d')) = length (mjoin (Banks.banks_ d)).
Proof.
  intros E. assert (bank_work <$> mjoin (Banks.banks_ d') = bank_work <$> mjoin (Banks.banks_ d)) as E'.
  { unfold works in E. revert E. generalize (Banks.banks_ d), (Banks.banks_ d'). intros l l'. revert l'.
    induction l as [|x l IH]; intros [|y l']; try done. rewrite !fmap_cons. intros [= E1 E2]. cbn.
    rewrite !fmap_app. f_equal; [done|by apply IH]. }
  unfold Banks.pending, Banks.flying, Banks.tally, Banks.idle_by. revert E'.
  generalize (mjoin (Banks.banks_ d)), (mjoin (Banks.banks_ d')). intros l l' E'. clear E. revert l' E'.
  induction l as [|x l IH]; intros [|y l']; try done. rewrite !fmap_cons. unfold bank_work at 1 3. intros [= E1 E2 E3].
  destruct (IH l' E3) as (H1 & H2 & H3 & H4). cbn [sum_list_with length]. unfold Banks.ends_at at 1 3. rewrite E1, E2, H1, H4.
  split_and!; [done|intros t; by rewrite H2| |done]. intros t. rewrite !Forall_cons, E1. naive_solver.
Qed.

(** The banks of a memory: all writes have ended by [t], and a round moves fewer than
    2 GiB. *)
Record scheduled (t : Z) (m : SimpleMemory) : Prop := {
  sc_idle : Banks.idle_by t (banks (mem_of m));
  sc_size : bs * Z.of_nat (length (mjoin (Banks.banks_ (banks (mem_of m))))) < 2 ^ 31;
}.

Definition to_write (m : SimpleMemory) : nat := Banks.pending (banks (mem_of m)).
Definition ending (t : Z) (m : SimpleMemory) : nat := Banks.flying t (banks (mem_of m)).

(** The bytes that crossed the channel are those of the requests and of the blocks
    written, but for the blocks still to be written or to be counted at [t]. *)
Definition ledger (t : Z) (m : SimpleMemory) : Prop := balance m = u64 (bs * Z.of_nat (to_write m + ending t m)).

Lemma scheduled_frame t m m' : frame (mem_of m') = frame (mem_of m) →
  (scheduled t m → scheduled t m') ∧ to_write m' = to_write m ∧ ∀ t, ending t m' = ending t m.
Proof.
  intros [= E _]. destruct (works_counts _ _ E) as (H1 & H2 & H3 & H4). split; [|done].
  intros [Hi Hs]. split; [by apply H3|by rewrite H4].
Qed.

Lemma flying_size t d : (Banks.flying t d ≤ length (mjoin (Banks.banks_ d)))%nat.
Proof.
  unfold Banks.flying, Banks.tally. induction (mjoin (Banks.banks_ d)) as [|b l IH]; [done|]. cbn [sum_list_with length].
  unfold Banks.ends_at at 1. destruct (_ =? _); lia.
Qed.

(** ** A round of writes *)

Record round_done (m m' : SimpleMemory) : Prop := {
  rd_schedule : scheduled (curTick m + latency (mem_of m)) m';
  rd_split : to_write m = (to_write m' + ending (curTick m + latency (mem_of m)) m')%nat;
  rd_busy : ckBusUtil m' = u64 (ckBusUtil m + bs * Z.of_nat (ending (curTick m) m));
  rd_bytes : bytesChannel m' = bytesChannel m;
  rd_latency : latency (mem_of m') = latency (mem_of m);
  rd_ckpt : ckpt (sys m') = ckpt (sys m);
  rd_profs : profs (sys m') = profs (sys m);
  rd_control : control m' = control (set_ckBusUtil (ckBusUtil m') m);
}.

Lemma serves_block_size m P : serves m P → ATT.block_size (att_ (ctl_of m)) = bs.
Proof.
  intros [(_ & a & Hi & _) _]. eapply (wp_block_size c Hc (λ b _, b = bs) (sys m)); [apply Hi|done].
Qed.

Lemma wp_issue_writes site (Q : Z → SimpleMemory → Prop) m P : serves m P → scheduled (curTick m) m → 0 ≤ curTick m →
  curTick m + latency (mem_of m) < 2 ^ 64 - 1 →
  (∀ m', serves m' P → round_done m m' →
     (to_write m = 0%nat → to_write m' = 0%nat ∧ ending (curTick m + latency (mem_of m)) m' = 0%nat ∧ scheduled (curTick m) m') →
     (to_write m ≠ 0%nat → (to_write m' < to_write m)%nat) →
     Q (if (to_write m =? 0)%nat then 0 else curTick m + latency (mem_of m)) m') →
  wp (issue_writes site) Q m.
Proof.
  intros Hs [Hidle Hsize] Hnow Hmax HQ. pose proof (serves_block_size _ _ Hs) as Ebs. pose proof Hs as [Hi Hr].
  destruct (implements_mem c Hc Hm _ _ _ Hi) as [Hok _]. change (mem_ok c (mem_of m)) in Hok. pose proof (mo_lat _ _ Hok) as Hlat.
  unfold issue_writes. wp_steps. do 3 apply wp_zoom.
  apply Banks.wp_drain_round; [apply Hok|done|done|apply Hlat|done|]. intros r d' Hok' Hshape Eb Ef En.
  rewrite Banks.done_flying in Ef. wp_steps. set (m1 := set_sys _ m).
  assert (serves m1 P) as Hs1.
  { split; [|done]. apply (reframe (frame (mem_of m)) (sys m)); [done|]. destruct Hok. split; try done.
    exact (eq_trans (eq_sym (f_equal Banks.row_buffer_size Hshape)) mo_row). }
  pose proof (flying_size (curTick m) (banks (mem_of m))) as Hfl. pose proof (bs_pos _ Hc).
  change (ATT.block_size (att_ (ctl_of m1))) with (ATT.block_size (att_ (ctl_of m))). rewrite Ebs, Ef.
  change (latency (mem_of (set_ckBusUtil _ m1))) with (latency (mem_of m)).
  pose proof (Banks.pending_zero (banks (mem_of m))) as Hz. fold (to_write m) in Hz.
  assert (r.2 = if (to_write m =? 0)%nat then 0 else curTick m + latency (mem_of m)) as En'.
  { rewrite En. destruct (Banks.HasPendingWrite _), (Nat.eqb_spec (to_write m) 0); naive_solver. }
  assert (0 ≤ bs * Z.of_nat (Banks.flying (curTick m) (banks (mem_of m))) < 2 ^ 31) as Hby.
  { split; [lia|]. eapply Z.le_lt_trans; [|exact Hsize]. apply Z.mul_le_mono_nonneg_l; lia. }
  change (banks (store (sys m))) with (banks (mem_of m)). rewrite i32_small, (u64_small (bs * _)) by lia.
  fold (ending (curTick m) m).
  apply wp_assert. { rewrite En'. destruct (_ =? _)%nat; [done|]. apply orb_true_iff. right. apply Z.eqb_eq. rewrite u64_small; lia. }
  wp_steps. rewrite En'. pose proof (Banks.round_counts _ _ _ d' (proj1 Hlat) Hidle Eb) as Hc'.
  pose proof (Banks.pending_round (curTick m) (latency (mem_of m)) _ d' Hidle Eb) as Hp.
  apply HQ; [by destruct Hs1| | |].
  - split; try done. split; [|].
    + exact (Banks.idle_round (curTick m) _ _ d' (Z.lt_le_incl _ _ (proj1 Hlat)) Hidle Eb).
    + change (banks (mem_of _)) with d'. by rewrite Eb, Banks.mjoin_fmap, length_fmap.
  - intros Hn. change (Banks.pending (banks (mem_of m)) = 0%nat) in Hn. unfold to_write, ending. split; [cbn; lia|]. split; [cbn; lia|]. split.
    + apply (Banks.idle_round_none _ (latency (mem_of m)) (banks (mem_of m))); [done|by apply Hz|done].
    + change (banks (mem_of _)) with d'. by rewrite Eb, Banks.mjoin_fmap, length_fmap.
  - intros Hn. apply Hp. destruct (Banks.HasPendingWrite _); [done|]. naive_solver.
Qed.

Lemma ledger_round m m' : ledger (curTick m) m → round_done m m' → ledger (curTick m + latency (mem_of m)) m'.
Proof.
  unfold ledger. intros Hl []. unfold balance in *. rewrite rd_busy0, rd_bytes0. unfold u64 in *. rewrite Zminus_mod_idemp_r.
  replace (bytesChannel m - _) with (bytesChannel m - ckBusUtil m - bs * Z.of_nat (ending (curTick m) m)) by lia.
  rewrite <- Zminus_mod_idemp_l, Hl, Zminus_mod_idemp_l, rd_split0. f_equal. lia.
Qed.

(** ** The rounds *)

(** What the rounds leave alone. *)
Definition ports (m : SimpleMemory) := (isBusy m, retryReq m, releaseEvent m, freezeEvent m, profBase m, ckpt (sys m)).

Lemma wp_finish_mem (Q : unit → SimpleMemory → Prop) m P : serves m P → p_phase P = Checkpointing →
  (∀ s, let m' := set_sys s m in serves m' (p_finish P) → frame (mem_of m') = frame (mem_of m) → ckpt s = ckpt (sys m) → Q tt m') →
  wp (on_sys FinishCheckpointing) Q m.
Proof.
  intros [Hi Hr] Hph HQ. apply wp_zoom. eapply wp_mono; [by apply (wp_finish c Hc (MemStoreLaws0 := laws_at (frame (mem_of m))))|]. intros [] s [Hi' Ek].
  assert (sm_ok c Hc Hm (frame (mem_of m)) (set_sys s m) (p_finish P)) as Hok by done.
  destruct (sm_serves _ _ _ Hok) as [Hs Hf]. by apply HQ.
Qed.

Lemma balance_zero m x : ckBusUtil m = u64 x → 0 ≤ bytesChannel m < 2 ^ 64 → balance m = 0 → ckBusUtil m = bytesChannel m.
Proof.
  unfold balance, u64. intros E Hb H0. pose proof (Z.mod_pos_bound x (2 ^ 64) ltac:(lia)).
  apply Z.mod_divide in H0 as [k Hk]; [|lia]. assert (k = 0) by nia. lia.
Qed.

Lemma wp_unfreeze_end (Q : unit → SimpleMemory → Prop) m P : serves m P → p_phase P = Checkpointing → 0 < ckptStart m →
  ckBusUtil m = bytesChannel m →
  (∀ m', serves m' (p_finish P) → frame (mem_of m') = frame (mem_of m) →
     unfreezeEvent m' = unfreezeEvent m ∧ ckptStart m' = 0 ∧ waitStart m' = 0 ∧
     totalCkptTime m' = totalCkptTime m + u64 (curTick m - ckptStart m) ∧
     sent m' = sent m ++ (if isWait m then [SentRetry] else []) ∧ balance m' = balance m ∧ curTick m' = curTick m → ports m' = ports m → Q tt m') →
  wp (on_sys FinishCheckpointing ;;
      m ← get;
      assert_ "SimpleMemory::unfreeze" (ckBusUtil m =? bytesChannel m) ;;
      t ← getCkptTime;
      modify (λ m, set_totalCkptTime (totalCkptTime m + t) m) ;;
      m ← get;
      if isWait m then clearWait ;; sendRetry else mret tt) Q m.
Proof.
  intros Hs Hph Hst Eb HQ. wp_step. apply (wp_finish_mem _ m P); [done|done|]. intros s m' Hs' Hf Ek. wp_steps.
  assert (ports m' = ports m) as Hpo by (unfold ports; cbn; by rewrite Ek).
  apply wp_assert; [by apply Z.eqb_eq|]. unfold getCkptTime. wp_steps. apply wp_assert; [by apply Z.ltb_lt|]. wp_steps.
  set (m2 := set_totalCkptTime _ _). change (isWait m2) with (isWait m). destruct (isWait m) eqn:Hw.
  - unfold clearWait, sendRetry. wp_steps. apply wp_assert; [done|]. wp_steps. apply HQ; [by destruct Hs'|done| |done]. by rewrite ?Hw.
  - wp_steps. apply HQ; [by destruct Hs'|done| |done]. rewrite ?Hw, ?app_nil_r. split_and!; try done.
    unfold isWait in Hw. apply negb_false_iff, Z.eqb_eq in Hw. done.
Qed.

Lemma serves_latency m P : serves m P → 0 < latency (mem_of m) < 2 ^ 31.
Proof. intros [Hi _]. destruct (implements_mem c Hc Hm _ _ _ Hi) as [Hok _]. apply Hok. Qed.

(** A checkpoint is being written; the round in progress ends at [t]. *)
Record checkpointing (t : Z) (m : SimpleMemory) (P : PMem) : Prop := {
  ck_serves : serves m P;
  ck_phase : p_phase P = Checkpointing;
  ck_event : unfreezeEvent m = Some t;
  ck_schedule : scheduled t m;
  ck_ledger : ledger t m;
  ck_start : 0 < ckptStart m;
}.

(** The checkpoint is over: the time it took is added up, and a request that waited for
    it is told to retry. *)
Record checkpointed (t : Z) (m m' : SimpleMemory) (P : PMem) : Prop := {
  cd_serves : serves m' (p_finish P);
  cd_event : unfreezeEvent m' = None;
  cd_start : ckptStart m' = 0;
  cd_wait : waitStart m' = 0;
  cd_tick : curTick m' = t;
  cd_time : totalCkptTime m' = totalCkptTime m + u64 (t - ckptStart m);
  cd_sent : sent m' = sent m ++ (if isWait m then [SentRetry] else []);
  cd_balance : balance m' = 0;
  cd_schedule : scheduled t m' ∧ to_write m' = 0%nat;
  cd_ports : ports m' = ports m;
}.

Lemma wp_fire_unfreeze t m P : checkpointing t m P → 0 ≤ t → t + latency (mem_of m) < 2 ^ 64 - 1 →
  0 ≤ bytesChannel m < 2 ^ 64 →
  wp (fire EvUnfreeze) (λ _ m',
    if (to_write m =? 0)%nat then checkpointed t m m' P
    else checkpointing (t + latency (mem_of m)) m' P ∧ (to_write m' < to_write m)%nat ∧
         latency (mem_of m') = latency (mem_of m) ∧ bytesChannel m' = bytesChannel m ∧ sent m' = sent m ∧
         waitStart m' = waitStart m ∧ ports m' = ports m ∧ curTick m' = t) m.
Proof.
  intros [Hs Hph He [Hid Hsz] Hl Hst] Ht Hmax Hby. unfold fire. wp_steps. eapply wp_of_option; [done|]. wp_steps.
  set (m1 := set_unfreezeEvent None (set_curTick t m)).
  assert (serves m1 P) as Hs1 by (by destruct Hs). unfold unfreeze. wp_step.
  apply (wp_issue_writes _ _ m1 P); [done|by split|done|done|]. intros m2 Hs2 Hrd Hz Hn.
  assert (ledger (curTick m1) m1) as Hl1 by exact Hl. pose proof (ledger_round m1 m2 Hl1 Hrd) as Hl2.
  change (to_write m1) with (to_write m) in *. change (curTick m1) with t in *. change (mem_of m1) with (mem_of m) in *.
  destruct Hrd as [Hsch Hsp Hbu Hbc Hlat Hck Hpf Hct]. unfold control in Hct.
  injection Hct as E1 E2 E3 E4 E5 E6 E7 E8 E9 E10 E11 E12 E13 E14 E15 E16 E17 E18 E19.
  destruct (Nat.eqb_spec (to_write m) 0) as [E|E].
  - rewrite Z.eqb_refl. cbn [negb]. destruct (Hz E) as (Hz1 & Hz2 & Hz3). unfold ledger in Hl2. rewrite Hz1, Hz2, Z.mul_0_r in Hl2.
    assert (ckBusUtil m2 = bytesChannel m2) as Eb by (by eapply balance_zero; [done|rewrite E18|]).
    assert (isWait m2 = isWait m) as Ew by (unfold isWait; by rewrite E2).
    apply (wp_unfreeze_end _ m2 P); [done|done|by rewrite E3|done|]. intros m3 Hs3 Hf (F1 & F2 & F3 & F4 & F5 & F6 & F7) Hpo.
    destruct (scheduled_frame t m2 m3 Hf) as (G1 & G2 & _).
    split; try congruence; [by rewrite F5, Ew, E17|by rewrite F6|split; [by apply G1|by rewrite G2]|].
    rewrite Hpo. unfold ports. change (sys m1) with (sys m) in Hck. congruence.
  - destruct (Z.eqb_spec (t + latency (mem_of m)) 0) as [E0|_]; [pose proof (serves_latency _ _ Hs); lia|]. cbn [negb].
    apply wp_schedule; [done|rewrite E12; pose proof (serves_latency _ _ Hs); lia|]. split; [|split_and!; try done; [by auto|unfold ports; cbn; change (sys m1) with (sys m) in Hck; congruence]].
    split; try done; [by destruct Hs2|by destruct Hsch|]. change (0 < ckptStart m2). by rewrite E3.
Qed.

(** The end of the checkpoint when only the rounds run. *)
Fixpoint unfreeze_all (fuel : nat) : M SimpleMemory unit :=
  match fuel with
  | O => err EFuel
  | S fuel' => fire EvUnfreeze ;; m ← get; match unfreezeEvent m with None => mret tt | Some _ => unfreeze_all fuel' end
  end.

Lemma wp_unfreeze_all fuel t m P : checkpointing t m P → 0 ≤ t → (to_write m < fuel)%nat →
  t + (Z.of_nat (to_write m) + 1) * latency (mem_of m) < 2 ^ 64 - 1 → 0 ≤ bytesChannel m < 2 ^ 64 →
  wp (unfreeze_all fuel) (λ _ m', serves m' (p_finish P) ∧ unfreezeEvent m' = None ∧ ckptStart m' = 0 ∧ waitStart m' = 0 ∧
    sent m' = sent m ++ (if isWait m then [SentRetry] else []) ∧ balance m' = 0 ∧ to_write m' = 0%nat ∧
    t ≤ curTick m' ≤ t + Z.of_nat (to_write m) * latency (mem_of m)) m.
Proof.
  revert t m. induction fuel as [|fuel IH]; intros t m Hck Ht Hf Hmax Hby; [lia|]. cbn [unfreeze_all].
  pose proof (serves_latency _ _ (ck_serves _ _ _ Hck)) as Hlat. wp_step.
  eapply wp_mono; [apply (wp_fire_unfreeze t m P Hck Ht); [nia|done]|]. intros [] m1 H. wp_steps.
  destruct (Nat.eqb_spec (to_write m) 0) as [E|E].
  - destruct H as [H1 H2 H3 H4 H5 H6 H7 H8 [_ H9] _]. rewrite H2. wp_steps. split_and!; try done; lia.
  - destruct H as (Hck1 & Hlt & El & Eb & Es & Ew & _). rewrite (ck_event _ _ _ Hck1).
    eapply wp_mono; [apply (IH _ m1 Hck1); [lia|lia|rewrite El; nia|by rewrite Eb]|].
    intros [] m2. unfold isWait. rewrite Es, Ew, El. intros (H1 & H2 & H3 & H4 & H5 & H6 & H7 & H8). split_and!; try done; nia.
Qed.

(** Requests do not disturb the rounds. *)
Lemma accepted_checkpointing t m m' P P' pkt : checkpointing t m P → p_phase P' = Checkpointing →
  accepted c Hc Hm (frame (mem_of m)) m m' P' pkt → checkpointing t m' P' ∧ to_write m' = to_write m.
Proof.
  intros [Hs Hph He Hsc Hl Hst] Hph' (Hok & (_ & _ & _ & E1 & _ & _ & E2 & _ & E3) & _ & _).
  destruct (sm_serves _ _ _ Hok) as [Hs' Hf]. destruct (scheduled_frame t m m' Hf) as (H1 & H2 & H3). split; [|done].
  split; [done|done|by rewrite E2|by apply H1| |by rewrite E1]. unfold ledger in *. by rewrite E3, H2, H3.
Qed.

Lemma waiting_checkpointing t m m' P : checkpointing t m P → waiting c Hc Hm (frame (mem_of m)) m m' P →
  checkpointing t m' P ∧ to_write m' = to_write m.
Proof.
  intros [Hs Hph He Hsc Hl Hst] (Hok & (_ & _ & _ & E1 & _ & _ & E2 & _ & E3) & _).
  destruct (sm_serves _ _ _ Hok) as [Hs' Hf]. destruct (scheduled_frame t m m' Hf) as (H1 & H2 & H3). split; [|done].
  split; [done|done|by rewrite E2|by apply H1| |by rewrite E1]. unfold ledger in *. by rewrite E3, H2, H3.
Qed.

(** ** Freezing *)

(** The counters that [freeze] compares: the writes the memory counted are those the
    pages were charged with. *)
Definition counters_agree (m : SimpleMemory) : Prop :=
  let st := mem_of m in let mig := migrator_ (ctl_of m) in
  numNVMWrites st = Mig.total_nvm_writes_ mig ∧ numDRAMWrites st = Mig.total_dram_writes_ mig ∧
  numNVMWrites st + numDRAMWrites st = numATTWriteHits st + numATTWriteMisses st + ckDRAMWriteHits st.

(** An epoch is closed and its checkpoint is about to begin, with no write under way. *)
Record closing (m : SimpleMemory) (P : PMem) : Prop := {
  cl_serves : serves m P;
  cl_phase : p_phase P = Migrated;
  cl_busy : isBusy m = true;
  cl_event : unfreezeEvent m = None;
  cl_counters : counters_agree m;
  cl_schedule : scheduled (curTick m - 1) m;
  cl_drained : to_write m = 0%nat;
}.

(** The checkpoint has begun with [n] blocks to write and [b] bytes moved. *)
Record begun (n : nat) (b : Z) (m m' : SimpleMemory) (P : PMem) : Prop := {
  bg_serves : serves m' (if (n =? 0)%nat then p_finish (p_begin c P) else p_begin c P);
  bg_event : unfreezeEvent m' = if (n =? 0)%nat then None else Some (curTick m + latency (mem_of m));
  bg_schedule : scheduled (curTick m + latency (mem_of m)) m';
  bg_blocks : (to_write m' + ending (curTick m + latency (mem_of m)) m')%nat = n;
  bg_balance : balance m' = u64 (balance m + b);
  bg_bytes : bytesChannel m' = bytesChannel m + b;
  bg_start : ckptStart m' = ckptStart m;
  bg_open : isBusy m' = false ∧ retryReq m' = false;
  bg_sent : sent m' = sent m ++ (if retryReq m then [SentRetry] else []);
  bg_list : ckpt (sys m') = [];
  bg_run : ∃ s, ran m (BeginCheckpointing PfArg) s ∧ n = length (ckpt s) ∧ b = SumBusUtil false (sel PfArg (profs s));
  bg_rest : releaseEvent m' = releaseEvent m ∧ freezeEvent m' = freezeEvent m ∧ profBase m' = profBase m ∧
    waitStart m' = waitStart m ∧ curTick m' = curTick m ∧ latency (mem_of m') = latency (mem_of m);
}.

Lemma idle_flying t d : Banks.idle_by (t - 1) d → Banks.idle_by t d ∧ Banks.flying t d = 0%nat.
Proof.
  unfold Banks.idle_by, Banks.flying, Banks.tally. induction 1 as [|b l Hb Hl IH]; [done|]. destruct IH as [H1 H2].
  cbn [sum_list_with]. cbn beta in Hb. unfold Banks.ends_at at 1. destruct (Z.eqb_spec (Banks.busy_time_ b) t); [lia|].
  rewrite Forall_cons. split_and!; [lia|done|lia].
Qed.

Lemma wp_freeze_stats (Q : unit → SimpleMemory → Prop) m P : counters_agree m → serves m P →
  (∀ m', serves m' P → sys m' = sys m → control m' = control m → Q tt m') → wp freeze_stats Q m.
Proof.
  intros (E1 & E2 & E3) Hs HQ. unfold freeze_stats. wp_steps. apply wp_assert; [by apply Z.eqb_eq|]. wp_step.
  apply wp_assert; [by apply Z.eqb_eq|]. wp_step. apply wp_assert; [by apply Z.eqb_eq|]. wp_steps.
  apply HQ; [by destruct Hs|done|done].
Qed.

(** The first half of [freeze]: the blocks of the checkpoint are with the banks. *)
Record listed (n : nat) (b : Z) (m m' : SimpleMemory) (P : PMem) : Prop := {
  li_serves : serves m' (p_begin c P);
  li_schedule : scheduled (curTick m) m';
  li_ending : ending (curTick m) m' = 0%nat;
  li_blocks : to_write m' = n;
  li_latency : latency (mem_of m') = latency (mem_of m);
  li_list : ckpt (sys m') = [];
  li_control : control m' = control (set_bytesChannel (bytesChannel m + b) m);
  li_run : ∃ s, ran m (BeginCheckpointing PfArg) s ∧ n = length (ckpt s) ∧ b = SumBusUtil false (sel PfArg (profs s));
}.

Lemma wp_begin_push (k : M SimpleMemory unit) (Q : unit → SimpleMemory → Prop) m P : serves m P →
  p_phase P = Migrated → scheduled (curTick m - 1) m → to_write m = 0%nat → (∀ n b m', listed n b m m' P → wp k Q m') →
  wp (new_pf ;; on_sys (BeginCheckpointing PfArg) ;; count_bytes ;; on_sys push_blocks ;; k) Q m.
Proof.
  intros Hs Hph Hsc Hdr HQ. set (w := frame (mem_of m)). unfold new_pf. wp_steps. set (m1 := set_sys _ m).
  assert (sm_ok c Hc Hm w m1 P) as [Hi1 _] by (apply (fresh_ok c Hc Hm w m m1 P Hs); done).
  apply wp_zoom.
  destruct (proj1 (wp_ok _ _ _) (wp_begin c Hc (MemStoreLaws0 := laws_at w) (sys m1) P Hi1 Hph)) as ([] & s2 & Erun & Hi2 & Hps).
  eapply wp_run; [exact Erun|]. unfold count_bytes. wp_steps. set (m2 := set_bytesInterChannel _ _). apply wp_zoom.
  destruct (implements_mem c Hc Hm w _ _ Hi2) as [Hok2 Hf2].
  change (sys m2) with s2. eapply (wp_push_blocks w); [done|]. intros d [Hd1 Hd2 Hd3 Hd4 Hd5 Hd6].
  destruct (scheduled_frame (curTick m - 1) m m2 Hf2) as (H1 & H2 & _). destruct (H1 Hsc) as [Hid Hsz].
  destruct (idle_flying _ _ Hid) as [Hid' Hfl]. change (mem_of m2) with (store s2) in *.
  eapply (HQ (length (ckpt s2))). split; try done.
  - split; [|apply Hs]. apply (reframe w s2); [done|]. destruct Hok2. split; try done. cbn. congruence.
  - split; [by apply Hd4|]. cbn. by rewrite Hd6.
  - unfold ending. cbn. by rewrite Hd5.
  - unfold to_write in *. cbn. rewrite Hd3. change (mem_of m2) with (store s2) in *. lia.
  - cbn. by injection Hf2.
  - exists s2. split; [|done]. by exists (sys m1).
Qed.

(** The state before the last step of [freeze]. *)
Record written (n : nat) (b : Z) (m m' : SimpleMemory) (P : PMem) : Prop := {
  wr_serves : serves m' (p_begin c P);
  wr_event : unfreezeEvent m' = None;
  wr_schedule : scheduled (curTick m + latency (mem_of m)) m';
  wr_blocks : n = (to_write m' + ending (curTick m + latency (mem_of m)) m')%nat;
  wr_balance : balance m' = u64 (balance m + b);
  wr_bytes : bytesChannel m' = bytesChannel m + b;
  wr_start : ckptStart m' = ckptStart m;
  wr_tick : curTick m' = curTick m;
  wr_open : isBusy m' = false;
  wr_retry : retryReq m' = retryReq m;
  wr_sent : sent m' = sent m;
  wr_list : ckpt (sys m') = [];
  wr_run : ∃ s, ran m (BeginCheckpointing PfArg) s ∧ n = length (ckpt s) ∧ b = SumBusUtil false (sel PfArg (profs s));
  wr_rest : releaseEvent m' = releaseEvent m ∧ freezeEvent m' = freezeEvent m ∧ profBase m' = profBase m ∧
    waitStart m' = waitStart m ∧ latency (mem_of m') = latency (mem_of m);
}.

Definition retried (m : SimpleMemory) : SimpleMemory :=
  if retryReq m then set_sent (sent m ++ [SentRetry]) (set_retryReq false m) else m.

Lemma wp_retry (Q : unit → SimpleMemory → Prop) m : Q tt (retried m) →
  wp (m ← get; if retryReq m then modify (set_retryReq false) ;; sendRetry else mret tt) Q m.
Proof. intros HQ. wp_steps. unfold retried in HQ. destruct (retryReq m); unfold sendRetry; by wp_steps. Qed.

(** What is left of [begun] once the retry is sent. *)
Lemma begun_retried n b m m1 P : written n b m m1 P →
  (∀ m2 P2, serves m2 P2 → unfreezeEvent m2 = (if (n =? 0)%nat then None else Some (curTick m + latency (mem_of m))) →
     P2 = (if (n =? 0)%nat then p_finish (p_begin c P) else p_begin c P) → frame (mem_of m2) = frame (mem_of m1) →
     ckpt (sys m2) = ckpt (sys m1) → control m2 = control (set_unfreezeEvent (unfreezeEvent m2) m1) → begun n b m (retried m2) P).
Proof.
  intros [H1 H2 H3 H4 H5 H6 H7 H8 H9 H10 H11 H12 H13 H14] m2 P2 Hs He -> Hf Hck Ec.
  destruct (scheduled_frame (curTick m + latency (mem_of m)) m1 m2 Hf) as (G1 & G2 & G3). rewrite <- G2, <- G3 in H4.
  unfold control in Ec. injection Ec as E1 E2 E3 E4 E5 E6 E7 E8 E9 E10 E11 E12 E13 E14 E15 E16 E17 E18 E19.
  assert (sys (retried m2) = sys m2 ∧ range (retried m2) = range m2) as [Es Er] by (unfold retried; by destruct (retryReq m2)).
  assert (mem_of (retried m2) = mem_of m2) as Em by (unfold mem_of; by rewrite Es).
  assert (balance m2 = balance m1) as Eb by (unfold balance; congruence). rewrite H10 in E4. rewrite H11 in E16.
  split.
  - destruct Hs as [Hi Hr]. split; rewrite ?Em, ?Es, ?Er; done.
  - unfold retried. by destruct (retryReq m2).
  - destruct (G1 H3). split; by rewrite Em.
  - unfold to_write, ending in *. by rewrite Em.
  - rewrite <- H5, <- Eb. unfold retried. by destruct (retryReq m2).
  - rewrite <- H6, <- E17. unfold retried. by destruct (retryReq m2).
  - rewrite <- H7, <- E3. unfold retried. by destruct (retryReq m2).
  - unfold retried. destruct (retryReq m2) eqn:Hr; cbn; split; congruence.
  - rewrite <- E16, <- E4. unfold retried. destruct (retryReq m2); by rewrite ?app_nil_r.
  - by rewrite Es, Hck.
  - done.
  - destruct H14 as (F1 & F2 & F3 & F4 & F5). injection Hf as _ Hla. rewrite Em. unfold retried. destruct (retryReq m2); cbn; split_and!; congruence.
Qed.

Lemma wp_freeze_end n b m m' P : 0 ≤ curTick m → 0 < latency (mem_of m) → written n b m m' P →
  wp ((if negb ((if (n =? 0)%nat then 0 else curTick m + latency (mem_of m)) =? 0)
       then schedule unfreezeEvent set_unfreezeEvent (if (n =? 0)%nat then 0 else curTick m + latency (mem_of m))
       else on_sys FinishCheckpointing) ;;
      m ← get; if retryReq m then modify (set_retryReq false) ;; sendRetry else mret tt)
    (λ _ m'', ∃ n b, begun n b m m'' P) m'.
Proof.
  intros Hnow Hlat W. wp_step.
  destruct (Nat.eqb_spec n 0) as [E|E].
  - rewrite Z.eqb_refl. cbn [negb]. apply (wp_finish_mem _ m' (p_begin c P)); [apply W|done|]. intros s m1 Hs Hf Ek.
    apply wp_retry. exists n, b. eapply (begun_retried n b m m'); [done|exact Hs|..]; rewrite ?(proj2 (Nat.eqb_eq n 0) E); try done.
    apply W.
  - destruct (Z.eqb_spec (curTick m + latency (mem_of m)) 0); [lia|]. cbn [negb]. apply wp_schedule; [apply W|rewrite (wr_tick _ _ _ _ _ W); lia|].
    apply wp_retry. exists n, b. eapply (begun_retried n b m m'); [done|by destruct (wr_serves _ _ _ _ _ W)|..];
      by rewrite ?(proj2 (Nat.eqb_neq n 0) E).
Qed.

Lemma balance_bytes n u b : u64 (n + b - u64 u) = u64 (u64 (n - u) + b).
Proof. unfold u64. rewrite Zminus_mod_idemp_r, Zplus_mod_idemp_l. f_equal. lia. Qed.

Lemma wp_freeze m P : closing m P → 0 ≤ curTick m → curTick m + latency (mem_of m) < 2 ^ 64 - 1 →
  wp freeze (λ _ m', ∃ n b, begun n b m m' P) m.
Proof.
  intros [Hs Hph Hbusy He Hco [Hid Hsz] Hdr] Hnow Hmax. unfold freeze. wp_steps. apply wp_assert; [done|].
  wp_steps. apply (wp_freeze_stats _ _ P); [done|by destruct Hs|]. intros m1 Hs1 Es1 Ec1.
  unfold control in Ec1. injection Ec1 as E1 E2 E3 E4 E5 E6 E7 E8 E9 E10 E11 E12 E13 E14 E15 E16 E17 E18 E19 E20.
  change (sys (set_isBusy false m)) with (sys m) in Es1. assert (mem_of m1 = mem_of m) as Em by (unfold mem_of; by rewrite Es1).
  apply (wp_begin_push _ _ m1 P); [done|done|by split; rewrite Em, ?E12|unfold to_write; by rewrite Em|].
  intros n b m2 [Hs2 Hsc2 Hen2 Hn2 Hlat2 Hl2 Hc2 Hrun].
  unfold control in Hc2. injection Hc2 as F1 F2 F3 F4 F5 F6 F7 F8 F9 F10 F11 F12 F13 F14 F15 F16 F17 F18 F19 F20.
  wp_step. apply (wp_issue_writes _ _ m2 (p_begin c P)); [done|by rewrite F12|by rewrite F12, E12|by rewrite F12, E12, Hlat2, Em|].
  intros m3 Hs3 [Hsch Hsp Hbu Hbc Hla Hck Hpf Hct] Hz Hnz.
  unfold control in Hct. injection Hct as G1 G2 G3 G4 G5 G6 G7 G8 G9 G10 G11 G12 G13 G14 G15 G16 G17 G18 G19.
  rewrite F12, Hen2, Z.mul_0_r, Z.add_0_r, F19, E19 in Hbu. rewrite F12, E12, Hlat2, Em in Hsch, Hsp, Hz |- *.
  rewrite Hn2 in *. apply (wp_freeze_end n b); [done|apply (serves_latency _ _ Hs)|]. split; try congruence.
  - unfold balance. rewrite G18, F18, E18, Hbu. apply balance_bytes.
  - unfold ran in *. rewrite Es1, E14 in Hrun. exact Hrun.
  - split_and!; congruence.
Qed.

End Epoch.
