(* ===== verification/TablesCorrect.v ===== *)
(** What the tables and buffers of the controller guarantee one by one: the queues, the
    block table, the version buffers, the page table and the banks. Each theorem is
    followed by an instance of it. *)

From Stdlib Require Import QArith Sorting.Sorted.
From S2P Require Import Prelude Profiler IndexQueue StdAlgo MigrationSpec ControllerInit.
From S2P Require AddrTransTable VersionBuffer MigrationController DRAMBanks.
#[global] Open Scope Z_scope.

Module ATT := AddrTransTable.
Module VB := VersionBuffer.
Module Mig := MigrationController.
Module Banks := DRAMBanks.

Definition ps0 : Profs := init_Profs (new_Profiler 6 7).
Definition entry0 : ATT.ATTEntry := ATT.MkATTEntry 0 0 null_node ATT.FREE 0 0.

(** ** Queues *)

Section Queue.
Context `{IndexArray A R}.
Implicit Types (a : A) (q : IndexQueue) (l : list Z).

Fixpoint pop_all (n : nat) : M (A * IndexQueue) (list Z) :=
  match n with O => mret [] | S n' => x ← PopFront; r ← pop_all n'; mret (x :: r) end.

Lemma wp_push_all l l0 a q : is_queue a q l0 → NoDup (l0 ++ l) → (∀ i, i ∈ l → node_at a i = Some null_node) →
  wp (for_each l PushBack) (λ _ s, is_queue s.1 s.2 (l0 ++ l)) (a, q).
Proof.
  revert l0 a q. induction l as [|i l IH]; intros l0 a q Hq Hnd Hn; cbn [for_each].
  { wp_step. by rewrite app_nil_r. }
  assert (NoDup ((l0 ++ [i]) ++ l)) as Hnd' by (by rewrite <- app_assoc).
  pose proof (proj1 (NoDup_app _ _) Hnd) as (_ & Hd & [Hi _]%NoDup_cons). wp_step.
  eapply wp_PushBack; [done|set_solver|apply Hn; set_solver|]. intros a' q' Hq' [_ Ho].
  rewrite (cons_middle i l0 l). replace (l0 ++ [i] ++ l) with ((l0 ++ [i]) ++ l) by (by rewrite <- app_assoc).
  apply IH; [done|done|]. intros j Hj. rewrite Ho; [apply Hn; set_solver|].
  apply NoDup_app in Hnd' as (_ & Hd' & _). intros Hj'. by apply (Hd' j).
Qed.

Lemma wp_pop_all l a q : is_queue a q l → wp (pop_all (length l)) (λ r s, r = l ∧ is_queue s.1 s.2 []) (a, q).
Proof.
  revert a q. induction l as [|i l IH]; intros a q Hq; cbn [length pop_all]; wp_step; [done|].
  eapply wp_PopFront; [done|]. intros a' q' Hq' _ _. wp_step.
  eapply wp_mono; [by apply IH|]. intros r s [-> Hs]. by wp_step.
Qed.

(** C23: The queue is first in, first out: elements pushed at the back come out at the
    front in the same order, after those that were there, and leave the queue empty. *)
Theorem queue_fifo a q l0 l : is_queue a q l0 → NoDup (l0 ++ l) → (∀ i, i ∈ l → node_at a i = Some null_node) →
  ∃ a' q', (for_each l PushBack ;; pop_all (length (l0 ++ l))) (a, q) = Ok (l0 ++ l, (a', q')) ∧ is_queue a' q' [].
Proof.
  intros Hq Hnd Hn.
  assert (wp (for_each l PushBack ;; pop_all (length (l0 ++ l))) (λ r s, r = l0 ++ l ∧ is_queue s.1 s.2 []) (a, q)) as Hw.
  { wp_step. eapply wp_mono; [by apply wp_push_all|]. intros [] [a' q'] Hq'. by apply wp_pop_all. }
  apply wp_ok in Hw as (r & [a' q'] & E & -> & Hq'). by exists a', q'.
Qed.

(** An element is moved from anywhere in the queue to its back: the
    order of the others is kept and no node outside the queue is written. *)
Theorem queue_touch a q l1 i l2 : is_queue a q (l1 ++ i :: l2) →
  ∃ a' q', (Remove i ;; PushBack i) (a, q) = Ok (tt, (a', q')) ∧ is_queue a' q' (l1 ++ l2 ++ [i]) ∧
    ∀ j, j ∉ l1 ++ i :: l2 → node_at a' j = node_at a j.
Proof.
  intros Hq. pose proof (proj1 Hq) as Hnd.
  assert (wp (Remove i ;; PushBack i) (λ _ s, is_queue s.1 s.2 (l1 ++ l2 ++ [i]) ∧
    ∀ j, j ∉ l1 ++ i :: l2 → node_at s.1 j = node_at a j) (a, q)) as Hw.
  { wp_step. eapply wp_Remove; [done|]. intros a1 q1 Hq1 Hi [_ Ho1].
    assert (i ∉ l1 ++ l2) by (apply NoDup_app in Hnd as (_ & Hd & [? _]%NoDup_cons); set_solver).
    eapply wp_PushBack; [done|done|done|]. intros a2 q2 Hq2 [_ Ho2]. rewrite <- app_assoc in Hq2.
    split; [done|]. intros j Hj. cbn [fst]. rewrite Ho2, Ho1 by set_solver. done. }
  apply wp_ok in Hw as ([] & [a' q'] & E & Hq' & Hf). by exists a', q'.
Qed.

End Queue.

Definition nodes0 : list ATT.ATTEntry := replicate 4 entry0.

Lemma queue_fifo_witness :
  ∃ a' q', (for_each [2; 0; 3] PushBack ;; pop_all 3) (nodes0, new_IndexQueue) = Ok ([2; 0; 3], (a', q')) ∧
    is_queue a' q' [].
Proof.
  apply (queue_fifo nodes0 new_IndexQueue [] [2; 0; 3]); [apply is_queue_new|by apply (bool_decide_unpack _)|].
  intros i Hi. repeat (apply elem_of_cons in Hi as [-> |Hi]; [done|]). by apply elem_of_nil in Hi.
Defined.

Definition queue0 : list ATT.ATTEntry * IndexQueue :=
  match for_each [2; 0; 3] PushBack (nodes0, new_IndexQueue) with Ok (_, s) => s | Err _ => (nodes0, new_IndexQueue) end.

Lemma queue_touch_witness :
  ∃ a' q', (Remove 0 ;; PushBack 0) (queue0.1, queue0.2) = Ok (tt, (a', q')) ∧ is_queue a' q' ([2] ++ [3] ++ [0]) ∧
    ∀ j, j ∉ [2] ++ 0 :: [3] → node_at a' j = node_at queue0.1 j.
Proof.
  apply (queue_touch queue0.1 queue0.2 [2] 0 [3]). split; [by apply (bool_decide_unpack _)|]. by vm_compute.
Defined.

(** ** The block table *)

Section Table.
Implicit Types (t : ATT.AddrTransTable) (a : ATT.AbsATT).

(** C22: A block that is set up is found: [Setup] takes a free entry, [Lookup] then
    returns that entry with the tag, base and state given, every other tag is looked up
    as before, and the table stays well-formed. *)
Theorem table_setup_lookup t a ps tag base s pf : ATT.att_rep t a → ATT.qof a ATT.FREE ≠ [] → s ≠ ATT.FREE →
  (∀ j e, ATT.a_live a !! j = Some e → ATT.phy_tag e ≠ tag) →
  ∃ i t1 ps1 t2 ps2 a2 e, ATT.Setup tag base s pf (t, ps) = Ok (i, (t1, ps1)) ∧
    ATT.Lookup tag pf (t1, ps1) = Ok (i, (t2, ps2)) ∧ ATT.att_rep t2 a2 ∧
    ATT.a_live a2 !! i = Some e ∧ ATT.phy_tag e = tag ∧ ATT.mach_base e = base ∧ ATT.state e = s ∧
    ∀ tag', tag' ≠ tag → ATT.tag_index_ t2 !! tag' = ATT.tag_index_ t !! tag'.
Proof.
  intros Hrep Hfree Hs Hnew. destruct (ATT.qof a ATT.FREE) as [|i l] eqn:Hq; [done|]. clear Hfree.
  assert (i ∈ ATT.qof a ATT.FREE) as Hif by (rewrite Hq; set_solver).
  assert (0 ≤ i < ATT.length_ t) as Hi.
  { apply (ATT.r_cover _ _ Hrep). exists (ATT.StateIndex ATT.FREE). split; [done|]. exact Hif. }
  destruct (ATT.rep_entry _ _ Hrep _ Hi) as (e0 & _ & He0).
  assert (ATT.a_live a !! i = None) as Hnone.
  { pose proof (ATT.r_live _ _ Hrep i) as Hl. by rewrite decide_True in Hl. }
  set (e := ATT.set_mach_base base (ATT.set_phy_tag tag (ATT.set_state s (ATT.strip e0)))) in *.
  assert (wp (ATT.Setup tag base s pf) (λ j s1, j = i ∧ ATT.att_rep s1.1 (ATT.abs_setup i e a)) (t, ps)) as H1.
  { eapply ATT.wp_att_Setup; [done|done|done|done|done|]. intros t1 ps1 H1 _ _. done. }
  apply wp_ok in H1 as (j & [t1 ps1] & E1 & -> & H1). cbn [fst] in H1.
  set (a1 := ATT.abs_setup i e a) in *.
  assert (ATT.a_live a1 !! i = Some e) as He by apply lookup_insert_eq.
  assert (wp (ATT.Lookup tag pf) (λ j s2, j = i ∧ ATT.att_rep s2.1 (ATT.abs_touch i e a1)) (t1, ps1)) as H2.
  { change tag with (ATT.phy_tag e). eapply ATT.wp_Lookup_hit; [done|done|]. intros t2 ps2 H2 _ _. done. }
  apply wp_ok in H2 as (j & [t2 ps2] & E2 & -> & H2). cbn [fst] in H2.
  exists i, t1, ps1, t2, ps2, (ATT.abs_touch i e a1), e. split_and!; try done.
  intros tag' Hne. apply option_eq. intros j. rewrite (ATT.r_tag _ _ H2), (ATT.r_tag _ _ Hrep).
  cbn. split; intros (e' & He' & Ht); exists e'; (split; [|done]).
  - rewrite lookup_insert_ne in He'; [done|]. intros <-. rewrite lookup_insert_eq in He'. by injection He' as <-.
  - rewrite lookup_insert_ne; [done|]. intros <-. congruence.
Qed.

(** A freed entry is forgotten: after [ShiftState] to FREE its tag is not found and
    the entry is the last to be reused, and every other tag is looked up as before. *)
Theorem table_free_forgets t a ps i e pf : ATT.att_rep t a → ATT.a_live a !! i = Some e →
  ∃ t1 ps1 ps2 a1, ATT.ShiftState i ATT.FREE pf (t, ps) = Ok (tt, (t1, ps1)) ∧
    ATT.Lookup (ATT.phy_tag e) pf (t1, ps1) = Ok (- EINVAL, (t1, ps2)) ∧ ATT.att_rep t1 a1 ∧
    (∃ l, ATT.qof a1 ATT.FREE = l ++ [i]) ∧
    ∀ tag, tag ≠ ATT.phy_tag e → ATT.tag_index_ t1 !! tag = ATT.tag_index_ t !! tag.
Proof.
  intros Hrep He. destruct (ATT.r_state _ _ Hrep _ _ He) as [Hst Hq].
  assert (ATT.a_live (ATT.abs_shift i e ATT.FREE a) = delete i (ATT.a_live a)) as El by done.
  assert (wp (ATT.ShiftState i ATT.FREE pf) (λ _ s1, ATT.att_rep s1.1 (ATT.abs_shift i e ATT.FREE a)) (t, ps)) as H1.
  { eapply ATT.wp_att_ShiftState; [done|done|done|]. intros t1 ps1 H1 _ _. done. }
  apply wp_ok in H1 as ([] & [t1 ps1] & E1 & H1). cbn [fst] in H1.
  assert (wp (ATT.Lookup (ATT.phy_tag e) pf) (λ j s2, j = - EINVAL ∧ s2.1 = t1) (t1, ps1)) as H2.
  { eapply ATT.wp_Lookup_miss; [exact H1| |done]. rewrite El. intros j e' [Hne Hj]%lookup_delete_Some Ht.
    apply Hne. by eapply (ATT.rep_tag_inj t a Hrep i j e e'). }
  apply wp_ok in H2 as (j & [t2 ps2] & E2 & -> & E3). cbn [fst] in E3. subst t2.
  exists t1, ps1, ps2, (ATT.abs_shift i e ATT.FREE a). split_and!; [done|done|done|..].
  - eexists. unfold ATT.qof, ATT.abs_shift, ATT.qmove. cbn [ATT.a_q]. by rewrite ATT.qset_eq.
  - intros tag Hne. apply option_eq. intros j. rewrite (ATT.r_tag _ _ H1), (ATT.r_tag _ _ Hrep), El.
    split; intros (e' & He' & Ht); exists e'; (split; [|done]).
    + by apply lookup_delete_Some in He' as [_ ?].
    + rewrite lookup_delete_ne; [done|]. intros <-. congruence.
Qed.

End Table.

Lemma table0 : ∃ t, ATT.new_AddrTransTable 4 6 (λ _, entry0) tt = Ok (t, tt) ∧ ATT.att_rep t (ATT.abs_init 4 (λ _, entry0)).
Proof.
  pose proof (ATT.wp_new_AddrTransTable 4 6 (λ _, entry0) ltac:(lia)) as (t & [] & E & H & _)%wp_ok. by exists t.
Qed.

Lemma table_setup_lookup_witness :
  ∃ t i t1 ps1 t2 ps2 a2 e, ATT.Setup 70 512 ATT.DIRTY PfArg (t, ps0) = Ok (i, (t1, ps1)) ∧
    ATT.Lookup 70 PfArg (t1, ps1) = Ok (i, (t2, ps2)) ∧ ATT.att_rep t2 a2 ∧
    ATT.a_live a2 !! i = Some e ∧ ATT.phy_tag e = 70 ∧ ATT.mach_base e = 512 ∧ ATT.state e = ATT.DIRTY ∧
    ∀ tag', tag' ≠ 70 → ATT.tag_index_ t2 !! tag' = ATT.tag_index_ t !! tag'.
Proof.
  destruct table0 as (t & _ & Hrep). exists t.
  apply (table_setup_lookup t (ATT.abs_init 4 (λ _, entry0)) ps0 70 512 ATT.DIRTY PfArg); [done|done|done|].
  intros j e He. cbn in He. by rewrite lookup_empty in He.
Defined.

(** A table with one entry in use. *)
Lemma table1 : ∃ t a i e, ATT.att_rep t a ∧ ATT.a_live a !! i = Some e ∧ ATT.phy_tag e = 70.
Proof.
  destruct table0 as (t & _ & Hrep).
  assert (wp (ATT.Setup 70 512 ATT.DIRTY PfArg) (λ _ s, ∃ a i e, ATT.att_rep s.1 a ∧ ATT.a_live a !! i = Some e ∧
    ATT.phy_tag e = 70) (t, ps0)) as ([] & s & E & a & i & e & H)%wp_ok.
  { eapply (ATT.wp_att_Setup t (ATT.abs_init 4 (λ _, entry0)) _ 0 [1; 2; 3] (ATT.strip (ATT.new_ATTEntry entry0)));
      [done|done|done|done|intros j e He; cbn in He; by rewrite lookup_empty in He|].
    intros t1 ps1 H1 _ _. do 3 eexists. split; [exact H1|]. split; [apply lookup_insert_eq|done]. }
  all: by exists s.1, a, i, e.
Qed.

Lemma table_free_forgets_witness :
  ∃ t i t1 ps1 ps2 a1, ATT.ShiftState i ATT.FREE PfArg (t, ps0) = Ok (tt, (t1, ps1)) ∧
    ATT.Lookup 70 PfArg (t1, ps1) = Ok (- EINVAL, (t1, ps2)) ∧ ATT.att_rep t1 a1 ∧
    (∃ l, ATT.qof a1 ATT.FREE = l ++ [i]) ∧
    ∀ tag, tag ≠ 70 → ATT.tag_index_ t1 !! tag = ATT.tag_index_ t !! tag.
Proof.
  destruct table1 as (t & a & i & e & Hrep & He & <-). exists t, i.
  exact (table_free_forgets t a ps0 i e PfArg Hrep He).
Defined.

(** ** Version buffers *)

Section Buffer.
Implicit Types v : VB.VersionBuffer.

Fixpoint alloc_all (n : nat) (pf : pfref) : PM VB.VersionBuffer (list Z) :=
  match n with O => mret [] | S n' => x ← VB.SlotAlloc pf; r ← alloc_all n' pf; mret (x :: r) end.

Lemma wp_alloc_all n v ps pf : VB.vb_ok v → (n ≤ size (VB.vset v VB.FREE))%nat →
  wp (alloc_all n pf) (λ l s, VB.vb_ok s.1 ∧ VB.same_geom v s.1 ∧
    ∃ ids, l = VB.slot_addr v <$> ids ∧ NoDup ids ∧ length ids = n ∧ (∀ i, i ∈ ids → i ∈ VB.vset v VB.FREE) ∧
      VB.vset s.1 VB.FREE = VB.vset v VB.FREE ∖ list_to_set ids) (v, ps).
Proof.
  revert v ps. induction n as [|n IH]; intros v ps Hok Hn; cbn [alloc_all]; wp_step.
  { split; [done|]. split; [done|]. exists []. cbn. split_and!; [done|constructor|done|set_solver|set_solver]. }
  pose proof (VB.v_sets _ Hok) as Hl.
  apply VB.wp_SlotAlloc; [done|intros E; rewrite E, size_empty in Hn; lia|]. intros i ps' Hi _ _.
  pose proof (VB.vmove_ok i VB.FREE VB.IN_USE v Hok ltac:(done) Hi) as Hok1.
  assert (VB.vset (VB.vmove i VB.FREE VB.IN_USE v) VB.FREE = VB.vset v VB.FREE ∖ {[i]}) as Ef by (by apply VB.vset_vmove_from).
  wp_step. eapply wp_mono; [apply IH; [done|]|].
  { rewrite Ef, size_difference, size_singleton by set_solver. lia. }
  intros l [v2 ps2] (Hok2 & Hg & ids & -> & Hnd & Hlen & Hin & Ef2). cbn [fst] in *. wp_step. split; [done|].
  split; [done|]. exists (i :: ids). rewrite Ef in Hin, Ef2. split_and!.
  - rewrite fmap_cons. f_equal.
  - constructor; [|done]. intros Hi'%Hin. set_solver.
  - simpl. lia.
  - set_solver.
  - cbn [fst]. rewrite Ef2. set_solver.
Qed.

(** C24: Slots are never handed out twice: as many allocations as there are free slots
    succeed and return distinct addresses of slots that were free, each inside the
    buffer and aligned to a block; with no free slot left the assertion fails. *)
Theorem slots_distinct n v ps pf : VB.vb_ok v → (n ≤ size (VB.vset v VB.FREE))%nat →
  (∃ l v' ps', alloc_all n pf (v, ps) = Ok (l, (v', ps')) ∧ VB.vb_ok v' ∧ NoDup l ∧ length l = n ∧
    Forall (λ x, ∃ i, i ∈ VB.vset v VB.FREE ∧ x = VB.addr_base_ v + i * 2 ^ VB.block_bits_ v ∧
      VB.addr_base_ v ≤ x ∧ x + 2 ^ VB.block_bits_ v ≤ VB.addr_base_ v + VB.length_ v * 2 ^ VB.block_bits_ v) l) ∧
  (VB.vset v VB.FREE = ∅ → VB.SlotAlloc pf (v, ps) = Err (EAssert "VersionBuffer::SlotAlloc")).
Proof.
  intros Hok Hn. split.
  - pose proof (wp_alloc_all n v ps pf Hok Hn) as (l & [v' ps'] & E & Hok' & _ & ids & -> & Hnd & Hlen & Hin & _)%wp_ok.
    exists (VB.slot_addr v <$> ids), v', ps'. split_and!; [done|done|..].
    + apply NoDup_fmap_2; [|done]. intros i j. apply VB.slot_addr_inj, (VB.v_geom _ Hok).
    + by rewrite length_fmap.
    + apply Forall_fmap, Forall_forall. intros i Hi. cbn. exists i. split; [by apply Hin|]. split; [done|].
      apply VB.slot_range; [apply (VB.v_geom _ Hok)|]. by eapply (VB.v_range _ Hok), Hin.
  - intros E. unfold VB.SlotAlloc, own, zoom, mbind, M_bind, get, assert_. cbn [fst snd].
    rewrite bool_decide_eq_false_2; [done|]. naive_solver.
Qed.

(** C25: A backup outlives the checkpoint it belongs to: a slot allocated and backed up
    in BACKUP1 is kept by the next [ClearBackup] and free again only after the second;
    in between it cannot be allocated. *)
Theorem backup_cycle v ps pf : VB.vb_ok v → VB.vset v VB.FREE ≠ ∅ →
  ∃ i v1 ps1 v2 ps2 v3 ps3 v4 ps4, VB.SlotAlloc pf (v, ps) = Ok (VB.slot_addr v i, (v1, ps1)) ∧
    VB.SlotBackup (VB.slot_addr v i) VB.BACKUP1 pf (v1, ps1) = Ok (tt, (v2, ps2)) ∧
    VB.ClearBackup pf (v2, ps2) = Ok (tt, (v3, ps3)) ∧ VB.ClearBackup pf (v3, ps3) = Ok (tt, (v4, ps4)) ∧
    i ∈ VB.vset v VB.FREE ∧ i ∉ VB.vset v1 VB.FREE ∧ i ∉ VB.vset v2 VB.FREE ∧ i ∉ VB.vset v3 VB.FREE ∧
    i ∈ VB.vset v4 VB.FREE ∧ VB.vb_ok v4.
Proof.
  intros Hok Hne. pose proof (VB.v_sets _ Hok) as Hl.
  assert (wp (VB.SlotAlloc pf) (λ x s, ∃ i, x = VB.slot_addr v i ∧ i ∈ VB.vset v VB.FREE ∧
    s.1 = VB.vmove i VB.FREE VB.IN_USE v) (v, ps)) as (x & [v1 ps1] & E1 & i & -> & Hi & Ev1)%wp_ok.
  { apply VB.wp_SlotAlloc; [done|done|]. intros i ps' Hi _ _. by exists i. }
  cbn [fst] in Ev1. pose proof (VB.vmove_ok i VB.FREE VB.IN_USE v Hok ltac:(done) Hi) as Hok1. rewrite <- Ev1 in Hok1.
  assert (i ∈ VB.vset v1 VB.IN_USE) as Hu by (rewrite Ev1, VB.vset_vmove_to by done; set_solver).
  assert (wp (VB.SlotBackup (VB.slot_addr v1 i) VB.BACKUP1 pf)
    (λ _ s, s.1 = VB.vmove i VB.IN_USE VB.BACKUP1 v1) (v1, ps1)) as ([] & [v2 ps2] & E2 & Ev2)%wp_ok.
  { apply VB.wp_SlotBackup; [done|done|by right|done]. }
  assert (VB.slot_addr v1 i = VB.slot_addr v i) as Ea by (by rewrite Ev1). rewrite Ea in E2.
  cbn [fst] in Ev2. pose proof (VB.vmove_ok i VB.IN_USE VB.BACKUP1 v1 Hok1 ltac:(done) Hu) as Hok2. rewrite <- Ev2 in Hok2.
  assert (i ∈ VB.vset v2 VB.BACKUP1) as Hb1 by (rewrite Ev2, VB.vset_vmove_to by (done || apply (VB.v_sets _ Hok1)); set_solver).
  assert (wp (VB.ClearBackup pf) (λ _ s, s.1 = VB.vclear v2) (v2, ps2)) as ([] & [v3 ps3] & E3 & Ev3)%wp_ok
    by (by apply VB.wp_ClearBackup).
  cbn [fst] in Ev3. pose proof (VB.vclear_ok _ Hok2) as Hok3. rewrite <- Ev3 in Hok3.
  assert (i ∈ VB.vset v3 VB.BACKUP0) as Hb0 by (by rewrite Ev3, VB.vset_vclear by apply (VB.v_sets _ Hok2)).
  assert (wp (VB.ClearBackup pf) (λ _ s, s.1 = VB.vclear v3) (v3, ps3)) as ([] & [v4 ps4] & E4 & Ev4)%wp_ok
    by (by apply VB.wp_ClearBackup).
  cbn [fst] in Ev4. pose proof (VB.vclear_ok _ Hok3) as Hok4. rewrite <- Ev4 in Hok4.
  exists i, v1, ps1, v2, ps2, v3, ps3, v4, ps4. split_and!; try done.
  - intros Hf. by pose proof (VB.v_disj _ Hok1 _ _ _ Hu Hf).
  - intros Hf. by pose proof (VB.v_disj _ Hok2 _ _ _ Hb1 Hf).
  - intros Hf. by pose proof (VB.v_disj _ Hok3 _ _ _ Hb0 Hf).
  - rewrite Ev4, VB.vset_vclear by apply (VB.v_sets _ Hok3). set_solver.
Qed.

End Buffer.

Definition buffer0 : VB.VersionBuffer := VB.set_addr_base 4096 (VB.new_VersionBuffer 4 6).

Lemma buffer0_ok : VB.vb_ok buffer0.
Proof. apply VB.new_VersionBuffer_ok; lia. Qed.

Lemma slots_distinct_witness :
  (∃ l v' ps', alloc_all 4 PfArg (buffer0, ps0) = Ok (l, (v', ps')) ∧ VB.vb_ok v' ∧ NoDup l ∧ length l = 4%nat ∧
    Forall (λ x, ∃ i, i ∈ VB.vset buffer0 VB.FREE ∧ x = 4096 + i * 2 ^ 6 ∧ 4096 ≤ x ∧ x + 2 ^ 6 ≤ 4096 + 4 * 2 ^ 6) l) ∧
  (VB.vset buffer0 VB.FREE = ∅ → VB.SlotAlloc PfArg (buffer0, ps0) = Err (EAssert "VersionBuffer::SlotAlloc")).
Proof. apply (slots_distinct 4 buffer0 ps0 PfArg); [exact buffer0_ok|by vm_compute]. Defined.

Lemma backup_cycle_witness :
  ∃ i v1 ps1 v2 ps2 v3 ps3 v4 ps4, VB.SlotAlloc PfArg (buffer0, ps0) = Ok (VB.slot_addr buffer0 i, (v1, ps1)) ∧
    VB.SlotBackup (VB.slot_addr buffer0 i) VB.BACKUP1 PfArg (v1, ps1) = Ok (tt, (v2, ps2)) ∧
    VB.ClearBackup PfArg (v2, ps2) = Ok (tt, (v3, ps3)) ∧ VB.ClearBackup PfArg (v3, ps3) = Ok (tt, (v4, ps4)) ∧
    i ∈ VB.vset buffer0 VB.FREE ∧ i ∉ VB.vset v1 VB.FREE ∧ i ∉ VB.vset v2 VB.FREE ∧ i ∉ VB.vset v3 VB.FREE ∧
    i ∈ VB.vset v4 VB.FREE ∧ VB.vb_ok v4.
Proof. apply (backup_cycle buffer0 ps0 PfArg); [exact buffer0_ok|]. intros E%(f_equal size). by vm_compute in E. Defined.

(** ** The page table *)

Section Pages.
Context `{HO : HashOrder, HA : HeapAlgo}.
Implicit Types m : Mig.MigrationController.

(** C26: A page set up in the page table is found under every address of the page, with
    a slot of the page cache that no other page has, and freeing it restores the
    table. *)
Theorem page_setup_free m ps page s x pf : mig_ok m → Mig.entries_ m !! page = None → page_ok m page →
  Mig.num_entries m < Mig.ptt_capacity_ m → page ≤ x < page + 2 ^ Mig.page_bits_ m →
  ∃ m1 ps1 e ps2 m3 ps3, Mig.Setup page s pf (m, ps) = Ok (tt, (m1, ps1)) ∧
    Mig.LookupPage x pf (m1, ps1) = Ok (e, (m1, ps2)) ∧ Mig.state e = s ∧ Mig.mach_base e = page ∧
    0 ≤ Mig.index e < Mig.ptt_capacity_ m ∧
    (∀ p' e', Mig.entries_ m !! p' = Some e' → Mig.index e' ≠ Mig.index e) ∧
    Mig.Free page pf (m1, ps2) = Ok (tt, (m3, ps3)) ∧ Mig.entries_ m3 = Mig.entries_ m ∧ mig_ok m3.
Proof.
  intros Hok Hnone Hp Hcap Hx. pose proof (m_geom _ Hok) as Hg.
  assert (wp (Mig.Setup page s pf) (λ _ s1, ∃ slot, mig_ok s1.1 ∧ same_mgeom m s1.1 ∧
    Mig.entries_ s1.1 = <[page := Mig.MkPTTEntry s 0 0 slot page]> (Mig.entries_ m)) (m, ps))
    as ([] & [m1 ps1] & E1 & slot & Hok1 & Hg1 & Hent)%wp_ok.
  { apply wp_mig_Setup; [done..|]. intros m1 ps1 slot ? ? _ ? _. by exists slot. }
  cbn [fst] in *. set (e := Mig.MkPTTEntry s 0 0 slot page) in *.
  assert (Mig.entries_ m1 !! page = Some e) as He by (rewrite Hent; apply lookup_insert_eq).
  assert (Mig.PageAlign m1 x = page) as Ex.
  { rewrite (PageAlign_eq m1 x (m_geom _ Hok1)). destruct Hg1 as (_ & _ & -> & _), Hp as (Hal & H0 & _).
    apply Z.mod_divide in Hal as [q ->]; [|pose proof (mg_bits _ Hg); lia].
    replace (x mod 2 ^ Mig.page_bits_ m) with (x - q * 2 ^ Mig.page_bits_ m); [lia|].
    apply Z.mod_unique with q; lia. }
  assert (wp (Mig.LookupPage x pf) (λ r s2, r = e ∧ s2.1 = m1) (m1, ps1)) as (r & [m2 ps2] & E2 & -> & Em2)%wp_ok.
  { apply wp_LookupPage. intros ps2 _. by rewrite Ex, He. }
  cbn [fst] in Em2. subst m2.
  assert (wp (Mig.Free page pf) (λ _ s3, mig_ok s3.1 ∧ Mig.entries_ s3.1 = delete page (Mig.entries_ m1)) (m1, ps2))
    as ([] & [m3 ps3] & E3 & Hok3 & Hent3)%wp_ok.
  { eapply wp_Free; [done|done|]. intros m3 ps3 ? _ _ ? _. done. }
  destruct (m_page _ Hok1 _ _ He) as (_ & _ & Hi).
  assert (Mig.ptt_capacity_ m1 = Mig.ptt_capacity_ m) as Ec by apply Hg1. rewrite Ec in Hi.
  exists m1, ps1, e, ps2, m3, ps3. split_and!; try done; try apply Hi.
  - intros p' e' Hp' E. assert (p' = page) as ->; [|congruence]. eapply (m_inj _ Hok1); [|done|done].
    rewrite Hent. rewrite lookup_insert_ne; [done|]. intros <-. congruence.
  - cbn [fst] in Hent3. rewrite Hent3, Hent. by rewrite delete_insert_id.
Qed.

(** C27: At the end of an epoch [Clear] lists for the checkpoint exactly the blocks of
    the dirty pages, each once, marks every page clean and resets the statistics. *)
Theorem clear_lists_dirty m ps pf ckpt : mig_ok m →
  ∃ l m' ps', Mig.Clear pf ckpt (m, ps) = Ok (ckpt ++ l, (m', ps')) ∧ NoDup l ∧
    (∀ a, a ∈ l ↔ ∃ page e k, Mig.entries_ m !! page = Some e ∧ Mig.is_dirty (Mig.state e) = true ∧
       0 ≤ k < Mig.page_blocks_ m ∧ a = page + k * 2 ^ Mig.block_bits_ m) ∧
    Mig.entries_ m' = clear_entry <$> Mig.entries_ m ∧ Mig.num_dirty_entries m' = 0 ∧ mig_ok m'.
Proof.
  intros Hok. pose proof (m_geom _ Hok) as Hg.
  set (l := iter_order (Mig.iterations_ m) (Mig.entries_ m)).
  assert (l ≡ₚ map_to_list (Mig.entries_ m)) as Hl by apply iter_order_perm.
  assert (wp (Mig.Clear pf ckpt) (λ r s, r = ckpt ++ dirty_blocks m l ∧
    Mig.entries_ s.1 = clear_entry <$> Mig.entries_ m ∧ Mig.num_dirty_entries s.1 = 0 ∧ mig_ok s.1) (m, ps))
    as (r & [m' ps'] & E & -> & Hent & Hd & Hok')%wp_ok.
  { apply wp_Clear; [done|]. intros m' ps' Hok' _ _ _ Hent Hd _ _ _ _ _. done. }
  exists (dirty_blocks m l), m', ps'. split_and!; try done.
  - unfold dirty_blocks. apply NoDup_bind.
    + intros [p e] [p' e'] a Hin Hin'. rewrite Hl, elem_of_map_to_list in Hin, Hin'. cbn [fst snd].
      destruct (dirty_page e), (dirty_page e'); [|by intros _ ?%elem_of_nil|by intros ?%elem_of_nil..].
      unfold page_list. intros (k & -> & Hk%ATT.elem_of_zseq)%list_elem_of_fmap (k' & Ea & Hk'%ATT.elem_of_zseq)%list_elem_of_fmap.
      assert (p = p') as ->; [|naive_solver congruence].
      destruct (m_page _ Hok _ _ Hin) as ((Hal & _) & _), (m_page _ Hok _ _ Hin') as ((Hal' & _) & _).
      pose proof (page_blocks_mul _ Hg) as Hmul. pose proof (mg_bits _ Hg) as [Hb _].
      pose proof (pow2_pos _ Hb) as Hbs. set (B := 2 ^ Mig.block_bits_ m) in *. set (P := 2 ^ Mig.page_bits_ m) in *.
      apply Z.mod_divide in Hal as [q ->]; [|nia]. apply Z.mod_divide in Hal' as [q' ->]; [|nia].
      assert (q = q'); [|by subst]. nia.
    + intros [p e] _. cbn. destruct (dirty_page e); [|constructor]. apply page_list_NoDup, (mg_bits _ Hg).
    + rewrite Hl. apply NoDup_map_to_list.
  - intros a. unfold dirty_blocks. rewrite list_elem_of_bind. split.
    + intros ([p e] & Ha & Hin). rewrite Hl, elem_of_map_to_list in Hin. cbn [fst snd] in Ha.
      destruct (dirty_page e) eqn:Ed; [|by apply elem_of_nil in Ha].
      unfold page_list in Ha. apply list_elem_of_fmap in Ha as (k & -> & Hk%ATT.elem_of_zseq). by exists p, e, k.
    + intros (p & e & k & Hp & Ed & Hk & ->). exists (p, e). rewrite Hl, elem_of_map_to_list. split; [|done].
      cbn [fst snd]. unfold dirty_page. rewrite Ed. apply list_elem_of_fmap. exists k. by rewrite ATT.elem_of_zseq.
Qed.

(** All pages that were written, in the order in which they are considered. *)
Fixpoint extract_all (n : nat) (pf : pfref) : PM Mig.MigrationController (list Mig.NVMPageStats) :=
  match n with
  | O => mret []
  | S n' =>
      x ← Mig.ExtractNVMPage pf;
      match x with Some s => r ← extract_all n' pf; mret (s :: r) | None => mret [] end
  end.

(** C28: The pages to migrate to DRAM come hottest first: after [InputBlocks] has counted
    the written blocks, extracting pages lists every page of the heap once, in decreasing
    order of the share of its blocks that are dirty, and then reports that none is left. *)
Theorem extract_hottest_first m ps pf bs : heaps_ok m bs →
  ∃ l m' ps', extract_all (S (length (Mig.nvm_heap_ m))) pf (m, ps) = Ok (l, (m', ps')) ∧
    l ≡ₚ Mig.nvm_heap_ m ∧ NoDup (Mig.n_phy_addr <$> l) ∧
    StronglySorted (λ x y, (Mig.n_dirty_ratio y <= Mig.n_dirty_ratio x)%Q) l.
Proof.
  intros Hh. assert (wp (extract_all (S (length (Mig.nvm_heap_ m))) pf) (λ l _, l ≡ₚ Mig.nvm_heap_ m ∧
    StronglySorted (λ x y, (Mig.n_dirty_ratio y <= Mig.n_dirty_ratio x)%Q) l) (m, ps))
    as (l & [m' ps'] & E & Hp & Hs)%wp_ok.
  { remember (length (Mig.nvm_heap_ m)) as n eqn:Hn. revert m ps Hh Hn.
    induction n as [|n IH]; intros m ps Hh Hn; cbn [extract_all]; wp_step;
      (eapply wp_ExtractNVMPage; [exact Hh|intros E; rewrite E in *|intros s l m1 ps1 E Hmax _ _ Hl Hh1 _; rewrite E in *]);
      try discriminate.
    - wp_step. split; [done|constructor].
    - injection Hn as Hn. wp_step. eapply wp_mono.
      { apply IH; [done|]. by rewrite Hl. }
      intros r s2 [Hr Hsr]. wp_step. rewrite Hl in Hr. split; [by rewrite Hr|]. constructor; [done|].
      apply Forall_forall. intros y Hy. apply Hmax. by rewrite <- Hr. }
  exists l, m', ps'. split_and!; [done|done| |done]. rewrite Hp. apply (h_nvm_nodup _ _ Hh).
Qed.

End Pages.

#[local] Existing Instance list_HashOrder.
#[local] Existing Instance sorted_HeapAlgo.

Definition pages0 : Mig.MigrationController := Mig.new_MigrationController 6 7 8.

Lemma pages0_ok : mig_ok pages0.
Proof. refine (proj1 (new_mig_ok 6 7 8 _ _ _ _)); by vm_compute. Qed.

Lemma page_setup_free_witness :
  ∃ m1 ps1 e ps2 m3 ps3, Mig.Setup 256 Mig.DIRTY_DIRECT PfArg (pages0, ps0) = Ok (tt, (m1, ps1)) ∧
    Mig.LookupPage 300 PfArg (m1, ps1) = Ok (e, (m1, ps2)) ∧ Mig.state e = Mig.DIRTY_DIRECT ∧ Mig.mach_base e = 256 ∧
    0 ≤ Mig.index e < Mig.ptt_capacity_ pages0 ∧
    (∀ p' e', Mig.entries_ pages0 !! p' = Some e' → Mig.index e' ≠ Mig.index e) ∧
    Mig.Free 256 PfArg (m1, ps2) = Ok (tt, (m3, ps3)) ∧ Mig.entries_ m3 = Mig.entries_ pages0 ∧ mig_ok m3.
Proof.
  apply (page_setup_free pages0 ps0 256 Mig.DIRTY_DIRECT 300 PfArg); [exact pages0_ok|done|by vm_compute..].
Defined.

(** A dirty and a clean page of two blocks each. *)
Lemma two_pages : ∃ m ps, (Mig.Setup 256 Mig.DIRTY_DIRECT PfArg ;; Mig.Setup 512 Mig.CLEAN_STATIC PfArg) (pages0, ps0) = Ok (tt, (m, ps)) ∧
  mig_ok m ∧ Mig.page_blocks_ m = 2 ∧ Mig.block_bits_ m = 6 ∧
  ∃ i j, Mig.entries_ m = <[512 := Mig.MkPTTEntry Mig.CLEAN_STATIC 0 0 j 512]> {[256 := Mig.MkPTTEntry Mig.DIRTY_DIRECT 0 0 i 256]}.
Proof.
  assert (wp (Mig.Setup 256 Mig.DIRTY_DIRECT PfArg ;; Mig.Setup 512 Mig.CLEAN_STATIC PfArg) (λ _ s, mig_ok s.1 ∧ same_mgeom pages0 s.1 ∧
    ∃ i j, Mig.entries_ s.1 = <[512 := Mig.MkPTTEntry Mig.CLEAN_STATIC 0 0 j 512]> {[256 := Mig.MkPTTEntry Mig.DIRTY_DIRECT 0 0 i 256]})
    (pages0, ps0)) as H.
  { wp_step. apply wp_mig_Setup; [exact pages0_ok|by vm_compute..|]. intros m1 ps1 i Hm1 Hg1 _ E1 _.
    assert (Mig.entries_ m1 = {[256 := Mig.MkPTTEntry Mig.DIRTY_DIRECT 0 0 i 256]}) as E1' by (by rewrite E1). clear E1.
    pose proof Hg1 as (_ & _ & Ep & _ & _ & _ & Ec).
    apply wp_mig_Setup; [done|by rewrite E1'|unfold page_ok; rewrite Ep; by vm_compute|unfold Mig.num_entries; rewrite E1', Ec; by vm_compute|].
    intros m2 ps2 j Hm2 (F1 & F2 & F3 & F4 & F5 & F6 & F7) _ E2 _. destruct Hg1 as (G1 & G2 & G3 & G4 & G5 & G6 & G7).
    split; [done|]. split; [split_and!; cbn [fst]; congruence|]. exists i, j. cbn [fst]. by rewrite E2, E1'. }
  apply wp_ok in H as ([] & [m ps] & E & Hm & Hg & He). exists m, ps. cbn [fst] in *. destruct Hg as (E1 & _ & _ & _ & E2 & _).
  split_and!; [exact E|exact Hm|by rewrite E2|by rewrite E1|exact He].
Qed.

Lemma clear_lists_dirty_witness : ∃ m ps l m' ps', mig_ok m ∧ Mig.Clear PfArg [7] (m, ps) = Ok ([7] ++ l, (m', ps')) ∧ NoDup l ∧
  256 ∈ l ∧ 320 ∈ l ∧ 512 ∉ l ∧ Mig.entries_ m' = clear_entry <$> Mig.entries_ m ∧ Mig.num_dirty_entries m' = 0.
Proof.
  destruct two_pages as (m & ps & _ & Hm & Epb & Ebb & i & j & Ee). exists m, ps.
  destruct (clear_lists_dirty m ps PfArg [7] Hm) as (l & m' & ps' & E & Hnd & Hl & He & Hd & _). exists l, m', ps'.
  split_and!; [exact Hm|exact E|exact Hnd| | | |exact He|exact Hd].
  - apply Hl. eexists 256, _, 0. rewrite Ee, Epb. by split_and!; [by vm_compute|..].
  - apply Hl. eexists 256, _, 1. rewrite Ee, Epb, Ebb. by split_and!; [by vm_compute|..].
  - intros (page & e & k & H1 & H2 & H3 & H4)%Hl. rewrite Ee in H1. rewrite Epb in H3. rewrite Ebb in H4.
    apply lookup_insert_Some in H1 as [[_ <-]|[_ [<- _]%lookup_singleton_Some]]; [done|]. lia.
Defined.

(** Two written blocks in one page and one in another. *)
Definition blocks0 : list ATT.ATTEntry :=
  (λ tag, ATT.MkATTEntry tag 0 null_node ATT.DIRTY 0 1) <$> [0; 4; 1].

Lemma heaps0 : ∃ m, Mig.InputBlocks blocks0 pages0 = Ok (tt, m) ∧
  heaps_ok m blocks0 ∧ length (Mig.nvm_heap_ m) = 2%nat.
Proof.
  assert (wp (Mig.InputBlocks blocks0) (λ _ m, heaps_ok m blocks0) pages0) as H.
  { apply wp_InputBlocks; [exact pages0_ok|..|by intros m _ Hm]; try done.
    apply Forall_fmap, Forall_forall. intros tag Htag. split; [by intros [|]|]. intros _.
    repeat (apply elem_of_cons in Htag as [-> |Htag]; [by vm_compute|]). by apply elem_of_nil in Htag. }
  rewrite wp_ok in H. destruct H as ([] & m & E & Hm). exists m. split_and!; [done|done|].
  assert (match Mig.InputBlocks blocks0 pages0 with
    | Ok (_, m) => length (Mig.nvm_heap_ m) | Err _ => O end = 2%nat) as El by (by vm_compute). by rewrite E in El.
Qed.

Lemma extract_hottest_first_witness :
  ∃ m l m' ps', extract_all (S (length (Mig.nvm_heap_ m))) PfArg (m, ps0) = Ok (l, (m', ps')) ∧
    l ≡ₚ Mig.nvm_heap_ m ∧ NoDup (Mig.n_phy_addr <$> l) ∧
    StronglySorted (λ x y, (Mig.n_dirty_ratio y <= Mig.n_dirty_ratio x)%Q) l.
Proof.
  destruct heaps0 as (m & _ & Hm & _). exists m.
  exact (extract_hottest_first m ps0 PfArg blocks0 Hm).
Defined.

(** ** Banks *)

(** C29: An address is decoded to a rank, bank and row that exist, and within the capacity
    the decoding loses nothing: rank, bank and row determine the row buffer, so two
    addresses share a row exactly when they are in the same row buffer. *)
Theorem ParseAddr_inverse d addr : Banks.banks_ok d → 0 ≤ addr →
  addr / (Banks.burst_size_ d * Banks.columns_per_row_buffer_ d) <
    Banks.rows_per_bank_ d * Banks.ranks_per_channel_ d * Banks.banks_per_rank_ d →
  ∃ rank bank row, Banks.ParseAddr addr d = Ok (Banks.MkAddress rank bank row, d) ∧
    0 ≤ rank < Banks.ranks_per_channel_ d ∧ 0 ≤ bank < Banks.banks_per_rank_ d ∧ 0 ≤ row < Banks.rows_per_bank_ d ∧
    addr / (Banks.burst_size_ d * Banks.columns_per_row_buffer_ d) =
    (row * Banks.ranks_per_channel_ d + rank) * Banks.banks_per_rank_ d + bank.
Proof.
  intros Hd Ha Hcap.
  assert (wp (Banks.ParseAddr addr) (λ a d', a = Banks.home d addr ∧ d' = d) d) as (a & d' & E & -> & ->)%wp_ok
    by (by apply Banks.wp_ParseAddr).
  pose proof (Banks.home_inverse d addr Hd Ha Hcap) as Hh. destruct Hd as [_ _ ? ? ? _ _ _].
  exists (Banks.rank_ID (Banks.home d addr)), (Banks.bank_ID (Banks.home d addr)), (Banks.row_ID (Banks.home d addr)).
  split; [done|]. split; [|split; [|split; [|exact Hh]]]; apply Z.mod_pos_bound; lia.
Qed.

Lemma ParseAddr_inverse_witness :
  ∃ rank bank row, Banks.ParseAddr 200000 (Banks.new_DDR3Banks 262144) =
      Ok (Banks.MkAddress rank bank row, Banks.new_DDR3Banks 262144) ∧
    0 ≤ rank < 2 ∧ 0 ≤ bank < 8 ∧ 0 ≤ row < 2 ∧ 200000 / (64 * 128) = (row * 2 + rank) * 8 + bank.
Proof.
  apply (ParseAddr_inverse (Banks.new_DDR3Banks 262144) 200000);
    [by apply Banks.new_banks_ok|done|by vm_compute].
Defined.

(** Rounds of writes as [unfreeze] schedules them, until nothing is left to wait for. *)
Fixpoint drain (fuel : nat) (now lat : Z) : M Banks.DRAMBanks Z :=
  match fuel with
  | O => err EFuel
  | S fuel' =>
      r ← Banks.drain_round now lat;
      if r.2 =? 0 then mret now else drain fuel' r.2 lat
  end.

(** C16: The checkpoint writes always drain: from idle banks, one round per queued write
    and a last one are enough, whatever the distribution over the banks; the loop ends
    with every queue empty, and each write took part in some round, so the end comes
    after at most the latency of all of them in sequence. *)
Theorem drain_terminates d now lat fuel : Banks.banks_ok d → Banks.idle_by now d → 0 < now → 0 < lat →
  now + Z.of_nat (Banks.pending d) * lat + lat < 2 ^ 64 - 1 → (Banks.pending d < fuel)%nat →
  ∃ t d', drain fuel now lat d = Ok (t, d') ∧ Banks.HasPendingWrite d' = false ∧ Banks.banks_ok d' ∧
    Banks.idle_by t d' ∧ now ≤ t ≤ now + Z.of_nat (Banks.pending d) * lat.
Proof.
  intros Hd Hidle Hnow Hlat Hmax Hf.
  assert (wp (drain fuel now lat) (λ t d', Banks.HasPendingWrite d' = false ∧ Banks.banks_ok d' ∧
    Banks.idle_by t d' ∧ now ≤ t ≤ now + Z.of_nat (Banks.pending d) * lat) d) as (t & d' & E & H)%wp_ok;
    [|by exists t, d'].
  revert now d Hd Hidle Hnow Hmax Hf. induction fuel as [|fuel IH]; intros now d Hd Hidle Hnow Hmax Hf; [lia|].
  cbn [drain]. wp_step. apply Banks.wp_drain_round; [done|done|lia|done|nia|]. intros r d1 Hd1 _ Eb _ ->.
  pose proof (Banks.idle_round now lat d d1 ltac:(lia) Hidle Eb) as Hidle1.
  destruct (Banks.HasPendingWrite d) eqn:Hp.
  - destruct (Z.eqb_spec (now + lat) 0); [lia|]. pose proof (Banks.pending_round now lat d d1 Hidle Eb Hp) as Hlt.
    eapply wp_mono; [apply IH; [done|done|lia|nia|lia]|].
    intros t d2 (H1 & H2 & H3 & H4). split_and!; [done|done|done|lia|nia].
  - rewrite Z.eqb_refl. wp_step. pose proof (proj1 (Banks.pending_zero d) Hp) as Hz.
    assert (Banks.banks_ d1 = Banks.banks_ d) as E1.
    { rewrite Eb. etrans; [|apply list_fmap_id]. apply list_fmap_ext. intros i l Hl%list_elem_of_lookup_2.
      etrans; [|apply list_fmap_id]. apply list_fmap_ext. intros j b Hb%list_elem_of_lookup_2. unfold Banks.round_bank.
      destruct (Banks.due now b) eqn:Hdue; [|done]. apply andb_true_iff in Hdue as [_ Hdue].
      assert (existsb Banks.Bank_HasPendingWrite (mjoin (Banks.banks_ d)) = true) as Hx; [|by rewrite <- Banks.HasPendingWrite_join, Hp in Hx].
      apply existsb_exists. exists b. split; [|done]. apply list_elem_of_In, list_elem_of_join. by exists l. }
    unfold Banks.idle_by in *. rewrite Banks.HasPendingWrite_join in *. rewrite E1.
    split_and!; [done|done|done|lia|lia].
Qed.

(** Three writes, two of them to the same bank. *)
Definition banks0 : Banks.DRAMBanks :=
  match for_each [0; 262144; 8192] Banks.PushWrite (Banks.new_DDR3Banks 262144) with
  | Ok (_, d) => d
  | Err _ => Banks.new_DDR3Banks 262144
  end.

Lemma banks0_ok : Banks.banks_ok banks0 ∧ Banks.idle_by 1 banks0 ∧ Banks.pending banks0 = 3%nat.
Proof.
  split; [|split; [|by vm_compute]].
  - assert (wp (for_each [0; 262144; 8192] Banks.PushWrite) (λ _ d, Banks.banks_ok d) (Banks.new_DDR3Banks 262144)) as Hw.
    { apply (wp_for_each _ (λ _ d, Banks.banks_ok d)); [by apply Banks.new_banks_ok|].
      intros a l d Hd. by apply Banks.wp_PushWrite. }
    unfold wp, banks0 in *. by destruct (for_each _ _ _) as [[[] d]|].
  - unfold Banks.idle_by. vm_compute. by repeat constructor.
Qed.

Lemma drain_terminates_witness :
  ∃ t d', drain 4 1 30 banks0 = Ok (t, d') ∧ Banks.HasPendingWrite d' = false ∧ Banks.banks_ok d' ∧
    Banks.idle_by t d' ∧ 1 ≤ t ≤ 1 + Z.of_nat (Banks.pending banks0) * 30.
Proof.
  destruct banks0_ok as (Hok & Hidle & Hp).
  apply (drain_terminates banks0 1 30 4); [exact Hok|exact Hidle|done|done|rewrite Hp; done|rewrite Hp; lia].
Defined.
