(* ===== verification/ControllerRuns.v ===== *)
(** Runs of the controller: sequences of events, from the constructor on, and what
    they do to the flat memory of [PersistMachine]. *)

From Stdlib Require Import QArith.
From S2P Require Import Prelude Profiler StdAlgo MemStore PersistSpec PersistFacts PersistMachine.
From S2P Require Import AddrTransController ControllerInv ControllerMachine ControllerInit.
#[global] Open Scope Z_scope.

Section Runs.
Context (c : Config) {St : Type} `{!MemStore St, !MemDevice St}.
Context `{HO : HashOrder, HA : HeapAlgo}.
Implicit Types s : Sys St.

Fixpoint run (evs : list event) : M (Sys St) (list outcome) :=
  match evs with
  | [] => mret []
  | ev :: evs' => o ← exec ev; os ← run evs'; mret (o :: os)
  end.

(** The same events on the flat memory. *)
Inductive psteps : PMem → list event → list outcome → PMem → Prop :=
  | psteps_nil P : psteps P [] [] P
  | psteps_cons P ev o P1 evs os P2 : pstep c P ev o P1 → psteps P1 evs os P2 → psteps P (ev :: evs) (o :: os) P2.

(** The controller for a configuration, over a memory. *)
Definition new_sys (junk : Z → ATT.ATTEntry) (st : St) (ps : Profs) : res (Sys St) :=
  match new_AddrTransController (c_phy_range c) (c_dram_size c) (c_att_len c) (c_block_bits c) (c_page_bits c) junk tt with
  | Ok (k, _) => Ok (MkSys k st ps [])
  | Err e => Err e
  end.

Context `{!MemStoreLaws St c, !MemDeviceLaws St c}.

(** Every event of a run may be issued and counted when it is reached. *)
Fixpoint may_run s (P : PMem) (evs : list event) : Prop :=
  match evs with
  | [] => True
  | ev :: evs' => issued c s P ev ∧ counted c s ev ∧
      ∀ o s' P', exec ev s = Ok (o, s') → pstep c P ev o P' → may_run s' P' evs'
  end.

Context (Hc : wf_config c).

Lemma run_steps evs s P : implements c s P → may_run s P evs →
  wp (run evs) (λ os s', ∃ P', psteps P evs os P' ∧ implements c s' P') s.
Proof.
  revert s P. induction evs as [|ev evs IH]; intros s P Hs Hr; cbn [run].
  { wp_step. exists P. split; [constructor|done]. }
  destruct Hr as (Hi & HG & Hr). wp_step.
  pose proof (exec_step c Hc ev s P Hs Hi HG) as (o & s1 & E & P1 & HP & Hs1)%wp_ok.
  apply wp_ok. exists o, s1. split; [done|]. wp_step.
  eapply wp_mono; [by apply (IH s1 P1); eauto|]. intros os s2 (P2 & HP2 & Hs2). wp_step.
  exists P2. split; [by econstructor|done].
Qed.

Lemma psteps_app P evs1 evs2 os P2 : psteps P (evs1 ++ evs2) os P2 →
  ∃ os1 os2 P1, os = os1 ++ os2 ∧ psteps P evs1 os1 P1 ∧ psteps P1 evs2 os2 P2.
Proof.
  revert P os. induction evs1 as [|ev evs IH]; intros P os Hp; simpl in *.
  { exists [], os, P. split_and!; [done|constructor|done]. }
  inversion Hp as [|? ? o P1 ? os' ? H1 H2]; subst. destruct (IH _ _ H2) as (os1&os2&P3&->&H3&H4).
  exists (o :: os1), os2, P3. split_and!; [done|by econstructor|done].
Qed.

(** Loads and stores leave the checkpoints alone. *)
Definition is_access (ev : event) : Prop := match ev with ELoad _ | EStore _ _ => True | _ => False end.

Definition same_epoch (P P' : PMem) : Prop :=
  p_phase P' = p_phase P ∧ p_last P' = p_last P ∧ p_pend P' = p_pend P ∧ p_dram P' = p_dram P ∧
  p_safe P' = p_safe P ∧ p_psafe P' = p_psafe P.

Lemma access_epoch P evs os P' : psteps P evs os P' → Forall is_access evs → same_epoch P P'.
Proof.
  induction 1 as [|P ev o P1 evs os P2 H1 _ IH]; [by intros|]. intros [Ha Has]%Forall_cons.
  destruct (IH Has) as (?&?&?&?&?&?). by inversion H1; subst; (split_and!; try done).
Qed.

Lemma epoch_nil P os P' : psteps P [] os P' → os = [] ∧ P' = P.
Proof. by inversion 1. Qed.

Lemma psteps_inv P ev evs os P' : psteps P (ev :: evs) os P' →
  ∃ o os' P1, os = o :: os' ∧ pstep c P ev o P1 ∧ psteps P1 evs os' P'.
Proof. inversion 1; subst. eauto 10. Qed.

Lemma pstep_write P addr data P' : pstep c P (EStore addr data) (OCtl REG_WRITE) P' → P' = p_store addr data P.
Proof. by inversion 1. Qed.

Lemma moves_mem P mvs : p_mem (foldl (p_move c) P mvs) = p_mem P.
Proof. revert P. induction mvs as [|[] mvs IH]; intros P; simpl; [done|by rewrite IH..]. Qed.

Lemma migrate_mem P dr wr o P' : pstep c P (EMigrate dr wr) o P' → p_mem P' = p_mem P ∧ p_phase P' = Migrated.
Proof. inversion 1; subst. split; [apply moves_mem|done]. Qed.

(** A checkpoint with accesses before and after its end: the image of its start is the
    last checkpoint of every block out of the page cache. *)
Lemma cycle_image P dr wr evs1 evs2 os P' :
  psteps P (EMigrate dr wr :: EBegin :: evs1 ++ EFinish :: evs2) os P' → Forall is_access evs1 → Forall is_access evs2 →
  p_last P' = p_mem P ∧ ∀ t, tag_ok c t → page_of c t ∉ p_dram P' → p_safe P' t.
Proof.
  intros (o1&os1&P1&->&H1&(o2&os2&P2&->&H2&H3)%psteps_inv)%psteps_inv Ha1 Ha2.
  destruct (migrate_mem _ _ _ _ _ H1) as [Em _]. inversion H2; subst.
  apply psteps_app in H3 as (os3&os4&P3&->&H3&(o4&os5&P4&->&H4&H5)%psteps_inv).
  destruct (access_epoch _ _ _ _ H3 Ha1) as (_&_&Ep&Ed&_&Eps).
  inversion H4; subst. destruct (access_epoch _ _ _ _ H5 Ha2) as (_&El&_&Ed'&Es&_).
  split; [by rewrite El; cbn; rewrite Ep, <- Em|]. intros t Ht Hp. rewrite Es. cbn. rewrite Eps. cbn.
  split; [done|]. by rewrite Ed' in Hp; cbn in Hp; rewrite Ed in Hp.
Qed.

(** What survives in a state that implements the flat memory. *)
Lemma implements_survives s P t : implements c s P → p_safe P t → survives c (conf c s) (p_last P) t.
Proof. intros (_ & a & _ & _ & HR). by eapply rel_survives. Qed.

Lemma implements_dram s P : implements c s P → k_pages (conf c s) = p_dram P.
Proof. intros (_ & a & _ & _ & HR). apply (rel_dram _ _ _ HR). Qed.

End Runs.
