(* ===== verification/SimpleMemRuns.v ===== *)
(** Runs of SimpleMemory. The accounts of WriteCounts.v and BusLedger.v are carried through
    the requests and the events, so that the assertions of [freeze] and [unfreeze] hold
    without being assumed; [sound] is the invariant of the memory over whole epochs, and
    every request and every event keeps it. *)

From Stdlib Require Import QArith Qround.
From S2P Require Import Prelude Drift Profiler StdAlgo MemStore PersistSpec PersistFacts PersistMachine MigrationSpec.
From S2P Require Import AddrTransController AbstractMem WriteCounts BusLedger MemLaws MemFrame.
From S2P Require Import ControllerInv ControllerOps ControllerStore ControllerAccess ControllerMachine ControllerRuns.
From S2P Require Import SimpleMem PacketAccess SimpleMemEvents SimpleMemEpoch.
From S2P Require AddrRange Request Packet DRAMBanks.
#[global] Open Scope Z_scope.

(** ** The books of the memory *)

Section Counts.
Context `{HO : HashOrder, HA : HeapAlgo}.

Definition booked (m m' : SimpleMemory) : Prop := books mod32 true (sys m) → books mod32 true (sys m').
Definition booked_pkt (s s' : SimpleMemory * Pkt.Packet) : Prop := booked s.1 s'.1.

#[local] Instance booked_preorder : PreOrder booked.
Proof. split; [by intros m H|]. intros x y z H1 H2 H. by apply H2, H1. Qed.
#[local] Instance booked_pkt_preorder : PreOrder booked_pkt.
Proof. split; [by intros m H|]. intros x y z H1 H2 H. by apply H2, H1. Qed.

Definition keeps_books {A} (op : M (Sys MemSt) A) : Prop := ∀ s a s', books mod32 true s → op s = Ok (a, s') → books mod32 true s'.

Lemma store_books {A} (op : M MemSt A) : transits same_counters op → keeps_books (on_store op).
Proof. intros Hop s a s'. apply books_kept. intros rel Hrel x y z v p q _ _ _ _. by apply moves_store. Qed.

Lemma pf_books {A} pf (op : M Profiler A) : keeps_books (on_pf pf op).
Proof. intros s a s'. apply books_kept. intros rel Hrel x y z v p q _ _ _ _. apply moves_aside; [done|by destruct 1 as [[]]]. Qed.

Lemma sys_booked {A} (op : M (Sys MemSt) A) : keeps_books op → transits booked (on_sys op).
Proof. intros Hop. apply transits_zoom. intros m s' a E Hb. by apply (Hop _ _ _ Hb E). Qed.

Lemma modify_booked f : (∀ m, sys (f m) = sys m) → transits booked (modify f).
Proof. intros Hf. apply transits_modify. intros m Hb. by rewrite Hf. Qed.

Lemma mem_booked {A} (op : M SimpleMemory A) : transits booked op → transits booked_pkt (on_mem op).
Proof. intros Hop. apply transits_zoom. intros s m' a E. by apply (Hop _ _ _ E). Qed.

Lemma pkt_booked {A} (op : M Pkt.Packet A) : transits booked_pkt (on_pkt op).
Proof. apply transits_zoom. intros s p a E. unfold booked_pkt. reflexivity. Qed.

Lemma load_books a pf : keeps_books (h ← LoadAddr a pf; on_store (hostAddr h)).
Proof.
  intros s r s' Hb E. apply bind_Ok in E as (h & s1 & E1 & E). refine (store_books _ _ _ _ _ _ E); [apply (host_counters h 0 [])|by eapply LoadAddr_books].
Qed.

Lemma write_books a d : keeps_books (on_store (p ← hostAddr a; host_store p d)).
Proof. apply store_books. transits_steps; [apply (host_counters _ 0 [])|apply (host_counters _ 0 d)]. Qed.

#[local] Hint Resolve pkt_booked mem_booked sys_booked load_books write_books pf_books : frame.
#[local] Hint Extern 1 (keeps_books (on_store (host_load _ _))) => apply store_books, (host_counters _ _ []) : frame.
#[local] Hint Extern 1 (keeps_books (on_store (host_store _ _))) => apply store_books, (host_counters _ 0 _) : frame.
#[local] Hint Extern 1 (keeps_books (StoreAddr _ _ _)) => intros ???; apply StoreAddr_books : frame.
#[local] Hint Extern 1 (transits booked (modify _)) => by apply modify_booked : frame.

Lemma schedule_booked ev set_ev t : (∀ o m, sys (set_ev o m) = sys m) → transits booked (schedule ev set_ev t).
Proof. intros Hs. unfold schedule. transits_steps. intros m Hb. by rewrite Hs. Qed.


Ltac booked_steps := repeat (transits_step || (progress eauto 4 with frame) || (apply schedule_booked; done) || (let Hb := fresh in intros ? Hb; exact Hb)).

Lemma access_booked pf : transits booked_pkt (access pf).
Proof.
  unfold access, access_swap, access_read, access_write, check_range, load_host, copy_to_pkt, pkt_bytes, swap_condition. booked_steps.
Qed.

Lemma new_pf_booked : transits booked new_pf.
Proof. unfold new_pf. apply transits_modify. intros m [[] ? ? ? ?]. by split. Qed.

Lemma accept_booked rnd : transits booked_pkt (accept rnd).
Proof.
  pose proof (access_booked PfArg). pose proof new_pf_booked. unfold accept, count_bytes.
  booked_steps; apply mem_booked, schedule_booked; done.
Qed.

(** A request that is accepted is entered in the books. *)
Lemma recv_booked rnd pkt m m' : recvTimingReq rnd pkt m = Ok (true, m') → booked m m'.
Proof.
  intros E Hb. unfold recvTimingReq in E. apply bind_Ok in E as ([] & m1 & E1 & E). injection E1 as <-.
  apply bind_Ok in E as (m1 & m2 & E1 & E). injection E1 as <- <-.
  assert (∀ m1, books mod32 true (sys m1) → (run_accept rnd pkt ;; mret true) m1 = Ok (true, m') → books mod32 true (sys m')) as Hacc.
  { intros m1 Hb1 F. apply bind_Ok in F as ([] & m2 & F1 & F). injection F as <-. unfold run_accept in F1.
    destruct (accept rnd (m1, pkt)) as [[u [m3 p3]]|] eqn:Ea; [|done]. injection F1 as <-. by apply (accept_booked rnd _ _ _ Ea). }
  destruct (Pkt.memInhibitAsserted pkt); [by injection E as <-|]. cbn in E. destruct (retryReq m); [done|]. destruct (isBusy m); [done|].
  destruct (_ && _); [|by apply (Hacc (set_pendingDelete [] m) Hb E)].
  apply bind_Ok in E as ([] & m1 & E1 & E). unfold assert_ in E1. destruct (Req.isSet _ _); [|done]. injection E1 as <-.
  apply bind_Ok in E as (r & m1 & E1 & E). assert (books mod32 true (sys m1)) as Hb1.
  { unfold on_sys, zoom in E1. destruct (Probe _ _) as [[r' s1]|] eqn:Ep; [|done]. injection E1 as _ <-. by apply (Probe_books _ _ _ _ Hb Ep). }
  destruct r; [by apply (Hacc _ Hb1 E)|..]; apply bind_Ok in E as ([] & m2 & _ & E); done.
Qed.

Lemma books_sys rel opened (s s' : Sys MemSt) : ctl s' = ctl s → store s' = store s → books rel opened s → books rel opened s'.
Proof. intros E1 E2 [[] H1 H2 H3 H4]. split; [split|..]; rewrite ?E1, ?E2; done. Qed.

Lemma banks_books {A} (op : M Banks.DRAMBanks A) : keeps_books (on_store (zoom banks set_banks op)).
Proof. apply store_books. by apply transits_zoom. Qed.

Lemma push_blocks_books : keeps_books push_blocks.
Proof.
  intros s a s' Hb E. unfold push_blocks in E. apply bind_Ok in E as (s1 & s2 & E1 & E). injection E1 as <- <-.
  eapply (for_each_keeps (books mod32 true)); [|exact E|done]. intros x s1 u s2 _ F Hb1. apply bind_Ok in F as ([] & s3 & F1 & F). injection F as _ <-.
  apply (books_sys mod32 true s3); [done|done|]. by eapply banks_books.
Qed.

Lemma issue_booked site : transits booked (issue_writes site).
Proof.
  unfold issue_writes. transits_steps; [|by intros m Hb]. apply sys_booked, banks_books.
Qed.

Lemma finish_booked : transits booked (on_sys FinishCheckpointing).
Proof. apply sys_booked. intros s a s' Hb. by apply FinishCheckpointing_books. Qed.

Lemma unfreeze_booked : transits booked unfreeze.
Proof.
  pose proof issue_booked. pose proof finish_booked. unfold unfreeze, getCkptTime, clearWait, sendRetry.
  booked_steps.
Qed.

(** The checkpoint begins a new epoch with open books. *)
Lemma freeze_books m m' : freeze m = Ok (tt, m') → books mod64 false (sys m) → books mod32 true (sys m').
Proof.
  intros E Hb. unfold freeze in E. apply bind_Ok in E as (m1 & m2 & E1 & E). injection E1 as <- <-.
  apply bind_Ok in E as ([] & m1 & E1 & E). unfold assert_ in E1. destruct (isBusy m); [|done]. injection E1 as <-.
  apply bind_Ok in E as ([] & m1 & E1 & E). injection E1 as <-. apply bind_Ok in E as ([] & m1 & E1 & E).
  assert (sys m1 = sys m) as Es.
  { refine ((_ : transits (λ m m', sys m' = sys m) freeze_stats) _ _ _ E1).
    assert (PreOrder (λ m m' : SimpleMemory, sys m' = sys m)) by (split; [done|intros x y z; congruence]).
    unfold freeze_stats. transits_steps; done. }
  apply bind_Ok in E as ([] & m2 & E2 & E). injection E2 as <-. apply bind_Ok in E as ([] & m2 & E2 & E).
  assert (books mod32 true (sys m2)) as Hb2.
  { unfold on_sys, zoom in E2. destruct (BeginCheckpointing PfArg _) as [[u s2]|] eqn:Eb; [|done]. injection E2 as _ <-.
    eapply BeginCheckpointing_books; [|exact Eb]. apply (books_sys mod64 false (sys m)); [by rewrite <- Es|by rewrite <- Es|done]. }
  refine ((_ : transits booked _) _ _ _ E Hb2). pose proof issue_booked. pose proof finish_booked. pose proof push_blocks_books.
  unfold count_bytes, sendRetry. booked_steps; by apply schedule_booked.
Qed.

End Counts.

(** ** The books at the start *)

Lemma new_table_writes len bits junk t u : ATT.new_AddrTransTable len bits junk tt = Ok (t, u) → att_writes t = 0.
Proof.
  unfold ATT.new_AddrTransTable. set (t0 := ATT.MkATT _ _ _ _ _ _). destruct (for_each _ _ t0) as [[[] t']|] eqn:E; [|done]. intros [= <- _].
  eapply (for_each_keeps (λ t, att_writes t = 0)) in E; [done| |].
  - intros i s a s' _ F Hs. by rewrite (same_att_writes _ _ (with_queue_att _ _ (PushBack_rest i) _ _ _ F)).
  - apply zsum_zero. intros e (i & -> & _)%list_elem_of_fmap. done.
Qed.

Lemma new_ctl_writes phy dram len bits pbits junk k u : new_AddrTransController phy dram len bits pbits junk tt = Ok (k, u) →
  att_writes (att_ k) = 0 ∧ ptt_writes (migrator_ k) = 0 ∧ Mig.total_nvm_writes_ (migrator_ k) = 0 ∧ Mig.total_dram_writes_ (migrator_ k) = 0.
Proof.
  unfold new_AddrTransController. intros E. apply bind_Ok in E as (t & u' & E1 & E). apply new_table_writes in E1.
  cbv zeta in E. apply bind_Ok in E as ([] & u1 & _ & E). apply bind_Ok in E as ([] & u2 & _ & E). injection E as <- _. done.
Qed.

(** A memory whose tables are new has balanced books. *)
Lemma new_books k (st : MemSt) ps l : att_writes (att_ k) = 0 ∧ ptt_writes (migrator_ k) = 0 ∧ Mig.total_nvm_writes_ (migrator_ k) = 0 ∧
  Mig.total_dram_writes_ (migrator_ k) = 0 → counters st = (0, 0, 0, 0, 0) → books mod32 true (MkSys k st ps l).
Proof.
  intros (H1 & H2 & H3 & H4) [= E1 E2 E3 E4 E5]. split; [split|..]; cbn; rewrite ?H1, ?H2, ?H3, ?H4, ?E1, ?E2, ?E3, ?E4, ?E5; done || lia.
Qed.

(** What reaches the memory: a request, one of its events, or the clock at a later time. *)
Inductive input := Request (pkt : Pkt.Packet) | Event (e : sm_event) | Pass (t : Z).

Definition handle `{HashOrder, HeapAlgo} (i : input) : M SimpleMemory bool :=
  match i with
  | Request pkt => recvTimingReq 0 pkt
  | Event e => fire e ;; mret true
  | Pass t => modify (set_curTick t) ;; mret true
  end.

(** The answers to a sequence of inputs. *)
Fixpoint drive `{HashOrder, HeapAlgo} (l : list input) : M SimpleMemory (list bool) :=
  match l with [] => mret [] | i :: l' => b ← handle i; bs ← drive l'; mret (b :: bs) end.

Section Runs.
Context (c : Config) (Hc : wf_config c) (Hm : wf_mem c) (HB : 0 < c_block_bits c).
Context `{HO : HashOrder, HA : HeapAlgo}.

Abbreviation bs := (c_bsize c).
Abbreviation serves := (serves c Hc Hm).
Abbreviation B := (c_block_bits c).
Abbreviation Pg := (c_page_bits c).

(** ** The bytes of an epoch *)

(** The profilers of the memory were built with the parts. *)
Definition based (m : SimpleMemory) : Prop :=
  block_bits_ (profBase m) = B ∧ page_bits_ (profBase m) = Pg ∧ 0 ≤ op_latency_ (profBase m).

Lemma serves_inv m P : serves m P → ∃ a, inv c (MemStoreLaws0 := framed_laws c Hc Hm (frame (mem_of m))) false a (sys m) ∧ in_phase (p_phase P) a (sys m).
Proof. intros [(_ & a & Hi & Hp & _) _]. by exists a. Qed.

Lemma serves_fits m P : serves m P → mig_fits B Pg (migrator_ (ctl (sys m))) ∧ ATT.block_bits_ (att_ (ctl (sys m))) = B.
Proof.
  intros (a & Hi & _)%serves_inv. pose proof (iv_geom _ _ _ _ Hi) as Hg. split; [|apply (cg_bits _ _ Hg)].
  pose proof (iv_mig _ _ _ _ Hi) as Hok. split; [apply Hok|split; apply (cg_mig _ _ Hg)|].
  intros page e He. destruct (m_page _ Hok page e He) as (H1 & H2 & _). done.
Qed.

Lemma serves_chooses m P : serves m P → p_phase P = PersistMachine.Running → chooses B Pg (migrator_ (ctl (sys m))).
Proof.
  intros Hs Hph. split; [apply (serves_fits _ _ Hs)|]. destruct (serves_inv _ _ Hs) as (a & _ & Hp). rewrite Hph in Hp.
  destruct Hp as [_ (_ & _ & _ & _ & E)]. unfold heap_fits. rewrite E. split; [|by intros n ?%elem_of_nil]. intros i p x Hx. done.
Qed.

Lemma serves_chargeable m P : serves m P → chargeable B Pg (migrator_ (ctl (sys m))).
Proof.
  intros Hs. split; [apply (serves_fits _ _ Hs)|]. destruct (serves_inv _ _ Hs) as (a & Hi & _). pose proof (iv_mig _ _ _ _ Hi) as Hok.
  pose proof (cg_mig _ _ (iv_geom _ _ _ _ Hi)) as (_ & _ & _ & Ecap). rewrite (m_dirty _ Hok).
  pose proof (mcount_le_size dirty_page (Mig.entries_ (migrator_ (ctl (sys m))))) as Hle. pose proof (m_slots _ Hok) as Hsl. unfold Mig.num_entries in Hsl.
  pose proof (wm_cap _ Hm) as Hcap. pose proof (wf_bits _ Hc). pose proof (pow2_pos Pg ltac:(lia)). unfold Mig.num_entries.
  split_and!; [unfold mcount; lia|nia|nia].
Qed.

Lemma ran_fitted m op s' ok : based m → (∃ P, serves m P) → ok (migrator_ (ctl (sys m))) → ran m op s' →
  ∃ s, op s = Ok (tt, s') ∧ fitted B Pg ok s ∧ bus B s = - (bs * Z.of_nat (length (ckpt (sys m)))) ∧ ctl s = ctl (sys m) ∧ store s = store (sys m).
Proof.
  intros (H1 & H2 & _) [P Hs] Hok (s & Ec & Est & Ek & Ep & E). exists s. split; [done|]. cbn [sel] in Ep.
  split_and!; [|unfold bus; rewrite Ep, Ek; cbn; unfold c_bsize; lia|done|done].
  split; rewrite ?Ep, ?Ec; [done|apply (serves_fits _ _ Hs)|done].
Qed.

(** The bytes on the channel are those of the blocks that were listed. *)
Lemma listed_bytes m (s s' : Sys MemSt) : bus B s = - (bs * Z.of_nat (length (ckpt (sys m)))) → mod64 (bus B s) (bus B s') →
  mod64 (SumBusUtil false (sel PfArg (profs s'))) (bs * (Z.of_nat (length (ckpt s')) - Z.of_nat (length (ckpt (sys m))))).
Proof.
  intros E H. rewrite E in H. unfold bus in H. fold bs in H. apply (slack_add (rel := mod64) _ _ (bs * Z.of_nat (length (ckpt s')))) in H.
  etrans; [|etrans; [symmetry; exact H|apply (f_equal u64); lia]]. unfold mod64, SumBusUtil. rewrite u64_u64. f_equal. cbn [sel]. lia.
Qed.

Lemma migrate_bytes m P s' : based m → serves m P → p_phase P = PersistMachine.Running → ran m (MigratePages PfArg default_dr default_wr) s' →
  mod64 (SumBusUtil false (sel PfArg (profs s'))) (bs * (Z.of_nat (length (ckpt s')) - Z.of_nat (length (ckpt (sys m))))).
Proof.
  intros Hb Hs Hph Hr. destruct (ran_fitted m _ s' (chooses B Pg) Hb (ex_intro _ P Hs) (serves_chooses _ _ Hs Hph) Hr) as (s & E & Hf & Ebus & _).
  apply (listed_bytes m s s' Ebus). pose proof (wf_bits _ Hc). pose proof (wf_page _ Hc).
  destruct (MigratePages_ledgers B Pg ltac:(lia) ltac:(lia) (chooses B Pg) (λ m H, proj1 H) (λ m, conj (λ H, H) (λ H, H)) default_dr default_wr _ _ _ Hf E) as [_ Hd].
  by rewrite Z.add_0_r in Hd.
Qed.

Lemma begin_bytes m P s' : based m → serves m P → ran m (BeginCheckpointing PfArg) s' →
  mod64 (SumBusUtil false (sel PfArg (profs s'))) (bs * (Z.of_nat (length (ckpt s')) - Z.of_nat (length (ckpt (sys m))))).
Proof.
  intros Hb Hs Hr. destruct (ran_fitted m _ s' (chargeable B Pg) Hb (ex_intro _ P Hs) (serves_chargeable _ _ Hs) Hr) as (s & E & Hf & Ebus & _).
  apply (listed_bytes m s s' Ebus). pose proof (wf_bits _ Hc). pose proof (wf_page _ Hc).
  exact (BeginCheckpointing_ledgers B Pg ltac:(lia) ltac:(lia) (chargeable B Pg) (λ m, conj (λ H, H) (λ H, H)) _ _ _ E Hf).
Qed.

(** ** The invariant *)

(** The memory is busy exactly until its release event. *)
Definition latched (m : SimpleMemory) : Prop := isBusy m = true ↔ is_Some (releaseEvent m).

(** An epoch runs: nothing is left of the last checkpoint. *)
Record running (m : SimpleMemory) : Prop := {
  rn_list : ckpt (sys m) = [];
  rn_drained : to_write m = 0%nat;
  rn_balance : balance m = 0;
  rn_start : ckptStart m = 0;
  rn_events : freezeEvent m = None ∧ unfreezeEvent m = None;
  rn_schedule : scheduled c (curTick m) m;
  rn_latched : latched m;
}.

(** Pages have been migrated: the bytes moved are those of the blocks listed. *)
Record migrated (m : SimpleMemory) : Prop := {
  mg_busy : isBusy m = true;
  mg_events : is_Some (freezeEvent m) ∧ unfreezeEvent m = None ∧ releaseEvent m = None;
  mg_start : 0 < ckptStart m;
  mg_drained : to_write m = 0%nat;
  mg_schedule : scheduled c (ckptStart m) m;
  mg_balance : balance m = u64 (bs * Z.of_nat (length (ckpt (sys m))));
}.

(** A checkpoint is being written. *)
Record writing (m : SimpleMemory) (P : PMem) : Prop := {
  wt_rounds : ∃ t, checkpointing c Hc Hm t m P;
  wt_list : ckpt (sys m) = [];
  wt_event : freezeEvent m = None;
  wt_latched : latched m;
}.

Definition opened (P : PMem) : bool := match p_phase P with Migrated => false | _ => true end.

(** Open books are right as 32-bit words, closed ones as 64-bit words. *)
Definition accounts (opened : bool) (s : Sys MemSt) : Prop := books (if opened then mod32 else mod64) opened s.

(** The invariant of the memory: it serves the image [P], the books are right and the
    phase of the checkpoint is the one of the image. *)
Record sound (m : SimpleMemory) (P : PMem) : Prop := {
  sd_serves : serves m P;
  sd_base : based m;
  sd_books : accounts (opened P) (sys m);
  sd_now : 0 ≤ curTick m;
  sd_phase : match p_phase P with PersistMachine.Running => running m | Migrated => migrated m | Checkpointing => writing m P end;
}.

(** ** What the environment may do *)

(** A block access at a time at which the response can be scheduled. A write is one that
    the controller can judge, in an epoch with few writes. *)
Record access_ok (m : SimpleMemory) (pkt : Pkt.Packet) : Prop := {
  ao_block : block_request c m pkt (default [] (Pkt.data pkt));
  ao_time : in_time m bs ∧ 0 < curTick m;
  ao_kind : Pkt.pkt_isRead pkt = true ∧ Pkt.pkt_isWrite pkt = false ∨
    Pkt.pkt_isRead pkt = false ∧ Pkt.pkt_isWrite pkt = true ∧ Req.isInstFetch (Pkt.req pkt) = false ∧
    AddrRange._start (range m) = 0 ∧ judged c (MemStoreLaws0 := mem_laws c Hc Hm) (sys m) (local m pkt) ∧ light (sys m);
}.

(** An event comes at its time. The epoch change takes time, its checkpoint has a block to
    write, and no counter has wrapped. *)
Definition allowed (m : SimpleMemory) (i : input) : Prop :=
  match i with
  | Request pkt => access_ok m pkt
  | Event EvRelease => ∃ t, releaseEvent m = Some t ∧ curTick m ≤ t
  | Event EvFreeze => ∃ t, freezeEvent m = Some t ∧ curTick m ≤ t ∧ ckptStart m < t ∧ t + latency (mem_of m) < 2 ^ 64 - 1 ∧
      numNVMWrites (mem_of m) + numDRAMWrites (mem_of m) < 2 ^ 64 ∧
      ∀ m', fire EvFreeze m = Ok (tt, m') → is_Some (unfreezeEvent m')
  | Event EvUnfreeze => ∃ t, unfreezeEvent m = Some t ∧ curTick m ≤ t ∧ t + latency (mem_of m) < 2 ^ 64 - 1 ∧
      0 ≤ bytesChannel m < 2 ^ 64
  | Event (EvDequeue reqs _) => reqs = [] ∧ packetQueue m ≠ [] ∧ ∃ t, dequeueEvent m = Some t ∧ curTick m ≤ t
  | Pass t => curTick m ≤ t
  end.

(** What an input does to the image, and the response to a request that is accepted. *)
Definition effect (m : SimpleMemory) (P : PMem) (i : input) (b : bool) (m' : SimpleMemory) (P' : PMem) : Prop :=
  match i with
  | Request pkt =>
      if b then
        if Pkt.pkt_isRead pkt then P' = P ∧ queued m m' (Pkt.set_data (Some (image c P (local m pkt))) pkt)
        else P' = (if performed m pkt then p_store (local m pkt) (default [] (Pkt.data pkt)) P else P) ∧ queued m m' pkt
      else P' = P ∨ Pkt.pkt_isWrite pkt = true ∧ p_phase P = PersistMachine.Running ∧ ∃ mvs, P' = p_migrate c mvs P
  | Event EvFreeze => p_phase P = Migrated ∧ P' = p_begin c P
  | Event EvUnfreeze => p_phase P = Checkpointing ∧ P' = match unfreezeEvent m' with None => p_finish P | Some _ => P end
  | Event _ | Pass _ => P' = P
  end.

Definition steps_to (m : SimpleMemory) (P : PMem) (i : input) (r : res (bool * SimpleMemory)) : Prop :=
  match r with
  | Ok (b, m') => ∃ P', effect m P i b m' P' ∧ sound m' P'
  | Err e => e = clock_overflow ∧ match i with Request pkt => Pkt.pkt_isWrite pkt = true ∧ overruns m | _ => False end
  end.

(** ** Small changes *)

Definition core (m : SimpleMemory) :=
  (sys m, range m, profBase m, (freezeEvent m, unfreezeEvent m), ckptStart m, (bytesChannel m, ckBusUtil m)).

Lemma scheduled_later t t' m : t ≤ t' → scheduled c t m → scheduled c t' m.
Proof. intros Ht [Hi Hs]. split; [|done]. eapply Forall_impl; [exact Hi|]. cbn. lia. Qed.

Lemma sound_core m m' P : sound m P → core m' = core m → curTick m ≤ curTick m' → (latched m → latched m') →
  (isBusy m = true ∧ releaseEvent m = None → isBusy m' = true ∧ releaseEvent m' = None) → sound m' P.
Proof.
  intros [Hs Hb Hk H0 Hp] Ec Ht Hl Hbu. unfold core in Ec. injection Ec as E1 E2 E3 E4 E5 E6 E7 E8.
  assert (mem_of m' = mem_of m) as Em by (unfold mem_of; by rewrite E1).
  assert (balance m' = balance m) as Eb by (unfold balance; congruence).
  assert (∀ t, scheduled c t m → scheduled c t m') as Hsc by (intros t [? ?]; split; by rewrite Em).
  assert (to_write m' = to_write m ∧ ∀ t, ending t m' = ending t m) as [Ew Ee] by (unfold to_write, ending; by rewrite Em).
  assert (serves m' P) as Hs' by (destruct Hs; split; by rewrite ?Em, ?E1, ?E2).
  split; [done|unfold based; by rewrite E3|by rewrite E1|lia|]. destruct (p_phase P).
  - destruct Hp as [H1 H2 H3 H4 H5 H6 H7]. split; [by rewrite E1|by rewrite Ew|by rewrite Eb|by rewrite E6|by rewrite E4, E5| |by apply Hl].
    apply Hsc. by eapply scheduled_later.
  - destruct Hp as [H1 [H2 [H3 H4]] H5 H6 H7 H8]. destruct (Hbu (conj H1 H4)) as [G1 G2].
    split; [done|by rewrite E4, E5|by rewrite E6|by rewrite Ew|rewrite E6; by apply Hsc|by rewrite Eb, E1].
  - destruct Hp as [[t Hck] H2 H3 H4]. split; [|by rewrite E1|by rewrite E4|by apply Hl]. exists t. destruct Hck as [_ G2 G3 G4 G5 G6].
    split; [done|done|by rewrite E5|by apply Hsc| |by rewrite E6]. unfold ledger. by rewrite Eb, Ew, Ee.
Qed.

(** ** Requests *)

Lemma refused m pkt : Pkt.memInhibitAsserted pkt = false → isBusy m = true ∨ retryReq m = true →
  recvTimingReq 0 pkt m = Ok (false, if retryReq m then set_pendingDelete [] m else set_retryReq true (set_pendingDelete [] m)).
Proof.
  intros Hi Hb. unfold recvTimingReq. cbv [mbind M_bind modify get mret M_ret]. rewrite Hi. cbn. destruct (retryReq m); [done|].
  by destruct Hb as [->|?].
Qed.

Lemma refused_sound m P pkt : sound m P → access_ok m pkt → isBusy m = true ∨ retryReq m = true → steps_to m P (Request pkt) (handle (Request pkt) m).
Proof.
  intros Hso [Hb _ _] Hw. cbn [handle]. rewrite (refused m pkt (br_open _ _ _ _ Hb) Hw). exists P. split; [by left|].
  destruct (retryReq m); (eapply (sound_core m); [done|done|cbn; lia|done|done]).
Qed.

(** A request that is accepted. *)
Lemma accepted_sound m m' P P' pkt : sound m P → p_phase P' = p_phase P → p_phase P ≠ Migrated →
  accepted c Hc Hm (frame (mem_of m)) m m' P' pkt → booked m m' → isBusy m = false → sound m' P'.
Proof.
  intros Hso Eph Hph Ha Hbk Hbu. pose proof Hso as [Hs Hb Hk H0 Hp]. pose proof Ha as (Hok & Hu & _ & Hh). destruct (sm_serves _ _ _ _ _ _ Hok) as [Hs' Hf].
  destruct Hu as (E1 & E2 & E3 & E4 & E5 & E6 & E7 & E8 & E9).
  assert (latched m → latched m') as Hl.
  { intros Hl. unfold latched in *. destruct Hh as [[F1 F2]|[F1 F2]]; [by rewrite F1, F2|]. by rewrite F1. }
  assert (opened P' = opened P) as Eo by (unfold opened; by rewrite Eph).
  split; [done|unfold based; by rewrite E8| |lia|].
  - rewrite Eo. unfold opened in *. destruct (p_phase P); [by apply Hbk|done|by apply Hbk].
  - rewrite Eph. destruct (scheduled_frame c (curTick m) m m' Hf) as (G1 & G2 & _). destruct (p_phase P) eqn:Ep; [|done|].
    + destruct Hp as [F1 F2 F3 F4 F5 F6 F7]. split; [by rewrite E1|by rewrite G2|by rewrite E9|by rewrite E4|by rewrite E6, E7| |by apply Hl].
      rewrite E2. by apply G1.
    + destruct Hp as [[t Hck] F2 F3 F4]. split; [|by rewrite E1|by rewrite E6|by apply Hl]. exists t.
      by eapply (accepted_checkpointing c Hc Hm t m m' P P' pkt).
Qed.

(** No page has been written more often than there were writes. *)
Lemma light_countable m P x : serves m P → p_phase P ≠ Migrated → light (sys m) → countable c (sys m) x.
Proof.
  intros (a & _ & Hp)%serves_inv Hph Hl e He. assert (mig_stats (migrator_ (ctl (sys m)))) as Hst by (destruct (p_phase P); [|done|]; apply Hp).
  pose proof (msum_elem Mig.epoch_writes _ _ _ (λ k y Hy, proj1 (Hst k y Hy)) He) as Hle. destruct Hl as [_ _ Hlt _ _].
  unfold ptt_writes in Hlt. lia.
Qed.

(** A write that starts an epoch change closes the books; what the migration moved is on
    the list. *)
Lemma epoch_sound m m' P : sound m P → p_phase P = PersistMachine.Running → 0 < curTick m → isBusy m = false → light (sys m) →
  epoch_started c Hc Hm (frame (mem_of m)) m m' P → ∃ mvs, sound m' (p_migrate c mvs P).
Proof.
  intros [Hs Hb Hk H0 Hp] Eph Hnow Hbu Hl ([mvs Hok] & (d & [Hran _] & E1) & E2 & E3 & E4 & E5 & E6 & E7 & E8 & E9 & E10 & E11 & E12).
  exists mvs. destruct (sm_serves _ _ _ _ _ _ Hok) as [Hs' Hf]. rewrite Eph in Hp. destruct Hp as [F1 F2 F3 F4 [F5 F6] F7 F8].
  pose proof (migrate_bytes m P (sys m') Hb Hs Eph Hran) as Hby. destruct (scheduled_frame c (curTick m) m m' Hf) as (G1 & G2 & _).
  split; [done|unfold based; by rewrite E10| |lia|].
  - destruct Hran as (s & S1 & S2 & S3 & _ & Erun). cbn [opened p_phase p_migrate]. eapply MigratePages_books; [| |exact Erun].
    + apply (books_sys mod32 true (sys m)); [done|done|]. unfold opened in Hk. by rewrite Eph in Hk.
    + destruct Hl. split; rewrite ?S1, ?S2; done.
  - cbn [p_phase p_migrate]. split; [done| |by rewrite E4|by rewrite G2|rewrite E4; by apply G1|].
    + split_and!; [by eexists|by rewrite E6|]. rewrite E9. destruct (releaseEvent m) as [t|] eqn:Er; [|done]. unfold latched in F8.
      rewrite Er, Hbu in F8. by destruct F8 as [_ F8]; discriminate F8.
    + unfold balance in *. rewrite E11, E12. rewrite F1 in Hby. cbn [length] in Hby. rewrite Z.sub_0_r in Hby.
      apply (slack_add (rel := mod64) _ _ (bytesChannel m - ckBusUtil m)) in Hby. unfold mod64 in Hby. unfold pf_bus.
      replace (bytesChannel m + _ - ckBusUtil m) with (SumBusUtil false (sel PfArg (profs (sys m'))) + (bytesChannel m - ckBusUtil m)) by lia.
      rewrite Hby. unfold u64 in *. rewrite <- Zplus_mod_idemp_r, F3, Z.add_0_r. done.
Qed.

Lemma waiting_sound m m' P : sound m P → p_phase P = Checkpointing → waiting c Hc Hm (frame (mem_of m)) m m' P → sound m' P.
Proof.
  intros [Hs Hb Hk H0 Hp] Eph Hw. rewrite Eph in Hp. destruct Hp as [[t Hck] F2 F3 F4].
  destruct (waiting_checkpointing c Hc Hm t m m' P Hck Hw) as [Hck' _].
  destruct Hw as (_ & (E1 & E2 & E3 & E4 & E5 & E6 & E7 & E8 & E9) & G1 & G2 & _ & G3 & G4). cbn in E1, E2, E6, E8.
  split; [apply Hck'|unfold based; by rewrite E8|by apply (books_sys _ _ (sys m))|lia|]. rewrite Eph.
  split; [by exists t|by rewrite E1|by rewrite E6|]. unfold latched. by rewrite G1, G2.
Qed.

Lemma sound_idle m P : sound m P → isBusy m = false → retryReq m = false → p_phase P ≠ Migrated ∧ idle m.
Proof.
  intros [_ _ _ _ Hp] Hbu Hre. assert (p_phase P ≠ Migrated ∧ latched m) as [Hph Hl].
  { destruct (p_phase P); [by split; [|apply Hp]|by rewrite (mg_busy _ Hp) in Hbu|by split; [|apply Hp]]. }
  split; [done|]. split_and!; [done|done|]. destruct (releaseEvent m) as [t|] eqn:Er; [|done]. unfold latched in Hl. rewrite Er, Hbu in Hl.
  by destruct Hl as [_ Hl]; discriminate Hl.
Qed.

Lemma request_sound m P pkt : sound m P → access_ok m pkt → steps_to m P (Request pkt) (handle (Request pkt) m).
Proof.
  intros Hso Hao. destruct (isBusy m) eqn:Hbu; [apply refused_sound; by auto|]. destruct (retryReq m) eqn:Hre; [apply refused_sound; by auto|].
  destruct (sound_idle m P Hso Hbu Hre) as [Hph Hi]. pose proof Hso as [Hs Hb Hk H0 Hp]. destruct Hao as [Hbr [Ht Hnow] Hkind]. cbn [handle].
  destruct Hkind as [[Hr Hw]|(Hr & Hw & Hif & Hst & Hj & Hl)].
  - destruct (proj1 (wp_ok _ _ _) (wp_recv_read c Hc Hm _ 0 m pkt _ P Hs Hbr Hr Hw Hi Ht)) as (b & m' & E & -> & Ha).
    rewrite E. exists P. cbn [effect]. rewrite Hr. split; [split; [done|apply Ha]|].
    eapply (accepted_sound m m' P P); [done|done|done|exact Ha|by eapply recv_booked|done].
  - pose proof (wpc_recv_write c Hc Hm _ 0 m pkt _ P Hs Hbr Hr Hw Hif Hst Hph Hj (light_countable m P _ Hs Hph Hl) Hi Ht) as H. unfold wpc in H.
    destruct (recvTimingReq 0 pkt m) as [[[] m']|e] eqn:E; cbn [steps_to effect]; rewrite ?Hr.
    + exists (if performed m pkt then p_store (local m pkt) (default [] (Pkt.data pkt)) P else P).
      assert (p_phase (if performed m pkt then p_store (local m pkt) (default [] (Pkt.data pkt)) P else P) = p_phase P) as Eph by (by destruct (performed m pkt)).
      split; [split; [done|]|]; [apply H|eapply (accepted_sound m m' P); [done|done|done|apply H|by eapply recv_booked|done]].
      all: intros E0; rewrite E0 in Hp; destruct Hp as [F1 F2 F3 F4 [F5 F6] F7 F8]; done.
    + destruct H as [[Eph He]|[Eph Hwt]].
      * intros E0. rewrite E0 in Hp. by destruct Hp as [F1 F2 F3 F4 [F5 F6] F7 F8].
      * destruct (epoch_sound m m' P Hso Eph Hnow Hbu Hl He) as [mvs Hs']. exists (p_migrate c mvs P). split; [right; eauto|done].
      * exists P. split; [by left|by apply (waiting_sound m)].
    + destruct H as (He & _ & _ & Hov); [|done]. intros E0. rewrite E0 in Hp. by destruct Hp as [F1 F2 F3 F4 [F5 F6] F7 F8].
Qed.

(** ** Events *)

Lemma release_sound m P : sound m P → allowed m (Event EvRelease) → steps_to m P (Event EvRelease) (handle (Event EvRelease) m).
Proof.
  intros Hso (t & Er & Ht). assert (isBusy m = true) as Hbu.
  { destruct Hso as [_ _ _ _ Hp]. destruct (p_phase P); [|by destruct Hp as [_ (_ & _ & G) _ _ _ _]; congruence|]; destruct Hp as []; unfold latched in *;
      rewrite Er in *; naive_solver. }
  unfold handle, fire. cbv [mbind M_bind get of_option modify mret M_ret release assert_ sendRetry]. rewrite Er. cbn. rewrite Hbu.
  destruct (retryReq m) eqn:Hre; cbn; exists P; (split; [done|]); (eapply (sound_core m); [done|done|cbn; lia|by split; cbn; [|intros [? ?]]|]); cbn; intros [_ G]; congruence.
Qed.

Lemma dequeue_sound m P b : sound m P → allowed m (Event (EvDequeue [] b)) →
  steps_to m P (Event (EvDequeue [] b)) (handle (Event (EvDequeue [] b)) m).
Proof.
  intros Hso (_ & Hq & t & Er & Ht). unfold handle, fire. cbv [mbind M_bind get of_option modify mret M_ret dequeue recv_all err]. rewrite Er. cbn.
  destruct (packetQueue m) as [|[t0 pkt] q] eqn:Eq; [done|]. destruct b; cbn; [|exists P; split; [done|]; by eapply (sound_core m)].
  rewrite Eq. cbn [tail]. destruct q as [|[t1 pkt1] q]; [destruct (drainManager m)|]; (exists P; split; [done|]; by eapply (sound_core m)).
Qed.

Lemma freeze_sound m P : sound m P → allowed m (Event EvFreeze) → steps_to m P (Event EvFreeze) (handle (Event EvFreeze) m).
Proof.
  intros Hso (t & Ef & Ht & Hst & Hmax & Hnum & Hsome). pose proof Hso as [Hs Hb Hk H0 Hp].
  assert (p_phase P = Migrated) as Eph.
  { destruct (p_phase P); [by destruct Hp as [_ _ _ _ [G _] _ _]; congruence|done|by destruct Hp as [_ _ G _]; congruence]. }
  rewrite Eph in Hp. unfold opened in Hk. rewrite Eph in Hk. destruct Hp as [F1 (F2 & F3 & F4) F5 F6 F7 F8].
  set (m1 := set_freezeEvent None (set_curTick t m)).
  assert (closing c Hc Hm m1 P) as Hcl.
  { split; [by destruct Hs|done|done|done| |by apply (scheduled_later (ckptStart m)); [cbn; lia|destruct F7]|done]. by apply books_agree. }
  assert (fire EvFreeze m = freeze m1) as Efire by (unfold fire; cbv [mbind M_bind get of_option modify]; by rewrite Ef).
  destruct (proj1 (wp_ok _ _ _) (wp_freeze c Hc Hm m1 P Hcl ltac:(cbn; lia) Hmax)) as ([] & m' & E & n & b & Hbg).
  rewrite Efire in Hsome. destruct (Hsome m' E) as [t' Et']. cbn [handle]. unfold mbind, M_bind. rewrite Efire, E. cbn.
  exists (p_begin c P). split; [done|]. pose proof (freeze_books m1 m' E Hk) as Hk'.
  destruct Hbg as [B1 B2 B3 B4 B5 B6 B7 B8 B9 B10 (s & Hran & En & Eb) (R1 & R2 & R3 & R4 & R5 & R6)]. cbn in R1, R2, R3, R5, B7.
  assert (n ≠ 0%nat) as Hn by (intros ->; cbn in B2; congruence). apply Nat.eqb_neq in Hn. rewrite Hn in B1, B2.
  pose proof (begin_bytes m1 P s Hb (cl_serves _ _ _ _ _ Hcl) Hran) as Hby. rewrite <- Eb, <- En in Hby.
  change (sys m1) with (sys m) in Hby. change (balance m1) with (balance m) in B5.
  split; [done|unfold based; by rewrite R3|done|rewrite R5; lia|]. split; [|done|done|].
  - exists (curTick m1 + latency (mem_of m1)). split; [done|done|done|exact B3| |by rewrite B7]. unfold ledger. rewrite B4, B5, F8.
    apply (slack_add (rel := mod64) _ _ (bs * Z.of_nat (length (ckpt (sys m))))) in Hby. unfold mod64 in Hby.
    rewrite Z.add_comm. unfold u64 in *. rewrite Zplus_mod_idemp_r, Hby. f_equal. lia.
  - unfold latched. destruct B8 as [-> _]. rewrite R1, F4. split; [done|by intros [? ?]].
Qed.

Lemma unfreeze_sound m P : sound m P → allowed m (Event EvUnfreeze) → steps_to m P (Event EvUnfreeze) (handle (Event EvUnfreeze) m).
Proof.
  intros Hso (t & Eu & Ht & Hmax & Hby). pose proof Hso as [Hs Hb Hk H0 Hp].
  assert (p_phase P = Checkpointing) as Eph.
  { destruct (p_phase P); [by destruct Hp as [_ _ _ _ [_ G] _ _]; congruence|by destruct Hp as [_ (_ & G & _) _ _ _ _]; congruence|done]. }
  rewrite Eph in Hp. unfold opened in Hk. rewrite Eph in Hk. destruct Hp as [[t' Hck] F2 F3 F4].
  pose proof (ck_event _ _ _ _ _ _ Hck) as Et. assert (t' = t) as -> by congruence.
  destruct (proj1 (wp_ok _ _ _) (wp_fire_unfreeze c Hc Hm t m P Hck ltac:(lia) Hmax Hby)) as ([] & m' & E & H).
  assert (books mod32 true (sys m')) as Hk'.
  { pose proof E as E'. unfold fire in E'. cbv [mbind M_bind get of_option modify] in E'. rewrite Eu in E'.
    by apply (unfreeze_booked _ _ _ E'). }
  cbn [handle]. unfold mbind, M_bind. rewrite E. cbn. destruct (to_write m =? 0)%nat.
  - destruct H as [H1 H2 H3 H4 H5 H6 H7 H8 [H9 H10] H11]. rewrite H2. exists (p_finish P). split; [done|].
    unfold ports in H11. injection H11 as P1 P2 P3 P4 P5 P6.
    split; [done|unfold based; by rewrite P5|done|lia|]. cbn [p_phase p_finish].
    split; [by rewrite P6|done|done|done|by rewrite P4|by rewrite H5|]. unfold latched. by rewrite P1, P3.
  - destruct H as (Hck' & _ & _ & _ & _ & _ & Hpo & Hti). rewrite (ck_event _ _ _ _ _ _ Hck'). exists P. split; [done|].
    unfold ports in Hpo. injection Hpo as P1 P2 P3 P4 P5 P6.
    split; [apply Hck'|unfold based; by rewrite P5|unfold opened; by rewrite Eph|lia|]. rewrite Eph.
    split; [by eexists|by rewrite P6|by rewrite P4|]. unfold latched. by rewrite P1, P3.
Qed.

(** Every input keeps the memory sound. *)
Lemma handle_sound m P i : sound m P → allowed m i → steps_to m P i (handle i m).
Proof.
  intros Hso Ha. destruct i as [pkt|[| | |reqs b]|t].
  - by apply request_sound.
  - by apply release_sound.
  - by apply freeze_sound.
  - by apply unfreeze_sound.
  - destruct Ha as (-> & Ha). apply dequeue_sound; [done|]. by split.
  - exists P. split; [done|]. by eapply (sound_core m).
Qed.

(** ** Runs *)

(** The inputs of a run are allowed where they arrive. *)
Fixpoint permitted (l : list input) (m : SimpleMemory) : Prop :=
  match l with [] => True | i :: l' => allowed m i ∧ ∀ b m', handle i m = Ok (b, m') → permitted l' m' end.

(** The memory and its image along a run. *)
Inductive history : SimpleMemory → PMem → list input → SimpleMemory → PMem → Prop :=
  | history_nil m P : history m P [] m P
  | history_cons m P i l b m1 P1 m2 P2 : handle i m = Ok (b, m1) → effect m P i b m1 P1 → history m1 P1 l m2 P2 →
      history m P (i :: l) m2 P2.

(** A run that ends because an epoch change would end beyond the clock. *)
Definition stopped (l : list input) (m : SimpleMemory) (e : error) : Prop := e = clock_overflow ∧
  ∃ l1 pkt l2 bs m1, l = l1 ++ Request pkt :: l2 ∧ drive l1 m = Ok (bs, m1) ∧ Pkt.pkt_isWrite pkt = true ∧ overruns m1.

Lemma stopped_cons i l m b m1 e : handle i m = Ok (b, m1) → stopped l m1 e → stopped (i :: l) m e.
Proof.
  intros E (He & l1 & pkt & l2 & bs & m2 & -> & Ed & Hw). split; [done|]. exists (i :: l1), pkt, l2, (b :: bs), m2. split; [done|].
  split; [|done]. cbn [drive]. unfold mbind, M_bind. by rewrite E, Ed.
Qed.

Lemma drive_sound l m P : sound m P → permitted l m →
  match drive l m with Ok (_, m') => ∃ P', history m P l m' P' ∧ sound m' P' | Err e => stopped l m e end.
Proof.
  revert m P. induction l as [|i l IH]; intros m P Hs Hp; [exists P; split; [constructor|done]|].
  destruct Hp as [Ha Hp]. pose proof (handle_sound m P i Hs Ha) as H. unfold steps_to in H. cbn [drive]. unfold mbind, M_bind.
  destruct (handle i m) as [[b m1]|e] eqn:E; [|destruct i as [pkt| |]; [destruct H as (-> & Hw & Hov)|by destruct H..]; split; [done|]; by exists [], pkt, l, [], m].
  destruct H as (P1 & He & Hs1). specialize (IH m1 P1 Hs1 (Hp _ _ eq_refl)).
  destruct (drive l m1) as [[bs m2]|e]; [|by eapply stopped_cons]. destruct IH as (P2 & Hh & Hs2). exists P2. split; [by econstructor|done].
Qed.

Lemma sound_survives m P t : sound m P → p_safe P t → survives c (conf c (MemStoreLaws0 := mem_laws c Hc Hm) (sys m)) (p_last P) t.
Proof. intros [[Hi _] _ _ _ _] Ht. exact (implements_survives c _ _ _ Hi Ht). Qed.

(** During an epoch change the books are closed and the bus accounts stand at the list. *)
Lemma sound_closed m P : sound m P → is_Some (freezeEvent m) → books mod64 false (sys m) ∧ balance m = u64 (bs * Z.of_nat (length (ckpt (sys m)))).
Proof.
  intros [_ _ Hk _ Hp] [t Ef]. unfold opened in Hk. destruct (p_phase P).
  - destruct (rn_events _ Hp) as [E _]. congruence.
  - by destruct Hp.
  - pose proof (wt_event _ _ Hp). congruence.
Qed.

End Runs.

(** ** After a checkpoint with nothing to write *)

Section Stuck.
Context `{HO : HashOrder, HA : HeapAlgo}.

(** The start of a checkpoint is noted, and no event is left that could clear it. *)
Definition stuck (m : SimpleMemory) : Prop := ckptStart m ≠ 0 ∧ freezeEvent m = None ∧ unfreezeEvent m = None.
Definition stays (m m' : SimpleMemory) : Prop := stuck m → stuck m' ∧ ckptStart m' = ckptStart m.
Definition stays_pkt (s s' : SimpleMemory * Pkt.Packet) : Prop := stays s.1 s'.1.

#[local] Instance stays_preorder : PreOrder stays.
Proof. split; [by intros m H|]. intros x y z H1 H2 H. destruct (H1 H) as [Hy E]. destruct (H2 Hy) as [Hz E']. by rewrite E', E. Qed.
#[local] Instance stays_pkt_preorder : PreOrder stays_pkt.
Proof. unfold stays_pkt. split; [by intros m|]. intros x y z H1 H2. by transitivity y.1. Qed.

Lemma sys_stays {A} (op : M (Sys MemSt) A) : transits stays (on_sys op).
Proof. apply transits_zoom. intros m s' a _ Hs. done. Qed.

Lemma mem_stays {A} (op : M SimpleMemory A) : transits stays op → transits stays_pkt (on_mem op).
Proof. intros Hop. apply transits_zoom. intros s m' a E. by apply (Hop _ _ _ E). Qed.

Lemma pkt_stays {A} (op : M Pkt.Packet A) : transits stays_pkt (on_pkt op).
Proof. apply transits_zoom. intros s p a _. unfold stays_pkt. reflexivity. Qed.

#[local] Hint Resolve sys_stays mem_stays pkt_stays : frame.
#[local] Hint Extern 1 (transits stays (modify _)) => (apply transits_modify; intros ? ?; done) : frame.

Ltac stays_steps := repeat (transits_step || (progress eauto 4 with frame) || (let Hs := fresh in intros ? Hs; done)).

Lemma access_stays pf : transits stays_pkt (access pf).
Proof.
  unfold access, access_swap, access_read, access_write, check_range, load_host, copy_to_pkt, pkt_bytes, swap_condition. stays_steps.
Qed.

Lemma accept_stays rnd : transits stays_pkt (accept rnd).
Proof. pose proof (access_stays PfArg). unfold accept, count_bytes, new_pf, schedule. stays_steps; apply mem_stays; stays_steps. Qed.

Lemma sys_start {A} (op : M (Sys MemSt) A) m a m' : on_sys op m = Ok (a, m') → ckptStart m' = ckptStart m.
Proof. unfold on_sys, zoom. destruct (op (sys m)) as [[b s]|]; [|done]. by intros [= _ <-]. Qed.

Lemma modify_start f m a m' : (∀ m, ckptStart (f m) = ckptStart m) → modify f m = Ok (a, m') → ckptStart m' = ckptStart m.
Proof. by intros Hf [= _ <-]. Qed.

(** An epoch change that begins while the start of a checkpoint is noted fails. *)
Lemma new_epoch_fails m r m' : ckptStart m ≠ 0 → new_epoch m ≠ Ok (r, m').
Proof.
  intros Hst E. unfold new_epoch in E. apply bind_Ok in E as (m0 & m1 & E1 & E). injection E1 as <- <-.
  apply bind_Ok in E as ([] & m1 & E1 & E). unfold assert_ in E1. destruct (ckpt (sys m)); [|done]. injection E1 as <-.
  apply bind_Ok in E as ([] & m1 & E1%modify_start & E); [|done]. apply bind_Ok in E as ([] & m2 & E2%sys_start & E).
  apply bind_Ok in E as ([] & m3 & E3%modify_start & E); [|done]. apply bind_Ok in E as (m4 & m5 & E4 & E). injection E4 as <- <-.
  apply bind_Ok in E as (lat & m5 & E5%sys_start & E). apply bind_Ok in E as ([] & m6 & E6%modify_start & E); [|done].
  apply bind_Ok in E as ([] & m7 & E7 & _). unfold setCkptStart in E7. cbv [mbind M_bind get assert_] in E7.
  rewrite E6, E5, E3, E2, E1, (proj2 (Z.eqb_neq _ _) Hst) in E7. done.
Qed.

Lemma new_epoch_stays : transits stays new_epoch.
Proof. intros m a m' E [Hs _]. by apply new_epoch_fails in E. Qed.

Lemma run_accept_stays rnd pkt : transits stays (run_accept rnd pkt).
Proof.
  intros m a m' E. unfold run_accept in E. destruct (accept rnd (m, pkt)) as [[u [m1 p1]]|] eqn:Ea; [|done]. injection E as _ <-.
  exact (accept_stays rnd _ _ _ Ea).
Qed.

Lemma recv_stays rnd pkt : transits stays (recvTimingReq rnd pkt).
Proof. pose proof new_epoch_stays. pose proof run_accept_stays. unfold recvTimingReq, setWait. stays_steps. by intros Hs; destruct (_ =? 0). Qed.

Lemma recv_all_stays reqs : transits stays (recv_all reqs).
Proof. pose proof recv_stays. induction reqs as [|[rnd pkt] reqs IH]; cbn [recv_all]; stays_steps. Qed.

Lemma dequeue_stays reqs b : transits stays (dequeue reqs b).
Proof. pose proof recv_all_stays. unfold dequeue. stays_steps. Qed.

Lemma fire_stays e : transits stays (fire e).
Proof.
  pose proof dequeue_stays. destruct e; unfold fire.
  - unfold release, sendRetry. stays_steps.
  - intros m a m' E (H1 & H2 & H3). cbv [mbind M_bind get] in E. by rewrite H2 in E.
  - intros m a m' E (H1 & H2 & H3). cbv [mbind M_bind get] in E. by rewrite H3 in E.
  - stays_steps.
Qed.

Lemma drive_stays l : transits stays (drive l).
Proof.
  pose proof recv_stays. pose proof fire_stays. induction l as [|i l IH]; cbn [drive]; stays_steps. unfold handle. stays_steps.
Qed.

Lemma freeze_marks : transits (λ m m', ckptStart m' = ckptStart m ∧ freezeEvent m' = freezeEvent m) freeze.
Proof.
  assert (PreOrder (λ m m' : SimpleMemory, ckptStart m' = ckptStart m ∧ freezeEvent m' = freezeEvent m)) by (split; [done|intros x y z [] []; split; congruence]).
  assert (∀ A (op : M (Sys MemSt) A), transits (λ m m', ckptStart m' = ckptStart m ∧ freezeEvent m' = freezeEvent m) (on_sys op)) by (intros; by apply transits_zoom).
  unfold freeze, freeze_stats, new_pf, count_bytes, issue_writes, schedule, sendRetry. transits_steps; auto; done.
Qed.

(** A freeze event that schedules no writing has finished the checkpoint it began. *)
Lemma freeze_empty m m' : freeze m = Ok (tt, m') → unfreezeEvent m' = None → in_checkpointing_ (ctl_of m') = false.
Proof.
  intros E Hu. unfold freeze in E. do 9 apply bind_Ok in E as (? & ? & _ & E). apply bind_Ok in E as ([] & m1 & E1 & E).
  assert (∀ m1 m', (m ← get; if retryReq m then modify (set_retryReq false) ;; sendRetry else mret tt) m1 = Ok (tt, m') →
    unfreezeEvent m' = unfreezeEvent m1 ∧ sys m' = sys m1) as Hl.
  { intros n n' F. cbv [mbind M_bind get] in F. destruct (retryReq n); injection F as <-; done. }
  apply Hl in E as [E Es]. unfold ctl_of. rewrite Es, E in *. destruct (negb _).
  - unfold schedule in E1. cbv [mbind M_bind get assert_] in E1. repeat case_match; try done. injection E1 as <-. done.
  - unfold on_sys, zoom in E1. destruct (FinishCheckpointing _) as [[u s]|] eqn:Ef; [|done]. injection E1 as _ <-. cbn [sys set_sys].
    unfold FinishCheckpointing in Ef. do 3 apply bind_Ok in Ef as (? & ? & _ & Ef). apply bind_Ok in Ef as ([] & s1 & F & Ef). injection F as <-.
    unfold on_store, zoom in Ef. destruct (OnEpochEnd _) as [[v st]|]; [|done]. by injection Ef as _ <-.
Qed.

End Stuck.

