(* ===== verification/Examples.v ===== *)
(** A small concrete memory on which the theorems are applied: 64-byte blocks, pages of
    two blocks, a table of four entries over 128 KiB, with the modelled memory behind the
    controller and one conforming implementation of the library's containers. *)

From Stdlib Require Import QArith.
From S2P Require Import Prelude Profiler StdAlgo MemStore PersistSpec PersistMachine AddrTransController.
From S2P Require Import AbstractMem MemLaws ControllerInv ControllerStore ControllerMachine ControllerInit ControllerRuns.
From S2P Require IndexQueue.
#[global] Open Scope Z_scope.

Definition c0 : Config := MkConfig 131072 1024 4 6 7.

Lemma wf0 : wf_config c0.
Proof. by split; vm_compute. Qed.

Lemma wm0 : wf_mem c0.
Proof. by split; vm_compute. Qed.

#[export] Instance laws0 : MemStoreLaws MemSt c0 := mem_laws c0 wf0 wm0.
#[export] Instance device0 : MemDeviceLaws MemSt c0 := mem_device_laws c0 wf0 wm0.
#[export] Existing Instance list_HashOrder.
#[export] Existing Instance sorted_HeapAlgo.

Definition mem0 : MemSt :=
  MkMemSt (geo_c c0) (Some ∅) (Banks.new_DDR3Banks 262144) 30 60 50 100 0 0 0 0 0 0 0 0 0 0 0.

Lemma mem0_ok : mem_ok c0 mem0.
Proof. split; [done|by eexists|by apply Banks.new_banks_ok|done..]. Qed.

Definition profs0 : Profs := init_Profs (set_op_latency_ 5 (new_Profiler 6 7)).

Definition junk0 (i : Z) : ATT.ATTEntry :=
  ATT.MkATTEntry 0 0 IndexQueue.null_node ATT.FREE 0 0.

(** The value of a computation that succeeds. *)
Definition the_ok {A} (r : res A) : match r with Ok _ => A | Err _ => unit end :=
  match r with Ok a => a | Err _ => tt end.

Definition sys0 : Sys MemSt := the_ok (new_sys c0 junk0 mem0 profs0).

Lemma sys0_new : new_sys c0 junk0 mem0 profs0 = Ok sys0.
Proof. by vm_compute. Qed.

Definition pmem0 : PMem := init_pmem c0 (mem_content mem0).

Lemma sys0_implements : implements c0 sys0 pmem0.
Proof.
  pose proof (new_implements c0 wf0 junk0 mem0 profs0 [] mem0_ok eq_refl) as (k & [] & E & H)%wp_ok.
  pose proof sys0_new as Es. unfold new_sys in Es. rewrite E in Es.
  assert (sys0 = MkSys k mem0 profs0 []) as -> by congruence. exact H.
Qed.

(** A block of data. *)
Definition block0 (v : Z) : list Z := replicate 64 v.

(** The state after a run. *)
Definition after (evs : list event) : Sys MemSt :=
  match run evs sys0 with Ok (_, s) => s | Err _ => sys0 end.

Lemma may_run_cons ev o s s1 P evs : issued c0 s P ev → counted c0 s ev → exec ev s = Ok (o, s1) →
  (∀ P1, pstep c0 P ev o P1 → may_run c0 s1 P1 evs) → may_run c0 s P (ev :: evs).
Proof. intros Hi HG E Hr. split; [done|]. split; [done|]. intros o' s' P'. rewrite E. intros [= <- <-]. apply Hr. Qed.

(** A store to a block of a state is judged right if the table maps neither the address
    as a tag nor a lent block. *)
Lemma judged_none s addr : k_blocks (conf c0 s) !! addr = None →
  in_checkpointing_ (ctl s) = false ∨ k_blocks (conf c0 s) !! (addr / 64) = None → judged c0 s addr.
Proof.
  intros E Hck. split; [rewrite E; by intros []|]. intros Hin _. change (c_bsize c0) with 64.
  destruct Hck as [?|E']; [congruence|]. rewrite E'. by intros [].
Qed.

(** The counter of a page, evaluated. *)
Definition countableb (s : Sys MemSt) (addr : Z) : bool :=
  match Mig.entries_ (migrator_ (ctl s)) !! page_of c0 (addr / 64) with Some e => Mig.epoch_writes e <? 2 ^ 31 - 1 | None => true end.

Lemma countableb_ok s addr : countableb s addr = true → countable c0 s addr.
Proof. unfold countableb. intros H e He. change (c_bsize c0) with 64 in He. rewrite He in H. by apply Z.ltb_lt. Qed.

(** A store, an epoch change with a store to the lent block, and a load. *)
Definition evs0 : list event :=
  [EStore 0 (block0 7); EMigrate (33 # 100) (67 # 100); EBegin; EStore 0 (block0 8); EFinish; ELoad 3].

Lemma evs0_may_run : may_run c0 sys0 pmem0 evs0.
Proof.
  unfold evs0. eapply (may_run_cons _ _ _ (after (take 1 evs0))); [|apply countableb_ok; by vm_compute|by vm_compute|].
  { split_and!; [done|by vm_compute..|]. apply judged_none; [by vm_compute|by left]. }
  intros P1 ->%pstep_write.
  eapply (may_run_cons _ _ _ (after (take 2 evs0))); [done|done|by vm_compute|].
  intros P2 Hp. inversion Hp; subst. clear Hp.
  eapply (may_run_cons _ _ _ (after (take 3 evs0))); [done|done|by vm_compute|].
  intros P3 Hp. inversion Hp; subst. clear Hp.
  eapply (may_run_cons _ _ _ (after (take 4 evs0))); [|apply countableb_ok; by vm_compute|by vm_compute|].
  { split_and!; [done|by vm_compute..|]. apply judged_none; [by vm_compute|right; by vm_compute]. }
  intros P4 ->%pstep_write.
  eapply (may_run_cons _ _ _ (after (take 5 evs0))); [done|done|by vm_compute|].
  intros P5 _. split_and!; [by vm_compute..|done|done].
Qed.
