(* ===== verification/ControllerCorrect.v ===== *)
(** What the controller guarantees: it is a memory whose checkpoints survive crashes.
    Each theorem is applied to the concrete memory of [Examples]. The last two record
    stores on which an assertion of the code fails. *)

From Stdlib Require Import QArith.
From S2P Require Import Prelude Profiler StdAlgo MemStore PersistSpec PersistFacts PersistMachine.
From S2P Require Import AddrTransController AbstractMem MemLaws ControllerInv ControllerOps ControllerStore ControllerAccess.
From S2P Require Import ControllerMachine ControllerInit ControllerRuns Examples.
#[global] Open Scope Z_scope.

Section Correct.
Context (c : Config) (Hc : wf_config c) {St : Type} `{!MemStore St, !MemDevice St}.
Context `{HO : HashOrder, HA : HeapAlgo}.
Context `{!MemStoreLaws St c, !MemDeviceLaws St c}.
Implicit Types s : Sys St.

(** C1: From the constructor on, every sequence of loads, stores and epoch operations
    that may be issued ([may_run]: in the order of the phases, each store within a block,
    judged right by [Probe] and with room in the [int] counter of its page) runs without a
    failing assertion, and answers as the flat memory does: in particular a load returns the last value stored, whatever was remapped,
    migrated or checkpointed in between. *)
Theorem controller_refines junk st ps evs : st_ok st → ignore_latency_ (sel PfArg ps) = false →
  (∀ s, new_sys c junk st ps = Ok s → may_run c s (init_pmem c (content st)) evs) →
  ∃ s os s' P', new_sys c junk st ps = Ok s ∧ run evs s = Ok (os, s') ∧
    psteps c (init_pmem c (content st)) evs os P' ∧ implements c s' P'.
Proof.
  intros Hst Hign Hev. pose proof (new_implements c Hc junk st ps [] Hst Hign) as (k & [] & E & Hi)%wp_ok.
  assert (new_sys c junk st ps = Ok (MkSys k st ps [])) as En by (unfold new_sys; by rewrite E).
  pose proof (run_steps c Hc evs _ _ Hi (Hev _ En)) as (os & s' & Er & P' & HP & Hi')%wp_ok.
  by exists (MkSys k st ps []), os, s', P'.
Qed.

(** C2: A checkpoint can be recovered. In a run that may be issued, once the pages are migrated and the checkpoint is
    begun and finished, with loads and stores in between, and after any loads and stores
    that follow, the memory still holds, for every block outside the page cache, its data
    from the moment the checkpoint was begun. *)
Theorem checkpoint_recoverable dr wr evs1 evs2 s P : implements c s P →
  may_run c s P (EMigrate dr wr :: EBegin :: evs1 ++ EFinish :: evs2) →
  Forall is_access evs1 → Forall is_access evs2 →
  ∃ os s', run (EMigrate dr wr :: EBegin :: evs1 ++ EFinish :: evs2) s = Ok (os, s') ∧
    ∀ t, tag_ok c t → page_of c t ∉ k_pages (conf c s') → survives c (conf c s') (p_mem P) t.
Proof.
  intros Hi Hr Ha1 Ha2. pose proof (run_steps c Hc _ _ _ Hi Hr) as (os & s' & E & P' & HP & Hi')%wp_ok.
  exists os, s'. split; [done|]. intros t Ht Hpg.
  destruct (cycle_image c _ _ _ _ _ _ _ HP Ha1 Ha2) as [<- Hsafe].
  eapply implements_survives; [done|]. apply Hsafe; [done|]. by rewrite <- (implements_dram _ _ _ Hi').
Qed.

(** C3: At every point of a run that may be issued, in every phase of a checkpoint, the last complete
    checkpoint of the blocks that stayed out of the page cache is intact: a crash loses
    nothing of it. *)
Theorem crash_consistent evs s P : implements c s P → may_run c s P evs →
  ∃ os s' P', run evs s = Ok (os, s') ∧ psteps c P evs os P' ∧
    ∀ t, p_safe P' t → survives c (conf c s') (p_last P') t.
Proof.
  intros Hi Hr. pose proof (run_steps c Hc _ _ _ Hi Hr) as (os & s' & E & P' & HP & Hi')%wp_ok.
  exists os, s', P'. split_and!; [done|done|]. intros t. by apply implements_survives.
Qed.

(** C8: A store that is accepted is read back, byte by byte, and changes no other byte. *)
Theorem store_then_load addr data x s s' P : implements c s P → issued c s P (EStore addr data) →
  exec (EStore addr data) s = Ok (OCtl REG_WRITE, s') → 0 ≤ x < c_phy_range c →
  ∃ s'' v, exec (ELoad x) s' = Ok (OVal v, s'') ∧
    if (addr <=? x) && (x <? addr + Z.of_nat (length data)) then v = data !!! Z.to_nat (x - addr)
    else ∃ s0, exec (ELoad x) s = Ok (OVal v, s0).
Proof.
  intros Hi Hs E Hx. pose proof (exec_store c Hc _ _ _ _ Hi Hs) as H. rewrite wp_ok in H.
  destruct H as (o & s1 & E' & P' & HP & Hh & _). rewrite E' in E. simplify_eq. inversion HP; subst; [|done].
  pose proof (holds_load c Hc x _ _ Hh Hx) as (o & s2 & E2 & ->)%wp_ok.
  exists s2, (p_mem (p_store addr data P) x). split; [done|]. cbn. unfold write_bytes.
  destruct (_ && _); [done|].
  pose proof (holds_load c Hc x _ _ (implements_holds c _ _ Hi) Hx) as (o & s3 & E3 & ->)%wp_ok. eauto.
Qed.

(** C9: A whole epoch change - migration, begin and end of the checkpoint - is
    transparent: every load returns what it returned before. *)
Theorem epoch_transparent dr wr x s P : implements c s P → p_phase P = Running → (0 < dr)%Q →
  0 ≤ x < c_phy_range c →
  ∃ s1 s2 os s' v, exec (ELoad x) s = Ok (OVal v, s1) ∧ run [EMigrate dr wr; EBegin; EFinish] s = Ok (os, s') ∧
    exec (ELoad x) s' = Ok (OVal v, s2).
Proof.
  intros Hi Hph Hdr Hx.
  assert (may_run c s P [EMigrate dr wr; EBegin; EFinish]) as Hr.
  { split; [done|]. split; [done|]. intros o s1 P1 _ H1. split; [by apply (migrate_mem _ _ _ _ _ _ H1)|]. split; [done|].
    intros o2 s2 P2 _ H2. inversion H2; subst. by split_and!. }
  pose proof (run_steps c Hc _ _ _ Hi Hr) as (os & s' & E & P' & HP & Hi')%wp_ok.
  pose proof (exec_step c Hc (ELoad x) _ _ Hi Hx I) as (o & s1 & E1 & P1 & HP1 & _)%wp_ok. inversion HP1; subst.
  pose proof (exec_step c Hc (ELoad x) _ _ Hi' Hx I) as (o & s2 & E2 & P2 & HP2 & _)%wp_ok. inversion HP2; subst.
  exists s1, s2, os, s', (p_mem P1 x). split_and!; [done|done|].
  apply psteps_inv in HP as (?&?&Pa&->&Ha&(?&?&Pb&->&Hb&(?&?&Pc&->&He&[-> ->]%epoch_nil)%psteps_inv)%psteps_inv).
  destruct (migrate_mem _ _ _ _ _ _ Ha) as [Em _]. inversion Hb; subst. inversion He; subst. cbn in *. by rewrite <- Em.
Qed.

(** C7: A store within a block for which there is room ([store_room]: its block has an entry,
    or an entry is free or can be freed, or its page is in DRAM while no checkpoint is
    written) and whose block is not lent, unless the memory answers for the latency of its
    address ([lent_lat]), succeeds: [StoreAddr] returns the address of the byte in the
    place of its block, and that place is one the processor may overwrite: not the clean
    version that the last checkpoint consists of. Memory and checkpoints are changed only
    by steps of the abstract memory that touch the bytes to be stored. *)
Theorem StoreAddr_safe addr size pf a s : inv c false a s → 0 ≤ addr < c_phy_range c → fits c addr size →
  ignore_latency_ (sel pf (profs s)) = false → store_room c a s addr → lent_lat c a s addr →
  ∃ m s' a', StoreAddr addr size pf s = Ok (m, s') ∧ storing c addr size a a' s s' ∧
    m = base c (conf c s') (addr / c_bsize c) + addr mod c_bsize c ∧ writable c (conf c s') (addr / c_bsize c).
Proof.
  intros Hi Ha Hf Hign Hroom Hlat.
  assert (wp (StoreAddr addr size pf) (λ m s', ∃ a', storing c addr size a a' s s' ∧
    m = base c (conf c s') (addr / c_bsize c) + addr mod c_bsize c ∧ writable c (conf c s') (addr / c_bsize c)) s) as H
    by (eapply (wp_StoreAddr c Hc); eauto 10).
  apply wp_ok in H as (m & s' & E & a' & H). exists m, s', a'. by split.
Qed.

(** C15: [Probe] changes nothing but profiler counters, asks to wait only while a
    checkpoint is written and the table has no entry to give, and asks for a new epoch
    only when every entry is dirty or the page table is full of dirty pages; outside
    these cases the store is regular. *)
Theorem Probe_answer a addr s : inv c false a s → 0 ≤ addr < c_phy_range c →
  ∃ r ps, Probe addr s = Ok (r, MkSys (ctl s) (store s) ps (ckpt s)) ∧ pf_same (profs s) ps ∧ probed c a s addr r.
Proof.
  intros Hi Ha.
  assert (wp (Probe addr) (λ r s', ∃ ps, s' = MkSys (ctl s) (store s) ps (ckpt s) ∧ pf_same (profs s) ps ∧
    probed c a s addr r) s) as H by (eapply (wp_Probe c Hc); eauto).
  apply wp_ok in H as (r & s' & E & ps & -> & H). by exists r, ps.
Qed.

(** ** Stores on which the code fails *)

(** No entry is there to take: none is free or clean, nor lent while no checkpoint is
    written. *)
Definition no_entry s : Prop := ∀ st,
  st = ATT.FREE ∨ st = ATT.CLEAN ∨ (in_checkpointing_ (ctl s) = false ∧ st = ATT.LOAN) →
  match att_IsEmpty st s with Ok (empty, _) => empty = true | Err _ => False end.

Lemma no_entry_room a s : inv c false a s → no_entry s → ¬ has_room a (in_checkpointing_ (ctl s)).
Proof.
  intros Hi Hn. assert (∀ st, ATT.state_num st ≤ 3 →
    match att_IsEmpty st s with Ok (empty, _) => empty = true | Err _ => False end → ATT.qof a st = []) as Hq.
  { intros st Hst E. pose proof (wp_sys_IsEmpty c false a st (λ b s', b = bool_decide (ATT.qof a st = [])) s Hi Hst eq_refl) as Hw.
    unfold wp in Hw. destruct (att_IsEmpty st s) as [[b s']|]; [|done]. rewrite E in Hw. symmetry in Hw. by apply bool_decide_eq_true in Hw. }
  intros [H|[H|[Hck H]]]; apply H, Hq; try done; apply Hn; auto.
Qed.

(** C37: [Probe] looks an address up as if it were a tag. Whenever no entry is there to take
    and the address of a store happens to be the tag of a block in the table while its own
    block is not there, [Probe] admits the store and the assertion in [StoreAddr] that
    there is a clean entry fails. *)
Theorem Probe_admits_unstorable addr size pf a s : inv c false a s → 0 ≤ addr < c_phy_range c → fits c addr size →
  is_Some (k_blocks (conf c s) !! addr) → k_blocks (conf c s) !! (addr / c_bsize c) = None → no_entry s →
  (in_checkpointing_ (ctl s) = false → page_of c (addr / c_bsize c) ∉ k_pages (conf c s)) →
  (∃ s', Probe addr s = Ok (REG_WRITE, s')) ∧
  StoreAddr addr size pf s = Err (EAssert (if bool_decide (page_of c (addr / c_bsize c) ∈ k_pages (conf c s))
    then "AddrTransController::DRAMStore" else "AddrTransController::NVMStore")).
Proof.
  intros Hi Ha Hf Hal Hno Hroom%(no_entry_room a) Hpg; [|done].
  assert (alias a addr) as Hals by (destruct Hal as [[st b] (i & e & He & Et & _)%(blocks_of_Some _ _ (iv_att _ _ _ _ Hi))]; by exists i, e).
  assert (unmapped a (addr / c_bsize c)) as Hu by exact (proj1 (blocks_of_None _ _ (iv_att _ _ _ _ Hi) _) Hno).
  split.
  - assert (wp (Probe addr) (λ r s', probed c a s addr r) s) as (r & s' & E & Hp)%wp_ok by (eapply (wp_Probe c Hc); eauto).
    exists s'. rewrite E. unfold probed in Hp. repeat case_match; naive_solver.
  - apply (StoreAddr_fails c Hc _ _ _ a); [done..|]. case_bool_decide as Hin; [|done].
    destruct (in_checkpointing_ (ctl s)); [auto|by destruct Hpg].
Qed.

End Correct.

Section Lent.
Context (c : Config) (Hc : wf_config c) (Hm : wf_mem c).
Context `{HO : HashOrder, HA : HeapAlgo}.

(** No address of the physical range is one of the DRAM buffer. *)
Lemma lent_latency addr st : mem_ok c st → 0 ≤ addr < c_phy_range c →
  GetWriteLatency addr true None st = Err (EAssert "SimpleMemory::GetVirtMachAddr").
Proof.
  intros Hst Ha. cbn [GetWriteLatency mem_store]. unfold mem_GetWriteLatency. apply fails_left. unfold GetVirtMachAddr.
  cbv [mbind M_bind get assert_ orb]. rewrite (mo_geo _ _ Hst). unfold dram_Contains. cbn [g_dram_base geo_c negb].
  pose proof (wf_att _ Hc). pose proof (bs_pos _ Hc). unfold c_dram_base.
  destruct (Z.leb_spec (c_phy_range c + 2 * c_att_len c * c_bsize c) addr); [nia|done].
Qed.

(** C38: While a checkpoint is written, every store to a block that is lent already, because
    its page is in DRAM and it has been stored to since, fails: its physical address is
    looked up as one of the DRAM buffer, and the assertion of [GetVirtMachAddr] that it
    lies there fails. *)
Theorem lent_store_fails addr size pf a (s : Sys MemSt) : inv c (MemStoreLaws0 := mem_laws c Hc Hm) false a s →
  0 ≤ addr < c_phy_range c → fits c addr size → in_checkpointing_ (ctl s) = true →
  page_of c (addr / c_bsize c) ∈ k_pages (conf c (MemStoreLaws0 := mem_laws c Hc Hm) s) →
  is_Some (k_blocks (conf c (MemStoreLaws0 := mem_laws c Hc Hm) s) !! (addr / c_bsize c)) →
  StoreAddr addr size pf s = Err (EAssert "SimpleMemory::GetVirtMachAddr").
Proof.
  intros Hi Ha Hf Hck Hp Hb. apply (StoreAddr_fails c Hc (MemStoreLaws0 := mem_laws c Hc Hm) _ _ _ a); [done..|].
  rewrite bool_decide_eq_true_2 by done. split; [done|]. right. split; [by apply (mapped_iff c a s _ Hi)|].
  intros st Hst. by apply lent_latency.
Qed.

End Lent.

(** ** Instances *)

Lemma controller_refines_witness :
  ∃ s os s' P', new_sys c0 junk0 mem0 profs0 = Ok s ∧ run evs0 s = Ok (os, s') ∧
    psteps c0 pmem0 evs0 os P' ∧ implements c0 s' P'.
Proof.
  refine (controller_refines c0 wf0 junk0 mem0 profs0 evs0 mem0_ok eq_refl _).
  intros s. rewrite sys0_new. intros [= <-]. exact evs0_may_run.
Defined.

(** The checkpoint is begun after the first store of [evs0]. *)
Definition sys1 : Sys MemSt := after (take 1 evs0).
Definition pmem1 : PMem := p_store 0 (block0 7) pmem0.

Lemma sys1_implements : implements c0 sys1 pmem1 ∧ may_run c0 sys1 pmem1 (drop 1 evs0).
Proof.
  destruct evs0_may_run as (Hi & HG & Hr).
  pose proof (exec_step c0 wf0 (EStore 0 (block0 7)) sys0 pmem0 sys0_implements Hi HG) as H. rewrite wp_ok in H.
  destruct H as (o & s' & E & P' & HP & Hs).
  assert (exec (EStore 0 (block0 7)) sys0 = Ok (OCtl REG_WRITE, sys1)) as E1 by (by vm_compute).
  rewrite E1 in E. apply Ok_inj in E as [<- <-]. apply pstep_write in HP as ->.
  split; [exact Hs|]. exact (Hr _ _ _ E1 (P_store c0 pmem0 0 (block0 7) (proj1 Hi))).
Qed.

Lemma checkpoint_recoverable_witness :
  ∃ os s', run (EMigrate (33 # 100) (67 # 100) :: EBegin :: [EStore 0 (block0 8)] ++ EFinish :: [ELoad 3]) sys1 = Ok (os, s') ∧
    ∀ t, tag_ok c0 t → page_of c0 t ∉ k_pages (conf c0 s') → survives c0 (conf c0 s') (p_mem pmem1) t.
Proof.
  destruct sys1_implements as [Hi Hr].
  apply (checkpoint_recoverable c0 wf0 (33 # 100) (67 # 100) [EStore 0 (block0 8)] [ELoad 3] sys1 pmem1);
    [exact Hi|exact Hr|by repeat constructor..].
Defined.

Lemma crash_consistent_witness :
  ∃ os s' P', run evs0 sys0 = Ok (os, s') ∧ psteps c0 pmem0 evs0 os P' ∧
    ∀ t, p_safe P' t → survives c0 (conf c0 s') (p_last P') t.
Proof. apply (crash_consistent c0 wf0 evs0 sys0 pmem0); [exact sys0_implements|exact evs0_may_run]. Defined.

Lemma store_then_load_witness :
  ∃ s'' v, exec (ELoad 3) sys1 = Ok (OVal v, s'') ∧ v = block0 7 !!! Z.to_nat 3.
Proof.
  destruct evs0_may_run as [Hi _].
  exact (store_then_load c0 wf0 0 (block0 7) 3 sys0 sys1 pmem0 sys0_implements Hi
    ltac:(by vm_compute) ltac:(by vm_compute)).
Defined.

Lemma epoch_transparent_witness :
  ∃ s1 s2 os s' v, exec (ELoad 3) sys1 = Ok (OVal v, s1) ∧
    run [EMigrate (33 # 100) (67 # 100); EBegin; EFinish] sys1 = Ok (os, s') ∧ exec (ELoad 3) s' = Ok (OVal v, s2).
Proof.
  apply (epoch_transparent c0 wf0 (33 # 100) (67 # 100) 3 sys1 pmem1);
    [apply sys1_implements|done|done|by vm_compute].
Defined.

Lemma sys0_inv : inv c0 false (ATT.abs_init 4 junk0) sys0.
Proof.
  pose proof (wp_new_AddrTransController c0 wf0 junk0) as H. rewrite wp_ok in H. destruct H as (k & [] & E & H).
  destruct (H mem0 profs0 [] mem0_ok) as [Hi _]. pose proof sys0_new as Es. unfold new_sys in Es. rewrite E in Es.
  assert (sys0 = MkSys k mem0 profs0 []) as -> by congruence. exact Hi.
Qed.

Lemma StoreAddr_safe_witness :
  ∃ m s' a', StoreAddr 70 2 PfArg sys0 = Ok (m, s') ∧ storing c0 70 2 (ATT.abs_init 4 junk0) a' sys0 s' ∧
    m = base c0 (conf c0 s') (70 / c_bsize c0) + 70 mod c_bsize c0 ∧ writable c0 (conf c0 s') (70 / c_bsize c0).
Proof.
  apply (StoreAddr_safe c0 wf0 70 2 PfArg (ATT.abs_init 4 junk0) sys0); [exact sys0_inv|by vm_compute..| |done].
  intros _. right. by left.
Defined.

Lemma Probe_answer_witness :
  ∃ r ps, Probe 70 sys0 = Ok (r, MkSys (ctl sys0) (store sys0) ps (ckpt sys0)) ∧ pf_same (profs sys0) ps ∧
    probed c0 (ATT.abs_init 4 junk0) sys0 70 r.
Proof. apply (Probe_answer c0 wf0 (ATT.abs_init 4 junk0) 70 sys0); [exact sys0_inv|by vm_compute]. Defined.

(** The state after a run serves its image. *)
Lemma after_implements evs : may_run c0 sys0 pmem0 evs → ∃ P, implements c0 (after evs) P.
Proof.
  intros Hr. pose proof (run_steps c0 wf0 evs _ _ sys0_implements Hr) as (os & s' & E & P & _ & Hi)%wp_ok.
  exists P. unfold after. by rewrite E.
Qed.

Lemma may_run_prefix evs1 evs2 s P : may_run c0 s P (evs1 ++ evs2) → may_run c0 s P evs1.
Proof.
  revert s P. induction evs1 as [|ev evs1 IH]; intros s P; [done|]. intros (H1 & H2 & H3). split; [done|]. split; [done|].
  intros o s' P' E HP. by apply IH, (H3 o).
Qed.

(** Four stores fill the table; 64 is the tag of the block at 4096. *)
Definition evs1 : list event := [EStore 4096 (block0 1); EStore 8320 (block0 2); EStore 192 (block0 3); EStore 320 (block0 4)].

Lemma evs1_may_run : may_run c0 sys0 pmem0 evs1.
Proof.
  unfold evs1. eapply (may_run_cons _ _ _ (after (take 1 evs1))); [|apply countableb_ok; by vm_compute|by vm_compute|intros P1 ->%pstep_write].
  { split_and!; [done|by vm_compute..|]. apply judged_none; [by vm_compute|by left]. }
  eapply (may_run_cons _ _ _ (after (take 2 evs1))); [|apply countableb_ok; by vm_compute|by vm_compute|intros P2 ->%pstep_write].
  { split_and!; [done|by vm_compute..|]. apply judged_none; [by vm_compute|left; by vm_compute]. }
  eapply (may_run_cons _ _ _ (after (take 3 evs1))); [|apply countableb_ok; by vm_compute|by vm_compute|intros P3 ->%pstep_write].
  { split_and!; [done|by vm_compute..|]. apply judged_none; [by vm_compute|left; by vm_compute]. }
  eapply (may_run_cons _ _ _ (after (take 4 evs1))); [|apply countableb_ok; by vm_compute|by vm_compute|done].
  { split_and!; [done|by vm_compute..|]. apply judged_none; [by vm_compute|left; by vm_compute]. }
Qed.

Lemma Probe_admits_unstorable_witness :
  (∃ s', Probe 64 (after evs1) = Ok (REG_WRITE, s')) ∧ StoreAddr 64 64 PfArg (after evs1) = Err (EAssert "AddrTransController::NVMStore").
Proof.
  assert (0 ≤ 64 < c_phy_range c0) as Ha by (by vm_compute). assert (fits c0 64 64) as Hf by (by vm_compute).
  destruct (after_implements evs1 evs1_may_run) as (P & _ & a & Hi & _ & _).
  assert (page_of c0 (64 / c_bsize c0) ∉ k_pages (conf c0 (after evs1))) as Hp by (apply (bool_decide_unpack _); by vm_compute).
  assert (is_Some (k_blocks (conf c0 (after evs1)) !! 64)) as H1 by (apply (bool_decide_unpack _); by vm_compute).
  assert (k_blocks (conf c0 (after evs1)) !! (64 / c_bsize c0) = None) as H2 by (by vm_compute).
  assert (no_entry (after evs1)) as H3 by (intros st [-> |[-> |[_ ->]]]; by vm_compute).
  destruct (Probe_admits_unstorable c0 wf0 64 64 PfArg a (after evs1) Hi Ha Hf H1 H2 H3 (λ _, Hp)) as [Hr Hs].
  rewrite (bool_decide_eq_false_2 _ Hp) in Hs. split; [exact Hr|exact Hs].
Defined.

Lemma lent_store_fails_witness : StoreAddr 0 64 PfArg (after (take 4 evs0)) = Err (EAssert "SimpleMemory::GetVirtMachAddr").
Proof.
  assert (0 ≤ 0 < c_phy_range c0) as Ha by (by vm_compute). assert (fits c0 0 64) as Hf by (by vm_compute).
  assert (in_checkpointing_ (ctl (after (take 4 evs0))) = true) as Hck by (by vm_compute).
  destruct (after_implements (take 4 evs0) (may_run_prefix (take 4 evs0) (drop 4 evs0) _ _ evs0_may_run)) as (P & _ & a & Hi & _ & _).
  assert (page_of c0 (0 / c_bsize c0) ∈ k_pages (conf c0 (after (take 4 evs0)))) as Hp by (apply (bool_decide_unpack _); by vm_compute).
  assert (is_Some (k_blocks (conf c0 (after (take 4 evs0))) !! (0 / c_bsize c0))) as Hb by (apply (bool_decide_unpack _); by vm_compute).
  exact (lent_store_fails c0 wf0 wm0 0 64 PfArg a (after (take 4 evs0)) Hi Ha Hf Hck Hp Hb).
Defined.
