(* ===== verification/SimpleMemCorrect.v ===== *)
(** What SimpleMemory promises: the constructor gives a memory that serves a flat image,
    requests read and write that image, an epoch change makes a checkpoint of it, and the
    checkpoint ends, after which it is what survives a crash. *)

From Stdlib Require Import QArith Qround.
From S2P Require Import Prelude Profiler StdAlgo MemStore PersistSpec PersistFacts PersistMachine.
From S2P Require Import MigrationSpec AddrTransController AbstractMem MemLaws MemFrame.
From S2P Require Import ControllerInv ControllerOps ControllerStore ControllerAccess ControllerMachine ControllerInit.
From S2P Require Import ControllerRuns Examples AccessCost SimpleMem PacketAccess SimpleMemEvents SimpleMemEpoch.
From S2P Require Import Drift WriteCounts BusLedger SimpleMemRuns.
From S2P Require IntMath AddrRange Request Packet LockedAddr DRAMBanks.
#[global] Open Scope Z_scope.

(** ** Construction *)

Section Construction.
Context (c : Config) (Hc : wf_config c) (Hm : wf_mem c).

(** The parameters of a memory of configuration [c]. *)
Record built (p : SimpleMemoryParams) (PageBytes : Z) : Prop := {
  bl_range : range_ok c (p_range p);
  bl_dram : p_dram_size p = c_dram_size c;
  bl_att : p_att_length p = c_att_len c;
  bl_block : p_block_bits p = c_block_bits c;
  bl_page : p_page_bits p = c_page_bits c;
  bl_pages : c_phy_range c mod PageBytes = 0;
  bl_host : 2 ^ 16 < c_top c ≤ 2 ^ 47;
  bl_hit : 0 < p_latency p < 2 ^ 31;
  bl_miss : 0 < p_latency_miss p < 2 ^ 31;
  bl_read : 0 < p_lat_nvm_read p < 2 ^ 31;
  bl_write : 0 < p_lat_nvm_write p < 2 ^ 31;
}.

Lemma geo_of_ctl k : ctl_geom c k → mig_ok (migrator_ k) → geo_of k = geo_c c.
Proof.
  intros [] Hk. destruct cg_nvm as (N1 & N2 & N3), cg_dram as (D1 & D2 & D3), cg_mig as (M1 & M2 & M3 & M4).
  pose proof (bs_pos _ Hc). pose proof (wf_att _ Hc). pose proof (wf_buf _ Hc). pose proof (wf_page _ Hc). pose proof (wf_bits _ Hc).
  pose proof (wf_dram _ Hc). pose proof (wf_top _ Hc). pose proof (wf_cap _ Hc). pose proof (wm_cap _ Hm).
  pose proof (m_geom _ Hk) as [_ _ _ Hpm _]. assert (2 * (c_att_len c * c_bsize c) < 2 ^ 31) as Hb by lia.
  assert (0 < c_att_len c * c_bsize c) as Hb0 by nia. assert (0 < 2 ^ c_page_bits c < 2 ^ 31) as Hp2
    by (split; [apply pow2_pos|apply Z.pow_lt_mono_r]; lia).
  assert (0 ≤ c_ptt_capacity c) as Hcap by (unfold c_ptt_capacity, c_ptt_length; pose proof (Z.div_pos (c_dram_size c) (2 ^ c_page_bits c) ltac:(lia) ltac:(lia));
    pose proof (Z.div_pos (c_dram_size c / 2 ^ c_page_bits c) 16 ltac:(lia) ltac:(lia)); lia).
  assert (VB.Size (nvm_buffer_ k) = 2 * c_att_len c * c_bsize c) as En
    by (unfold VB.Size; rewrite N2, N3, shiftl_pow2, i32_small, u64_small by (unfold c_bsize in *; lia); done).
  assert (VB.Size (dram_buffer_ k) = c_att_len c * c_bsize c) as Ed
    by (unfold VB.Size; rewrite D2, D3, shiftl_pow2, i32_small, u64_small by (unfold c_bsize in *; lia); done).
  unfold geo_of, geo_c. rewrite En, Ed, D1, Hpm, M2, cg_phy. unfold Size, Mig.dram_capacity, Mig.page_size. rewrite En, Ed, M2, M4, cg_phy.
  unfold c_top in *. rewrite (u64_small (_ + _ + _)) by lia.
  rewrite !shiftl_pow2, (i32_small (1 * _)), (i32_small (c_ptt_capacity c * _)), u64_small by nia. f_equal; lia.
Qed.

(** The state that the constructor gives the banks and the counters. *)
Definition fresh_mem (p : SimpleMemoryParams) (M : gmap Z Z) (capacity : Z) : MemSt :=
  MkMemSt (geo_c c) (Some M) (Banks.new_DDR3Banks capacity) (p_latency p) (p_latency_miss p) (p_lat_nvm_read p)
    (p_lat_nvm_write p) 0 0 0 0 0 0 0 0 0 0 0.

Lemma fresh_mem_ok p PageBytes M n : built p PageBytes → 131072 ≤ n < 2 ^ 48 → mem_ok c (fresh_mem p M n).
Proof. intros [] Hn. split; [done|by eexists|by apply Banks.new_banks_ok|done..]. Qed.

(** The controller that the constructor builds, whatever memory it will work on. *)
Lemma new_ctl junk : ∃ k, new_AddrTransController (c_phy_range c) (c_dram_size c) (c_att_len c) (c_block_bits c) (c_page_bits c) junk tt = Ok (k, tt) ∧
  ∀ st ps, mem_ok c st → ignore_latency_ (sel PfArg ps) = false →
    implements_at c Hc Hm (frame st) (MkSys k st ps []) (init_pmem c (mem_content st)) ∧ geo_of k = geo_c c.
Proof.
  destruct (proj1 (wp_ok _ _ _) (wp_new_AddrTransController c Hc (MemStoreLaws0 := mem_laws c Hc Hm) junk)) as (k & [] & E & Hk).
  exists k. split; [done|]. intros st ps Hst Hign. split.
  - pose proof (new_implements c Hc (MemStoreLaws0 := framed_laws c Hc Hm (frame st)) (MemDeviceLaws0 := framed_device c Hc Hm (frame st)) junk st ps [] (conj Hst eq_refl) Hign) as Hw.
    unfold wp in Hw. by rewrite E in Hw.
  - destruct (Hk st ps [] Hst) as [Hi _]. apply geo_of_ctl; apply Hi.
Qed.

Lemma built_size p PageBytes : built p PageBytes → AddrRange.size (p_range p) = c_phy_range c.
Proof.
  intros [Hr _ _ _ _ _ _ _ _ _ _]. destruct Hr as [[] Hil Hend]. unfold AddrRange.interleaved in Hil.
  apply negb_false_iff, Z.eqb_eq in Hil. unfold AddrRange.size. pose proof (phy_63 c Hc). pose proof (wf_dram _ Hc).
  rewrite Hil, Hend, Z.shiftr_0_r, u64_small; lia.
Qed.

Lemma new_memory p PageBytes junk M : built p PageBytes →
  ∃ m, new_SimpleMemory p PageBytes junk (Some M) = Ok m ∧ serves c Hc Hm m (init_pmem c (mem_byte M)) ∧
    books mod32 true (sys m) ∧ (0 ≤ p_lat_att_operate p → based c m) ∧ (freezeEvent m = None ∧ unfreezeEvent m = None) ∧
    scheduled c 0 m ∧ to_write m = 0%nat ∧ balance m = 0 ∧ idle m ∧ ckptStart m = 0 ∧ ckpt (sys m) = [] ∧
    curTick m = 0 ∧ range m = p_range p.
Proof.
  intros Hb. pose proof (built_size _ _ Hb) as Esz. destruct (new_ctl junk) as (k & Ek & Hk). pose proof Hb as [Hr E1 E2 E3 E4 Hpg Hh _ _ _ _].
  unfold new_SimpleMemory. rewrite Esz, E1, E2, E3, E4, Hpg, Ek. cbn [negb Z.eqb].
  assert (geo_of k = geo_c c) as Eg by (eapply (Hk (fresh_mem p M 262144) (init_Profs (new_Profiler 0 0))); [by eapply fresh_mem_ok|done]).
  assert (Size k = c_top c) as Es by (change (g_size (geo_of k) = c_top c); by rewrite Eg).
  rewrite Es, Eg. destruct (IntMath.ceilLog2_bounds (c_top c)) as (n & -> & Hn & Hlo & Hhi); [lia|].
  assert (16 < n ≤ 47) as Hn'.
  { split.
    - destruct (Z.le_gt_cases n 16) as [Hle|]; [|done]. pose proof (Z.pow_le_mono_r 2 n 16 ltac:(lia) Hle). lia.
    - destruct (Z.le_gt_cases n 47) as [|Hgt]; [done|]. pose proof (Z.pow_le_mono_r 2 47 (n - 1) ltac:(lia) ltac:(lia)). lia. }
  assert (131072 ≤ 2 ^ n ≤ 2 ^ 47) as Hcap
    by (split; [change 131072 with (2 ^ 17)|]; apply Z.pow_le_mono_r; lia).
  rewrite shiftl_pow2, Z.mul_1_l, u64_small by lia. eexists. split; [done|].
  assert (mem_ok c (fresh_mem p M (2 ^ n))) as Hok by (eapply fresh_mem_ok; [done|lia]).
  destruct (Banks.new_banks_idle (2 ^ n)) as [Hidle Hp]. pose proof (wm_page _ Hm). pose proof (wf_bits _ Hc).
  split; [|split; [|split; [|split; [done|split; [|done]]]]].
  - split; [|done]. by apply Hk.
  - apply new_books; [by apply (new_ctl_writes _ _ _ _ _ _ _ _ Ek)|done].
  - done.
  - split; [done|]. change (length _) with 16%nat. pose proof (Z.pow_le_mono_r 2 (c_block_bits c) 13 ltac:(lia) ltac:(lia)). unfold c_bsize. lia.
Qed.

(** The constructor succeeds on any sensible configuration and the memory it builds serves
    the image of its backing store: it accepts requests, no checkpoint is open, no bank
    has work and the bus accounts balance. *)
Theorem new_memory_serves p PageBytes junk M : built p PageBytes →
  ∃ m, new_SimpleMemory p PageBytes junk (Some M) = Ok m ∧ serves c Hc Hm m (init_pmem c (mem_byte M)) ∧
    scheduled c 0 m ∧ to_write m = 0%nat ∧ balance m = 0 ∧ idle m ∧ ckptStart m = 0 ∧ ckpt (sys m) = [] ∧
    curTick m = 0 ∧ range m = p_range p.
Proof. intros Hb. destruct (new_memory p PageBytes junk M Hb) as (m & E & Hs & _ & _ & _ & H). by exists m. Qed.

Lemma new_sound `{HO : HashOrder, HA : HeapAlgo} p PageBytes junk M : built p PageBytes → 0 ≤ p_lat_att_operate p →
  ∃ m, new_SimpleMemory p PageBytes junk (Some M) = Ok m ∧ sound c Hc Hm m (init_pmem c (mem_byte M)).
Proof.
  intros Hb Hop. destruct (new_memory p PageBytes junk M Hb) as (m & E & Hs & Hbk & Hba & He & Hsc & Hw & Hbal & (H1 & _ & H3) & Hst & Hck & Ht & _).
  exists m. split; [done|]. split; [done|by apply Hba|done|lia|]. split; try done; [by rewrite Ht|]. unfold latched. rewrite H1, H3. split; [done|by intros [? ?]].
Qed.

End Construction.

(** ** Requests *)

Section Correct.
Context (c : Config) (Hc : wf_config c) (Hm : wf_mem c).
Context `{HO : HashOrder, HA : HeapAlgo}.

Abbreviation serves := (serves c Hc Hm).
Abbreviation bs := (c_bsize c).

(** C11: A block read that reaches an idle memory is accepted, and the response that is queued
    carries the block of the image at the packet's address, whatever the tables, the
    migration and the checkpoint in progress have done with it; the image, the schedule
    of the banks and the rest of the request state stay as they are. *)
Theorem timing_read rnd m pkt d P : serves m P → block_request c m pkt d → Pkt.pkt_isRead pkt = true →
  Pkt.pkt_isWrite pkt = false → idle m → in_time m bs →
  ∃ m', recvTimingReq rnd pkt m = Ok (true, m') ∧ serves m' P ∧ frame (mem_of m') = frame (mem_of m) ∧
    queued m m' (Pkt.set_data (Some (image c P (local m pkt))) pkt) ∧ undisturbed m m'.
Proof.
  intros Hs Hb Hr Hw Hi Ht. destruct (proj1 (wp_ok _ _ _) (wp_recv_read c Hc Hm _ rnd m pkt d P Hs Hb Hr Hw Hi Ht)) as (b & m' & E & -> & Ha).
  exists m'. destruct Ha as (Hok & Hu & Hq & _). destruct (sm_serves c Hc Hm _ _ _ Hok). done.
Qed.



(** ** Checkpoints *)

(** C13: The freeze event begins the checkpoint of the image and hands every listed block to
    the banks: if there is one, the writes are under way and the unfreeze event is set for
    their end; if there is none, the checkpoint is finished on the spot. The memory
    is open for requests again, and whoever was turned down is told to retry. *)
Theorem freeze_begins m P : closing c Hc Hm m P → 0 ≤ curTick m → curTick m + latency (mem_of m) < 2 ^ 64 - 1 →
  ∃ m' n b, freeze m = Ok (tt, m') ∧ begun c Hc Hm n b m m' P.
Proof.
  intros Hcl Hnow Hmax. destruct (proj1 (wp_ok _ _ _) (wp_freeze c Hc Hm m P Hcl Hnow Hmax)) as ([] & m' & E & n & b & Hb). by exists m', n, b.
Qed.

(** C12: The checkpoint ends: the unfreeze event comes once per round of writes and one last
    time, at most as many rounds as there are blocks left; no assertion of the code
    fails, every block has been written, the bus accounts balance, the image at
    the start of the checkpoint is the recovery point, and a waiting request is told to retry. *)
Theorem checkpoint_ends t m P fuel : checkpointing c Hc Hm t m P → 0 ≤ t → (to_write m < fuel)%nat →
  t + (Z.of_nat (to_write m) + 1) * latency (mem_of m) < 2 ^ 64 - 1 → 0 ≤ bytesChannel m < 2 ^ 64 →
  ∃ m', unfreeze_all fuel m = Ok (tt, m') ∧ serves m' (p_finish P) ∧ unfreezeEvent m' = None ∧
    to_write m' = 0%nat ∧ balance m' = 0 ∧ ckptStart m' = 0 ∧ waitStart m' = 0 ∧
    sent m' = sent m ++ (if isWait m then [SentRetry] else []) ∧
    t ≤ curTick m' ≤ t + Z.of_nat (to_write m) * latency (mem_of m).
Proof.
  intros Hck Ht Hf Hmax Hby. destruct (proj1 (wp_ok _ _ _) (wp_unfreeze_all c Hc Hm fuel t m P Hck Ht Hf Hmax Hby)) as ([] & m' & E & H).
  exists m'. tauto.
Qed.

(** C14: Requests do not get in the way of a checkpoint: a block write that [Probe] judges
    right ([judged]: its address is not the tag of another block and its block is not
    lent) and whose page counter is not at its maximum does not fail then; it is
    performed, or it waits for the end, and in either case the round that is under way
    ends at the same time with the same blocks left to write. *)
Theorem write_keeps_rounds rnd m pkt d P t : checkpointing c Hc Hm t m P → block_request c m pkt d →
  Pkt.pkt_isRead pkt = false → Pkt.pkt_isWrite pkt = true → Req.isInstFetch (Pkt.req pkt) = false →
  AddrRange._start (range m) = 0 → judged c (MemStoreLaws0 := mem_laws c Hc Hm) (sys m) (local m pkt) →
  countable c (sys m) (local m pkt) → idle m → in_time m bs → 0 < curTick m →
  ∃ b m', recvTimingReq rnd pkt m = Ok (b, m') ∧ to_write m' = to_write m ∧ (b = false → isWait m' = true) ∧
    checkpointing c Hc Hm t m' (if b && performed m pkt then p_store (local m pkt) d P else P).
Proof.
  intros Hck Hb Hr Hw Hf H0 Hj HG Hi Ht Hnow. pose proof (ck_phase _ _ _ _ _ _ Hck) as Hph.
  pose proof (wpc_recv_write c Hc Hm _ rnd m pkt d P (ck_serves _ _ _ _ _ _ Hck) Hb Hr Hw Hf H0 ltac:(congruence) Hj HG Hi Ht ltac:(congruence)) as H.
  unfold wpc in H. destruct (recvTimingReq rnd pkt m) as [[[] m']|e]; [| |destruct H as (_ & H & _); congruence].
  - exists true, m'. edestruct (accepted_checkpointing c Hc Hm t m m' P) as [Hck' Ew]; [exact Hck| |exact H|]; [by destruct (performed m pkt)|].
    done.
  - exists false, m'. destruct H as [[? _]|[_ H]]; [congruence|].
    destruct (waiting_checkpointing c Hc Hm t m m' P Hck H). split_and!; [done|done| |done]. intros _.
    destruct H as (_ & (_ & _ & E & _) & _). unfold isWait. rewrite E. cbn [waitStart set_waitStart]. destruct (Z.eqb_spec (waitStart m) 0) as [Ew|Ew].
    + by apply negb_true_iff, Z.eqb_neq; lia.
    + by apply negb_true_iff, Z.eqb_neq.
Qed.

(** ** Runs *)


(** C5: A crash at any point of such a run, in the middle of a checkpoint too, loses nothing
    of the last complete checkpoint of the blocks that stayed out of the page cache. *)
Theorem memory_crash_consistent p PageBytes junk M l m bs m' : built c p PageBytes → 0 ≤ p_lat_att_operate p → 0 < c_block_bits c →
  new_SimpleMemory p PageBytes junk (Some M) = Ok m → permitted c Hc Hm l m → drive l m = Ok (bs, m') →
  ∃ P', history c m (init_pmem c (mem_byte M)) l m' P' ∧
    ∀ t, p_safe P' t → survives c (conf c (MemStoreLaws0 := mem_laws c Hc Hm) (sys m')) (p_last P') t.
Proof.
  intros Hb Hop HB Em Hp Ed. destruct (new_sound c Hc Hm p PageBytes junk M Hb Hop) as (m0 & E & Hs). assert (m0 = m) as -> by congruence.
  pose proof (drive_sound c Hc Hm HB l m _ Hs Hp) as H. rewrite Ed in H. destruct H as (P' & Hh & Hs'). exists P'. split; [done|].
  intros t. by apply sound_survives.
Qed.

(** C6: The accounts that [freeze] and [unfreeze] compare. In a permitted run, whenever an epoch change is under
    way, the writes that the memory counted since the last one are those that the blocks
    and pages counted, NVM and DRAM apart; together they are the hits, misses and page
    writes of the statistics; and the bytes moved on the bus are those of the blocks
    listed for the checkpoint. *)
Theorem memory_accounts p PageBytes junk M l m bs m' t : built c p PageBytes → 0 ≤ p_lat_att_operate p → 0 < c_block_bits c →
  new_SimpleMemory p PageBytes junk (Some M) = Ok m → permitted c Hc Hm l m → drive l m = Ok (bs, m') →
  freezeEvent m' = Some t → numNVMWrites (mem_of m') + numDRAMWrites (mem_of m') < 2 ^ 64 →
  numNVMWrites (mem_of m') = Mig.total_nvm_writes_ (migrator_ (ctl_of m')) ∧
  numDRAMWrites (mem_of m') = Mig.total_dram_writes_ (migrator_ (ctl_of m')) ∧
  numNVMWrites (mem_of m') + numDRAMWrites (mem_of m') =
    numATTWriteHits (mem_of m') + numATTWriteMisses (mem_of m') + ckDRAMWriteHits (mem_of m') ∧
  balance m' = u64 (c_bsize c * Z.of_nat (length (ckpt (sys m')))).
Proof.
  intros Hb Hop HB Em Hp Ed Ef Hn. destruct (new_sound c Hc Hm p PageBytes junk M Hb Hop) as (m0 & E & Hs). assert (m0 = m) as -> by congruence.
  pose proof (drive_sound c Hc Hm HB l m _ Hs Hp) as H. rewrite Ed in H. destruct H as (P' & _ & Hs').
  apply sound_closed in Hs' as [Hk Hbal]; [|by eexists]. destruct (books_agree _ Hk Hn) as (H1 & H2 & H3). done.
Qed.

(** C39: A checkpoint with nothing to write is the last one. When the freeze event finds no
    block to write, so that no unfreeze event is scheduled, the checkpoint is finished but
    the time of its start stays noted; nothing that reaches the memory afterwards clears
    it, and every later epoch change fails: on a memory that serves an image while the
    epoch runs, with the assertion of [setCkptStart]. *)
Theorem empty_checkpoint_fails m m' : fire EvFreeze m = Ok (tt, m') → unfreezeEvent m' = None → ckptStart m ≠ 0 →
  in_checkpointing_ (ctl_of m') = false ∧
  ∀ l answers m2, drive l m' = Ok (answers, m2) →
    ckptStart m2 = ckptStart m ∧ freezeEvent m2 = None ∧ (∀ r, new_epoch m2 ≠ Ok r) ∧
    (∀ P, serves m2 P → p_phase P = PersistMachine.Running → ckpt (sys m2) = [] → 0 ≤ op_latency_ (profBase m2) →
       new_epoch m2 = Err (EAssert "SimpleMemory::setCkptStart")).
Proof.
  intros E Hu Hst. unfold fire in E. apply bind_Ok in E as (m0 & m1 & E1 & E). injection E1 as <- <-.
  apply bind_Ok in E as (t & m1 & E1 & E). unfold of_option in E1. destruct (freezeEvent m); [|done]. injection E1 as <- <-.
  apply bind_Ok in E as ([] & m3 & E3 & E). injection E3 as <-. split; [by eapply freeze_empty|].
  apply freeze_marks in E as [E1 E2]. cbn [ckptStart freezeEvent set_freezeEvent set_curTick] in *.
  intros l answers m2 Hd. destruct (drive_stays l m' _ _ Hd) as [(H1 & H2 & H3) H4]; [unfold stuck; by rewrite E1, E2|].
  rewrite E1 in H4. split_and!; [done|done|intros [r m3]; by apply new_epoch_fails|].
  intros P Hs Hph Hck Hop. by apply (new_epoch_noted c Hc Hm (frame (mem_of m2)) m2 P).
Qed.

End Correct.

(** ** A small memory *)

(** 128 KiB over a table of four entries, with pages of [2 ^ bits] bytes, seven ticks after
    the start. *)
Definition params0 (bits : Z) : SimpleMemoryParams :=
  MkParams (AddrRange.AddrRange_of 0 131071) 1024 4 6 bits 30 60 5 50 100 0 (1 # 100).

Definition smem0 (bits : Z) : res SimpleMemory :=
  match new_SimpleMemory (params0 bits) 4096 junk0 (Some ∅) with Ok m => Ok (set_curTick 7 m) | Err e => Err e end.

Definition request0 (cmd : Pkt.MemCmd.Command) (a : Z) (d : list Z) : Pkt.Packet :=
  Pkt.MkPacket (Z.lor (Z.lor Pkt.PVALID_ADDR Pkt.PVALID_SIZE) Pkt.STATIC_DATA) cmd
    (Req.set_privateFlags (Z.lor Req.VALID_PADDR Req.VALID_CONTEXT_ID) (Req.set_paddr a Req.blank)) (Some d) a 64 0
    Pkt.InvalidPortID Pkt.MemCmd.InvalidCmd 0 0 0 0 [].
Definition write0 (a : Z) : input := Request (request0 Pkt.MemCmd.WriteReq a (block0 3)).

(** The answers of a run. *)
Definition answers (bits : Z) (l : list input) : res (list bool) :=
  match smem0 bits with Ok m => match drive l m with Ok (bs, _) => Ok bs | Err e => Err e end | Err e => Err e end.

(** ** Witnesses *)

(** With pages of four blocks, four scattered blocks fill the table; the fifth starts an
    epoch change in which no page is dense enough to migrate and the dirty blocks are in
    their slots already. *)
Definition scattered0 : SimpleMemory :=
  let m := the_ok (smem0 8) in match drive (write0 <$> [1024; 2048; 4096; 8192; 16384]) m with Ok (_, m') => m' | Err _ => m end.

Definition noted (e : error) : bool := match e with EAssert site => String.eqb site "SimpleMemory::setCkptStart" | _ => false end.

(** The freeze event finds nothing to write; four writes later the table is full again. *)
Definition scattered0_run (m : SimpleMemory) : bool :=
  match fire EvFreeze m with
  | Ok (_, m') => bool_decide (unfreezeEvent m' = None) && (ckptStart m =? 7) &&
      match drive (write0 <$> [16384; 1024; 2048; 4096]) m' with
      | Ok (answers, m2) => bool_decide (answers = [true; true; true; true]) &&
          match handle (write0 8192) m2 with Err e => noted e | Ok _ => false end
      | Err _ => false
      end
  | Err _ => false
  end.

Lemma scattered0_run_ok m : scattered0_run m = true → ∃ m' m2, fire EvFreeze m = Ok (tt, m') ∧ unfreezeEvent m' = None ∧ ckptStart m = 7 ∧
  drive (write0 <$> [16384; 1024; 2048; 4096]) m' = Ok ([true; true; true; true], m2) ∧
  handle (write0 8192) m2 = Err (EAssert "SimpleMemory::setCkptStart").
Proof.
  unfold scattered0_run. destruct (fire EvFreeze m) as [[[] m']|] eqn:E1; [|done]. rewrite !andb_true_iff, bool_decide_eq_true, Z.eqb_eq.
  intros [[Hu Hst] H]. destruct (drive _ m') as [[answers m2]|] eqn:E2; [|done].
  apply andb_true_iff in H as [->%bool_decide_eq_true H]. destruct (handle (write0 8192) m2) as [|[site| | |]] eqn:E3; try done.
  apply String.eqb_eq in H as ->. by exists m', m2.
Qed.

Lemma scattered0_runs : scattered0_run scattered0 = true.
Proof. by vm_compute. Qed.

Lemma empty_checkpoint_fails_witness : ∃ m' m2, fire EvFreeze scattered0 = Ok (tt, m') ∧ in_checkpointing_ (ctl_of m') = false ∧
  drive (write0 <$> [16384; 1024; 2048; 4096]) m' = Ok ([true; true; true; true], m2) ∧
  ckptStart m2 = 7 ∧ (∀ r, new_epoch m2 ≠ Ok r) ∧ handle (write0 8192) m2 = Err (EAssert "SimpleMemory::setCkptStart").
Proof.
  destruct (scattered0_run_ok scattered0 scattered0_runs) as (m' & m2 & E1 & Hu & Hst & E2 & E3).
  destruct (empty_checkpoint_fails c0 wf0 wm0 scattered0 m' E1 Hu ltac:(rewrite Hst; discriminate)) as [Hck Hrun].
  destruct (Hrun _ _ _ E2) as (H1 & _ & H2 & _). exists m', m2. split_and!; [assumption..|rewrite H1; exact Hst|assumption|assumption].
Defined.

Lemma params0_built : built c0 (params0 7) 4096.
Proof.
  by split; try (by vm_compute); split.
Qed.

Lemma new_memory_serves_witness :
  ∃ m, new_SimpleMemory (params0 7) 4096 junk0 (Some ∅) = Ok m ∧ serves c0 wf0 wm0 m (init_pmem c0 (mem_byte ∅)) ∧
    scheduled c0 0 m ∧ to_write m = 0%nat ∧ balance m = 0 ∧ idle m ∧ ckptStart m = 0 ∧ ckpt (sys m) = [] ∧
    curTick m = 0 ∧ range m = p_range (params0 7).
Proof. apply (new_memory_serves c0 wf0 wm0 (params0 7) 4096 junk0 ∅). exact params0_built. Defined.

Definition m0 : SimpleMemory := the_ok (smem0 7).
Definition image0 : PMem := init_pmem c0 (mem_byte ∅).

Lemma tick_serves m P t : serves c0 wf0 wm0 m P → serves c0 wf0 wm0 (set_curTick t m) P.
Proof. by intros []. Qed.

Lemma m0_serves : serves c0 wf0 wm0 m0 image0.
Proof.
  destruct (new_memory c0 wf0 wm0 (params0 7) 4096 junk0 ∅ params0_built) as (m & E & Hs & _).
  assert (smem0 7 = Ok (set_curTick 7 m)) as E0 by (unfold smem0; by rewrite E).
  assert (smem0 7 = Ok m0) as E1 by (by vm_compute). assert (m0 = set_curTick 7 m) as -> by congruence.
  exact (tick_serves m image0 7 Hs).
Qed.

Definition write_pkt (a : Z) : Pkt.Packet := request0 Pkt.MemCmd.WriteReq a (block0 3).
Definition read_pkt (a : Z) : Pkt.Packet := request0 Pkt.MemCmd.ReadReq a (block0 0).

#[local] Instance range_eq_dec : EqDecision AddrRange.AddrRange.
Proof. solve_decision. Defined.

(** What the evaluation of a state has to show for a request to be served. *)
Definition open0 (m : SimpleMemory) (a : Z) : bool :=
  bool_decide (range m = AddrRange.AddrRange_of 0 131071) && ((0 <=? a) && (a <? 131072) && (a mod 64 =? 0)) &&
  (negb (isBusy m) && negb (retryReq m) && bool_decide (releaseEvent m = None)) &&
  ((0 <? curTick m) && (curTick m <? 2 ^ 32) && Qeq_bool (bandwidth m) (1 # 100) && (op_latency_ (profBase m) =? 5)).

Definition fits0 (m : SimpleMemory) (a : Z) : bool :=
  bool_decide (k_blocks (conf c0 (sys m)) !! a = None) &&
  (negb (in_checkpointing_ (ctl_of m)) || bool_decide (k_blocks (conf c0 (sys m)) !! (a / 64) = None)) && countableb (sys m) a.

Definition running0 (m : SimpleMemory) : bool :=
  bool_decide (ckpt (sys m) = []) && (ckptStart m =? 0) && bool_decide (freezeEvent m = None).

Lemma open0_idle m a : open0 m a = true → range m = AddrRange.AddrRange_of 0 131071 ∧ (0 ≤ a < 131072 ∧ a mod 64 = 0) ∧
  idle m ∧ in_time m 64 ∧ 0 < curTick m.
Proof.
  unfold open0. rewrite !andb_true_iff, !bool_decide_eq_true, !negb_true_iff, !Z.leb_le, !Z.ltb_lt, !Z.eqb_eq, Qeq_bool_iff.
  intros [[[Er [[H1 H2] H3]] [[H4 H5] H6]] [[[H7 H8] H9] H10]]. split_and!; try done. 
  assert (Qfloor (inject_Z 64 * bandwidth m) = 0) as E by (rewrite H9; by vm_compute).
  split; rewrite ?E, ?H10; lia.
Qed.

Lemma request0_ok m cmd a d : open0 m a = true → Z.of_nat (length d) = 64 →
  block_request c0 m (request0 cmd a d) d ∧ local m (request0 cmd a d) = a.
Proof.
  intros Ho Hd. destruct (open0_idle m a Ho) as (Er & [Ha Hal] & _). split.
  - split; rewrite ?Er; try done; cbn; [lia|lia|by rewrite Z.sub_0_r].
  - unfold local. rewrite Er. cbn. lia.
Qed.

Lemma fits0_judged m a : fits0 m a = true → judged c0 (sys m) a.
Proof.
  unfold fits0. rewrite !andb_true_iff, orb_true_iff, negb_true_iff, !bool_decide_eq_true. intros [[H1 H2] _]. by apply judged_none.
Qed.

Lemma fits0_countable m a : fits0 m a = true → countable c0 (sys m) a.
Proof. unfold fits0. rewrite !andb_true_iff. intros [_ H]. by apply countableb_ok. Qed.

Lemma running0_ok m : running0 m = true → ckpt (sys m) = [] ∧ ckptStart m = 0 ∧ freezeEvent m = None.
Proof. unfold running0. rewrite !andb_true_iff, !bool_decide_eq_true, Z.eqb_eq. tauto. Qed.

(** A write to a memory that evaluates to one that can serve it. *)
Lemma write_step m P a : serves c0 wf0 wm0 m P → p_phase P = PersistMachine.Running →
  open0 m a && fits0 m a && running0 m = true →
  wpc True (recvTimingReq 0 (write_pkt a)) (λ b m',
    if b then serves c0 wf0 wm0 m' (if performed m (write_pkt a) then p_store a (block0 3) P else P)
    else epoch_started c0 wf0 wm0 (frame (mem_of m)) m m' P) m.
Proof.
  intros Hs Hph Hr. rewrite !andb_true_iff in Hr. destruct Hr as [[Ho Hf] Hrun].
  destruct (request0_ok m Pkt.MemCmd.WriteReq a (block0 3) Ho eq_refl) as [Hb El].
  destruct (open0_idle m a Ho) as (Er & _ & Hi & Ht & _). fold (write_pkt a) in *.
  pose proof (wpc_recv_write c0 wf0 wm0 _ 0 m (write_pkt a) (block0 3) P Hs Hb eq_refl eq_refl eq_refl) as H.
  rewrite El, Er in H. specialize (H eq_refl ltac:(congruence) (fits0_judged m a Hf) (fits0_countable m a Hf) Hi Ht (λ _, running0_ok m Hrun)).
  eapply wpc_mono; [exact H|done|]. intros [] m' Hm'; [|destruct Hm' as [[_ ?]|[? _]]; [done|congruence]].
  destruct Hm' as (Hok & _). exact (proj1 (sm_serves c0 wf0 wm0 _ _ _ Hok)).
Qed.

Definition after_write (m : SimpleMemory) (a : Z) : SimpleMemory :=
  match recvTimingReq 0 (write_pkt a) m with Ok (_, m') => m' | Err _ => m end.

(** All writes of a list are performed. *)
Fixpoint performs (m : SimpleMemory) (l : list Z) : bool :=
  match l with
  | [] => true
  | a :: l' =>
      open0 m a && fits0 m a && running0 m && performed m (write_pkt a) &&
      match recvTimingReq 0 (write_pkt a) m with Ok (true, m') => performs m' l' | _ => false end
  end.

Lemma performs_serves l m P : serves c0 wf0 wm0 m P → p_phase P = PersistMachine.Running → performs m l = true →
  let P' := foldl (λ P a, p_store a (block0 3) P) P l in
  serves c0 wf0 wm0 (foldl after_write m l) P' ∧ p_phase P' = PersistMachine.Running.
Proof.
  revert m P. induction l as [|a l IH]; intros m P Hs Hph; [done|]. cbn [performs foldl]. rewrite andb_true_iff. intros [H Hrest].
  rewrite andb_true_iff in H. destruct H as [H Hp]. pose proof (write_step m P a Hs Hph H) as Hw. unfold wpc in Hw. unfold after_write at 2.
  destruct (recvTimingReq 0 (write_pkt a) m) as [[[] m']|]; [|done|done]. rewrite Hp in Hw. by apply IH.
Qed.

Definition m4 : SimpleMemory := foldl after_write m0 [1024; 2048; 4096; 8192].
Definition image4 : PMem := foldl (λ P a, p_store a (block0 3) P) image0 [1024; 2048; 4096; 8192].

Lemma m4_serves : serves c0 wf0 wm0 m4 image4 ∧ p_phase image4 = PersistMachine.Running.
Proof. apply (performs_serves _ m0 image0 m0_serves eq_refl). by vm_compute. Qed.

(** The fifth write starts an epoch change; then the freeze event fires. *)
Definition m5 : SimpleMemory := after_write m4 16384.
Definition m6 : SimpleMemory := set_freezeEvent None (set_curTick (default 0 (freezeEvent m5)) m5).

Lemma freeze_serves m P t : serves c0 wf0 wm0 m P → serves c0 wf0 wm0 (set_freezeEvent None (set_curTick t m)) P.
Proof. by intros []. Qed.

Definition idle_byb (t : Z) (d : Banks.DRAMBanks) : bool := forallb (λ b, Banks.busy_time_ b <=? t) (mjoin (Banks.banks_ d)).

Definition scheduledb (t : Z) (m : SimpleMemory) : bool :=
  idle_byb t (banks (mem_of m)) && (64 * Z.of_nat (length (mjoin (Banks.banks_ (banks (mem_of m))))) <? 2 ^ 31).

Lemma scheduledb_ok t m : scheduledb t m = true → scheduled c0 t m.
Proof.
  unfold scheduledb, idle_byb. rewrite andb_true_iff, Z.ltb_lt, forallb_forall. intros [H1 H2]. split; [|done].
  apply Forall_forall. intros b Hb. apply Z.leb_le, H1. by apply list_elem_of_In.
Qed.

Definition closing0 (m : SimpleMemory) : bool :=
  isBusy m && bool_decide (unfreezeEvent m = None) && scheduledb (curTick m - 1) m && (to_write m =? 0)%nat &&
  (let st := mem_of m in let mig := migrator_ (ctl_of m) in
   (numNVMWrites st =? Mig.total_nvm_writes_ mig) && (numDRAMWrites st =? Mig.total_dram_writes_ mig) &&
   (numNVMWrites st + numDRAMWrites st =? numATTWriteHits st + numATTWriteMisses st + ckDRAMWriteHits st)).

Lemma closing0_ok m P : serves c0 wf0 wm0 m P → p_phase P = Migrated → closing0 m = true → closing c0 wf0 wm0 m P.
Proof.
  unfold closing0. rewrite !andb_true_iff, bool_decide_eq_true, Nat.eqb_eq, !Z.eqb_eq.
  intros Hs Hph [[[[H1 H2] H3%scheduledb_ok] H4] [[H5 H6] H7]]. by split.
Qed.

Lemma after_write_refused m a :
  match recvTimingReq 0 (write_pkt a) m with Ok (false, _) => true | _ => false end = true →
  recvTimingReq 0 (write_pkt a) m = Ok (false, after_write m a).
Proof. unfold after_write. by destruct (recvTimingReq 0 (write_pkt a) m) as [[[] m']|]. Qed.

Lemma m5_starts : recvTimingReq 0 (write_pkt 16384) m4 = Ok (false, m5).
Proof. apply after_write_refused. by vm_compute. Qed.

Lemma m4_writes : open0 m4 16384 && fits0 m4 16384 && running0 m4 = true.
Proof. by vm_compute. Qed.

Lemma m6_closes : closing0 m6 = true.
Proof. by vm_compute. Qed.

Lemma m6_closing : ∃ P, closing c0 wf0 wm0 m6 P.
Proof.
  destruct m4_serves as [Hs Hph].
  destruct (wpc_ok _ _ _ _ _ _ (write_step m4 image4 16384 Hs Hph m4_writes) m5_starts) as ([mvs Hok] & _). exists (p_migrate c0 mvs image4).
  destruct (sm_serves c0 wf0 wm0 _ _ _ Hok) as [Hs5 _].
  exact (closing0_ok m6 _ (freeze_serves m5 _ _ Hs5) eq_refl m6_closes).
Qed.

Lemma freeze_begins_witness : ∃ P m' n b, freeze m6 = Ok (tt, m') ∧ begun c0 wf0 wm0 n b m6 m' P.
Proof. destruct m6_closing as [P Hcl]. exists P. apply (freeze_begins c0 wf0 wm0 m6 P Hcl); by vm_compute. Defined.

Lemma timing_read_witness :
  ∃ m', recvTimingReq 0 (read_pkt 2048) m4 = Ok (true, m') ∧ serves c0 wf0 wm0 m' image4 ∧
    frame (mem_of m') = frame (mem_of m4) ∧
    queued m4 m' (Pkt.set_data (Some (image c0 image4 (local m4 (read_pkt 2048)))) (read_pkt 2048)) ∧ undisturbed m4 m'.
Proof.
  destruct m4_serves as [Hs _]. assert (open0 m4 2048 = true) as Ho by (by vm_compute).
  destruct (request0_ok m4 Pkt.MemCmd.ReadReq 2048 (block0 0) Ho eq_refl) as [Hb _]. destruct (open0_idle m4 2048 Ho) as (_ & _ & Hi & Ht & _).
  exact (timing_read c0 wf0 wm0 0 m4 (read_pkt 2048) (block0 0) image4 Hs Hb eq_refl eq_refl Hi Ht).
Defined.


(** The checkpoint is being written. *)
Definition after_freeze (m : SimpleMemory) : SimpleMemory := match freeze m with Ok (_, m') => m' | Err _ => m end.
Abbreviation m7 := (after_freeze m6).

Definition checkpointing0 (t : Z) (m : SimpleMemory) : bool :=
  bool_decide (unfreezeEvent m = Some t) && scheduledb t m && (balance m =? u64 (64 * Z.of_nat (to_write m + ending t m))) &&
  (0 <? ckptStart m).

Lemma m7_evaluates : checkpointing0 162 m7 = true ∧ open0 m7 16384 = true ∧ fits0 m7 16384 = true ∧
  (to_write m7 = 10%nat ∧ latency (mem_of m7) = 30 ∧ bytesChannel m7 = 1024) ∧
  (0 <=? curTick m6) && (curTick m6 + latency (mem_of m6) <? 2 ^ 32) = true.
Proof. by vm_compute. Qed.

Lemma checkpointing0_ok t m P : serves c0 wf0 wm0 m P → p_phase P = Checkpointing → checkpointing0 t m = true →
  checkpointing c0 wf0 wm0 t m P.
Proof.
  unfold checkpointing0. rewrite !andb_true_iff, bool_decide_eq_true, Z.eqb_eq, Z.ltb_lt.
  intros Hs Hph [[[H1 H2%scheduledb_ok] H3] H4]. by split.
Qed.

Lemma freeze_run m m' : freeze m = Ok (tt, m') → m' = after_freeze m.
Proof. unfold after_freeze. intros E. by rewrite E. Qed.

Lemma m7_checkpointing : ∃ P, checkpointing c0 wf0 wm0 162 m7 P.
Proof.
  destruct m6_closing as [P Hcl]. destruct m7_evaluates as (Hck & _ & _ & (Hw & _) & [H1%Z.leb_le H2%Z.ltb_lt]%andb_true_iff).
  destruct (proj1 (wp_ok _ _ _) (wp_freeze c0 wf0 wm0 m6 P Hcl H1 ltac:(lia))) as ([] & m' & E & n & b & Hb).
  apply freeze_run in E. subst m'.
  pose proof (bg_blocks _ _ _ _ _ _ _ _ Hb) as Hn. rewrite Hw in Hn. pose proof (bg_serves _ _ _ _ _ _ _ _ Hb) as Hs.
  exists (p_begin c0 P). apply checkpointing0_ok; [by destruct n|done|done].
Qed.

Lemma checkpoint_ends_witness : ∃ P m', unfreeze_all 11 m7 = Ok (tt, m') ∧ serves c0 wf0 wm0 m' (p_finish P) ∧ unfreezeEvent m' = None ∧
  to_write m' = 0%nat ∧ balance m' = 0 ∧ ckptStart m' = 0 ∧ waitStart m' = 0 ∧
  sent m' = sent m7 ++ (if isWait m7 then [SentRetry] else []) ∧
  162 ≤ curTick m' ≤ 162 + Z.of_nat (to_write m7) * latency (mem_of m7).
Proof.
  destruct m7_checkpointing as [P Hck]. exists P. destruct m7_evaluates as (_ & _ & _ & (Hw & Hl & Hb) & _).
  apply (checkpoint_ends c0 wf0 wm0 162 m7 P 11 Hck); rewrite ?Hw, ?Hl, ?Hb; lia.
Defined.

Lemma write_keeps_rounds_witness : ∃ P b m', recvTimingReq 0 (write_pkt 16384) m7 = Ok (b, m') ∧ to_write m' = to_write m7 ∧
  (b = false → isWait m' = true) ∧
  checkpointing c0 wf0 wm0 162 m' (if b && performed m7 (write_pkt 16384) then p_store (local m7 (write_pkt 16384)) (block0 3) P else P).
Proof.
  destruct m7_checkpointing as [P Hck]. exists P. destruct m7_evaluates as (_ & Ho & Hf & _ & _).
  destruct (request0_ok m7 Pkt.MemCmd.WriteReq 16384 (block0 3) Ho eq_refl) as [Hb El]. fold (write_pkt 16384) in Hb, El.
  destruct (open0_idle m7 16384 Ho) as (Er & _ & Hi & Ht & Hnow).
  assert (judged c0 (sys m7) (local m7 (write_pkt 16384))) as Hj by (rewrite El; exact (fits0_judged m7 16384 Hf)).
  assert (countable c0 (sys m7) (local m7 (write_pkt 16384))) as HG by (rewrite El; exact (fits0_countable m7 16384 Hf)).
  refine (write_keeps_rounds c0 wf0 wm0 0 m7 (write_pkt 16384) (block0 3) P 162 Hck Hb eq_refl eq_refl eq_refl _ Hj HG Hi Ht Hnow).
  by rewrite Er.
Defined.

(** A run through a whole checkpoint, given by what reaches the memory. *)
Inductive move := W (a : Z) | R (a : Z) | Freeze | Unfreeze | T (t : Z).

Definition to_input (v : move) : input :=
  match v with
  | W a => Request (write_pkt a) | R a => Request (read_pkt a) | Freeze => Event EvFreeze | Unfreeze => Event EvUnfreeze | T t => Pass t
  end.

Definition has {A} (o : option A) : bool := match o with Some _ => true | None => false end.

(** The counters of the epoch, evaluated. *)
Definition lightb (s : Sys MemSt) : bool :=
  forallb (λ n, 0 <=? n) (counts (att_ (ctl s))) && (att_writes (att_ (ctl s)) <? 2 ^ 31 - 1) &&
  (0 <=? ptt_writes (migrator_ (ctl s))) && (ptt_writes (migrator_ (ctl s)) <? 2 ^ 31 - 1) &&
  (u64 (numNVMWrites (store s) - Mig.total_nvm_writes_ (migrator_ (ctl s))) <? 2 ^ 31 - 1) &&
  (u64 (numDRAMWrites (store s) - Mig.total_dram_writes_ (migrator_ (ctl s))) <? 2 ^ 31 - 1).

Lemma lightb_ok s : lightb s = true → light s.
Proof.
  unfold lightb. rewrite !andb_true_iff, !Z.leb_le, !Z.ltb_lt, forallb_forall. intros [[[[[H1 H2] H3] H4] H5] H6].
  split; try done. apply Forall_forall. intros n Hn. apply Z.leb_le, H1. by apply list_elem_of_In.
Qed.

Definition movable (m : SimpleMemory) (v : move) : bool :=
  match v with
  | W a => open0 m a && fits0 m a && lightb (sys m)
  | R a => open0 m a
  | Freeze =>
      match freezeEvent m with
      | Some t => (curTick m <=? t) && (ckptStart m <? t) && (t + latency (mem_of m) <? 2 ^ 32) &&
          (numNVMWrites (mem_of m) + numDRAMWrites (mem_of m) <? 2 ^ 32) &&
          match fire EvFreeze m with Ok (_, m') => has (unfreezeEvent m') | Err _ => true end
      | None => false
      end
  | Unfreeze =>
      match unfreezeEvent m with
      | Some t => (curTick m <=? t) && (t + latency (mem_of m) <? 2 ^ 32) && (0 <=? bytesChannel m) && (bytesChannel m <? 2 ^ 32)
      | None => false
      end
  | T t => curTick m <=? t
  end.

Lemma movable_allowed m v : movable m v = true → allowed c0 wf0 wm0 m (to_input v).
Proof.
  destruct v as [a|a| | |t]; cbn [movable to_input allowed].
  - rewrite !andb_true_iff. intros [[Ho Hf] Hl]. destruct (request0_ok m Pkt.MemCmd.WriteReq a (block0 3) Ho eq_refl) as [Hb El].
    destruct (open0_idle m a Ho) as (Er & _ & _ & Ht & Hnow). split; [exact Hb|by split|right]. fold (write_pkt a) in El. rewrite El, Er.
    split_and!; try done; [exact (fits0_judged m a Hf)|by apply lightb_ok].
  - intros Ho. destruct (request0_ok m Pkt.MemCmd.ReadReq a (block0 0) Ho eq_refl) as [Hb El].
    destruct (open0_idle m a Ho) as (Er & _ & _ & Ht & Hnow). split; [exact Hb|by split|by left].
  - destruct (freezeEvent m) as [t|]; [|done]. rewrite !andb_true_iff, !Z.leb_le, !Z.ltb_lt. intros [[[[H1 H2] H3] H4] H5]. exists t.
    split_and!; [done|done|done|lia|lia|]. intros m' E. rewrite E in H5. destruct (unfreezeEvent m'); [by eexists|done].
  - destruct (unfreezeEvent m) as [t|]; [|done]. rewrite !andb_true_iff, !Z.leb_le, !Z.ltb_lt. intros [[[H1 H2] H3] H4]. exists t. split_and!; done || lia.
  - apply Z.leb_le.
Qed.

(** Every input is allowed when its turn comes. *)
Fixpoint movables (l : list move) (m : SimpleMemory) : bool :=
  match l with
  | [] => true
  | v :: l' => movable m v && match handle (to_input v) m with Ok (_, m') => movables l' m' | Err _ => true end
  end.

Lemma movables_permitted l m : movables l m = true → permitted c0 wf0 wm0 (to_input <$> l) m.
Proof.
  revert m. induction l as [|v l IH]; intros m; [done|]. cbn [movables permitted fmap list_fmap]. rewrite andb_true_iff. intros [H1 H2].
  split; [by apply movable_allowed|]. intros b m' E. rewrite E in H2. by apply IH.
Qed.

(** An epoch that fills the table, the start of its checkpoint, a write and a read beside it. *)
Definition epoch0 : list move := [T 7; W 1024; W 2048; W 4096; W 8192; W 16384; Freeze; W 16384; R 1024; Unfreeze].

Definition new0 : SimpleMemory := the_ok (new_SimpleMemory (params0 7) 4096 junk0 (Some ∅)).

Definition answers0 (l : list move) : option (bool * list bool * bool * option Z) :=
  match drive (to_input <$> l) new0 with
  | Ok (bs, m) => Some (movables l new0, bs, in_checkpointing_ (ctl_of m), unfreezeEvent m)
  | Err _ => None
  end.


Lemma new0_built : new_SimpleMemory (params0 7) 4096 junk0 (Some ∅) = Ok new0.
Proof. by vm_compute. Qed.


Lemma epoch0_answers : answers0 epoch0 = Some (true, replicate 5 true ++ false :: replicate 4 true, true, Some 192).
Proof. by vm_compute. Qed.


Lemma answers0_ok l bs k t : answers0 l = Some (true, bs, k, t) → ∃ m', drive (to_input <$> l) new0 = Ok (bs, m') ∧
  in_checkpointing_ (ctl_of m') = k ∧ unfreezeEvent m' = t ∧ permitted c0 wf0 wm0 (to_input <$> l) new0.
Proof.
  unfold answers0. destruct (drive (to_input <$> l) new0) as [[bs' m']|e]; [|done]. intros E. injection E as H1 <- <- <-. exists m'.
  split_and!; [done..|by apply movables_permitted].
Qed.


Lemma memory_crash_consistent_witness : ∃ bs m' P', drive (to_input <$> epoch0) new0 = Ok (bs, m') ∧ in_checkpointing_ (ctl_of m') = true ∧
  history c0 new0 (init_pmem c0 (mem_byte ∅)) (to_input <$> epoch0) m' P' ∧
  ∀ t, p_safe P' t → survives c0 (conf c0 (MemStoreLaws0 := mem_laws c0 wf0 wm0) (sys m')) (p_last P') t.
Proof.
  destruct (answers0_ok _ _ _ _ epoch0_answers) as (m' & Ed & Hk & _ & Hp).
  destruct (memory_crash_consistent c0 wf0 wm0 (params0 7) 4096 junk0 ∅ (to_input <$> epoch0) new0 _ m' params0_built ltac:(done) ltac:(done)
    new0_built Hp Ed) as (P' & Hh & Hs).
  eexists _, m', P'. split; [exact Ed|]. split_and!; assumption.
Defined.

(** Between the write that ends the epoch and the event that begins its checkpoint. *)
Lemma change0_closing : match drive (to_input <$> take 6 epoch0) new0 with
  | Ok (_, m) => bool_decide (freezeEvent m = Some 132) && (numNVMWrites (mem_of m) + numDRAMWrites (mem_of m) <? 2 ^ 64) && movables (take 6 epoch0) new0
  | Err _ => false end = true.
Proof. by vm_compute. Qed.

Lemma memory_accounts_witness : ∃ bs m', drive (to_input <$> take 6 epoch0) new0 = Ok (bs, m') ∧
  numNVMWrites (mem_of m') = Mig.total_nvm_writes_ (migrator_ (ctl_of m')) ∧
  numDRAMWrites (mem_of m') = Mig.total_dram_writes_ (migrator_ (ctl_of m')) ∧
  numNVMWrites (mem_of m') + numDRAMWrites (mem_of m') =
    numATTWriteHits (mem_of m') + numATTWriteMisses (mem_of m') + ckDRAMWriteHits (mem_of m') ∧
  balance m' = u64 (c_bsize c0 * Z.of_nat (length (ckpt (sys m')))).
Proof.
  pose proof change0_closing as H. destruct (drive (to_input <$> take 6 epoch0) new0) as [[bs m']|e] eqn:Ed; [|discriminate H].
  apply andb_true_iff in H as [H Hp%movables_permitted]. apply andb_true_iff in H as [Hf%bool_decide_eq_true Hn%Z.ltb_lt].
  exists bs, m'. split; [reflexivity|].
  exact (memory_accounts c0 wf0 wm0 (params0 7) 4096 junk0 ∅ _ new0 bs m' _ params0_built ltac:(done) ltac:(done) new0_built Hp Ed Hf Hn).
Defined.
